(* ===== verification/_CoqProject ===== *)
-Q . S2P
Prelude.v
Words.v
Murmur3.v
Messages.v
Iterators.v
LevelDB.v
Keys.v
Persistence.v
PersistenceSpec.v
Refinement.v
UpdateProofs.v
Wire.v
RdfOperators.v
Matching.v
Service.v
DemoStore.v
StoreTheorems.v
Namespaces.v
Commit.v
Concurrency.v
ServiceTheorems.v
RdfModel.v
RdfModelTheorems.v
Numbers.v
Split.v
StoreEquiv.v
Storage.v
Crash.v
TripleSource.v
Sharding.v
ShardingProofs.v
FanoutRace.v
ShardingTheorems.v
ShardedUpdate.v
Multiplex.v
ShardingOutage.v
ShardedNamespaces.v
Servers.v
Parser.v
Serializer.v
RaptorObjects.v
Sparql.v
SparqlService.v
SparqlObjects.v
Client.v
Cluster.v
