(* ===== verification/Prelude.v ===== *)
(** * A verification of cmarmotta, a sharded RDF quad store on LevelDB

    ** The program

    cmarmotta stores RDF statements (subject, predicate, object, context).  A
    statement is a protocol buffer message; the persistence keeps it in four
    LevelDB databases whose 64-byte keys are the 128-bit Murmur hashes of the
    four terms in four orders (SPOC, CSPO, OPSC, PCOS), and answers a partial
    pattern by a range scan of the index whose leading terms are set.
    Namespaces are kept in two more databases, by prefix and by URI.  A gRPC
    service exposes the store; a sharding proxy implements the same service
    over several stores, routing each statement by its hash and fanning the
    other requests out; a triple source feeds SPARQL queries; the model classes
    wrap the messages for C++ code; a command line client imports and exports
    files through a parser and serializers on top of the raptor library.

    ** Files, and the sources they model

    - Prelude, Words: bytes, the outcome monad [res] of code that can throw or
      loop, list lemmas, tactics and the hint database; integers at a width.
    - Murmur3: util/murmur3.cc.  All three hash functions on machine words.
    - Messages: the messages of model.proto and sail.proto as data, with the
      presence and merge rules of proto3; [Codec] is the interface of the wire
      format.  Wire: an instance of it, for closed examples.
    - Iterators: util/iterator.h, as the class [CloseableIterator], the
      protocol its clients rely on ([IteratorLaws]) and the two loop shapes.
    - LevelDB: the database interface ([LevelDB], [LevelDBLaws]), range scans
      over it, and an instance ([MapDB]).
    - Keys: computeKey, orderKey, PatternQuery and KeyComparator of
      persistence/leveldb_persistence.cc.
    - Persistence: class LevelDBPersistence; one definition per method, state
      as the record of its seven databases, batches and iterators explicit.
    - PersistenceSpec: the abstract store, a finite set of statements with
      [spec_add], [spec_remove], [spec_get], and the representation invariant.
      Refinement, UpdateProofs: every operation implements its specification;
      Matching: from hashes to terms.  StoreTheorems: the properties.
    - Commit: the writer threads of a mutation as a step relation.
      Concurrency: requests that run at the same time on one store, each with
      its reading, its batches and its writer threads, as a step relation.
    - Namespaces: properties of the namespace databases.
    - Service, ServiceTheorems: persistence/leveldb_service.cc, every handler of
      LevelDBService.
    - StoreEquiv: the dispatch of calls, and that no handler can tell apart two
      stores with the same contents.  Storage: databases as files ([Disk],
      [DiskDB] and their laws), the constructor and the destructor of
      LevelDBPersistence, a database that does not open leaving a null handle,
      and persistence/leveldb_server.cc.  Crash: a commit
      that is cut off by a failed write or the death of the process, and what
      the next server can do about it.
    - TripleSource: persistence/leveldb_sparql.cc.
    - Sharding, ShardingProofs, ShardingTheorems: sharding/sharding.cc, written
      and proved against the service interface [SailBackend], [SailLaws], which
      LevelDBService is shown to keep.  FanoutRace: the counter the threads of
      a fan-out share; every sum over the backends is one of its outcomes.
      Multiplex: the threads and the lock of ShardingService::GetStatements as a
      step relation, and the call with its status and stream.
      ShardedUpdate: update streams over the shards.  ShardingOutage: the proxy
      when backends are down.
      ShardedNamespaces: the replicated namespaces, against [NsLaws].
      Servers: the configuration of sharding/server.cc; a channel is the address
      it leads to.
    - RdfOperators: model/rdf_operators.h and .cc, and the function [matches].
      RdfModel, RdfModelTheorems: model/rdf_model.h and .cc, a Module per class.
      Numbers: the numeric conversions of DatatypeLiteral, with std::stoi,
      stoll, stof, stod and std::to_string.
    - Split: util/split.cc.
    - Parser: parser/rdf_parser.cc and .h, the handlers raptor calls, the input
      loop and the class with its setters.
    - Serializer: the files of serializer/; [SerializerBase] is a class with the
      raptor and the message serializers as instances.
    - RaptorObjects: constructors and destructors of the parser and the raptor
      serializer over a ledger of the references to raptor objects the program
      owns, and the stream callbacks.
    - Sparql: sparql/rasqal_model.cc and sparql/rasqal_adapter.cc, over the class
      [TripleSource], which the source of TripleSource.v implements.
      SparqlService: LevelDBSparqlService of persistence/leveldb_service.cc.
      SparqlObjects: the rasqal objects of class SparqlService and of a query,
      over the heap of RaptorObjects.
    - Client: client/client.cc, over the service interface of Sharding.
    - Cluster: ShardingService as an implementation of the same interface, and
      the client against a sharding server.
    - DemoStore: the concrete store on which the theorems are instantiated.

    ** What is shown

    - The index keys: reordering equals rehashing; the bounds of a pattern query
      enclose exactly the keys with the pattern's leading hashes; which patterns
      the chosen index covers.  The hash loop equals the block recurrence, and
      inputs that differ in one block do not collide.
    - The store: in every reachable state the four indexes agree and every entry
      is under its own key; AddStatements, RemoveStatements, Update and Size
      implement the abstract operations, return for every input stream, and
      report the right counts; queries miss nothing, and return exactly the
      matching statements when the index covers the pattern and no hashes
      collide.  Without the latter the statements hold up to key equality: no
      theorem about the store assumes the absence of collisions silently.
    - Commits: every schedule of the writer threads ends in the same store, but
      a concurrent reader can see the indexes disagree.
    - Concurrent requests: every request is answered; beside one mutation a query
      answers from the store before or after it; additions may run side by side
      and their union is stored; an addition and a removal of one statement may
      end with indexes that differ.
    - Restarts: a server that is stopped and started again answers as one that
      never stopped; an open store excludes a second one at its path and does
      not affect other paths; a server whose database does not open listens all
      the same and then uses a null handle.
    - Interrupted commits: every database has all of its batch or nothing of it;
      an addition can be repeated on the reopened store, a removal can be undone
      by adding the statements again, but repeating the removal may leave the
      statements in some indexes for good.
    - The service: Clear, Size and GetContexts by context, streaming to a client
      that may stop, lookups of namespaces.
    - Sharding: a statement lives on the backend its hash selects, and the proxy
      behaves like one store with the union of the backends, except that the
      counter the threads of a fan-out share can lose answers, so a count it
      returns is a lower bound of the true one.  The threads of a query
      exclude each other, always return, and deliver the union of the answers;
      a server started over empty stores is in the invariant, and what the
      client imports through it can be exported again, when no backend is
      listed twice.  Namespaces are
      replicated: which backend answers a lookup does not matter.  An update
      stream has the effect it has on one store when statements with one key
      are on one backend.  With backends down, writes
      answer OK and lose their share, queries answer with what is left, and
      only the fan-out reports the error.
    - The model classes: type tags (and the two messages a tag is wrong for),
      round trips, what assignment keeps, and when
      the Turtle syntax of a term determines it; comparison and hashing agree;
      the integer conversions give the integer of the text, or the exception
      for its range or form.
    - Parsing and serializing: raptor gets the whole input; the statement handler
      keeps the terms or throws; what the raptor serializer hands over converts
      back to the same quads, for languages of less than 256 characters; a
      message file decodes to the statements written.  No reference to a raptor
      object is released twice or used when released, and those that are never
      released are counted; the stream callbacks lose and invent no byte.
    - The client: importing a file and exporting it again composes parser,
      client, service, store and serializer; ill-typed input is refused.
    - SPARQL: matching a triple pattern ends and binds each statement in its range
      once, or an empty one in place of the first, depending on a field that is
      not initialised; plain terms a row binds come back unchanged in the next
      pattern; rows reach the handler in order until it stops, and the service
      sends one response per row, unless a column is not bound; the rasqal objects are freed once on every path but one.
    - Some theorems state where the code does not do what its comments or its
      interface say: removals by subject and object, an add and a removal in one
      Update, copy assignment, comparison of triples without context.

    ** Interfaces and parameters

    Protocol buffers, LevelDB, gRPC, raptor, rasqal and std::hash of strings are
    not part of the repository.  The first two are classes with laws taken from
    their documentation (parsing what was serialized gives the message back; a
    database is an ordered map, a batch applies in order, an iterator walks a
    snapshot; a database on disk is opened by one handle at a time and keeps
    what was written when the handle is deleted); the file system is treated
    alike.  gRPC streams are lists, with a bound on what the client reads, and
    a backend that is down answers with an error and a default message;
    std::hash of a string is a function argument.  Raptor terms and statements
    are data types, its term constructors an interface ([RaptorTerms],
    [RaptorTermsLaws]), which strings it accepts as URIs and what its parser
    makes of the input are arguments.
    Rasqal is treated alike ([RasqalLib], [RasqalTerms], [RasqalTermsLaws]): its
    literals and triples are data, the values of its variables a store, its
    evaluation of a query an argument.  So are the text format of protocol
    buffers and the channels to the backends.  The random choice of a backend is an
    argument, and so is the initial value of a field the code leaves
    uninitialised.

    ** Bounds and fuel

    A loop over an iterator takes fuel one above the number of elements the
    iterator has left, and the iterator laws prove that enough; the counting
    loop of Size takes one above the pending entries; [split] takes two above
    the length of its input, the input loop of the parser one above it.  The
    theorems state the result itself, never only a result if there is one.
    The threads of a commit and of a query and concurrent requests are step
    relations without fuel, and every run of them ends.
    Hash arithmetic wraps at 32 and 64 bits, number conversions keep the range
    of their type; the 64-bit counters of statements are integers without a
    bound.

    ** Not modelled

    The parsing and evaluation of queries (rasqal), the debug formatting of
    bindings, the parsing of flags, signals and sockets of the servers (the calls
    of one run of a server are an argument), logging, memory management outside
    of the raptor and rasqal objects, what the block cache and the bloom filter
    do, failures of allocation, and loss of power: what a
    write has put into a database survives the process. *)

From Stdlib Require Import NArith ZArith Lia.
From Stdlib Require Export Strings.Byte.
From stdpp Require Export base gmap strings fin_maps sorting numbers list.

#[export] Set Warnings "-clear-no-such-hyp".

Create HintDb marmotta discriminated.

(** ** Bytes

    A [std::string], a [leveldb::Slice] and a C buffer are byte sequences. *)

Abbreviation byte := Init.Byte.byte.
Abbreviation bytes := (list Init.Byte.byte).

#[global] Instance byte_eq_decision : EqDecision byte := Byte.byte_eq_dec.

#[global] Program Instance byte_countable : Countable byte :=
  inj_countable Byte.to_N Byte.of_N _.
Next Obligation. intros b; simpl; apply Byte.of_to_N. Qed.

#[global] Instance byte_inhabited : Inhabited byte := populate x00.

(** The value of an unsigned char. *)
Definition byte_val (b : byte) : Z := Z.of_N (Byte.to_N b).

(** Conversion of an integer to an unsigned char (modulo 256). *)
Definition byte_of_Z (z : Z) : byte :=
  default x00 (Byte.of_N (Z.to_N (z mod 256))).

(** The bytes of a [std::string]. *)
Definition str_bytes (s : string) : bytes := String.list_byte_of_string s.

Lemma byte_val_range (b : byte) : (0 ≤ byte_val b < 256)%Z.
Proof. unfold byte_val. pose proof (Byte.to_N_bounded b). lia. Qed.

Lemma byte_val_inj (b1 b2 : byte) : byte_val b1 = byte_val b2 → b1 = b2.
Proof.
  unfold byte_val; intros H%N2Z.inj.
  apply (f_equal Byte.of_N) in H. rewrite !Byte.of_to_N in H. congruence.
Qed.

Lemma byte_val_of_Z (z : Z) : byte_val (byte_of_Z z) = (z mod 256)%Z.
Proof.
  unfold byte_val, byte_of_Z.
  pose proof (Z.mod_pos_bound z 256 ltac:(lia)) as Hb.
  destruct (Byte.of_N (Z.to_N (z mod 256))) as [b|] eqn:E; simpl.
  - apply Byte.to_of_N in E. rewrite E. lia.
  - apply Byte.of_N_None_iff in E. lia.
Qed.

Lemma byte_of_Z_val (b : byte) : byte_of_Z (byte_val b) = b.
Proof.
  apply byte_val_inj. rewrite byte_val_of_Z.
  apply Z.mod_small, byte_val_range.
Qed.

Lemma byte_val_min (b : byte) : (byte_val x00 ≤ byte_val b)%Z.
Proof. change (byte_val x00) with 0%Z. apply byte_val_range. Qed.

Lemma byte_val_max (b : byte) : (byte_val b ≤ byte_val xff)%Z.
Proof. change (byte_val xff) with 255%Z. pose proof (byte_val_range b). lia. Qed.

Lemma str_bytes_inj (s1 s2 : string) : str_bytes s1 = str_bytes s2 → s1 = s2.
Proof.
  unfold str_bytes; intros H.
  apply (f_equal String.string_of_list_byte) in H.
  by rewrite !String.string_of_list_byte_of_string in H.
Qed.

#[export] Hint Resolve byte_val_range byte_val_min byte_val_max : marmotta.

(** ** Outcomes

    Code that can throw, abort or loop returns a value of [res]. *)

Inductive exn :=
  | OutOfRange (message : string)
  | InvalidArgument (message : string)
  | ParseError (message : string)
  | SerializationError (message : string)
  | SparqlException (message query : string)
  | UndefinedBehaviour (message : string).

Inductive res (A : Type) :=
  | Ok (a : A)
  | Throw (e : exn)
  | OutOfFuel.
Arguments Ok {_} _.
Arguments Throw {_} _.
Arguments OutOfFuel {_}.

#[global] Instance res_ret : MRet res := @Ok.
#[global] Instance res_bind : MBind res := λ A B k x,
  match x with Ok a => k a | Throw e => Throw e | OutOfFuel => OutOfFuel end.
#[global] Instance res_fmap : FMap res := λ A B f x,
  match x with Ok a => Ok (f a) | Throw e => Throw e | OutOfFuel => OutOfFuel end.

(** Left fold of a fallible step over a list. *)
Fixpoint foldM {A B} (f : A → B → res A) (a : A) (l : list B) : res A :=
  match l with
  | [] => Ok a
  | x :: l => a' ← f a x; foldM f a' l
  end.

Lemma foldM_pure {A B} (f : A → B → A) (l : list B) (a : A) :
  foldM (λ a x, Ok (f a x)) a l = Ok (foldl f a l).
Proof. revert a; induction l as [|x l IH]; intros a; simpl; [done|apply IH]. Qed.

(** ** Lists *)

(** Copy [src] into [dst] at [off], as [memcpy] does when it fits. *)
Definition memcpy_at (dst : bytes) (off : nat) (src : bytes) : bytes :=
  take off dst ++ src ++ drop (off + length src) dst.

Lemma length_memcpy_at dst off src :
  off + length src ≤ length dst → length (memcpy_at dst off src) = length dst.
Proof.
  intros H. unfold memcpy_at.
  rewrite !length_app, length_take, length_drop. lia.
Qed.

Lemma memcpy_at_app pre mid post src :
  length src = length mid →
  memcpy_at (pre ++ mid ++ post) (length pre) src = pre ++ src ++ post.
Proof.
  intros H. unfold memcpy_at.
  rewrite take_app_length. do 2 f_equal.
  rewrite H, drop_app_add, drop_app_length. done.
Qed.

(** Longest prefix and the rest, for a boolean predicate. *)
Fixpoint take_while {A} (f : A → bool) (l : list A) : list A :=
  match l with
  | [] => []
  | x :: l => if f x then x :: take_while f l else []
  end.

Fixpoint drop_while {A} (f : A → bool) (l : list A) : list A :=
  match l with
  | [] => []
  | x :: l' => if f x then drop_while f l' else l
  end.

Lemma drop_while_suffix {A} (f : A → bool) l : ∃ k, l = k ++ drop_while f l.
Proof.
  induction l as [|x l [k IH]]; simpl; [by exists []|].
  destruct (f x); [exists (x :: k); simpl; congruence | by exists []].
Qed.

Lemma length_take_while {A} (f : A → bool) l : length (take_while f l) ≤ length l.
Proof. induction l as [|x l IH]; simpl; [lia|]. destruct (f x); simpl; lia. Qed.

Lemma take_while_prefix {A} (f : A → bool) l : ∃ k, l = take_while f l ++ k.
Proof.
  induction l as [|x l [k IH]]; simpl; [by exists []|].
  destruct (f x); [exists k; simpl; congruence | by exists (x :: l)].
Qed.

Lemma take_while_true {A} (f : A → bool) l x : x ∈ take_while f l → f x = true.
Proof.
  induction l as [|y l IH]; simpl; [by intros ?%elem_of_nil|].
  destruct (f y) eqn:E; [|by intros ?%elem_of_nil].
  rewrite elem_of_cons. intros [-> | ?]; auto.
Qed.

Lemma app_inj_len {A} (a1 a2 b1 b2 : list A) :
  length a1 = length a2 → a1 ++ b1 = a2 ++ b2 → a1 = a2 ∧ b1 = b2.
Proof. apply app_inj_1. Qed.

(** A list that two equal-length prefixes describe: the prefixes agree. *)
Lemma take_app_eq_iff {A} (p l : list A) :
  take (length p) l = p ↔ ∃ r, l = p ++ r.
Proof.
  split.
  - intros H. exists (drop (length p) l). by rewrite <- H at 1; rewrite take_drop.
  - intros [r ->]. apply take_app_length.
Qed.

(** Replacing one summand. *)
Lemma sum_list_with_insert {A} (f : A → nat) (l : list A) i x y :
  l !! i = Some x → sum_list_with f (<[i := y]> l) + f x = sum_list_with f l + f y.
Proof.
  revert i; induction l as [|z l IH]; intros [|i] Hi; simpl in *; try done.
  - injection Hi as ->. lia.
  - specialize (IH i Hi). lia.
Qed.

(** Inserting the entries of a list, the last one with a key winning. *)
Lemma foldl_insert_union `{Countable K} {A} (l : list (K * A)) (m : gmap K A) :
  foldl (λ m e, <[e.1 := e.2]> m) m l = list_to_map (reverse l) ∪ m.
Proof.
  induction l as [|e l IH] using rev_ind; [symmetry; exact (map_empty_union m)|].
  rewrite foldl_app, reverse_snoc. destruct e as [k v]. simpl. by rewrite IH, insert_union_l.
Qed.

(** A property that every step keeps holds along every run. *)
Lemma rtc_preserved {A} (R : relation A) (P : A → Prop) (x y : A) :
  (∀ x y, R x y → P x → P y) → rtc R x y → P x → P y.
Proof. intros HR. induction 1; eauto. Qed.

(** A relation that decreases a measure has no infinite run. *)
Lemma sn_measure {A} (R : relation A) (m : A → nat) (x : A) :
  (∀ x y, R x y → m y < m x) → sn R x.
Proof.
  intros Hm. remember (m x) as n eqn:Hn. revert x Hn.
  induction n as [n IH] using lt_wf_ind. intros x ->. constructor. intros y Hy.
  eapply IH; [|done]. by apply Hm.
Qed.

Section Filter.
Context {A : Type} (P : A → Prop) `{∀ x, Decision (P x)}.

Lemma filter_keep_all l : Forall P l → filter P l = l.
Proof. induction 1; [done|]. rewrite filter_cons_True by done. by f_equal. Qed.

Lemma filter_keep_none l : Forall (λ x, ¬ P x) l → filter P l = [].
Proof. induction 1; [done|]. by rewrite filter_cons_False. Qed.

Lemma Forall_filter_sub (Q : A → Prop) l : Forall Q l → Forall Q (filter P l).
Proof. rewrite !Forall_forall. intros HQ x [_ Hx]%list_elem_of_filter. auto. Qed.

End Filter.

(** ** Tactics *)

(** Invert an equation between [Ok] results. *)
Ltac inv_ok :=
  repeat match goal with
  | H : Ok _ = Ok _ |- _ => injection H as H
  | H : Throw _ = Ok _ |- _ => discriminate H
  | H : OutOfFuel = Ok _ |- _ => discriminate H
  end; simplify_eq.

(** Split a boolean conjunction in the hypotheses. *)
Ltac split_andb :=
  repeat match goal with
  | H : _ && _ = true |- _ => apply andb_true_iff in H as [? ?]
  | H : _ || _ = false |- _ => apply orb_false_iff in H as [? ?]
  end.
