(* ===== verification/Words.v ===== *)
(** * Words: fixed-width unsigned arithmetic

    The unsigned integer types of the sources are [Z] values in [0, 2^w);
    every operation that can leave the range is followed by [wrap w].  The
    injectivity lemmas below are what the hash function's mixing steps need. *)

From Stdlib Require Import ZArith Lia.
From S2P Require Import Prelude.
Local Open Scope Z_scope.

(** Reduction to [w] bits. *)
Definition wrap (w x : Z) : Z := x mod 2 ^ w.

(** Rotation to the left of a [w]-bit word, written with shifts. *)
Definition rotl (w x r : Z) : Z :=
  Z.lor (wrap w (Z.shiftl x r)) (Z.shiftr x (w - r)).

(** [x ^= x >> r] *)
Definition xorshift (x r : Z) : Z := Z.lxor x (Z.shiftr x r).

(** Value of a little-endian byte sequence, and its inverse. *)
Fixpoint le_word (l : bytes) : Z :=
  match l with
  | [] => 0
  | b :: l => byte_val b + 256 * le_word l
  end.

Fixpoint le_bytes (n : nat) (w : Z) : bytes :=
  match n with
  | O => []
  | S n => byte_of_Z w :: le_bytes n (w / 256)
  end.

Definition in_width (w x : Z) : Prop := 0 ≤ x < 2 ^ w.

Lemma wrap_in_width w x : 0 ≤ w → in_width w (wrap w x).
Proof. intros. apply Z.mod_pos_bound, Z.pow_pos_nonneg; lia. Qed.

Lemma wrap_small w x : in_width w x → wrap w x = x.
Proof. apply Z.mod_small. Qed.

(** A number below [2^n] and a multiple of [2^n] share no bit. *)
Lemma land_shiftl_disjoint x y n :
  0 ≤ n → 0 ≤ x < 2 ^ n → Z.land x (Z.shiftl y n) = 0.
Proof.
  intros Hn Hx. apply Z.bits_inj'. intros i Hi.
  rewrite Z.land_spec, Z.shiftl_spec, Z.bits_0 by lia.
  destruct (Z_lt_le_dec i n).
  - rewrite (Z.testbit_neg_r y) by lia. by rewrite andb_false_r.
  - rewrite <- (Z.mod_small x (2 ^ n)) by lia.
    by rewrite Z.mod_pow2_bits_high by lia.
Qed.

Lemma lor_shiftl_add x y n :
  0 ≤ n → 0 ≤ x < 2 ^ n → Z.lor x (Z.shiftl y n) = x + y * 2 ^ n.
Proof.
  intros. rewrite <- Z.lxor_lor by (by apply land_shiftl_disjoint).
  rewrite <- Z.add_nocarry_lxor by (by apply land_shiftl_disjoint).
  by rewrite Z.shiftl_mul_pow2 by lia.
Qed.

Lemma lxor_shiftl_add x y n :
  0 ≤ n → 0 ≤ x < 2 ^ n → Z.lxor x (Z.shiftl y n) = x + y * 2 ^ n.
Proof.
  intros. rewrite <- Z.add_nocarry_lxor by (by apply land_shiftl_disjoint).
  by rewrite Z.shiftl_mul_pow2 by lia.
Qed.

Lemma digit_unique R a b m n :
  0 ≤ a < R → 0 ≤ b < R → a + m * R = b + n * R → a = b ∧ m = n.
Proof.
  intros Ha Hb Heq.
  destruct (Z.lt_trichotomy m n) as [?|[->|?]]; [|lia|].
  - exfalso. assert ((m + 1) * R ≤ n * R) by (apply Z.mul_le_mono_nonneg_r; lia). lia.
  - exfalso. assert ((n + 1) * R ≤ m * R) by (apply Z.mul_le_mono_nonneg_r; lia). lia.
Qed.

(** A word splits into its high part and its low part. *)
Lemma rotl_split w x r :
  0 < r < w → in_width w x →
  rotl w x r = x / 2 ^ (w - r) + (x mod 2 ^ (w - r)) * 2 ^ r.
Proof.
  intros Hr Hx. unfold rotl, wrap.
  assert (Hpow : 2 ^ w = 2 ^ (w - r) * 2 ^ r)
    by (rewrite <- Z.pow_add_r by lia; f_equal; lia).
  assert (0 < 2 ^ r) by (apply Z.pow_pos_nonneg; lia).
  assert (0 < 2 ^ (w - r)) by (apply Z.pow_pos_nonneg; lia).
  rewrite Z.lor_comm, Z.shiftl_mul_pow2, Z.shiftr_div_pow2 by lia.
  rewrite Hpow, Z.mul_mod_distr_r by lia.
  rewrite <- (Z.shiftl_mul_pow2 (x mod 2 ^ (w - r)) r) by lia.
  unfold in_width in Hx. rewrite lor_shiftl_add; [by rewrite Z.shiftl_mul_pow2 by lia|lia|].
  split; [apply Z.div_pos; lia|]. apply Z.div_lt_upper_bound; lia.
Qed.

Lemma rotl_in_width w x r : 0 < r < w → in_width w x → in_width w (rotl w x r).
Proof.
  intros Hr Hx. rewrite rotl_split by done. unfold in_width in *.
  assert (Hpow : 2 ^ w = 2 ^ (w - r) * 2 ^ r)
    by (rewrite <- Z.pow_add_r by lia; f_equal; lia).
  assert (0 < 2 ^ r) by (apply Z.pow_pos_nonneg; lia).
  assert (0 < 2 ^ (w - r)) by (apply Z.pow_pos_nonneg; lia).
  pose proof (Z.mod_pos_bound x (2 ^ (w - r)) ltac:(lia)).
  assert (0 ≤ x / 2 ^ (w - r) < 2 ^ r).
  { split; [apply Z.div_pos; lia|]. apply Z.div_lt_upper_bound; lia. }
  nia.
Qed.

Lemma rotl_inj w x y r :
  0 < r < w → in_width w x → in_width w y → rotl w x r = rotl w y r → x = y.
Proof.
  intros Hr Hx Hy. rewrite !rotl_split by done. unfold in_width in *.
  assert (Hpow : 2 ^ w = 2 ^ (w - r) * 2 ^ r)
    by (rewrite <- Z.pow_add_r by lia; f_equal; lia).
  assert (0 < 2 ^ (w - r)) by (apply Z.pow_pos_nonneg; lia).
  assert (Hlt : ∀ z, 0 ≤ z < 2 ^ w → 0 ≤ z / 2 ^ (w - r) < 2 ^ r).
  { intros z ?. split; [apply Z.div_pos; lia|]. apply Z.div_lt_upper_bound; lia. }
  pose proof (Hlt x Hx). pose proof (Hlt y Hy). intros Heq.
  assert (x / 2 ^ (w - r) = y / 2 ^ (w - r) ∧ x mod 2 ^ (w - r) = y mod 2 ^ (w - r))
    as [Hd Hm] by (eapply digit_unique; eauto).
  rewrite (Z.div_mod x (2 ^ (w - r))), (Z.div_mod y (2 ^ (w - r))) by lia. congruence.
Qed.

(** Multiplication by a constant with an inverse modulo [2^w]. *)
Lemma wrap_mul_inj w c c' x y :
  0 ≤ w → wrap w (c * c') = 1 → in_width w x → in_width w y →
  wrap w (x * c) = wrap w (y * c) → x = y.
Proof.
  unfold wrap. intros Hw Hc Hx Hy Heq.
  assert (2 ^ w ≠ 0) by (apply Z.pow_nonzero; lia).
  assert (Hback : ∀ z, in_width w z → (((z * c) mod 2 ^ w) * c') mod 2 ^ w = z).
  { intros z Hz. rewrite Z.mul_mod_idemp_l, <- Z.mul_assoc by done.
    rewrite <- Z.mul_mod_idemp_r, Hc, Z.mul_1_r by done. by apply Z.mod_small. }
  rewrite <- (Hback x Hx), <- (Hback y Hy). congruence.
Qed.

Lemma wrap_add_inj w c x y :
  0 ≤ w → in_width w x → in_width w y →
  wrap w (x + c) = wrap w (y + c) → x = y.
Proof.
  unfold wrap, in_width. intros Hw Hx Hy Heq.
  assert (0 < 2 ^ w) by (apply Z.pow_pos_nonneg; lia).
  assert (Hback : ∀ z, 0 ≤ z < 2 ^ w → (((z + c) mod 2 ^ w) - c) mod 2 ^ w = z).
  { intros z Hz. rewrite Zminus_mod_idemp_l. rewrite <- (Z.mod_small z (2 ^ w)) at 2 by lia.
    f_equal; lia. }
  rewrite <- (Hback x Hx), <- (Hback y Hy). congruence.
Qed.

Lemma lxor_inj_l a x y : Z.lxor a x = Z.lxor a y → x = y.
Proof.
  intros H. apply (f_equal (Z.lxor a)) in H.
  by rewrite <- !Z.lxor_assoc, Z.lxor_nilpotent, !Z.lxor_0_l in H.
Qed.

Lemma lxor_in_width w x y :
  0 ≤ w → in_width w x → in_width w y → in_width w (Z.lxor x y).
Proof.
  intros Hw Hx Hy. rewrite <- (wrap_small w x), <- (wrap_small w y) by done.
  unfold wrap. rewrite <- !Z.land_ones by done.
  assert (Z.lxor (Z.land x (Z.ones w)) (Z.land y (Z.ones w)) = wrap w (Z.lxor x y)) as ->;
    [|by apply wrap_in_width].
  unfold wrap. rewrite <- Z.land_ones by done. apply Z.bits_inj'. intros i Hi.
  rewrite !Z.lxor_spec, !Z.land_spec, Z.lxor_spec.
  by destruct (Z.testbit x i), (Z.testbit y i), (Z.testbit (Z.ones w) i).
Qed.

Lemma shiftr_in_width w x r : 0 ≤ r → in_width w x → in_width w (Z.shiftr x r).
Proof.
  unfold in_width. intros Hr Hx. rewrite Z.shiftr_div_pow2 by done.
  assert (0 < 2 ^ r) by (apply Z.pow_pos_nonneg; lia).
  split; [apply Z.div_pos; lia|]. apply Z.le_lt_trans with x; [|lia].
  apply Z.div_le_upper_bound; nia.
Qed.

Lemma xorshift_in_width w x r :
  0 ≤ w → 0 ≤ r → in_width w x → in_width w (xorshift x r).
Proof. intros. apply lxor_in_width; auto using shiftr_in_width. Qed.

(** [x ^= x >> r] is invertible: the top [r] bits are unchanged and determine
    the next ones. *)
Lemma xorshift_inj w x y r :
  0 < r → in_width w x → in_width w y → xorshift x r = xorshift y r → x = y.
Proof.
  unfold xorshift, in_width. intros Hr Hx Hy Heq.
  assert (Hbits : ∀ n : nat, ∀ i, w - Z.of_nat n ≤ i → Z.testbit x i = Z.testbit y i).
  { intros n; induction n as [|n IH]; intros i Hi.
    - destruct (Z_lt_le_dec i 0); [by rewrite !Z.testbit_neg_r|].
      destruct (Z_lt_le_dec w 0) as [?|Hw]; [rewrite Z.pow_neg_r in * by lia; lia|].
      rewrite <- (Z.mod_small x (2 ^ w)), <- (Z.mod_small y (2 ^ w)) by lia.
      by rewrite !Z.mod_pow2_bits_high by lia.
    - destruct (Z_lt_le_dec i 0); [by rewrite !Z.testbit_neg_r|].
      pose proof (f_equal (λ z, Z.testbit z i) Heq) as Hi'. cbv beta in Hi'.
      rewrite !Z.lxor_spec, !Z.shiftr_spec in Hi' by lia.
      rewrite (IH (i + r)) in Hi' by lia.
      by destruct (Z.testbit x i), (Z.testbit y i), (Z.testbit y (i + r)). }
  apply Z.bits_inj'. intros i Hi. apply (Hbits (Z.to_nat w)). lia.
Qed.

(** ** Little-endian loads and stores *)

Lemma Zmod_recombine x m :
  0 < m → x mod 256 + 256 * ((x / 256) mod m) = x mod (256 * m).
Proof.
  intros Hm. pose proof (Z.mod_pos_bound x 256 ltac:(lia)).
  pose proof (Z.mod_pos_bound (x / 256) m Hm).
  apply (Z.mod_unique_pos _ _ (x / 256 / m)); [nia|].
  pose proof (Z.div_mod x 256 ltac:(lia)). pose proof (Z.div_mod (x / 256) m ltac:(lia)).
  nia.
Qed.

Lemma le_word_range l : 0 ≤ le_word l < 2 ^ (8 * Z.of_nat (length l)).
Proof.
  induction l as [|b l IH]; simpl; [lia|].
  replace (8 * Z.of_nat (S (length l))) with (8 * Z.of_nat (length l) + 8) by lia.
  rewrite Z.pow_add_r by lia. pose proof (byte_val_range b). lia.
Qed.

Lemma le_word_inj l1 l2 : length l1 = length l2 → le_word l1 = le_word l2 → l1 = l2.
Proof.
  revert l2; induction l1 as [|b1 l1 IH]; intros [|b2 l2] Hlen Heq; simpl in *;
    try done.
  pose proof (byte_val_range b1). pose proof (byte_val_range b2).
  f_equal; [apply byte_val_inj; lia | apply IH; lia].
Qed.

Lemma length_le_bytes n w : length (le_bytes n w) = n.
Proof. revert w; induction n as [|n IH]; intros w; simpl; auto. Qed.

Lemma le_word_le_bytes n w : le_word (le_bytes n w) = w mod 2 ^ (8 * Z.of_nat n).
Proof.
  revert w; induction n as [|n IH]; intros w.
  - simpl. by rewrite Z.mod_1_r.
  - cbn [le_bytes le_word]. rewrite IH, byte_val_of_Z.
    replace (8 * Z.of_nat (S n)) with (8 + 8 * Z.of_nat n) by lia.
    rewrite Z.pow_add_r by lia. change (2 ^ 8) with 256.
    rewrite Zmod_recombine by (apply Z.pow_pos_nonneg; lia). done.
Qed.

Lemma le_bytes_inj n x y :
  in_width (8 * Z.of_nat n) x → in_width (8 * Z.of_nat n) y →
  le_bytes n x = le_bytes n y → x = y.
Proof.
  intros Hx Hy Heq. apply (f_equal le_word) in Heq.
  rewrite !le_word_le_bytes in Heq. by rewrite !Z.mod_small in Heq by done.
Qed.
