(* ===== verification/Murmur3.v ===== *)
(** * Murmur3: the hash functions of util/murmur3.cc

    The three variants are translated statement by statement.  A [const void*]
    key with its [int] length is a byte list; blocks are read little-endian, as
    [getblock32]/[getblock64] do on the x86 targets.  A [switch] on the length
    of the tail falls through from the selected case to the last one, so the
    statements under [case c] run exactly when [c <= len & 15].

    The theorems show that the x64 variant is the published block recurrence
    over little-endian words, that it produces sixteen bytes, and that two
    messages of the same length that differ in a single block (or in the tail)
    never collide. *)

From Stdlib Require Import ZArith Lia.
From S2P Require Import Prelude Words.
Local Open Scope Z_scope.

Definition u32 (x : Z) : Z := wrap 32 x.
Definition u64 (x : Z) : Z := wrap 64 x.

Definition rotl32 (x r : Z) : Z := rotl 32 x r.
Definition rotl64 (x r : Z) : Z := rotl 64 x r.

(** [p[i]] for a pointer to words at byte [base] of the key. *)
Definition getblock32 (data : bytes) (base i : Z) : Z :=
  le_word (take 4 (drop (Z.to_nat (base + 4 * i)) data)).
Definition getblock64 (data : bytes) (base i : Z) : Z :=
  le_word (take 8 (drop (Z.to_nat (base + 8 * i)) data)).

Definition fmix32 (h : Z) : Z :=
  let h := xorshift h 16 in
  let h := u32 (h * 0x85ebca6b) in
  let h := xorshift h 13 in
  let h := u32 (h * 0xc2b2ae35) in
  xorshift h 16.

Definition fmix64 (k : Z) : Z :=
  let k := xorshift k 33 in
  let k := u64 (k * 0xff51afd7ed558ccd) in
  let k := xorshift k 33 in
  let k := u64 (k * 0xc4ceb9fe1a85ec53) in
  xorshift k 33.

(** [tail[i]] as an unsigned char. *)
Definition tail_at (tail : bytes) (i : nat) : Z := byte_val (nth i tail x00).

(** ** MurmurHash3_x86_32 *)

Fixpoint x86_32_body (data : bytes) (nblocks i : Z) (n : nat) (h1 : Z) : Z :=
  match n with
  | O => h1
  | S n =>
      let k1 := getblock32 data (nblocks * 4) i in
      let k1 := u32 (k1 * 0xcc9e2d51) in
      let k1 := rotl32 k1 15 in
      let k1 := u32 (k1 * 0x1b873593) in
      let h1 := Z.lxor h1 k1 in
      let h1 := rotl32 h1 13 in
      let h1 := u32 (h1 * 5 + 0xe6546b64) in
      x86_32_body data nblocks (i + 1) n h1
  end.

Definition MurmurHash3_x86_32 (data : bytes) (seed : Z) : Z :=
  let len := Z.of_nat (length data) in
  let nblocks := len / 4 in
  let h1 := x86_32_body data nblocks (- nblocks) (Z.to_nat nblocks) seed in
  let tail := drop (Z.to_nat (nblocks * 4)) data in
  let t := Z.land len 3 in
  let k1 := 0 in
  let k1 := if 3 <=? t then Z.lxor k1 (u32 (Z.shiftl (tail_at tail 2) 16)) else k1 in
  let k1 := if 2 <=? t then Z.lxor k1 (u32 (Z.shiftl (tail_at tail 1) 8)) else k1 in
  let h1 := if 1 <=? t then
      let k1 := Z.lxor k1 (tail_at tail 0) in
      let k1 := u32 (k1 * 0xcc9e2d51) in
      let k1 := rotl32 k1 15 in
      let k1 := u32 (k1 * 0x1b873593) in
      Z.lxor h1 k1
    else h1 in
  let h1 := Z.lxor h1 (u32 len) in
  fmix32 h1.

(** ** MurmurHash3_x86_128 *)

Record x86_state := X86 { xh1 : Z; xh2 : Z; xh3 : Z; xh4 : Z }.

Fixpoint x86_128_body (data : bytes) (nblocks i : Z) (n : nat) (s : x86_state) : x86_state :=
  match n with
  | O => s
  | S n =>
      let '(X86 h1 h2 h3 h4) := s in
      let base := nblocks * 16 in
      let k1 := getblock32 data base (i * 4 + 0) in
      let k2 := getblock32 data base (i * 4 + 1) in
      let k3 := getblock32 data base (i * 4 + 2) in
      let k4 := getblock32 data base (i * 4 + 3) in
      let k1 := u32 (rotl32 (u32 (k1 * 0x239b961b)) 15 * 0xab0e9789) in
      let h1 := Z.lxor h1 k1 in
      let h1 := u32 (rotl32 h1 19 + h2) in
      let h1 := u32 (h1 * 5 + 0x561ccd1b) in
      let k2 := u32 (rotl32 (u32 (k2 * 0xab0e9789)) 16 * 0x38b34ae5) in
      let h2 := Z.lxor h2 k2 in
      let h2 := u32 (rotl32 h2 17 + h3) in
      let h2 := u32 (h2 * 5 + 0x0bcaa747) in
      let k3 := u32 (rotl32 (u32 (k3 * 0x38b34ae5)) 17 * 0xa1e38b93) in
      let h3 := Z.lxor h3 k3 in
      let h3 := u32 (rotl32 h3 15 + h4) in
      let h3 := u32 (h3 * 5 + 0x96cd1c35) in
      let k4 := u32 (rotl32 (u32 (k4 * 0xa1e38b93)) 18 * 0x239b961b) in
      let h4 := Z.lxor h4 k4 in
      let h4 := u32 (rotl32 h4 13 + h1) in
      let h4 := u32 (h4 * 5 + 0x32ac3b17) in
      x86_128_body data nblocks (i + 1) n (X86 h1 h2 h3 h4)
  end.

Definition x86_128_tail (tail : bytes) (t : Z) (s : x86_state) : x86_state :=
  let '(X86 h1 h2 h3 h4) := s in
  let k4 := 0 in
  let k4 := if 15 <=? t then Z.lxor k4 (u32 (Z.shiftl (tail_at tail 14) 16)) else k4 in
  let k4 := if 14 <=? t then Z.lxor k4 (u32 (Z.shiftl (tail_at tail 13) 8)) else k4 in
  let h4 := if 13 <=? t then
      let k4 := Z.lxor k4 (u32 (Z.shiftl (tail_at tail 12) 0)) in
      Z.lxor h4 (u32 (rotl32 (u32 (k4 * 0xa1e38b93)) 18 * 0x239b961b))
    else h4 in
  let k3 := 0 in
  let k3 := if 12 <=? t then Z.lxor k3 (u32 (Z.shiftl (tail_at tail 11) 24)) else k3 in
  let k3 := if 11 <=? t then Z.lxor k3 (u32 (Z.shiftl (tail_at tail 10) 16)) else k3 in
  let k3 := if 10 <=? t then Z.lxor k3 (u32 (Z.shiftl (tail_at tail 9) 8)) else k3 in
  let h3 := if 9 <=? t then
      let k3 := Z.lxor k3 (u32 (Z.shiftl (tail_at tail 8) 0)) in
      Z.lxor h3 (u32 (rotl32 (u32 (k3 * 0x38b34ae5)) 17 * 0xa1e38b93))
    else h3 in
  let k2 := 0 in
  let k2 := if 8 <=? t then Z.lxor k2 (u32 (Z.shiftl (tail_at tail 7) 24)) else k2 in
  let k2 := if 7 <=? t then Z.lxor k2 (u32 (Z.shiftl (tail_at tail 6) 16)) else k2 in
  let k2 := if 6 <=? t then Z.lxor k2 (u32 (Z.shiftl (tail_at tail 5) 8)) else k2 in
  let h2 := if 5 <=? t then
      let k2 := Z.lxor k2 (u32 (Z.shiftl (tail_at tail 4) 0)) in
      Z.lxor h2 (u32 (rotl32 (u32 (k2 * 0xab0e9789)) 16 * 0x38b34ae5))
    else h2 in
  let k1 := 0 in
  let k1 := if 4 <=? t then Z.lxor k1 (u32 (Z.shiftl (tail_at tail 3) 24)) else k1 in
  let k1 := if 3 <=? t then Z.lxor k1 (u32 (Z.shiftl (tail_at tail 2) 16)) else k1 in
  let k1 := if 2 <=? t then Z.lxor k1 (u32 (Z.shiftl (tail_at tail 1) 8)) else k1 in
  let h1 := if 1 <=? t then
      let k1 := Z.lxor k1 (u32 (Z.shiftl (tail_at tail 0) 0)) in
      Z.lxor h1 (u32 (rotl32 (u32 (k1 * 0x239b961b)) 15 * 0xab0e9789))
    else h1 in
  X86 h1 h2 h3 h4.

Definition x86_128_final (len : Z) (s : x86_state) : x86_state :=
  let '(X86 h1 h2 h3 h4) := s in
  let h1 := Z.lxor h1 (u32 len) in
  let h2 := Z.lxor h2 (u32 len) in
  let h3 := Z.lxor h3 (u32 len) in
  let h4 := Z.lxor h4 (u32 len) in
  let h1 := u32 (h1 + h2) in
  let h1 := u32 (h1 + h3) in
  let h1 := u32 (h1 + h4) in
  let h2 := u32 (h2 + h1) in
  let h3 := u32 (h3 + h1) in
  let h4 := u32 (h4 + h1) in
  let h1 := fmix32 h1 in
  let h2 := fmix32 h2 in
  let h3 := fmix32 h3 in
  let h4 := fmix32 h4 in
  let h1 := u32 (h1 + h2) in
  let h1 := u32 (h1 + h3) in
  let h1 := u32 (h1 + h4) in
  let h2 := u32 (h2 + h1) in
  let h3 := u32 (h3 + h1) in
  let h4 := u32 (h4 + h1) in
  X86 h1 h2 h3 h4.

Definition MurmurHash3_x86_128 (data : bytes) (seed : Z) : bytes :=
  let len := Z.of_nat (length data) in
  let nblocks := len / 16 in
  let s := x86_128_body data nblocks (- nblocks) (Z.to_nat nblocks)
             (X86 seed seed seed seed) in
  let tail := drop (Z.to_nat (nblocks * 16)) data in
  let s := x86_128_tail tail (Z.land len 15) s in
  let s := x86_128_final len s in
  le_bytes 4 (xh1 s) ++ le_bytes 4 (xh2 s) ++ le_bytes 4 (xh3 s) ++ le_bytes 4 (xh4 s).

(** ** MurmurHash3_x64_128 *)

(** [k1 *= c1; k1 = ROTL64(k1,31); k1 *= c2] and its counterpart for [k2]. *)
Definition mix_k1 (k1 : Z) : Z :=
  u64 (rotl64 (u64 (k1 * 0x87c37b91114253d5)) 31 * 0x4cf5ad432745937f).
Definition mix_k2 (k2 : Z) : Z :=
  u64 (rotl64 (u64 (k2 * 0x4cf5ad432745937f)) 33 * 0x87c37b91114253d5).

(** One iteration of the body on the words [k1], [k2]. *)
Definition x64_step (k1 k2 : Z) (h : Z * Z) : Z * Z :=
  let '(h1, h2) := h in
  let h1 := Z.lxor h1 (mix_k1 k1) in
  let h1 := u64 (rotl64 h1 27 + h2) in
  let h1 := u64 (h1 * 5 + 0x52dce729) in
  let h2 := Z.lxor h2 (mix_k2 k2) in
  let h2 := u64 (rotl64 h2 31 + h1) in
  let h2 := u64 (h2 * 5 + 0x38495ab5) in
  (h1, h2).

Fixpoint x64_128_body (data : bytes) (i : Z) (n : nat) (h : Z * Z) : Z * Z :=
  match n with
  | O => h
  | S n =>
      let k1 := getblock64 data 0 (i * 2 + 0) in
      let k2 := getblock64 data 0 (i * 2 + 1) in
      x64_128_body data (i + 1) n (x64_step k1 k2 h)
  end.

Definition x64_128_tail (tail : bytes) (t : Z) (h : Z * Z) : Z * Z :=
  let '(h1, h2) := h in
  let k2 := 0 in
  let k2 := if 15 <=? t then Z.lxor k2 (Z.shiftl (tail_at tail 14) 48) else k2 in
  let k2 := if 14 <=? t then Z.lxor k2 (Z.shiftl (tail_at tail 13) 40) else k2 in
  let k2 := if 13 <=? t then Z.lxor k2 (Z.shiftl (tail_at tail 12) 32) else k2 in
  let k2 := if 12 <=? t then Z.lxor k2 (Z.shiftl (tail_at tail 11) 24) else k2 in
  let k2 := if 11 <=? t then Z.lxor k2 (Z.shiftl (tail_at tail 10) 16) else k2 in
  let k2 := if 10 <=? t then Z.lxor k2 (Z.shiftl (tail_at tail 9) 8) else k2 in
  let h2 := if 9 <=? t then
      let k2 := Z.lxor k2 (Z.shiftl (tail_at tail 8) 0) in Z.lxor h2 (mix_k2 k2)
    else h2 in
  let k1 := 0 in
  let k1 := if 8 <=? t then Z.lxor k1 (Z.shiftl (tail_at tail 7) 56) else k1 in
  let k1 := if 7 <=? t then Z.lxor k1 (Z.shiftl (tail_at tail 6) 48) else k1 in
  let k1 := if 6 <=? t then Z.lxor k1 (Z.shiftl (tail_at tail 5) 40) else k1 in
  let k1 := if 5 <=? t then Z.lxor k1 (Z.shiftl (tail_at tail 4) 32) else k1 in
  let k1 := if 4 <=? t then Z.lxor k1 (Z.shiftl (tail_at tail 3) 24) else k1 in
  let k1 := if 3 <=? t then Z.lxor k1 (Z.shiftl (tail_at tail 2) 16) else k1 in
  let k1 := if 2 <=? t then Z.lxor k1 (Z.shiftl (tail_at tail 1) 8) else k1 in
  let h1 := if 1 <=? t then
      let k1 := Z.lxor k1 (Z.shiftl (tail_at tail 0) 0) in Z.lxor h1 (mix_k1 k1)
    else h1 in
  (h1, h2).

Definition x64_128_final (len : Z) (h : Z * Z) : Z * Z :=
  let '(h1, h2) := h in
  let h1 := Z.lxor h1 (u64 len) in
  let h2 := Z.lxor h2 (u64 len) in
  let h1 := u64 (h1 + h2) in
  let h2 := u64 (h2 + h1) in
  let h1 := fmix64 h1 in
  let h2 := fmix64 h2 in
  let h1 := u64 (h1 + h2) in
  let h2 := u64 (h2 + h1) in
  (h1, h2).

Definition MurmurHash3_x64_128 (data : bytes) (seed : Z) : bytes :=
  let len := Z.of_nat (length data) in
  let nblocks := len / 16 in
  let h := x64_128_body data 0 (Z.to_nat nblocks) (seed, seed) in
  let tail := drop (Z.to_nat (nblocks * 16)) data in
  let h := x64_128_tail tail (Z.land len 15) h in
  let '(h1, h2) := x64_128_final len h in
  le_bytes 8 h1 ++ le_bytes 8 h2.

(** ** The block recurrence the x64 variant computes *)

Definition wf64 (h : Z * Z) : Prop := in_width 64 h.1 ∧ in_width 64 h.2.

(** The first [n] sixteen-byte blocks of a message as pairs of words. *)
Fixpoint block_words (n : nat) (data : bytes) : list (Z * Z) :=
  match n with
  | O => []
  | S n =>
      (le_word (take 8 data), le_word (take 8 (drop 8 data)))
        :: block_words n (drop 16 data)
  end.

Definition absorb (ks : list (Z * Z)) (h : Z * Z) : Z * Z :=
  foldl (λ h k, x64_step k.1 k.2 h) h ks.

(** The tail, zero-padded to a block, is mixed in without a rotation. *)
Definition absorb_tail (tail : bytes) (h : Z * Z) : Z * Z :=
  (Z.lxor h.1 (mix_k1 (le_word (take 8 tail))),
   Z.lxor h.2 (mix_k2 (le_word (drop 8 tail)))).

Definition x64_128_ref (data : bytes) (seed : Z) : Z * Z :=
  let n := (length data / 16)%nat in
  x64_128_final (Z.of_nat (length data))
    (absorb_tail (drop (n * 16) data) (absorb (block_words n data) (seed, seed))).

(** *** The translated code against the recurrence *)

Lemma x64_128_body_absorb data i n h :
  x64_128_body data (Z.of_nat i) n h = absorb (block_words n (drop (i * 16) data)) h.
Proof.
  revert i h; induction n as [|n IH]; intros i h; [done|].
  cbn [x64_128_body block_words]. unfold absorb; cbn [foldl fst snd].
  fold (absorb (block_words n (drop 16 (drop (i * 16) data)))).
  rewrite drop_drop. replace (Z.of_nat i + 1) with (Z.of_nat (S i)) by lia.
  rewrite IH. unfold getblock64. rewrite !drop_drop.
  replace (i * 16 + 16)%nat with (S i * 16)%nat by lia.
  replace (Z.to_nat (0 + 8 * (Z.of_nat i * 2 + 0))) with (i * 16)%nat by lia.
  replace (Z.to_nat (0 + 8 * (Z.of_nat i * 2 + 1))) with (i * 16 + 8)%nat by lia.
  done.
Qed.

Lemma le_word_cons_lxor b l :
  le_word (b :: l) = Z.lxor (Z.shiftl (le_word l) 8) (Z.shiftl (byte_val b) 0).
Proof.
  rewrite Z.shiftl_0_r, Z.lxor_comm, lxor_shiftl_add;
    [simpl; lia | lia | apply byte_val_range].
Qed.

Lemma mix_k1_0 : mix_k1 0 = 0.
Proof. reflexivity. Qed.

Lemma mix_k2_0 : mix_k2 0 = 0.
Proof. reflexivity. Qed.

(** Evaluate the fall-through chain for a tail of known length. *)
Ltac solve_tail :=
  unfold x64_128_tail, absorb_tail, tail_at; cbn [length Z.of_nat Pos.of_succ_nat Pos.succ
    Z.leb Z.compare Pos.compare Pos.compare_cont nth take drop];
  rewrite ?le_word_cons_lxor; cbn [le_word];
  rewrite ?Z.shiftl_lxor, ?Z.shiftl_shiftl, ?Z.shiftl_0_l by lia;
  cbn [Z.add Pos.add Pos.succ Pos.add_carry fst snd];
  rewrite ?mix_k1_0, ?mix_k2_0, ?Z.lxor_0_r; reflexivity.

Lemma x64_128_tail_absorb tail h :
  (length tail < 16)%nat →
  x64_128_tail tail (Z.of_nat (length tail)) h = absorb_tail tail h.
Proof.
  intros Hlen. destruct h as [h1 h2].
  do 16 (destruct tail as [|? tail];
    [solve [solve_tail] |]).
  simpl in Hlen. lia.
Qed.

(** *** Mixing steps: widths *)

Lemma u64_width x : in_width 64 (u64 x).
Proof. apply wrap_in_width; lia. Qed.

Lemma mix_k1_width k : in_width 64 (mix_k1 k).
Proof. apply u64_width. Qed.

Lemma mix_k2_width k : in_width 64 (mix_k2 k).
Proof. apply u64_width. Qed.

Lemma fmix64_width k : in_width 64 (fmix64 k).
Proof. apply xorshift_in_width; [lia|lia|apply u64_width]. Qed.

#[local] Hint Resolve u64_width mix_k1_width mix_k2_width fmix64_width : marmotta.

Lemma lxor_width64 x y : in_width 64 x → in_width 64 y → in_width 64 (Z.lxor x y).
Proof. apply lxor_in_width; lia. Qed.

Lemma rotl64_width x r : 0 < r < 64 → in_width 64 x → in_width 64 (rotl64 x r).
Proof. apply rotl_in_width. Qed.

#[local] Hint Resolve lxor_width64 rotl64_width : marmotta.
#[local] Hint Extern 1 (_ < _ < _)%Z => lia : marmotta.

Lemma x64_step_wf k1 k2 h : wf64 h → wf64 (x64_step k1 k2 h).
Proof. destruct h as [h1 h2]. intros _. split; simpl; apply u64_width. Qed.

Lemma absorb_wf ks h : wf64 h → wf64 (absorb ks h).
Proof.
  unfold absorb. revert h; induction ks as [|k ks IH]; intros h Hh; simpl; [done|].
  by apply IH, x64_step_wf.
Qed.

Lemma absorb_tail_wf tail h : wf64 h → wf64 (absorb_tail tail h).
Proof. intros [H1 H2]; split; simpl; auto with marmotta. Qed.

Lemma x64_128_final_wf len h : wf64 (x64_128_final len h).
Proof. destruct h; split; simpl; apply u64_width. Qed.

(** *** Mixing steps: injectivity *)

Lemma fmix64_inj x y :
  in_width 64 x → in_width 64 y → fmix64 x = fmix64 y → x = y.
Proof.
  intros Hx Hy. unfold fmix64.
  assert (Hs : ∀ z, in_width 64 z → in_width 64 (xorshift z 33))
    by (intros; apply xorshift_in_width; [lia|lia|done]).
  intros H. apply (xorshift_inj 64) in H; [|lia|apply u64_width|apply u64_width].
  apply (wrap_mul_inj 64 _ 0x9cb4b2f8129337db) in H;
    [|lia|reflexivity|apply Hs, u64_width|apply Hs, u64_width].
  apply (xorshift_inj 64) in H; [|lia|apply u64_width|apply u64_width].
  apply (wrap_mul_inj 64 _ 0x4f74430c22a54005) in H;
    [|lia|reflexivity|by apply Hs|by apply Hs].
  by apply (xorshift_inj 64) in H; [|lia|..].
Qed.

Lemma mix_k1_inj x y : in_width 64 x → in_width 64 y → mix_k1 x = mix_k1 y → x = y.
Proof.
  intros Hx Hy H. unfold mix_k1 in H.
  apply (wrap_mul_inj 64 _ 0xa81e14edd9de2c7f) in H;
    [|lia|reflexivity|auto with marmotta..].
  apply (rotl_inj 64) in H; [|lia|apply u64_width..].
  by apply (wrap_mul_inj 64 _ 0xa98409e882ce4d7d) in H; [|lia|reflexivity|..].
Qed.

Lemma mix_k2_inj x y : in_width 64 x → in_width 64 y → mix_k2 x = mix_k2 y → x = y.
Proof.
  intros Hx Hy H. unfold mix_k2 in H.
  apply (wrap_mul_inj 64 _ 0xa98409e882ce4d7d) in H;
    [|lia|reflexivity|auto with marmotta..].
  apply (rotl_inj 64) in H; [|lia|apply u64_width..].
  by apply (wrap_mul_inj 64 _ 0xa81e14edd9de2c7f) in H; [|lia|reflexivity|..].
Qed.

(** [h = h * 5 + c] on 64-bit words. *)
Lemma times5_inj c x y :
  in_width 64 x → in_width 64 y → u64 (x * 5 + c) = u64 (y * 5 + c) → x = y.
Proof.
  intros Hx Hy H.
  assert (Hr : ∀ z, u64 (z * 5 + c) = wrap 64 (u64 (z * 5) + c)).
  { intros z. unfold u64, wrap. by rewrite Zplus_mod_idemp_l. }
  rewrite !Hr in H. apply wrap_add_inj in H; [|lia|apply u64_width..].
  by apply (wrap_mul_inj 64 _ 0xcccccccccccccccd) in H; [|lia|reflexivity|..].
Qed.

(** One half of a step: rotate, add the other half, multiply and add. *)
Lemma half_step_inj r a c x y :
  0 < r < 64 → in_width 64 x → in_width 64 y →
  u64 (u64 (rotl64 x r + a) * 5 + c) = u64 (u64 (rotl64 y r + a) * 5 + c) → x = y.
Proof.
  intros Hr Hx Hy H. apply times5_inj in H; [|apply u64_width..].
  apply wrap_add_inj in H; [|lia|auto with marmotta..].
  by apply (rotl_inj 64) in H.
Qed.

Lemma x64_step_inj_words h k1 k2 k1' k2' :
  wf64 h → in_width 64 k1 → in_width 64 k2 → in_width 64 k1' → in_width 64 k2' →
  x64_step k1 k2 h = x64_step k1' k2' h → k1 = k1' ∧ k2 = k2'.
Proof.
  destruct h as [h1 h2]. intros [Hh1 Hh2] ???? Heq. simpl in Hh1, Hh2.
  unfold x64_step in Heq. apply pair_eq in Heq as [E1 E2].
  apply half_step_inj in E1; [|lia|auto with marmotta..].
  apply lxor_inj_l, mix_k1_inj in E1; [|done..]. subst k1'. split; [done|].
  apply half_step_inj in E2; [|lia|auto with marmotta..].
  by apply lxor_inj_l, mix_k2_inj in E2.
Qed.

Lemma x64_step_inj_state k1 k2 h h' :
  wf64 h → wf64 h' → x64_step k1 k2 h = x64_step k1 k2 h' → h = h'.
Proof.
  destruct h as [h1 h2], h' as [g1 g2].
  intros [Hh1 Hh2] [Hg1 Hg2] Heq. simpl in *.
  unfold x64_step in Heq. apply pair_eq in Heq as [E1 E2]. rewrite E1 in E2.
  apply half_step_inj in E2; [|lia|auto with marmotta..].
  rewrite !(Z.lxor_comm _ (mix_k2 k2)) in E2. apply lxor_inj_l in E2. subst g2.
  apply half_step_inj in E1; [|lia|auto with marmotta..].
  rewrite !(Z.lxor_comm _ (mix_k1 k1)) in E1. apply lxor_inj_l in E1. by subst.
Qed.

Lemma absorb_inj ks h h' : wf64 h → wf64 h' → absorb ks h = absorb ks h' → h = h'.
Proof.
  unfold absorb. revert h h'; induction ks as [|k ks IH]; intros h h' Hh Hh'; simpl; [done|].
  intros H. apply IH in H; [|by apply x64_step_wf..]. by apply x64_step_inj_state in H.
Qed.

Lemma x64_128_final_inj len h h' :
  wf64 h → wf64 h' → x64_128_final len h = x64_128_final len h' → h = h'.
Proof.
  destruct h as [h1 h2], h' as [g1 g2].
  intros [Hh1 Hh2] [Hg1 Hg2] Heq. simpl in *.
  apply pair_eq in Heq as [E1 E2]. rewrite E1 in E2.
  apply wrap_add_inj in E2; [|lia|auto with marmotta..]. rewrite E2 in E1.
  apply wrap_add_inj in E1; [|lia|auto with marmotta..].
  apply fmix64_inj in E1; [|auto with marmotta..].
  apply fmix64_inj in E2; [|auto with marmotta..]. rewrite E1 in E2.
  apply wrap_add_inj in E2; [|lia|auto with marmotta..]. rewrite E2 in E1.
  apply wrap_add_inj in E1; [|lia|auto with marmotta..].
  rewrite !(Z.lxor_comm _ (u64 len)) in E1. rewrite !(Z.lxor_comm _ (u64 len)) in E2.
  apply lxor_inj_l in E1. apply lxor_inj_l in E2. congruence.
Qed.

(** *** Splitting a message into blocks *)

Lemma block_words_app n m pre rest :
  length pre = (n * 16)%nat →
  block_words (n + m) (pre ++ rest) = block_words n pre ++ block_words m rest.
Proof.
  revert pre; induction n as [|n IH]; intros pre Hlen.
  - by destruct pre.
  - do 16 (destruct pre as [|? pre]; [simpl in Hlen; lia|]).
    cbn [Nat.add block_words app take drop]. f_equal. apply IH. simpl in Hlen |- *. rewrite drop_0. lia.
Qed.

Lemma block_words_prefix n pre rest :
  length pre = (n * 16)%nat → block_words n (pre ++ rest) = block_words n pre.
Proof.
  intros H. rewrite <- (Nat.add_0_r n) at 1. rewrite block_words_app by done.
  apply app_nil_r.
Qed.

Lemma absorb_app ks1 ks2 h : absorb (ks1 ++ ks2) h = absorb ks2 (absorb ks1 h).
Proof. unfold absorb. by rewrite foldl_app. Qed.

Lemma le_word_width n l : (length l ≤ 8)%nat → n = 64 → in_width n (le_word l).
Proof.
  intros Hl ->. pose proof (le_word_range l) as [H1 H2]. split; [done|].
  eapply Z.lt_le_trans; [exact H2|]. apply Z.pow_le_mono_r; lia.
Qed.

(** A block of at most sixteen bytes is determined by its two words. *)
Lemma block_inj (b1 b2 : bytes) :
  length b1 = length b2 →
  le_word (take 8 b1) = le_word (take 8 b2) →
  le_word (drop 8 b1) = le_word (drop 8 b2) → b1 = b2.
Proof.
  intros Hl H1%le_word_inj H2%le_word_inj.
  - rewrite <- (take_drop 8 b1), <- (take_drop 8 b2). congruence.
  - rewrite !length_drop; lia.
  - rewrite !length_take; lia.
Qed.

Lemma mod16_land len : Z.land (Z.of_nat len) 15 = Z.of_nat (len mod 16).
Proof.
  change 15 with (Z.ones 4). rewrite Z.land_ones by lia. change (2 ^ 4) with 16.
  by rewrite Nat2Z.inj_mod.
Qed.

Lemma length_tail16 (data : bytes) :
  length (drop (length data / 16 * 16) data) = (length data mod 16)%nat.
Proof.
  rewrite length_drop. pose proof (Nat.div_mod_eq (length data) 16). lia.
Qed.

Lemma x64_128_ref_wf data seed : in_width 64 seed → wf64 (x64_128_ref data seed).
Proof. intros. apply x64_128_final_wf. Qed.

Lemma MurmurHash3_x64_128_unfold data seed :
  MurmurHash3_x64_128 data seed =
  le_bytes 8 (x64_128_ref data seed).1 ++ le_bytes 8 (x64_128_ref data seed).2.
Proof.
  unfold MurmurHash3_x64_128, x64_128_ref.
  replace (Z.of_nat (length data) / 16) with (Z.of_nat (length data / 16))
    by (by rewrite Nat2Z.inj_div).
  rewrite Nat2Z.id, mod16_land, <- length_tail16.
  replace (Z.to_nat (Z.of_nat (length data / 16) * 16)) with (length data / 16 * 16)%nat by lia.
  rewrite (x64_128_body_absorb data 0). rewrite drop_0.
  rewrite x64_128_tail_absorb
    by (rewrite length_tail16; apply Nat.mod_upper_bound; lia).
  by destruct (x64_128_final _ _).
Qed.

Lemma MurmurHash3_x64_128_eq_ref d1 d2 seed :
  MurmurHash3_x64_128 d1 seed = MurmurHash3_x64_128 d2 seed →
  x64_128_ref d1 seed = x64_128_ref d2 seed.
Proof.
  rewrite !MurmurHash3_x64_128_unfold. intros H.
  apply app_inj_len in H as [E1 E2]; [|by rewrite !length_le_bytes].
  pose proof (x64_128_final_wf) as Hw.
  apply le_bytes_inj in E1; [|apply Hw..]. apply le_bytes_inj in E2; [|apply Hw..].
  apply injective_projections; [exact E1 | exact E2].
Qed.

Lemma seed_wf seed : in_width 32 seed → wf64 (seed, seed).
Proof.
  intros [? H]. assert (in_width 64 seed) by (split; [done|]; etrans; [apply H|]; reflexivity).
  by split.
Qed.

(** *** Theorems *)

(** C27. The body loop of MurmurHash3_x64_128 with its pointer arithmetic and
    the fall-through switch over the tail compute the block recurrence: fold
    the mixing step over the little-endian word pairs of the full blocks, mix
    in the zero-padded tail, finalise, and store both words little-endian. *)
Theorem murmur3_x64_128_correct (data : bytes) (seed : Z) :
  let n := (length data / 16)%nat in
  MurmurHash3_x64_128 data seed =
  (let h := x64_128_final (Z.of_nat (length data))
     (absorb_tail (drop (n * 16) data) (absorb (block_words n data) (seed, seed))) in
   le_bytes 8 h.1 ++ le_bytes 8 h.2).
Proof. exact (MurmurHash3_x64_128_unfold data seed). Qed.

Lemma length_MurmurHash3_x64_128 data seed :
  length (MurmurHash3_x64_128 data seed) = 16%nat.
Proof. by rewrite MurmurHash3_x64_128_unfold, length_app, !length_le_bytes. Qed.

Lemma length_MurmurHash3_x86_128 data seed :
  length (MurmurHash3_x86_128 data seed) = 16%nat.
Proof. unfold MurmurHash3_x86_128. by rewrite !length_app, !length_le_bytes. Qed.

Lemma x64_inj_tail (pre b1 b2 : bytes) seed :
  in_width 32 seed → (length pre mod 16 = 0)%nat →
  length b1 = length b2 → (length b1 < 16)%nat →
  x64_128_ref (pre ++ b1) seed = x64_128_ref (pre ++ b2) seed → b1 = b2.
Proof.
  intros Hseed Hpre Hlen Hlt. unfold x64_128_ref. rewrite !length_app, <- Hlen.
  set (n := (length pre / 16)%nat).
  assert (Hn : length pre = (n * 16)%nat)
    by (unfold n; pose proof (Nat.div_mod_eq (length pre) 16); lia).
  assert (((length pre + length b1) / 16)%nat = n) as ->.
  { rewrite Hn, Nat.add_comm, Nat.div_add by lia. rewrite Nat.div_small by lia. lia. }
  pose proof (seed_wf _ Hseed) as Hw.
  intros H. apply x64_128_final_inj in H; [|by apply absorb_tail_wf, absorb_wf..].
  rewrite <- !Hn, !drop_app_length in H.
  rewrite !block_words_prefix in H by done.
  apply pair_eq in H as [E1 E2].
  apply lxor_inj_l, mix_k1_inj in E1; [|apply le_word_width; [rewrite length_take; lia|done]..].
  apply lxor_inj_l, mix_k2_inj in E2; [|apply le_word_width; [rewrite length_drop; lia|done]..].
  by apply block_inj.
Qed.

Lemma x64_inj_block (pre b1 b2 post : bytes) seed :
  in_width 32 seed → (length pre mod 16 = 0)%nat →
  length b1 = 16%nat → length b2 = 16%nat →
  x64_128_ref (pre ++ b1 ++ post) seed = x64_128_ref (pre ++ b2 ++ post) seed → b1 = b2.
Proof.
  intros Hseed Hpre Hl1 Hl2. unfold x64_128_ref. rewrite !length_app, Hl1, Hl2.
  set (n := (length pre / 16)%nat). set (m := (length post / 16)%nat).
  assert (Hn : length pre = (n * 16)%nat)
    by (unfold n; pose proof (Nat.div_mod_eq (length pre) 16); lia).
  assert (((length pre + (16 + length post)) / 16)%nat = (n + (1 + m))%nat) as ->.
  { replace (length pre + (16 + length post))%nat with (length post + (n + 1) * 16)%nat by lia.
    rewrite Nat.div_add by lia. fold m. lia. }
  assert (Hdrop : ∀ b, length b = 16%nat →
    drop ((n + (1 + m)) * 16) (pre ++ b ++ post) = drop (m * 16) post).
  { intros b Hb. rewrite app_assoc.
    replace ((n + (1 + m)) * 16)%nat with (length (pre ++ b) + m * 16)%nat
      by (rewrite length_app; lia).
    apply drop_app_add. }
  rewrite !Hdrop, !(block_words_app n), !(block_words_app 1 m), !absorb_app by lia.
  pose proof (absorb_wf (block_words n pre) _ (seed_wf _ Hseed)) as Hw.
  intros H. apply x64_128_final_inj in H; [|by apply absorb_tail_wf, absorb_wf, absorb_wf..].
  apply pair_eq in H as [E1 E2].
  rewrite !(Z.lxor_comm _ (mix_k1 _)) in E1. rewrite !(Z.lxor_comm _ (mix_k2 _)) in E2.
  apply lxor_inj_l in E1. apply lxor_inj_l in E2.
  assert (H : absorb (block_words 1 b1) (absorb (block_words n pre) (seed, seed)) =
              absorb (block_words 1 b2) (absorb (block_words n pre) (seed, seed))).
  { eapply absorb_inj; [by apply absorb_wf..|]. apply injective_projections; eassumption. }
  apply x64_step_inj_words in H as [F1 F2]; [|done|apply le_word_width;
    [rewrite ?length_take, ?length_drop; lia|done]..].
  apply block_inj; [lia|done|].
  rewrite (take_ge (drop 8 b1) 8), (take_ge (drop 8 b2) 8) in F2
    by (rewrite length_drop; lia). done.
Qed.

(** MurmurHash3_x64_128 separates messages of the same length that differ
    only inside one sixteen-byte block, or only in the tail after the last full
    block: equal hashes force the block to be equal.  In particular it is
    injective on messages of one length up to sixteen bytes. *)
Theorem murmur3_x64_128_block_injective (seed : Z) (pre b1 b2 post : bytes) :
  in_width 32 seed → (length pre mod 16 = 0)%nat →
  length b1 = length b2 → (length b1 ≤ 16)%nat → (length b1 = 16%nat ∨ post = []) →
  MurmurHash3_x64_128 (pre ++ b1 ++ post) seed = MurmurHash3_x64_128 (pre ++ b2 ++ post) seed →
  b1 = b2.
Proof.
  intros Hseed Hpre Hlen Hle Hcase Heq%MurmurHash3_x64_128_eq_ref.
  destruct (decide (length b1 = 16%nat)) as [H16|Hn].
  - eapply x64_inj_block; eauto; congruence.
  - destruct Hcase as [?| ->]; [done|]. rewrite !app_nil_r in Heq.
    eapply x64_inj_tail; eauto; lia.
Qed.

Lemma murmur3_x64_128_block_injective_witness :
  MurmurHash3_x64_128 (str_bytes "0123456789abcdef" ++ str_bytes "xy" ++ []) 13
  ≠ MurmurHash3_x64_128 (str_bytes "0123456789abcdef" ++ str_bytes "xz" ++ []) 13.
Proof.
  intros H. assert (E : str_bytes "xy" = str_bytes "xz").
  { apply (murmur3_x64_128_block_injective 13 (str_bytes "0123456789abcdef") _ _ []).
    - split; [discriminate | reflexivity].
    - reflexivity.
    - reflexivity.
    - apply Nat.leb_le. reflexivity.
    - by right.
    - exact H. }
  discriminate E.
Defined.
