(* ===== verification/Messages.v ===== *)
(** * Messages: the protocol buffer messages of model/model.proto

    A message is a record of its fields; a string field that is not set holds
    the empty string (proto3 has no presence for scalars), a submessage field
    is an [option], and a [oneof] is an inductive type with a constructor per
    case and one for "not set".  The accessors follow the proto3 rules for the
    code [protoc] generates from that file: [x()] of an unset submessage is the
    default instance, [mutable_x()] creates it, and [MergeFrom] overwrites a
    scalar only when the source's value is not the default, merges submessages
    recursively and, for a [oneof], switches to the source's case.

    The wire format is not part of the repository: [Codec] stands for
    [SerializeToString]/[ParseFromString], and [CodecLaws] is what protocol
    buffers document of them. *)

From S2P Require Import Prelude.

Record Namespace := mkNamespace { prefix : string; ns_uri : string }.

Record URI := mkURI { uri : string }.

Record BNode := mkBNode { id : string }.

Inductive Resource :=
  | Resource_none
  | Resource_uri (u : URI)
  | Resource_bnode (b : BNode).

Record StringLiteral := mkStringLiteral { sl_content : string; language : string }.

Record DatatypeLiteral := mkDatatypeLiteral { dl_content : string; datatype_ : option URI }.

Inductive Literal :=
  | Literal_none
  | Literal_string (l : StringLiteral)
  | Literal_data (l : DatatypeLiteral).

Inductive Value :=
  | Value_none
  | Value_resource (r : Resource)
  | Value_literal (l : Literal).

Record Statement := mkStatement {
  subject_ : option Resource;
  predicate_ : option URI;
  object_ : option Value;
  context_ : option Resource;
}.

(** Messages of service/sail.proto. *)

Record ContextRequest := mkContextRequest { req_context : list Resource }.

Inductive UpdateRequest :=
  | Update_none
  | stmt_added (s : Statement)
  | stmt_removed (s : Statement)
  | ns_added (n : Namespace)
  | ns_removed (n : Namespace).

Record UpdateResponse := mkUpdateResponse {
  added_statements : Z;
  removed_statements : Z;
  added_namespaces : Z;
  removed_namespaces : Z;
}.

(** ** Decidable equality *)

#[global] Instance Namespace_eq_dec : EqDecision Namespace.
Proof. solve_decision. Defined.
#[global] Instance URI_eq_dec : EqDecision URI.
Proof. solve_decision. Defined.
#[global] Instance BNode_eq_dec : EqDecision BNode.
Proof. solve_decision. Defined.
#[global] Instance Resource_eq_dec : EqDecision Resource.
Proof. solve_decision. Defined.
#[global] Instance StringLiteral_eq_dec : EqDecision StringLiteral.
Proof. solve_decision. Defined.
#[global] Instance DatatypeLiteral_eq_dec : EqDecision DatatypeLiteral.
Proof. solve_decision. Defined.
#[global] Instance Literal_eq_dec : EqDecision Literal.
Proof. solve_decision. Defined.
#[global] Instance Value_eq_dec : EqDecision Value.
Proof. solve_decision. Defined.
#[global] Instance Statement_eq_dec : EqDecision Statement.
Proof. solve_decision. Defined.

(** ** Countability, so that messages can be keys of finite maps *)

#[global] Instance Namespace_countable : Countable Namespace.
Proof. by refine (inj_countable' (λ n, (prefix n, ns_uri n)) (λ p, mkNamespace p.1 p.2) _); intros []. Defined.
#[global] Instance URI_countable : Countable URI.
Proof. by refine (inj_countable' uri mkURI _); intros []. Defined.
#[global] Instance BNode_countable : Countable BNode.
Proof. by refine (inj_countable' id mkBNode _); intros []. Defined.
#[global] Instance Resource_countable : Countable Resource.
Proof.
  by refine (inj_countable'
    (λ r, match r with
          | Resource_none => None
          | Resource_uri u => Some (inl u)
          | Resource_bnode b => Some (inr b) end)
    (λ o, match o with
          | None => Resource_none
          | Some (inl u) => Resource_uri u
          | Some (inr b) => Resource_bnode b end) _); intros [].
Defined.
#[global] Instance StringLiteral_countable : Countable StringLiteral.
Proof.
  by refine (inj_countable' (λ l, (sl_content l, language l))
               (λ p, mkStringLiteral p.1 p.2) _); intros [].
Defined.
#[global] Instance DatatypeLiteral_countable : Countable DatatypeLiteral.
Proof.
  by refine (inj_countable' (λ l, (dl_content l, datatype_ l))
               (λ p, mkDatatypeLiteral p.1 p.2) _); intros [].
Defined.
#[global] Instance Literal_countable : Countable Literal.
Proof.
  by refine (inj_countable'
    (λ r, match r with
          | Literal_none => None
          | Literal_string l => Some (inl l)
          | Literal_data l => Some (inr l) end)
    (λ o, match o with
          | None => Literal_none
          | Some (inl l) => Literal_string l
          | Some (inr l) => Literal_data l end) _); intros [].
Defined.
#[global] Instance Value_countable : Countable Value.
Proof.
  by refine (inj_countable'
    (λ r, match r with
          | Value_none => None
          | Value_resource l => Some (inl l)
          | Value_literal l => Some (inr l) end)
    (λ o, match o with
          | None => Value_none
          | Some (inl l) => Value_resource l
          | Some (inr l) => Value_literal l end) _); intros [].
Defined.
#[global] Instance Statement_countable : Countable Statement.
Proof.
  by refine (inj_countable' (λ s, (subject_ s, predicate_ s, object_ s, context_ s))
    (λ '(s, p, o, c), mkStatement s p o c) _); intros [].
Defined.

(** ** Messages with merge *)

Class Message (A : Type) := {
  default_instance : A;
  MergeFrom : A → A → A;  (* [MergeFrom to from] *)
}.

Definition merge_string (to from : string) : string :=
  if bool_decide (from = "")%string then to else from.

Definition merge_field {A} `{Message A} (to from : option A) : option A :=
  match from with
  | None => to
  | Some f => Some (MergeFrom (default default_instance to) f)
  end.

#[global] Instance Namespace_message : Message Namespace := {
  default_instance := mkNamespace "" "";
  MergeFrom to from :=
    mkNamespace (merge_string (prefix to) (prefix from))
                (merge_string (ns_uri to) (ns_uri from));
}.

#[global] Instance URI_message : Message URI := {
  default_instance := mkURI "";
  MergeFrom to from := mkURI (merge_string (uri to) (uri from));
}.

#[global] Instance BNode_message : Message BNode := {
  default_instance := mkBNode "";
  MergeFrom to from := mkBNode (merge_string (id to) (id from));
}.

(** [mutable_uri()] and [mutable_bnode()], applied to an update of the result. *)
Definition mutable_uri (f : URI → URI) (r : Resource) : Resource :=
  Resource_uri (f (match r with Resource_uri u => u | _ => default_instance end)).
Definition mutable_bnode (f : BNode → BNode) (r : Resource) : Resource :=
  Resource_bnode (f (match r with Resource_bnode b => b | _ => default_instance end)).

#[global] Instance Resource_message : Message Resource := {
  default_instance := Resource_none;
  MergeFrom to from :=
    match from with
    | Resource_none => to
    | Resource_uri u => mutable_uri (λ t, MergeFrom t u) to
    | Resource_bnode b => mutable_bnode (λ t, MergeFrom t b) to
    end;
}.

#[global] Instance StringLiteral_message : Message StringLiteral := {
  default_instance := mkStringLiteral "" "";
  MergeFrom to from :=
    mkStringLiteral (merge_string (sl_content to) (sl_content from))
                    (merge_string (language to) (language from));
}.

#[global] Instance DatatypeLiteral_message : Message DatatypeLiteral := {
  default_instance := mkDatatypeLiteral "" None;
  MergeFrom to from :=
    mkDatatypeLiteral (merge_string (dl_content to) (dl_content from))
                      (merge_field (datatype_ to) (datatype_ from));
}.

Definition mutable_stringliteral (f : StringLiteral → StringLiteral) (l : Literal) : Literal :=
  Literal_string (f (match l with Literal_string s => s | _ => default_instance end)).
Definition mutable_dataliteral (f : DatatypeLiteral → DatatypeLiteral) (l : Literal) : Literal :=
  Literal_data (f (match l with Literal_data s => s | _ => default_instance end)).

#[global] Instance Literal_message : Message Literal := {
  default_instance := Literal_none;
  MergeFrom to from :=
    match from with
    | Literal_none => to
    | Literal_string l => mutable_stringliteral (λ t, MergeFrom t l) to
    | Literal_data l => mutable_dataliteral (λ t, MergeFrom t l) to
    end;
}.

Definition mutable_resource (f : Resource → Resource) (v : Value) : Value :=
  Value_resource (f (match v with Value_resource r => r | _ => default_instance end)).
Definition mutable_literal (f : Literal → Literal) (v : Value) : Value :=
  Value_literal (f (match v with Value_literal l => l | _ => default_instance end)).

#[global] Instance Value_message : Message Value := {
  default_instance := Value_none;
  MergeFrom to from :=
    match from with
    | Value_none => to
    | Value_resource r => mutable_resource (λ t, MergeFrom t r) to
    | Value_literal l => mutable_literal (λ t, MergeFrom t l) to
    end;
}.

#[global] Instance Statement_message : Message Statement := {
  default_instance := mkStatement None None None None;
  MergeFrom to from :=
    mkStatement (merge_field (subject_ to) (subject_ from))
                (merge_field (predicate_ to) (predicate_ from))
                (merge_field (object_ to) (object_ from))
                (merge_field (context_ to) (context_ from));
}.

(** ** Accessors *)

Definition has_uri (r : Resource) : bool :=
  match r with Resource_uri _ => true | _ => false end.
Definition has_bnode (r : Resource) : bool :=
  match r with Resource_bnode _ => true | _ => false end.
Definition res_uri (r : Resource) : URI :=
  match r with Resource_uri u => u | _ => default_instance end.
Definition res_bnode (r : Resource) : BNode :=
  match r with Resource_bnode b => b | _ => default_instance end.

Definition has_stringliteral (l : Literal) : bool :=
  match l with Literal_string _ => true | _ => false end.
Definition has_dataliteral (l : Literal) : bool :=
  match l with Literal_data _ => true | _ => false end.
Definition stringliteral (l : Literal) : StringLiteral :=
  match l with Literal_string s => s | _ => default_instance end.
Definition dataliteral (l : Literal) : DatatypeLiteral :=
  match l with Literal_data s => s | _ => default_instance end.
Definition datatype (l : DatatypeLiteral) : URI := default default_instance (datatype_ l).

Definition has_resource (v : Value) : bool :=
  match v with Value_resource _ => true | _ => false end.
Definition has_literal (v : Value) : bool :=
  match v with Value_literal _ => true | _ => false end.
Definition val_resource (v : Value) : Resource :=
  match v with Value_resource r => r | _ => default_instance end.
Definition val_literal (v : Value) : Literal :=
  match v with Value_literal l => l | _ => default_instance end.

Definition has_subject (s : Statement) : bool := bool_decide (is_Some (subject_ s)).
Definition has_predicate (s : Statement) : bool := bool_decide (is_Some (predicate_ s)).
Definition has_object (s : Statement) : bool := bool_decide (is_Some (object_ s)).
Definition has_context (s : Statement) : bool := bool_decide (is_Some (context_ s)).
Definition subject (s : Statement) : Resource := default default_instance (subject_ s).
Definition predicate (s : Statement) : URI := default default_instance (predicate_ s).
Definition object (s : Statement) : Value := default default_instance (object_ s).
Definition context (s : Statement) : Resource := default default_instance (context_ s).

(** [Swap]: the two objects exchange their fields. *)
Definition Swap {A} (this other : A) : A * A := (other, this).

(** ** Laws of merge *)

Class MessageLaws (A : Type) `{Message A} : Prop := {
  merge_default_l (m : A) : MergeFrom default_instance m = m;
  merge_default_r (m : A) : MergeFrom m default_instance = m;
}.

Lemma merge_string_l s : merge_string "" s = s.
Proof. unfold merge_string. by case_bool_decide. Qed.

Lemma merge_string_r s : merge_string s "" = s.
Proof. done. Qed.

Create Rewrite HintDb merge.
#[export] Hint Rewrite merge_string_l merge_string_r : merge.

Lemma merge_field_l {A} `{MessageLaws A} (m : option A) : merge_field None m = m.
Proof. destruct m as [m|]; simpl; [by rewrite merge_default_l | done]. Qed.

Lemma merge_field_r {A} `{MessageLaws A} (m : option A) : merge_field m None = m.
Proof. done. Qed.

(** Close a law of a record message from the laws of its fields. *)
Ltac merge_solve :=
  split; intros []; cbn -[merge_field merge_string];
  autorewrite with merge; rewrite ?merge_field_l, ?merge_field_r; done.

#[global] Instance Namespace_laws : MessageLaws Namespace.
Proof. merge_solve. Qed.
#[global] Instance URI_laws : MessageLaws URI.
Proof. merge_solve. Qed.
#[global] Instance BNode_laws : MessageLaws BNode.
Proof. merge_solve. Qed.
#[global] Instance Resource_laws : MessageLaws Resource.
Proof.
  split; [|by intros []].
  intros [|x|x];
    [done | exact (f_equal Resource_uri (merge_default_l x)) | exact (f_equal Resource_bnode (merge_default_l x))].
Qed.
#[global] Instance StringLiteral_laws : MessageLaws StringLiteral.
Proof. merge_solve. Qed.
#[global] Instance DatatypeLiteral_laws : MessageLaws DatatypeLiteral.
Proof. merge_solve. Qed.
#[global] Instance Literal_laws : MessageLaws Literal.
Proof.
  split; [|by intros []].
  intros [|x|x];
    [done | exact (f_equal Literal_string (merge_default_l x)) | exact (f_equal Literal_data (merge_default_l x))].
Qed.
#[global] Instance Value_laws : MessageLaws Value.
Proof.
  split; [|by intros []].
  intros [|x|x];
    [done | exact (f_equal Value_resource (merge_default_l x)) | exact (f_equal Value_literal (merge_default_l x))].
Qed.
#[global] Instance Statement_laws : MessageLaws Statement.
Proof. merge_solve. Qed.

(** ** Serialization *)

Class Codec (A : Type) := {
  SerializeToString : A → bytes;
  ParseFromString : bytes → A;  (* the message after the call *)
}.

(** Parsing what was serialized gives the message back. *)
Class CodecLaws (A : Type) `{Codec A} : Prop :=
  parse_serialize (m : A) : ParseFromString (SerializeToString m) = m.

(** The codecs of the messages the sources serialize. *)
Class Protobuf := {
  URI_codec :: Codec URI;
  Resource_codec :: Codec Resource;
  Value_codec :: Codec Value;
  StringLiteral_codec :: Codec StringLiteral;
  DatatypeLiteral_codec :: Codec DatatypeLiteral;
  Statement_codec :: Codec Statement;
  Namespace_codec :: Codec Namespace;
}.

Class ProtobufLaws `{Protobuf} : Prop := {
  URI_codec_laws :: CodecLaws URI;
  Resource_codec_laws :: CodecLaws Resource;
  Value_codec_laws :: CodecLaws Value;
  StringLiteral_codec_laws :: CodecLaws StringLiteral;
  DatatypeLiteral_codec_laws :: CodecLaws DatatypeLiteral;
  Statement_codec_laws :: CodecLaws Statement;
  Namespace_codec_laws :: CodecLaws Namespace;
}.

#[global] Instance serialize_inj `{CodecLaws A} : Inj (=) (=) (SerializeToString (A:=A)).
Proof.
  intros x y Hxy. by rewrite <- (parse_serialize x), Hxy, parse_serialize.
Qed.
