(* ===== verification/Iterators.v ===== *)
(** * Iterators: util/iterator.h

    [CloseableIterator] is the abstract class of the sources as a type class:
    the operations of the C++ interface, plus the model field [elements], the
    sequence the iterator has still to yield.  [IteratorLaws] is the protocol
    an implementation keeps and a client relies on.  [EmptyIterator] and
    [SingletonIterator] are the two implementations of util/iterator.h; those
    of the persistence and of the services are in their own files.

    The two loop shapes of the sources are defined once over the interface,
    with fuel; [for_each] and [for_each_while] supply fuel one above the number
    of elements left, which the laws show is always enough. *)

From S2P Require Import Prelude.

Class CloseableIterator (It T : Type) := {
  next : It → It;                  (* operator++ *)
  deref : It → res (T * It);       (* operator* and operator-> *)
  hasNext : It → bool;
  elements : It → list T;
}.
Arguments next {It T _} _.
Arguments deref {It T _} _.
Arguments hasNext {It T _} _.
Arguments elements {It T _} _.

Class IteratorLaws (It T : Type) `{CloseableIterator It T} : Prop := {
  hasNext_elements (it : It) : hasNext it = negb (bool_decide (elements it = []));
  deref_elements (it : It) x l :
    elements it = x :: l → ∃ it', deref it = Ok (x, it') ∧ elements it' = x :: l;
  next_elements (it : It) x l : elements it = x :: l → elements (next it) = l;
}.

(** ** EmptyIterator and SingletonIterator *)

Section SimpleIterators.
Context {T : Type}.

Inductive EmptyIterator := mkEmptyIterator.

#[global] Instance empty_iterator : CloseableIterator EmptyIterator T := {
  next it := it;
  deref it := Throw (OutOfRange "No more elements");
  hasNext it := false;
  elements it := [];
}.

Record SingletonIterator := mkSingletonIterator { si_value : T; incremented : bool }.

Definition newSingletonIterator (v : T) : SingletonIterator := mkSingletonIterator v false.

#[global] Instance singleton_iterator : CloseableIterator SingletonIterator T := {
  next it := mkSingletonIterator (si_value it) true;
  deref it :=
    if negb (incremented it) then Ok (si_value it, it)
    else Throw (OutOfRange "No more elements");
  hasNext it := negb (incremented it);
  elements it := if incremented it then [] else [si_value it];
}.

#[global] Instance empty_iterator_laws : IteratorLaws EmptyIterator T.
Proof. by split. Qed.

#[global] Instance singleton_iterator_laws : IteratorLaws SingletonIterator T.
Proof.
  split.
  - by intros [v []].
  - intros [v []] x l; simpl; intros ?; simplify_eq; eauto.
  - intros [v []] x l; simpl; intros ?; by simplify_eq.
Qed.

End SimpleIterators.
Arguments SingletonIterator : clear implicits.

(** ** Loops over an iterator *)

Section Loops.
Context {It T S : Type} `{CloseableIterator It T}.

(** [for (; it.hasNext(); ++it) body( *it)] *)
Fixpoint for_loop (fuel : nat) (body : S → T → res S) (it : It) (s : S) : res S :=
  match fuel with
  | O => OutOfFuel
  | Datatypes.S fuel =>
      if hasNext it then
        '(x, it) ← deref it;
        s ← body s x;
        for_loop fuel body (next it) s
      else Ok s
  end.

(** [for (; cbsuccess && it->hasNext(); ++( *it)) { cbsuccess = callback( **it); count++; }] *)
Fixpoint for_while_loop (fuel : nat) (callback : S → T → res (bool * S))
    (cbsuccess : bool) (it : It) (s : S) : res S :=
  match fuel with
  | O => OutOfFuel
  | Datatypes.S fuel =>
      if cbsuccess && hasNext it then
        '(x, it) ← deref it;
        '(cb, s) ← callback s x;
        for_while_loop fuel callback cb (next it) s
      else Ok s
  end.

Definition for_each (body : S → T → res S) (it : It) (s : S) : res S :=
  for_loop (1 + length (elements it)) body it s.

Definition for_each_while (callback : S → T → res (bool * S)) (it : It) (s : S) : res S :=
  for_while_loop (1 + length (elements it)) callback true it s.

(** The same loops over the list of elements. *)
Fixpoint fold_while (callback : S → T → res (bool * S)) (cb : bool) (l : list T) (s : S) : res S :=
  match l with
  | [] => Ok s
  | x :: l =>
      if cb then '(cb, s) ← callback s x; fold_while callback cb l s else Ok s
  end.

Context `{!IteratorLaws It T}.

Lemma hasNext_nil (it : It) : elements it = [] → hasNext it = false.
Proof. intros E. rewrite hasNext_elements, E. done. Qed.

Lemma hasNext_cons (it : It) x l : elements it = x :: l → hasNext it = true.
Proof. intros E. rewrite hasNext_elements, E. done. Qed.

Lemma for_loop_elements fuel body (it : It) s :
  length (elements it) < fuel → for_loop fuel body it s = foldM body s (elements it).
Proof.
  revert it s; induction fuel as [|fuel IH]; intros it s Hf; [lia|]. simpl.
  destruct (elements it) as [|x l] eqn:E.
  - by rewrite hasNext_nil.
  - rewrite (hasNext_cons _ _ _ E).
    destruct (deref_elements _ _ _ E) as (it' & -> & E').
    simpl. destruct (body s x) as [s'|e|]; simpl; try done.
    rewrite IH; rewrite (next_elements _ _ _ E'); [done|]. simpl in Hf. lia.
Qed.

Lemma for_while_loop_elements fuel callback cb (it : It) s :
  length (elements it) < fuel →
  for_while_loop fuel callback cb it s = fold_while callback cb (elements it) s.
Proof.
  revert cb it s; induction fuel as [|fuel IH]; intros cb it s Hf; [lia|]. simpl.
  destruct (elements it) as [|x l] eqn:E.
  - rewrite hasNext_nil by done. by rewrite andb_false_r.
  - rewrite (hasNext_cons _ _ _ E). destruct cb; simpl; [|done].
    destruct (deref_elements _ _ _ E) as (it' & -> & E'). simpl.
    destruct (callback s x) as [[cb s']|e|]; simpl; try done.
    rewrite IH; rewrite (next_elements _ _ _ E'); [done|]. simpl in Hf. lia.
Qed.

(** A loop over an iterator is the fold over its elements: it yields each one
    once, in order, and ends.  *)
Lemma for_each_elements body (it : It) s :
  for_each body it s = foldM body s (elements it).
Proof. apply for_loop_elements. lia. Qed.

Lemma for_each_while_elements callback (it : It) s :
  for_each_while callback it s = fold_while callback true (elements it) s.
Proof. apply for_while_loop_elements. lia. Qed.

(** A callback that never asks to stop visits every element. *)
Lemma fold_while_continue (f : S → T → S) (l : list T) s :
  fold_while (λ s x, Ok (true, f s x)) true l s = Ok (foldl f s l).
Proof. revert s; induction l as [|x l IH]; intros s; simpl; [done|apply IH]. Qed.

(** A callback that stops at once sees at most the first element. *)
Lemma fold_while_first (f : S → T → S) (l : list T) s :
  fold_while (λ s x, Ok (false, f s x)) true l s =
  Ok (match l with [] => s | x :: _ => f s x end).
Proof. destruct l as [|x [|y l]]; done. Qed.

End Loops.

(** Whatever the implementation of the iterator interface, the import
    loops of the sources terminate and visit exactly the elements the iterator
    holds, each once and in order: with any fuel above their number the loop
    equals the fold of its body over them (exceptions of the body included). *)
Theorem iterator_loop_total {It T S : Type} `{CloseableIterator It T} `{!IteratorLaws It T}
    (fuel : nat) (body : S → T → res S) (it : It) (s : S) :
  length (elements it) < fuel → for_loop fuel body it s = foldM body s (elements it).
Proof. apply for_loop_elements. Qed.

Lemma iterator_loop_total_witness :
  for_loop 2 (λ n x, Ok (n + x)) (newSingletonIterator 5) 1 = Ok 6.
Proof.
  rewrite iterator_loop_total; [reflexivity | simpl; lia].
Defined.
