(* ===== verification/LevelDB.v ===== *)
(** * LevelDB: the key-value store the persistence relies on

    LevelDB is not part of the repository.  [LevelDB K] holds the operations
    the sources call on a database whose keys are [K] (opening, an atomic
    [Write] of a batch, [Get], and iterators with [SeekToFirst], [Seek],
    [Next], [Valid], [key], [value]) and three model fields: the finite map a
    database stands for, the snapshot an iterator was created on, and the
    entries it has still ahead.  [LevelDBLaws] is the documented behaviour: a
    database is an ordered map, a batch applies its operations in order, an
    iterator walks a snapshot in comparator order, [Seek] moves to the first
    key at or past the target.

    The range-scan lemmas are proved against the interface; [MapDB] shows that
    the laws are satisfiable, by a database that sorts a finite map. *)

From S2P Require Import Prelude.

(** ** Comparators *)

Class Comparator (K : Type) := Compare : K → K → comparison.

Class ComparatorLaws (K : Type) `{Comparator K} : Prop := {
  compare_eq (a b : K) : Compare a b = Eq ↔ a = b;
  compare_antisym (a b : K) : Compare b a = CompOpp (Compare a b);
  compare_trans (a b c : K) : Compare a b = Lt → Compare b c = Lt → Compare a c = Lt;
}.

Definition key_le `{Comparator K} (a b : K) : Prop := Compare a b ≠ Gt.
Definition key_lt `{Comparator K} (a b : K) : Prop := Compare a b = Lt.

#[global] Instance comparison_eq_dec : EqDecision comparison.
Proof. solve_decision. Defined.
#[global] Instance key_le_dec `{Comparator K} (a b : K) : Decision (key_le a b).
Proof. unfold key_le. apply _. Defined.
#[global] Instance key_lt_dec `{Comparator K} (a b : K) : Decision (key_lt a b).
Proof. unfold key_lt. apply _. Defined.

(** ** Batches *)

Inductive BatchOp (K : Type) :=
  | Put (k : K) (v : bytes)
  | Delete (k : K).
Arguments Put {K} _ _.
Arguments Delete {K} _.

Abbreviation WriteBatch K := (list (BatchOp K)).

(** [batch.Put(k, v)] and [batch.Delete(k)] append to the batch. *)
Definition batch_put {K} (b : WriteBatch K) (k : K) (v : bytes) : WriteBatch K := b ++ [Put k v].
Definition batch_delete {K} (b : WriteBatch K) (k : K) : WriteBatch K := b ++ [Delete k].

Definition apply_op `{Countable K} (m : gmap K bytes) (op : BatchOp K) : gmap K bytes :=
  match op with
  | Put k v => <[k := v]> m
  | Delete k => delete k m
  end.

Definition apply_batch `{Countable K} (b : WriteBatch K) (m : gmap K bytes) : gmap K bytes :=
  foldl apply_op m b.

Lemma apply_batch_put `{Countable K} (b : WriteBatch K) k v (m : gmap K bytes) :
  apply_batch (batch_put b k v) m = <[k := v]> (apply_batch b m).
Proof. unfold apply_batch, batch_put. by rewrite foldl_app. Qed.

Lemma apply_batch_delete `{Countable K} (b : WriteBatch K) k (m : gmap K bytes) :
  apply_batch (batch_delete b k) m = delete k (apply_batch b m).
Proof. unfold apply_batch, batch_delete. by rewrite foldl_app. Qed.

(** ** The interface *)

Class LevelDB (K : Type) `{Countable K} := {
  DB : Type;
  Iterator : Type;
  Open : DB;
  Write : DB → WriteBatch K → DB;
  Get : DB → K → option bytes;
  NewIterator : DB → Iterator;
  SeekToFirst : Iterator → Iterator;
  Seek : K → Iterator → Iterator;
  Next : Iterator → Iterator;
  Valid : Iterator → bool;
  it_key : Iterator → res K;
  it_value : Iterator → res bytes;
  contents : DB → gmap K bytes;
  snapshot : Iterator → list (K * bytes);
  pending : Iterator → list (K * bytes);
}.
Arguments DB K {_ _ _}.
Arguments Iterator K {_ _ _}.

Class LevelDBLaws (K : Type) `{Comparator K} `{LevelDB K} : Prop := {
  open_contents : contents Open = ∅;
  write_contents (d : DB K) b : contents (Write d b) = apply_batch b (contents d);
  get_contents (d : DB K) k : Get d k = contents d !! k;
  snapshot_contents (d : DB K) : snapshot (NewIterator d) ≡ₚ map_to_list (contents d);
  snapshot_sorted (d : DB K) : StronglySorted (λ e e', key_lt e.1 e'.1) (snapshot (NewIterator d));
  snapshot_seek_first (it : Iterator K) : snapshot (SeekToFirst it) = snapshot it;
  snapshot_seek k (it : Iterator K) : snapshot (Seek k it) = snapshot it;
  pending_seek_first (it : Iterator K) : pending (SeekToFirst it) = snapshot it;
  pending_seek k (it : Iterator K) :
    pending (Seek k it) = drop_while (λ e, bool_decide (key_lt e.1 k)) (snapshot it);
  pending_next (it : Iterator K) e l : pending it = e :: l → pending (Next it) = l;
  valid_pending (it : Iterator K) : Valid it = negb (bool_decide (pending it = []));
  key_pending (it : Iterator K) e l : pending it = e :: l → it_key it = Ok e.1;
  value_pending (it : Iterator K) e l : pending it = e :: l → it_value it = Ok e.2;
}.

(** ** Scanning a key range *)

Section Order.
Context `{ComparatorLaws K}.

Lemma compare_refl (a : K) : Compare a a = Eq.
Proof. by apply compare_eq. Qed.

Lemma key_le_or (a b : K) : key_le a b ↔ key_lt a b ∨ a = b.
Proof.
  unfold key_le, key_lt. rewrite <- compare_eq.
  destruct (Compare a b); intuition congruence.
Qed.

Lemma key_lt_not_le (a b : K) : key_lt a b ↔ ¬ key_le b a.
Proof.
  unfold key_le, key_lt. rewrite (compare_antisym a b).
  destruct (Compare a b); simpl; naive_solver.
Qed.

Lemma key_lt_le_trans (a b c : K) : key_lt a b → key_le b c → key_lt a c.
Proof. rewrite (key_le_or b c). intros ? [?| <-]; [by eapply compare_trans|done]. Qed.

Lemma key_le_lt_trans (a b c : K) : key_le a b → key_lt b c → key_lt a c.
Proof. rewrite (key_le_or a b). intros [?| ->] ?; [by eapply compare_trans|done]. Qed.

Lemma key_lt_le (a b : K) : key_lt a b → key_le a b.
Proof. rewrite key_le_or. by left. Qed.

Lemma key_le_total (a b : K) : key_le a b ∨ key_le b a.
Proof.
  unfold key_le. rewrite (compare_antisym a b). destruct (Compare a b); simpl; naive_solver.
Qed.

Lemma key_le_trans (a b c : K) : key_le a b → key_le b c → key_le a c.
Proof.
  rewrite (key_le_or a b). intros [?| ->] ?; [|done].
  by eapply key_lt_le, key_lt_le_trans.
Qed.

Definition entry_lt (e e' : K * bytes) : Prop := key_lt e.1 e'.1.

(** On a sorted list skipping the small keys keeps exactly the others. *)
Lemma drop_while_sorted (lo : K) (l : list (K * bytes)) :
  StronglySorted entry_lt l →
  drop_while (λ e, bool_decide (key_lt e.1 lo)) l = filter (λ e, key_le lo e.1) l.
Proof.
  induction 1 as [|e l Hs IH Hall]; [done|]. cbn [drop_while].
  case_bool_decide as Hlt.
  - rewrite filter_cons_False by (by apply key_lt_not_le). done.
  - assert (Hle : key_le lo e.1) by (destruct (decide (key_le lo e.1)); [done|];
      by rewrite <- key_lt_not_le in *).
    rewrite filter_cons_True by done. f_equal. symmetry. apply filter_keep_all.
    eapply Forall_impl; [exact Hall|]. intros e' He'. simpl in He'.
    by eapply key_lt_le, key_le_lt_trans.
Qed.

Lemma take_while_sorted (hi : K) (l : list (K * bytes)) :
  StronglySorted entry_lt l →
  take_while (λ e, bool_decide (key_le e.1 hi)) l = filter (λ e, key_le e.1 hi) l.
Proof.
  induction 1 as [|e l Hs IH Hall]; [done|]. cbn [take_while].
  case_bool_decide as Hle.
  - rewrite filter_cons_True by done. by f_equal.
  - rewrite filter_cons_False by done. symmetry. apply filter_keep_none.
    eapply Forall_impl; [exact Hall|]. intros e' He' Hle'. apply Hle.
    by eapply key_lt_le, key_lt_le_trans.
Qed.

Lemma StronglySorted_filter (P : K * bytes → Prop) `{∀ e, Decision (P e)} l :
  StronglySorted entry_lt l → StronglySorted entry_lt (filter P l).
Proof.
  induction 1 as [|e l Hs IH Hall]; [constructor|].
  rewrite filter_cons. case_decide; [|done]. constructor; [done|].
  by apply Forall_filter_sub.
Qed.

End Order.

Section Scan.
Context `{ComparatorLaws K} `{LK : LevelDB K} `{!LevelDBLaws K}.

Definition in_range (lo hi : K) (e : K * bytes) : Prop := key_le lo e.1 ∧ key_le e.1 hi.

#[global] Instance in_range_dec lo hi e : Decision (in_range lo hi e).
Proof. unfold in_range. apply _. Defined.

(** The entries a range scan of the database visits, in order. *)
Definition scan (d : DB K) (lo hi : K) : list (K * bytes) :=
  take_while (λ e, bool_decide (key_le e.1 hi)) (pending (Seek lo (NewIterator d))).

Lemma scan_filter (d : DB K) lo hi :
  scan d lo hi = filter (in_range lo hi) (snapshot (NewIterator d)).
Proof.
  unfold scan. pose proof (snapshot_sorted d) as Hs.
  rewrite pending_seek, drop_while_sorted by done.
  rewrite take_while_sorted by (by apply StronglySorted_filter).
  rewrite list_filter_filter. apply list_filter_iff. intros e. unfold in_range. tauto.
Qed.

Lemma elem_of_scan (d : DB K) lo hi k v :
  (k, v) ∈ scan d lo hi ↔ contents d !! k = Some v ∧ key_le lo k ∧ key_le k hi.
Proof.
  rewrite scan_filter, list_elem_of_filter, (snapshot_contents d), elem_of_map_to_list.
  unfold in_range. simpl. tauto.
Qed.

Lemma scan_nodup (d : DB K) lo hi : NoDup (scan d lo hi).*1.
Proof.
  rewrite scan_filter.
  pose proof (StronglySorted_filter (in_range lo hi) _ (snapshot_sorted d)) as Hs.
  induction Hs as [|e l Hs IH Hall]; simpl; constructor; [|done].
  rewrite list_elem_of_fmap. intros (e' & Heq & Hin).
  rewrite Forall_forall in Hall. specialize (Hall e' Hin). unfold entry_lt, key_lt in Hall.
  rewrite Heq, compare_refl in Hall. done.
Qed.

(** What an iterator walks is determined by the map, not by the handle. *)
Lemma snapshot_same (d d' : DB K) :
  contents d = contents d' → snapshot (NewIterator d) = snapshot (NewIterator d').
Proof.
  intros E. apply (StronglySorted_unique_strong entry_lt).
  - intros e e' _ _ Hlt Hlt'. apply key_lt_not_le in Hlt. by destruct Hlt; apply key_lt_le.
  - apply snapshot_sorted.
  - apply snapshot_sorted.
  - by rewrite !snapshot_contents, E.
Qed.

Lemma length_snapshot (d : DB K) : length (snapshot (NewIterator d)) = size (contents d).
Proof. by rewrite (snapshot_contents d), length_map_to_list. Qed.

End Scan.

(** ** A database that satisfies the laws

    The map itself, sorted when an iterator is created. *)

Module MapDB.
Section MapDB.
Context `{Countable K} `{!Comparator K} `{!ComparatorLaws K}.

Record iterator := mkIterator { snap : list (K * bytes); pend : list (K * bytes) }.

Definition entry_le (e e' : K * bytes) : Prop := key_le e.1 e'.1.

#[global] Instance entry_le_dec e e' : Decision (entry_le e e').
Proof. unfold entry_le. apply _. Defined.

Definition sorted_entries (m : gmap K bytes) : list (K * bytes) :=
  merge_sort entry_le (map_to_list m).

Definition head_res {A B} (f : A → B) (l : list A) : res B :=
  match l with
  | [] => Throw (UndefinedBehaviour "invalid iterator")
  | x :: _ => Ok (f x)
  end.

#[global] Instance map_db : LevelDB K := {
  DB := gmap K bytes;
  Iterator := iterator;
  Open := ∅;
  Write d b := apply_batch b d;
  Get d k := d !! k;
  NewIterator d := mkIterator (sorted_entries d) [];
  SeekToFirst it := mkIterator (snap it) (snap it);
  Seek k it := mkIterator (snap it) (drop_while (λ e, bool_decide (key_lt e.1 k)) (snap it));
  Next it := mkIterator (snap it) (tail (pend it));
  Valid it := negb (bool_decide (pend it = []));
  it_key it := head_res fst (pend it);
  it_value it := head_res snd (pend it);
  contents d := d;
  snapshot := snap;
  pending := pend;
}.

#[global] Instance entry_le_total : Total entry_le.
Proof. intros e e'. unfold entry_le. apply key_le_total. Qed.

#[global] Instance entry_le_trans : Transitive entry_le.
Proof. intros e1 e2 e3. unfold entry_le. apply key_le_trans. Qed.

Lemma sorted_entries_sorted (m : gmap K bytes) :
  StronglySorted entry_lt (sorted_entries m).
Proof.
  assert (Hnd : NoDup (sorted_entries m).*1).
  { unfold sorted_entries. rewrite merge_sort_Permutation. apply NoDup_fst_map_to_list. }
  assert (Hs : StronglySorted entry_le (sorted_entries m))
    by apply (StronglySorted_merge_sort _).
  revert Hnd. induction Hs as [|e l Hs IH Hall]; simpl; [constructor|].
  rewrite NoDup_cons. intros [Hnin Hnd]. constructor; [by apply IH|].
  rewrite Forall_forall in Hall |- *. intros e' He'.
  destruct (proj1 (key_le_or e.1 e'.1) (Hall e' He')) as [?|Heq]; [done|].
  destruct Hnin. rewrite Heq. by apply list_elem_of_fmap_2.
Qed.

#[global] Instance map_db_laws : LevelDBLaws K.
Proof.
  split; try done.
  - intros d. apply merge_sort_Permutation.
  - apply sorted_entries_sorted.
  - intros it e l E. simpl in *. by rewrite E.
  - intros it e l E. simpl in *. by rewrite E.
  - intros it e l E. simpl in *. by rewrite E.
Qed.

End MapDB.
End MapDB.
