(* ===== verification/Keys.v ===== *)
(** * Keys: index keys and pattern queries of persistence/leveldb_persistence.cc

    A statement is stored in four databases under a 64-byte key, the Murmur3
    hashes of its four serialized terms in the order of that index.
    [computeKey], [orderKey], [PatternQuery] and [KeyComparator] are translated
    from the source; C buffers are byte lists of 64 bytes.

    The theorems show that reordering the SPOC key gives the key that hashing
    in the other order would, that [KeyComparator] is a total order on keys,
    and that the key range of a pattern query holds exactly the keys that agree
    with the hashes of the pattern's leading fields. *)

From Stdlib Require Import ZArith Lia.
From S2P Require Import Prelude Words Murmur3 Messages LevelDB.

Definition KEY_LENGTH : nat := 16.

(** The [#ifdef __x86_64__] of [computeKey]. *)
Inductive arch := arch_x86_64 | arch_other.

Definition hash128 (a : arch) (m : bytes) : bytes :=
  match a with
  | arch_x86_64 => MurmurHash3_x64_128 m 13
  | arch_other => MurmurHash3_x86_128 m 13
  end.

Fixpoint computeKey_loop (ar : arch) (ms : list (option bytes)) (offset : nat)
    (result : bytes) : bytes :=
  match ms with
  | [] => result
  | Some m :: ms =>
      computeKey_loop ar ms (offset + KEY_LENGTH) (memcpy_at result offset (hash128 ar m))
  | None :: _ => result
  end.

Definition computeKey (ar : arch) (a b c d : option bytes) (result : bytes) : bytes :=
  computeKey_loop ar [a; b; c; d] 0 result.

Inductive Position := Pos_S | Pos_P | Pos_O | Pos_C.

#[global] Instance Position_eq_dec : EqDecision Position.
Proof. solve_decision. Defined.

Definition position_value (p : Position) : nat :=
  match p with Pos_S => 0 | Pos_P => 1 | Pos_O => 2 | Pos_C => 3 end.

Fixpoint orderKey_loop (src : bytes) (ms : list Position) (offset : nat) (dest : bytes) : bytes :=
  match ms with
  | [] => dest
  | m :: ms =>
      orderKey_loop src ms (offset + KEY_LENGTH)
        (memcpy_at dest offset
           (take KEY_LENGTH (drop (position_value m * KEY_LENGTH) src)))
  end.

Definition orderKey (dest src : bytes) (a b c d : Position) : bytes :=
  orderKey_loop src [a; b; c; d] 0 dest.

(** ** PatternQuery *)

Inductive IndexType := SPOC | CSPO | OPSC | PCOS.

#[global] Instance IndexType_eq_dec : EqDecision IndexType.
Proof. solve_decision. Defined.

Record PatternQuery := mkPatternQuery {
  pq_s : option bytes;
  pq_p : option bytes;
  pq_o : option bytes;
  pq_c : option bytes;
  type_ : IndexType;
}.

Definition newPatternQuery `{Protobuf} (pattern : Statement) : PatternQuery :=
  let s := if has_subject pattern then Some (SerializeToString (subject pattern)) else None in
  let p := if has_predicate pattern then Some (SerializeToString (predicate pattern)) else None in
  let o := if has_object pattern then Some (SerializeToString (object pattern)) else None in
  let c := if has_context pattern then Some (SerializeToString (context pattern)) else None in
  let t :=
    if has_subject pattern then
      if has_context pattern then CSPO else SPOC
    else if has_object pattern then OPSC
    else if has_predicate pattern then PCOS
    else if has_context pattern then CSPO
    else SPOC in
  mkPatternQuery s p o c t.

Definition pq_compute (ar : arch) (q : PatternQuery) (result : bytes) : bytes :=
  match type_ q with
  | SPOC => computeKey ar (pq_s q) (pq_p q) (pq_o q) (pq_c q) result
  | CSPO => computeKey ar (pq_c q) (pq_s q) (pq_p q) (pq_o q) result
  | OPSC => computeKey ar (pq_o q) (pq_p q) (pq_s q) (pq_c q) result
  | PCOS => computeKey ar (pq_p q) (pq_c q) (pq_o q) (pq_s q) result
  end.

(** [calloc(4 * KEY_LENGTH, 1)] *)
Definition calloc_key : bytes := replicate (4 * KEY_LENGTH) x00.

Definition MinKey (ar : arch) (q : PatternQuery) : bytes := pq_compute ar q calloc_key.

Definition MaxKey (ar : arch) (q : PatternQuery) : bytes :=
  pq_compute ar q (replicate (4 * KEY_LENGTH) xff).

Definition pq_Type (q : PatternQuery) : IndexType := type_ q.

Definition pq_setType (q : PatternQuery) (t : IndexType) : PatternQuery :=
  mkPatternQuery (pq_s q) (pq_p q) (pq_o q) (pq_c q) t.

(** ** Keys of the statement databases and their comparator *)

(** [leveldb::Slice(k, 4 * KEY_LENGTH)]: the 64 bytes at the pointer. *)
Definition key64 : Type := dsig (λ b : bytes, length b = 4 * KEY_LENGTH).

Definition Slice (buf : bytes) : key64 :=
  dexist (resize (4 * KEY_LENGTH) x00 buf) (length_resize _ _ _).

Fixpoint memcmp (n : nat) (a b : bytes) : comparison :=
  match n, a, b with
  | S n, x :: a, y :: b =>
      match Z.compare (byte_val x) (byte_val y) with
      | Eq => memcmp n a b
      | c => c
      end
  | _, _, _ => Eq
  end.

#[global] Instance KeyComparator_Compare : Comparator key64 :=
  λ a b, memcmp (4 * KEY_LENGTH) (`a) (`b).

(** ** The abstract view of a key

    The order of the terms in each index, the serialized terms of a statement
    and those a pattern fixes. *)

Definition index_order (t : IndexType) : list Position :=
  match t with
  | SPOC => [Pos_S; Pos_P; Pos_O; Pos_C]
  | CSPO => [Pos_C; Pos_S; Pos_P; Pos_O]
  | OPSC => [Pos_O; Pos_P; Pos_S; Pos_C]
  | PCOS => [Pos_P; Pos_C; Pos_O; Pos_S]
  end.

Definition term_buf `{Protobuf} (st : Statement) (p : Position) : bytes :=
  match p with
  | Pos_S => SerializeToString (subject st)
  | Pos_P => SerializeToString (predicate st)
  | Pos_O => SerializeToString (object st)
  | Pos_C => SerializeToString (context st)
  end.

Definition pattern_has (pattern : Statement) (p : Position) : bool :=
  match p with
  | Pos_S => has_subject pattern
  | Pos_P => has_predicate pattern
  | Pos_O => has_object pattern
  | Pos_C => has_context pattern
  end.

Definition key_bytes `{Protobuf} (ar : arch) (t : IndexType) (st : Statement) : bytes :=
  mjoin ((λ p, hash128 ar (term_buf st p)) <$> index_order t).

(** The key of a statement in an index. *)
Definition stmt_key `{Protobuf} (ar : arch) (t : IndexType) (st : Statement) : key64 :=
  Slice (key_bytes ar t st).

(** The fields of a pattern its index uses: the leading ones that are set. *)
Definition bound_positions (t : IndexType) (pattern : Statement) : list Position :=
  take_while (pattern_has pattern) (index_order t).

(** ** Lemmas: buffers *)

Lemma length_hash128 ar m : length (hash128 ar m) = KEY_LENGTH.
Proof. destruct ar; [apply length_MurmurHash3_x64_128 | apply length_MurmurHash3_x86_128]. Qed.

Fixpoint some_prefix {A} (l : list (option A)) : list A :=
  match l with Some x :: l => x :: some_prefix l | _ => [] end.

(** [computeKey] overwrites the buffer with the hashes of the leading terms. *)
Lemma computeKey_loop_spec ar ms pre buf :
  length buf = length ms * KEY_LENGTH →
  computeKey_loop ar ms (length pre) (pre ++ buf) =
  pre ++ mjoin (hash128 ar <$> some_prefix ms)
      ++ drop (length (some_prefix ms) * KEY_LENGTH) buf.
Proof.
  revert pre buf; induction ms as [|[m|] ms IH]; intros pre buf Hlen; simpl; try done.
  simpl in Hlen.
  rewrite <- (take_drop KEY_LENGTH buf) at 1.
  rewrite memcpy_at_app by (rewrite length_hash128, length_take; unfold KEY_LENGTH in *; lia).
  rewrite app_assoc.
  replace (length pre + KEY_LENGTH) with (length (pre ++ hash128 ar m))
    by (rewrite length_app, length_hash128; done).
  rewrite IH by (rewrite length_drop; unfold KEY_LENGTH in *; lia).
  by rewrite <- !app_assoc, drop_drop.
Qed.

Lemma computeKey_spec ar a b c d buf :
  length buf = 4 * KEY_LENGTH →
  computeKey ar a b c d buf =
  mjoin (hash128 ar <$> some_prefix [a; b; c; d])
    ++ drop (length (some_prefix [a; b; c; d]) * KEY_LENGTH) buf.
Proof. intros H. apply (computeKey_loop_spec ar [a; b; c; d] [] buf). done. Qed.

(** With four terms the result does not depend on the buffer. *)
Lemma computeKey_full ar a b c d buf :
  length buf = 4 * KEY_LENGTH →
  computeKey ar (Some a) (Some b) (Some c) (Some d) buf =
  hash128 ar a ++ hash128 ar b ++ hash128 ar c ++ hash128 ar d.
Proof.
  intros H. rewrite computeKey_spec by done. cbn [some_prefix fmap list_fmap mjoin list_join length].
  rewrite drop_ge by lia. by rewrite !app_nil_r.
Qed.

Section OrderKey.
Context (src : bytes) (blk : Position → bytes).
Hypothesis Hblk : ∀ p, length (blk p) = KEY_LENGTH.
Hypothesis Hsrc : src = blk Pos_S ++ blk Pos_P ++ blk Pos_O ++ blk Pos_C.

Lemma block_at p : take KEY_LENGTH (drop (position_value p * KEY_LENGTH) src) = blk p.
Proof.
  rewrite Hsrc.
  assert (Hd : ∀ q r, drop KEY_LENGTH (blk q ++ r) = r)
    by (intros q r; by rewrite <- (Hblk q), drop_app_length).
  assert (Ht : ∀ q r, take KEY_LENGTH (blk q ++ r) = blk q)
    by (intros q r; by rewrite <- (Hblk q), take_app_length).
  destruct p; cbn [position_value Nat.mul].
  - by rewrite drop_0, Ht.
  - by rewrite Nat.add_0_r, Hd, Ht.
  - by rewrite Nat.add_0_r, <- drop_drop, !Hd, Ht.
  - rewrite Nat.add_0_r, <- !drop_drop, !Hd. rewrite <- (Hblk Pos_C). apply take_ge. done.
Qed.

Lemma orderKey_loop_spec ms pre buf :
  length buf = length ms * KEY_LENGTH →
  orderKey_loop src ms (length pre) (pre ++ buf) = pre ++ mjoin (blk <$> ms).
Proof.
  revert pre buf; induction ms as [|m ms IH]; intros pre buf Hlen; simpl.
  - destruct buf; [|done]. by rewrite app_nil_r.
  - simpl in Hlen. rewrite block_at.
    rewrite <- (take_drop KEY_LENGTH buf) at 1.
    rewrite memcpy_at_app by (rewrite Hblk, length_take; unfold KEY_LENGTH in *; lia).
    rewrite app_assoc.
    replace (length pre + KEY_LENGTH) with (length (pre ++ blk m))
      by (rewrite length_app, Hblk; done).
    rewrite IH by (rewrite length_drop; unfold KEY_LENGTH in *; lia). by rewrite <- app_assoc.
Qed.

Lemma orderKey_spec dest a b c d :
  length dest = 4 * KEY_LENGTH →
  orderKey dest src a b c d = blk a ++ blk b ++ blk c ++ blk d.
Proof.
  intros H. unfold orderKey. pose proof (orderKey_loop_spec [a; b; c; d] [] dest H) as E.
  simpl in E. rewrite app_nil_r in E. exact E.
Qed.
End OrderKey.

Lemma length_calloc_key : length calloc_key = 4 * KEY_LENGTH.
Proof. apply length_replicate. Qed.

#[export] Hint Resolve length_hash128 length_calloc_key : marmotta.

(** C26. [orderKey] on a computed SPOC key gives the same bytes as hashing the
    four terms again in the order of the target index, whatever was in the two
    buffers, for any permutation of the positions. *)
Theorem orderKey_computeKey (ar : arch) (term : Position → bytes) (a b c d : Position)
    (dest buf buf' : bytes) :
  length dest = 4 * KEY_LENGTH → length buf = 4 * KEY_LENGTH → length buf' = 4 * KEY_LENGTH →
  orderKey dest (computeKey ar (Some (term Pos_S)) (Some (term Pos_P))
                               (Some (term Pos_O)) (Some (term Pos_C)) buf) a b c d =
  computeKey ar (Some (term a)) (Some (term b)) (Some (term c)) (Some (term d)) buf'.
Proof.
  intros Hd Hb Hb'. rewrite !computeKey_full by done.
  apply (orderKey_spec _ (λ p, hash128 ar (term p))); auto with marmotta.
Qed.

Lemma orderKey_computeKey_witness :
  orderKey calloc_key
    (computeKey arch_x86_64 (Some [x01]) (Some [x02]) (Some [x03]) (Some [x04]) calloc_key)
    Pos_C Pos_S Pos_P Pos_O =
  computeKey arch_x86_64 (Some [x04]) (Some [x01]) (Some [x02]) (Some [x03]) calloc_key.
Proof.
  apply (orderKey_computeKey arch_x86_64
    (λ p, match p with Pos_S => [x01] | Pos_P => [x02] | Pos_O => [x03] | Pos_C => [x04] end)
    Pos_C Pos_S Pos_P Pos_O); reflexivity.
Defined.

(** ** Lemmas: the comparator *)

Lemma memcmp_eq n a b :
  length a = n → length b = n → memcmp n a b = Eq ↔ a = b.
Proof.
  revert a b; induction n as [|n IH]; intros [|x a] [|y b] Ha Hb; simpl in *; try done.
  destruct (Z.compare_spec (byte_val x) (byte_val y)) as [E|E|E].
  - apply byte_val_inj in E. subst y. rewrite IH by lia. intuition congruence.
  - split; [done|]. intros [= -> ->]. lia.
  - split; [done|]. intros [= -> ->]. lia.
Qed.

Lemma memcmp_antisym n a b : memcmp n b a = CompOpp (memcmp n a b).
Proof.
  revert a b; induction n as [|n IH]; intros [|x a] [|y b]; simpl; try done.
  rewrite (Z.compare_antisym (byte_val x) (byte_val y)).
  destruct (Z.compare (byte_val x) (byte_val y)); simpl; auto.
Qed.

Lemma memcmp_trans n a b c :
  length a = n → length b = n → length c = n →
  memcmp n a b = Lt → memcmp n b c = Lt → memcmp n a c = Lt.
Proof.
  revert a b c; induction n as [|n IH]; intros [|x a] [|y b] [|z c] Ha Hb Hc;
    simpl in *; try done.
  destruct (Z.compare_spec (byte_val x) (byte_val y));
  destruct (Z.compare_spec (byte_val y) (byte_val z));
  destruct (Z.compare_spec (byte_val x) (byte_val z)); try done; try lia.
  apply IH; lia.
Qed.

Lemma key64_length (k : key64) : length (`k) = 4 * KEY_LENGTH.
Proof. apply (proj2_dsig k). Qed.

#[global] Instance KeyComparator_laws : ComparatorLaws key64.
Proof.
  split; unfold Compare, KeyComparator_Compare.
  - intros a b. rewrite memcmp_eq by apply key64_length. symmetry. apply dsig_eq.
  - intros a b. apply memcmp_antisym.
  - intros a b c. apply memcmp_trans; apply key64_length.
Qed.

Lemma memcmp_min n m k : length k = m → n = m → memcmp n (replicate m x00) k ≠ Gt.
Proof.
  intros Hk ->. revert k Hk; induction m as [|m IH]; intros [|y k] Hk; try done.
  cbn [replicate memcmp]. simpl in Hk. pose proof (byte_val_min y). destruct (Z.compare_spec (byte_val x00) (byte_val y)); [|done|lia].
  apply IH. lia.
Qed.

Lemma memcmp_max n m k : length k = m → n = m → memcmp n k (replicate m xff) ≠ Gt.
Proof.
  intros Hk ->. revert k Hk; induction m as [|m IH]; intros [|y k] Hk; try done.
  cbn [replicate memcmp]. simpl in Hk. pose proof (byte_val_max y). destruct (Z.compare_spec (byte_val y) (byte_val xff)); [|done|lia].
  apply IH. lia.
Qed.

(** The keys between [p 00..00] and [p FF..FF] are those that start with [p]. *)
Lemma memcmp_range p m k :
  length k = length p + m →
  (memcmp (length p + m) (p ++ replicate m x00) k ≠ Gt ∧
   memcmp (length p + m) k (p ++ replicate m xff) ≠ Gt) ↔ take (length p) k = p.
Proof.
  revert k; induction p as [|x p IH]; intros k Hk.
  - rewrite take_0. split; [done|]. intros _. simpl in *.
    split; [by apply memcmp_min | by apply memcmp_max].
  - destruct k as [|y k]; [done|]. simpl in *.
    rewrite (Z.compare_antisym (byte_val x) (byte_val y)).
    destruct (Z.compare_spec (byte_val x) (byte_val y)) as [E|E|E]; simpl.
    + apply byte_val_inj in E. subst y. rewrite IH by lia. intuition congruence.
    + split; [by intros [_ ?]|]. intros [= -> _]. lia.
    + split; [by intros [? _]|]. intros [= -> _]. lia.
Qed.

(** ** Lemmas: the range of a pattern query *)

Lemma Slice_val buf : length buf = 4 * KEY_LENGTH → proj1_sig (Slice buf) = buf.
Proof.
  intros H. change (resize (4 * KEY_LENGTH) x00 buf = buf). by rewrite <- H, resize_all.
Qed.

Lemma Slice_inj b1 b2 :
  length b1 = 4 * KEY_LENGTH → length b2 = 4 * KEY_LENGTH → Slice b1 = Slice b2 → b1 = b2.
Proof. intros H1 H2 E. by rewrite <- (Slice_val b1 H1), <- (Slice_val b2 H2), E. Qed.

Section Blocks.
Context {A : Type} (f g : A → bytes).
Hypothesis Hf : ∀ x, length (f x) = KEY_LENGTH.
Hypothesis Hg : ∀ x, length (g x) = KEY_LENGTH.

Lemma length_blocks l : length (mjoin (f <$> l)) = length l * KEY_LENGTH.
Proof.
  induction l as [|x l IH]; [done|].
  change (length (f x ++ mjoin (f <$> l)) = KEY_LENGTH + length l * KEY_LENGTH).
  by rewrite length_app, Hf, IH.
Qed.

Lemma blocks_eq l : mjoin (f <$> l) = mjoin (g <$> l) ↔ Forall (λ x, f x = g x) l.
Proof.
  induction l as [|x l IH]; [done|]. rewrite Forall_cons, <- IH.
  change (f x ++ mjoin (f <$> l) = g x ++ mjoin (g <$> l) ↔
          f x = g x ∧ mjoin (f <$> l) = mjoin (g <$> l)). split.
  - intros E. apply app_inj_len in E; [done|]. by rewrite Hf, Hg.
  - by intros [-> ->].
Qed.
End Blocks.

Section Range.
Context `{Protobuf} (ar : arch).

Definition pattern_buf (pattern : Statement) (p : Position) : option bytes :=
  if pattern_has pattern p then Some (term_buf pattern p) else None.

Lemma some_prefix_pattern pattern l :
  some_prefix (pattern_buf pattern <$> l) = term_buf pattern <$> take_while (pattern_has pattern) l.
Proof.
  induction l as [|p l IH]; [done|]. cbn. unfold pattern_buf at 1.
  destruct (pattern_has pattern p); [|done]. cbn. by f_equal.
Qed.

Lemma pq_compute_spec pattern buf :
  length buf = 4 * KEY_LENGTH →
  let q := newPatternQuery pattern in
  let ps := bound_positions (type_ q) pattern in
  pq_compute ar q buf =
  mjoin ((λ p, hash128 ar (term_buf pattern p)) <$> ps) ++ drop (length ps * KEY_LENGTH) buf.
Proof.
  intros Hb q ps.
  assert (E : pq_compute ar q buf =
              computeKey_loop ar (pattern_buf pattern <$> index_order (type_ q)) 0 buf).
  { unfold pq_compute. by destruct (type_ q). }
  rewrite E. pose proof (computeKey_loop_spec ar (pattern_buf pattern <$> index_order (type_ q)) []) as L.
  cbn [length app] in L. rewrite L by (by destruct (type_ q)).
  rewrite some_prefix_pattern, <- list_fmap_compose, length_fmap. done.
Qed.

Lemma length_key_bytes t st : length (key_bytes ar t st) = 4 * KEY_LENGTH.
Proof. unfold key_bytes. rewrite length_blocks by auto with marmotta. by destruct t. Qed.

Lemma length_bound_positions t pattern : length (bound_positions t pattern) ≤ 4.
Proof. etrans; [apply length_take_while|]. by destruct t. Qed.

(** The prefix of a statement's key that a pattern query compares. *)
Lemma key_bytes_prefix t pattern st :
  take (length (bound_positions t pattern) * KEY_LENGTH) (key_bytes ar t st) =
  mjoin ((λ p, hash128 ar (term_buf st p)) <$> bound_positions t pattern).
Proof.
  unfold key_bytes, bound_positions.
  destruct (take_while_prefix (pattern_has pattern) (index_order t)) as [k Hk].
  rewrite Hk at 2. rewrite fmap_app, join_app.
  rewrite <- (length_blocks (λ p, hash128 ar (term_buf st p))) by auto with marmotta.
  apply take_app_length.
Qed.

Lemma length_pq_compute pattern buf :
  length buf = 4 * KEY_LENGTH →
  length (pq_compute ar (newPatternQuery pattern) buf) = 4 * KEY_LENGTH.
Proof.
  intros Hb. rewrite pq_compute_spec by done.
  rewrite length_app, length_drop, length_blocks by auto with marmotta.
  pose proof (length_bound_positions (type_ (newPatternQuery pattern)) pattern).
  unfold KEY_LENGTH in *. lia.
Qed.

(** The keys between the bounds of a pattern query: those whose leading blocks
    are the hashes of the fields the index uses. *)
Lemma key_range pattern (k : key64) :
  let q := newPatternQuery pattern in
  let ps := bound_positions (type_ q) pattern in
  key_le (Slice (MinKey ar q)) k ∧ key_le k (Slice (MaxKey ar q)) ↔
  take (length ps * KEY_LENGTH) (proj1_sig k) =
  mjoin ((λ p, hash128 ar (term_buf pattern p)) <$> ps).
Proof.
  intros q ps. unfold key_le, Compare, KeyComparator_Compare, MinKey, MaxKey.
  rewrite !Slice_val by (apply length_pq_compute; apply length_replicate).
  unfold q. rewrite !pq_compute_spec by apply length_replicate. fold q. fold ps.
  unfold calloc_key. rewrite !drop_replicate.
  pose proof (length_bound_positions (type_ q) pattern) as Hle. fold ps in Hle.
  set (p := mjoin _).
  assert (Hp : length p = length ps * KEY_LENGTH)
    by (apply length_blocks; auto with marmotta).
  pose proof (memcmp_range p (4 * KEY_LENGTH - length ps * KEY_LENGTH) (proj1_sig k)) as R.
  replace (length p + (4 * KEY_LENGTH - length ps * KEY_LENGTH)) with (4 * KEY_LENGTH) in R
    by (unfold KEY_LENGTH in *; lia).
  rewrite R by apply key64_length. by rewrite Hp.
Qed.

Lemma key_in_range pattern st :
  let q := newPatternQuery pattern in
  let t := type_ q in
  key_le (Slice (MinKey ar q)) (stmt_key ar t st) ∧
  key_le (stmt_key ar t st) (Slice (MaxKey ar q)) ↔
  Forall (λ p, hash128 ar (term_buf st p) = hash128 ar (term_buf pattern p))
    (bound_positions t pattern).
Proof.
  intros q t. unfold q. rewrite key_range. fold q. fold t.
  unfold stmt_key. rewrite Slice_val by apply length_key_bytes.
  rewrite key_bytes_prefix. apply blocks_eq; auto with marmotta.
Qed.

(** The key of a statement in any index is a reordering of its SPOC key. *)
Lemma stmt_key_eq t t' st st' :
  stmt_key ar t st = stmt_key ar t st' ↔ stmt_key ar t' st = stmt_key ar t' st'.
Proof.
  assert (E : ∀ t, stmt_key ar t st = stmt_key ar t st' ↔
    ∀ p, hash128 ar (term_buf st p) = hash128 ar (term_buf st' p)).
  { intros u. unfold stmt_key. split.
    - intros Hk%Slice_inj; [|apply length_key_bytes..].
      apply blocks_eq in Hk; [|auto with marmotta..]. rewrite Forall_forall in Hk.
      intros p. apply Hk. destruct u, p; simpl; set_solver.
    - intros Hp. f_equal. apply blocks_eq; [auto with marmotta..|]. by apply Forall_true. }
  by rewrite (E t), (E t').
Qed.
End Range.

(** Every field the pattern sets takes part in the range. *)
Definition index_covers (t : IndexType) (pattern : Statement) : bool :=
  forallb (λ p, implb (pattern_has pattern p) (bool_decide (p ∈ bound_positions t pattern)))
    [Pos_S; Pos_P; Pos_O; Pos_C].

(** C25. A pattern query scans, in the index [PatternQuery] selects, exactly the
    64-byte keys that start with the hashes of the pattern's fields that lead
    in the order of that index: [MinKey] and [MaxKey] are tight on both sides. *)
Theorem pattern_query_range `{Protobuf} (ar : arch) (pattern : Statement) (k : key64) :
  let q := newPatternQuery pattern in
  let ps := bound_positions (type_ q) pattern in
  key_le (Slice (MinKey ar q)) k ∧ key_le k (Slice (MaxKey ar q)) ↔
  take (length ps * KEY_LENGTH) (proj1_sig k) =
  mjoin ((λ p, hash128 ar (term_buf pattern p)) <$> ps).
Proof. apply key_range. Qed.

(** The index [PatternQuery] selects uses every field of the pattern except
    in two shapes: subject and object without predicate, and object with
    context but without subject.  In those the range covers more than the
    pattern asks for. *)
Theorem index_covers_iff `{Protobuf} (pattern : Statement) :
  index_covers (type_ (newPatternQuery pattern)) pattern = true ↔
  ¬ ((has_subject pattern = true ∧ has_predicate pattern = false ∧ has_object pattern = true) ∨
     (has_subject pattern = false ∧ has_object pattern = true ∧ has_context pattern = true)).
Proof.
  unfold index_covers, newPatternQuery, bound_positions, has_subject, has_predicate,
    has_object, has_context; simpl.
  destruct (subject_ pattern) eqn:Es, (predicate_ pattern) eqn:Ep, (object_ pattern) eqn:Eo,
    (context_ pattern) eqn:Ec; simpl;
    unfold pattern_has, has_subject, has_predicate, has_object, has_context;
    rewrite Es, Ep, Eo, Ec; vm_compute; intuition congruence.
Qed.
