(* ===== verification/Persistence.v ===== *)
(** * Persistence: class LevelDBPersistence (persistence/leveldb_persistence.cc)

    The state is the record of the seven databases.  Every public method and
    every private helper is a definition: the batches are explicit values, the
    iterators are implementations of the [CloseableIterator] interface, and
    methods that walk an iterator return [res].  The four (six) writer threads
    at the end of a mutation each write one batch to a database of their own;
    here they are one assignment per database, and Commit.v shows that every
    interleaving gives that result. *)

From Stdlib Require Import ZArith Lia.
From S2P Require Import Prelude Words Murmur3 Messages LevelDB Iterators Keys.
Local Open Scope Z_scope.

#[global] Instance key64_eq_dec : EqDecision key64.
Proof. unfold key64. apply _. Defined.
#[global] Instance key64_countable : Countable key64.
Proof. unfold key64, dsig. apply _. Defined.

(** ** Iterators over a database *)

Section LevelDBIterator.
Context {K : Type} `{LK : LevelDB K} {T : Type} `{Codec T}.

Record LevelDBIterator := mkLevelDBIterator {
  ldb_it : Iterator K;
  ldb_proto : T;
  ldb_parsed : bool;
}.

Definition newLevelDBIterator (dflt : T) (it : Iterator K) : LevelDBIterator :=
  mkLevelDBIterator (SeekToFirst it) dflt false.

Definition ldb_next (i : LevelDBIterator) : LevelDBIterator :=
  mkLevelDBIterator (Next (ldb_it i)) (ldb_proto i) false.

(** [operator*] and [operator->]: parse into [proto] unless [parsed] is set. *)
Definition ldb_deref (i : LevelDBIterator) : res (T * LevelDBIterator) :=
  if ldb_parsed i then Ok (ldb_proto i, i)
  else
    v ← it_value (ldb_it i);
    Ok (ParseFromString v, mkLevelDBIterator (ldb_it i) (ParseFromString v) (ldb_parsed i)).

Definition ldb_hasNext (i : LevelDBIterator) : bool := Valid (ldb_it i).

(** What an iterator yields for the entries [l] it has ahead. *)
Definition ldb_yield (i : LevelDBIterator) (l : list (K * bytes)) : list T :=
  match l with
  | [] => []
  | e :: l =>
      (if ldb_parsed i then ldb_proto i else ParseFromString e.2)
        :: ((λ e, ParseFromString e.2) <$> l)
  end.

#[global] Instance leveldb_iterator : CloseableIterator LevelDBIterator T := {
  next := ldb_next;
  deref := ldb_deref;
  hasNext := ldb_hasNext;
  elements i := ldb_yield i (pending (ldb_it i));
}.
End LevelDBIterator.
Arguments LevelDBIterator K {_ _ _} T.
Arguments mkLevelDBIterator {K _ _ LK T} _ _ _.

Section Persistence.
Context (ar : arch) `{PB : Protobuf}.
Context `{LK : !LevelDB key64} `{LB : !LevelDB bytes}.

Record StatementRangeIterator := mkStatementRangeIterator {
  sri_base : LevelDBIterator key64 Statement;
  loKey : key64;
  hiKey : key64;
}.

Definition newStatementRangeIterator (it : Iterator key64) (lo hi : key64) :
    StatementRangeIterator :=
  let base := newLevelDBIterator default_instance it in
  mkStatementRangeIterator
    (mkLevelDBIterator (Seek lo (ldb_it base)) (ldb_proto base) (ldb_parsed base)) lo hi.

Definition sri_hasNext (i : StatementRangeIterator) : bool :=
  if Valid (ldb_it (sri_base i)) then
    match it_key (ldb_it (sri_base i)) with
    | Ok k => bool_decide (key_le k (hiKey i))
    | _ => false
    end
  else false.

#[global] Instance statement_range_iterator :
    CloseableIterator StatementRangeIterator Statement := {
  next i := mkStatementRangeIterator (ldb_next (sri_base i)) (loKey i) (hiKey i);
  deref i :=
    '(st, b) ← ldb_deref (sri_base i);
    Ok (st, mkStatementRangeIterator b (loKey i) (hiKey i));
  hasNext := sri_hasNext;
  elements i :=
    ldb_yield (sri_base i)
      (take_while (λ e, bool_decide (key_le e.1 (hiKey i))) (pending (ldb_it (sri_base i))));
}.

(** ** State *)

Record LevelDBPersistence := mkPersistence {
  db_spoc : DB key64;
  db_cspo : DB key64;
  db_opsc : DB key64;
  db_pcos : DB key64;
  db_ns_prefix : DB bytes;
  db_ns_url : DB bytes;
  db_meta : DB bytes;
}.

(** The constructor on a directory without databases; Storage.v has it on any. *)
Definition newLevelDBPersistence : LevelDBPersistence :=
  mkPersistence Open Open Open Open Open Open Open.

(** The statement batches and the namespace batches of one operation. *)
Record StmtBatches := mkStmtBatches {
  b_spoc : WriteBatch key64;
  b_cspo : WriteBatch key64;
  b_opsc : WriteBatch key64;
  b_pcos : WriteBatch key64;
}.

Record NsBatches := mkNsBatches { b_prefix : WriteBatch bytes; b_url : WriteBatch bytes }.

Definition empty_stmt_batches : StmtBatches := mkStmtBatches [] [] [] [].
Definition empty_ns_batches : NsBatches := mkNsBatches [] [].

(** The writer threads, after all have been joined. *)
Definition write_stmts (p : LevelDBPersistence) (b : StmtBatches) : LevelDBPersistence :=
  mkPersistence (Write (db_spoc p) (b_spoc b)) (Write (db_cspo p) (b_cspo b))
    (Write (db_opsc p) (b_opsc b)) (Write (db_pcos p) (b_pcos b))
    (db_ns_prefix p) (db_ns_url p) (db_meta p).

Definition write_ns (p : LevelDBPersistence) (b : NsBatches) : LevelDBPersistence :=
  mkPersistence (db_spoc p) (db_cspo p) (db_opsc p) (db_pcos p)
    (Write (db_ns_prefix p) (b_prefix b)) (Write (db_ns_url p) (b_url b)) (db_meta p).

(** ** Namespaces *)

Definition AddNamespace (ns : Namespace) (b : NsBatches) : NsBatches :=
  let buffer := SerializeToString ns in
  mkNsBatches (batch_put (b_prefix b) (str_bytes (prefix ns)) buffer)
              (batch_put (b_url b) (str_bytes (ns_uri ns)) buffer).

Definition AddNamespaces {It} `{CloseableIterator It Namespace} (it : It)
    (p : LevelDBPersistence) : res (Z * LevelDBPersistence) :=
  '(b, count) ← for_each (λ '(b, count) ns, Ok (AddNamespace ns b, count + 1))
                  it (empty_ns_batches, 0);
  Ok (count, write_ns p b).

(** The [unique_ptr<NamespaceIterator>] that [GetNamespaces] returns. *)
Inductive NamespaceIterator :=
  | NsSingleton (i : SingletonIterator Namespace)
  | NsEmpty (i : EmptyIterator)
  | NsAll (i : LevelDBIterator bytes Namespace).

#[global] Instance namespace_iterator : CloseableIterator NamespaceIterator Namespace := {
  next i :=
    match i with
    | NsSingleton i => NsSingleton (next i)
    | NsEmpty i => NsEmpty (next (T:=Namespace) i)
    | NsAll i => NsAll (next i)
    end;
  deref i :=
    match i with
    | NsSingleton i => '(x, i) ← deref i; Ok (x, NsSingleton i)
    | NsEmpty i => '(x, i) ← deref i; Ok (x, NsEmpty i)
    | NsAll i => '(x, i) ← deref i; Ok (x, NsAll i)
    end;
  hasNext i :=
    match i with
    | NsSingleton i => hasNext i
    | NsEmpty i => hasNext (T:=Namespace) i
    | NsAll i => hasNext i
    end;
  elements i :=
    match i with
    | NsSingleton i => elements i
    | NsEmpty i => elements i
    | NsAll i => elements i
    end;
}.

Definition GetNamespaces_it (pattern : Namespace) (p : LevelDBPersistence) : NamespaceIterator :=
  let key_db :=
    if bool_decide (prefix pattern ≠ "")%string then Some (prefix pattern, db_ns_prefix p)
    else if bool_decide (ns_uri pattern ≠ "")%string then Some (ns_uri pattern, db_ns_url p)
    else None in
  match key_db with
  | Some (key, db) =>
      match Get db (str_bytes key) with
      | Some value => NsSingleton (newSingletonIterator (ParseFromString value))
      | None => NsEmpty mkEmptyIterator
      end
  | None => NsAll (newLevelDBIterator default_instance (NewIterator (db_ns_prefix p)))
  end.

Definition GetNamespaces {A} (pattern : Namespace)
    (callback : A → Namespace → res (bool * A)) (a : A) (p : LevelDBPersistence) : res A :=
  for_each_while callback (GetNamespaces_it pattern p) a.

Definition RemoveNamespace (pattern : Namespace) (b : NsBatches) (p : LevelDBPersistence) :
    res NsBatches :=
  GetNamespaces pattern
    (λ b ns,
      Ok (true, mkNsBatches (batch_delete (b_prefix b) (str_bytes (prefix ns)))
                            (batch_delete (b_url b) (str_bytes (ns_uri ns))))) b p.

(** ** Statements *)

(** The four keys [AddStatement] and [RemoveStatements] compute. *)
Definition spoc_key (st : Statement) : bytes :=
  computeKey ar (Some (SerializeToString (subject st))) (Some (SerializeToString (predicate st)))
    (Some (SerializeToString (object st))) (Some (SerializeToString (context st))) calloc_key.

Definition AddStatement (st : Statement) (b : StmtBatches) : StmtBatches :=
  let buffer := SerializeToString st in
  let k_spoc := spoc_key st in
  let k_cspo := orderKey calloc_key k_spoc Pos_C Pos_S Pos_P Pos_O in
  let k_opsc := orderKey calloc_key k_spoc Pos_O Pos_P Pos_S Pos_C in
  let k_pcos := orderKey calloc_key k_spoc Pos_P Pos_C Pos_O Pos_S in
  mkStmtBatches (batch_put (b_spoc b) (Slice k_spoc) buffer)
                (batch_put (b_cspo b) (Slice k_cspo) buffer)
                (batch_put (b_opsc b) (Slice k_opsc) buffer)
                (batch_put (b_pcos b) (Slice k_pcos) buffer).

Definition AddStatements {It} `{CloseableIterator It Statement} (it : It)
    (p : LevelDBPersistence) : res (Z * LevelDBPersistence) :=
  '(b, count) ← for_each (λ '(b, count) st, Ok (AddStatement st b, count + 1))
                  it (empty_stmt_batches, 0);
  Ok (count, write_stmts p b).

(** The database [GetStatements] reads for an index type. *)
Definition index_db (t : IndexType) (p : LevelDBPersistence) : DB key64 :=
  match t with
  | SPOC => db_spoc p
  | CSPO => db_cspo p
  | OPSC => db_opsc p
  | PCOS => db_pcos p
  end.

Definition GetStatements_it (pattern : Statement) (p : LevelDBPersistence) :
    StatementRangeIterator :=
  let query := newPatternQuery pattern in
  newStatementRangeIterator (NewIterator (index_db (pq_Type query) p))
    (Slice (MinKey ar query)) (Slice (MaxKey ar query)).

Definition GetStatements {A} (pattern : Statement)
    (callback : A → Statement → res (bool * A)) (a : A) (p : LevelDBPersistence) : res A :=
  for_each_while callback (GetStatements_it pattern p) a.

(** One result of the scan: delete it from the four indexes. *)
Definition RemoveStatement (st : Statement) (b : StmtBatches) : StmtBatches :=
  let k_spoc := spoc_key st in
  let k_cspo := orderKey calloc_key k_spoc Pos_C Pos_S Pos_P Pos_O in
  let k_opsc := orderKey calloc_key k_spoc Pos_O Pos_P Pos_S Pos_C in
  let k_pcos := orderKey calloc_key k_spoc Pos_P Pos_C Pos_O Pos_S in
  mkStmtBatches (batch_delete (b_spoc b) (Slice k_spoc))
                (batch_delete (b_cspo b) (Slice k_cspo))
                (batch_delete (b_opsc b) (Slice k_opsc))
                (batch_delete (b_pcos b) (Slice k_pcos)).

(** The private overload that collects into the given batches. *)
Definition RemoveStatements_batch (pattern : Statement) (b : StmtBatches)
    (p : LevelDBPersistence) : res (StmtBatches * Z) :=
  GetStatements pattern
    (λ '(b, count) st, Ok (true, (RemoveStatement st b, count + 1))) (b, 0) p.

Definition RemoveStatements (pattern : Statement) (p : LevelDBPersistence) :
    res (Z * LevelDBPersistence) :=
  '(b, count) ← RemoveStatements_batch pattern empty_stmt_batches p;
  Ok (count, write_stmts p b).

(** ** Update *)

Record UpdateStatistics := mkUpdateStatistics {
  added_stmts : Z;
  removed_stmts : Z;
  added_ns : Z;
  removed_ns : Z;
}.

Record UpdateState := mkUpdateState {
  u_stats : UpdateStatistics;
  u_stmts : StmtBatches;
  u_ns : NsBatches;
}.

Definition Update_step (p : LevelDBPersistence) (u : UpdateState) (req : UpdateRequest) :
    res UpdateState :=
  let s := u_stats u in
  match req with
  | stmt_added st =>
      Ok (mkUpdateState
            (mkUpdateStatistics (added_stmts s + 1) (removed_stmts s) (added_ns s) (removed_ns s))
            (AddStatement st (u_stmts u)) (u_ns u))
  | stmt_removed pattern =>
      '(b, n) ← RemoveStatements_batch pattern (u_stmts u) p;
      Ok (mkUpdateState
            (mkUpdateStatistics (added_stmts s) (removed_stmts s + n) (added_ns s) (removed_ns s))
            b (u_ns u))
  | ns_added ns =>
      Ok (mkUpdateState
            (mkUpdateStatistics (added_stmts s) (removed_stmts s) (added_ns s + 1) (removed_ns s))
            (u_stmts u) (AddNamespace ns (u_ns u)))
  | ns_removed pattern =>
      b ← RemoveNamespace pattern (u_ns u) p;
      Ok (mkUpdateState s (u_stmts u) b)
  | Update_none => Ok u
  end.

Definition Update {It} `{CloseableIterator It UpdateRequest} (it : It)
    (p : LevelDBPersistence) : res (UpdateStatistics * LevelDBPersistence) :=
  u ← for_each (Update_step p) it
        (mkUpdateState (mkUpdateStatistics 0 0 0 0) empty_stmt_batches empty_ns_batches);
  Ok (u_stats u, write_ns (write_stmts p (u_stmts u)) (u_ns u)).

(** ** Size *)

(** [for (it->SeekToFirst(); it->Valid(); it->Next()) count++] *)
Fixpoint Size_loop (fuel : nat) (it : Iterator key64) (count : Z) : res Z :=
  match fuel with
  | O => OutOfFuel
  | S fuel => if Valid it then Size_loop fuel (Next it) (count + 1) else Ok count
  end.

Definition Size (p : LevelDBPersistence) : res Z :=
  let it := SeekToFirst (NewIterator (db_cspo p)) in
  Size_loop (1 + length (pending it)) it 0.

End Persistence.

Arguments LevelDBPersistence {_ _}.
Arguments StatementRangeIterator {_}.
Arguments NamespaceIterator {_}.
