(* ===== verification/PersistenceSpec.v ===== *)
(** * PersistenceSpec: what the statement store promises, and that it keeps it

    The abstract state is a finite set of statements, the operations on it are
    [spec_add], [spec_remove] and [spec_get], and [abs] maps the databases to
    that set.  [Inv] is the representation invariant: each entry of an index is
    stored under the key of its statement, and the four indexes hold the same
    entries.  All of it is unconditional: statements whose 64-byte keys collide
    are identified by the abstract operations too.  [collision_free] then turns
    the comparison of hashes into the comparison of terms. *)

From Stdlib Require Import ZArith Lia.
From S2P Require Import Prelude Words Murmur3 Messages LevelDB Iterators Keys Persistence.

(** ** Iterator protocol of the database iterators *)

Section IteratorProofs.
Context {K : Type} `{LKL : LevelDBLaws K} {T : Type} `{Codec T}.

Lemma ldb_yield_cons (i : LevelDBIterator K T) x l ll :
  ldb_yield i l = x :: ll →
  ∃ e l', l = e :: l' ∧ ll = (λ e, ParseFromString e.2) <$> l' ∧
    x = if ldb_parsed i then ldb_proto i else ParseFromString e.2.
Proof. destruct l as [|e l]; simpl; [done|]. intros [= <- <-]. eauto. Qed.

Lemma ldb_deref_yield (i : LevelDBIterator K T) e l l' :
  pending (ldb_it i) = e :: l' → ∃ i', ldb_it i' = ldb_it i ∧
    ldb_deref i = Ok (if ldb_parsed i then ldb_proto i else ParseFromString e.2, i') ∧
    ldb_yield i' (e :: l) = ldb_yield i (e :: l).
Proof.
  intros E. unfold ldb_deref. destruct (ldb_parsed i) eqn:Hp.
  - exists i. done.
  - rewrite (value_pending _ _ _ E). simpl. eexists. split; [|split; [done|]]; [done|].
    unfold ldb_yield. simpl. by rewrite Hp.
Qed.

Lemma ldb_yield_unparsed (i : LevelDBIterator K T) l :
  ldb_parsed i = false → ldb_yield i l = (λ e, ParseFromString e.2) <$> l.
Proof. intros Hp. destruct l as [|e l]; [done|]. unfold ldb_yield. by rewrite Hp. Qed.

Lemma valid_nil (it : Iterator K) : pending it = [] → Valid it = false.
Proof. intros E. by rewrite valid_pending, E. Qed.

Lemma valid_cons (it : Iterator K) e l : pending it = e :: l → Valid it = true.
Proof. intros E. by rewrite valid_pending, E. Qed.

#[global] Instance leveldb_iterator_laws : IteratorLaws (LevelDBIterator K T) T.
Proof.
  split; simpl.
  - intros i. unfold ldb_hasNext. destruct (pending (ldb_it i)) eqn:E.
    + by rewrite valid_nil.
    + by rewrite (valid_cons _ _ _ E).
  - intros i x l Hy. destruct (ldb_yield_cons _ _ _ _ Hy) as (e & l' & E & -> & ->).
    destruct (ldb_deref_yield i e l' l' E) as (i' & Hit & Hd & Hyi).
    exists i'. split; [exact Hd|]. by rewrite Hit, E, Hyi.
  - intros i x l Hy. destruct (ldb_yield_cons _ _ _ _ Hy) as (e & l' & E & -> & _).
    rewrite ldb_yield_unparsed by done. simpl. by rewrite (pending_next _ _ _ E).
Qed.
End IteratorProofs.

Section RangeIteratorProofs.
Context `{PB : Protobuf} `{LK : !LevelDB key64} `{LKL : !LevelDBLaws key64}.

Lemma take_while_cons {A} (f : A → bool) l e l' :
  take_while f l = e :: l' → ∃ r, l = e :: r ∧ f e = true ∧ l' = take_while f r.
Proof.
  destruct l as [|x r]; simpl; [done|]. destruct (f x) eqn:E; [|done].
  intros [= <- <-]. eauto.
Qed.

#[global] Instance statement_range_iterator_laws :
  IteratorLaws StatementRangeIterator Statement.
Proof.
  split; simpl.
  - intros i. unfold sri_hasNext. destruct (pending (ldb_it (sri_base i))) as [|e l] eqn:E.
    + by rewrite valid_nil.
    + rewrite (valid_cons _ _ _ E), (key_pending _ _ _ E). simpl.
      by case_bool_decide.
  - intros i x l Hy. destruct (ldb_yield_cons _ _ _ _ Hy) as (e & l' & E & -> & ->).
    destruct (take_while_cons _ _ _ _ E) as (r & Er & Hf & ->).
    destruct (ldb_deref_yield (sri_base i) e
      (take_while (λ e, bool_decide (key_le e.1 (hiKey i))) r) r Er) as (b & Hit & Hd & Hyb).
    rewrite Hd. simpl. eexists. split; [done|]. simpl. by rewrite Hit, E, Hyb.
  - intros i x l Hy. destruct (ldb_yield_cons _ _ _ _ Hy) as (e & l' & E & -> & _).
    destruct (take_while_cons _ _ _ _ E) as (r & Er & Hf & ->).
    rewrite ldb_yield_unparsed by done. simpl. by rewrite (pending_next _ _ _ Er).
Qed.
End RangeIteratorProofs.

Section NamespaceIteratorProofs.
Context `{PB : Protobuf} `{!Comparator bytes} `{LB : !LevelDB bytes} `{LBL : !LevelDBLaws bytes}.

#[global] Instance namespace_iterator_laws : IteratorLaws NamespaceIterator Namespace.
Proof.
  split.
  - intros [i|i|i]; [exact (hasNext_elements i) | done | exact (hasNext_elements i)].
  - intros [i|i|i] x l E; [|done|]; destruct (deref_elements i x l E) as (i' & Hd & E').
    + exists (NsSingleton i'). split; [|done]. cbn -[singleton_iterator]. by rewrite Hd.
    + exists (NsAll i'). split; [|done]. cbn -[leveldb_iterator]. by rewrite Hd.
  - intros [i|i|i] x l E; [exact (next_elements i x l E) | done | exact (next_elements i x l E)].
Qed.
End NamespaceIteratorProofs.

(** ** Statement operations *)

Section Spec.
Context (ar : arch) `{PBL : ProtobufLaws}.

Inductive stmt_op := SAdd (st : Statement) | SDel (st : Statement).

Definition op_batch (t : IndexType) (op : stmt_op) : BatchOp key64 :=
  match op with
  | SAdd st => Put (stmt_key ar t st) (SerializeToString st)
  | SDel st => Delete (stmt_key ar t st)
  end.

(** Two statements the store cannot tell apart. *)
Definition same_key (a b : Statement) : Prop := stmt_key ar SPOC a = stmt_key ar SPOC b.

#[global] Instance same_key_dec a b : Decision (same_key a b).
Proof. unfold same_key. apply _. Defined.

#[global] Instance same_key_equiv : Equivalence same_key.
Proof. unfold same_key. split; congruence. Qed.

(** A statement in the range of a pattern query. *)
Definition hash_matches (pattern st : Statement) : Prop :=
  Forall (λ p, hash128 ar (term_buf st p) = hash128 ar (term_buf pattern p))
    (bound_positions (type_ (newPatternQuery pattern)) pattern).

#[global] Instance hash_matches_dec pattern st : Decision (hash_matches pattern st).
Proof. unfold hash_matches. apply _. Defined.

Lemma same_key_index t a b : same_key a b ↔ stmt_key ar t a = stmt_key ar t b.
Proof. apply stmt_key_eq. Qed.

Lemma same_key_hash a b :
  same_key a b ↔ ∀ p, hash128 ar (term_buf a p) = hash128 ar (term_buf b p).
Proof.
  unfold same_key, stmt_key. split.
  - intros Hk%Slice_inj; [|apply length_key_bytes..].
    apply blocks_eq in Hk; [|auto with marmotta..]. rewrite Forall_forall in Hk.
    intros p. apply Hk. destruct p; simpl; set_solver.
  - intros Hp. f_equal. apply blocks_eq; [auto with marmotta..|]. by apply Forall_true.
Qed.

(** Matching only looks at the key of a statement. *)
#[global] Instance hash_matches_proper pattern :
  Proper (same_key ==> iff) (hash_matches pattern).
Proof.
  intros a b Hk. rewrite same_key_hash in Hk. unfold hash_matches. f_equiv.
  intros p. by rewrite Hk.
Qed.

(** ** The abstract store *)

Definition spec_add (st : Statement) (A : gset Statement) : gset Statement :=
  {[st]} ∪ filter (λ s, ¬ same_key s st) A.

Definition spec_del (st : Statement) (A : gset Statement) : gset Statement :=
  filter (λ s, ¬ same_key s st) A.

Definition spec_get (pattern : Statement) (A : gset Statement) : gset Statement :=
  filter (hash_matches pattern) A.

Definition spec_remove (pattern : Statement) (A : gset Statement) : gset Statement :=
  filter (λ s, ¬ hash_matches pattern s) A.

Definition spec_op (A : gset Statement) (op : stmt_op) : gset Statement :=
  match op with SAdd st => spec_add st A | SDel st => spec_del st A end.

(** ** Index maps: invariant and abstraction *)

Definition abs_map (m : gmap key64 bytes) : gset Statement :=
  list_to_set ((λ e, ParseFromString e.2) <$> map_to_list m).

Record inv_maps (M : IndexType → gmap key64 bytes) : Prop := {
  inv_keyed t k v : M t !! k = Some v →
    ∃ st, k = stmt_key ar t st ∧ v = SerializeToString st;
  inv_agree t st : M t !! stmt_key ar t st = M SPOC !! stmt_key ar SPOC st;
}.

Lemma elem_of_abs_map M t st :
  inv_maps M →
  st ∈ abs_map (M t) ↔ M t !! stmt_key ar t st = Some (SerializeToString st).
Proof.
  intros HI. unfold abs_map. rewrite elem_of_list_to_set, list_elem_of_fmap. split.
  - intros ([k v] & -> & Hin%elem_of_map_to_list). simpl.
    destruct (inv_keyed _ HI t k v Hin) as (s & -> & ->).
    by rewrite parse_serialize.
  - intros E. exists (stmt_key ar t st, SerializeToString st). simpl.
    rewrite parse_serialize, elem_of_map_to_list. done.
Qed.

Lemma abs_map_index M t : inv_maps M → abs_map (M t) = abs_map (M SPOC).
Proof.
  intros HI. apply set_eq. intros st. rewrite !elem_of_abs_map by done.
  by rewrite (inv_agree _ HI).
Qed.

Definition apply_sops (l : list stmt_op) (M : IndexType → gmap key64 bytes) :
    IndexType → gmap key64 bytes :=
  λ t, apply_batch (op_batch t <$> l) (M t).

Lemma inv_apply_op M op :
  inv_maps M → inv_maps (λ t, apply_op (M t) (op_batch t op)).
Proof.
  intros HI. split.
  - intros t k v. destruct op as [st|st]; simpl.
    + rewrite lookup_insert_Some. intros [[<- <-]|[_ E]]; [by exists st|].
      by apply (inv_keyed _ HI) in E.
    + rewrite lookup_delete_Some. intros [_ E]. by apply (inv_keyed _ HI) in E.
  - intros t s. destruct op as [st|st]; simpl;
      rewrite ?lookup_insert, ?lookup_delete; rewrite (inv_agree _ HI);
      apply decide_ext; symmetry; apply (same_key_index t st s).
Qed.

Lemma abs_apply_op M op :
  inv_maps M →
  abs_map (apply_op (M SPOC) (op_batch SPOC op)) = spec_op (abs_map (M SPOC)) op.
Proof.
  intros HI. apply set_eq. intros s.
  rewrite (elem_of_abs_map (λ t, apply_op (M t) (op_batch t op)) SPOC s)
    by (by apply inv_apply_op).
  destruct op as [st|st]; simpl; unfold spec_add, spec_del.
  - rewrite elem_of_union, elem_of_singleton, elem_of_filter, elem_of_abs_map by done.
    rewrite lookup_insert. fold (same_key st s). case_decide as Hk.
    + split; [intros [= E%(inj SerializeToString)]; by left|].
      intros [-> |[Hn _]]; [done|]. by destruct Hn.
    + split.
      * intros E. right. split; [|done]. intros Hk'. by apply Hk.
      * intros [-> |[_ E]]; [|done]. by destruct Hk.
  - rewrite elem_of_filter, elem_of_abs_map by done.
    rewrite lookup_delete. fold (same_key st s). case_decide as Hk.
    + split; [done|]. intros [Hn _]. by destruct Hn.
    + split; [|by intros [_ ?]]. intros E. split; [|done]. intros Hk'. by apply Hk.
Qed.

Lemma apply_sops_cons op l M :
  apply_sops (op :: l) M = apply_sops l (λ t, apply_op (M t) (op_batch t op)).
Proof. done. Qed.

Lemma inv_apply_sops l M : inv_maps M → inv_maps (apply_sops l M).
Proof.
  revert M; induction l as [|op l IH]; intros M HI; [done|].
  rewrite apply_sops_cons. by apply IH, inv_apply_op.
Qed.

Lemma abs_apply_sops l M :
  inv_maps M → abs_map (apply_sops l M SPOC) = foldl spec_op (abs_map (M SPOC)) l.
Proof.
  revert M; induction l as [|op l IH]; intros M HI; [done|].
  rewrite apply_sops_cons, IH by (by apply inv_apply_op). cbn [foldl].
  by rewrite abs_apply_op.
Qed.
End Spec.

(** ** Sets without collisions *)

Section Injective.
Context (ar : arch) `{PB : Protobuf}.

(** Statements with the same key are equal: no hash collisions in the set. *)
Definition key_injective (A : gset Statement) : Prop :=
  set_Forall (λ a, set_Forall (λ b, same_key ar a b → a = b) A) A.

Lemma foldl_add_union l A :
  key_injective (A ∪ list_to_set l) →
  foldl (λ A st, spec_add ar st A) A l = A ∪ list_to_set l.
Proof.
  revert A. induction l as [|st l IH]; intros A Hk; simpl; [set_solver|].
  assert (E : spec_add ar st A = {[st]} ∪ A).
  { apply set_eq. intros s. unfold spec_add. rewrite !elem_of_union, elem_of_filter.
    destruct (decide (s = st)) as [->|Hne]; [set_solver|]. split; [set_solver|].
    intros [?|Hs]; [set_solver|]. right. split; [|done]. intros Hsk. apply Hne.
    apply (Hk s); [set_solver| |done]. set_solver. }
  rewrite E, IH; [set_solver|]. intros a Ha b Hb. apply Hk; set_solver.
Qed.

Lemma key_injective_subseteq A A' : A ⊆ A' → key_injective A' → key_injective A.
Proof. intros Hs Hk a Ha b Hb. apply Hk; set_solver. Qed.
End Injective.
