(* ===== verification/Refinement.v ===== *)
(** * Refinement: LevelDBPersistence implements the abstract statement store *)

From Stdlib Require Import ZArith Lia.
From S2P Require Import Prelude Words Murmur3 Messages LevelDB Iterators Keys Persistence PersistenceSpec.

Section Refinement.
Context (ar : arch) `{PBL : ProtobufLaws}.
Context `{LK : !LevelDB key64} `{LKL : !LevelDBLaws key64}.
Context `{CB : !Comparator bytes} `{LB : !LevelDB bytes} `{LBL : !LevelDBLaws bytes}.

(** ** Abstraction and invariant of the state *)

Definition index_maps (p : LevelDBPersistence) (t : IndexType) : gmap key64 bytes :=
  contents (index_db t p).

Definition Inv (p : LevelDBPersistence) : Prop := inv_maps ar (index_maps p).

Definition abs (p : LevelDBPersistence) : gset Statement := abs_map (contents (db_spoc p)).

Definition stmt_batch (t : IndexType) (b : StmtBatches) : WriteBatch key64 :=
  match t with
  | SPOC => b_spoc b
  | CSPO => b_cspo b
  | OPSC => b_opsc b
  | PCOS => b_pcos b
  end.

(** The batches hold the statement operations [l], in every index. *)
Definition batches_are (b : StmtBatches) (l : list stmt_op) : Prop :=
  ∀ t, stmt_batch t b = op_batch ar t <$> l.

Definition same_ns (p p' : LevelDBPersistence) : Prop :=
  db_ns_prefix p' = db_ns_prefix p ∧ db_ns_url p' = db_ns_url p ∧ db_meta p' = db_meta p.

(** ** Keys *)

Lemma spoc_key_bytes st : spoc_key ar st = key_bytes ar SPOC st.
Proof.
  unfold spoc_key. rewrite computeKey_full by apply length_calloc_key.
  unfold key_bytes; simpl. by rewrite app_nil_r.
Qed.

Lemma order_spoc_key st a b c d :
  orderKey calloc_key (spoc_key ar st) a b c d =
  mjoin ((λ p, hash128 ar (term_buf st p)) <$> [a; b; c; d]).
Proof.
  rewrite (orderKey_spec _ (λ p, hash128 ar (term_buf st p))); auto with marmotta.
  - simpl. by rewrite app_nil_r.
  - rewrite spoc_key_bytes. unfold key_bytes. simpl. by rewrite app_nil_r.
Qed.

Lemma AddStatement_batch t st b :
  stmt_batch t (AddStatement ar st b) = stmt_batch t b ++ [op_batch ar t (SAdd st)].
Proof.
  unfold AddStatement. destruct t; simpl; unfold batch_put, stmt_key;
    rewrite ?order_spoc_key, ?spoc_key_bytes; reflexivity.
Qed.

Lemma RemoveStatement_batch t st b :
  stmt_batch t (RemoveStatement ar st b) = stmt_batch t b ++ [op_batch ar t (SDel st)].
Proof.
  unfold RemoveStatement. destruct t; simpl; unfold batch_delete, stmt_key;
    rewrite ?order_spoc_key, ?spoc_key_bytes; reflexivity.
Qed.

Lemma batches_are_empty : batches_are empty_stmt_batches [].
Proof. by intros []. Qed.

Lemma batches_are_add b l st :
  batches_are b l → batches_are (AddStatement ar st b) (l ++ [SAdd st]).
Proof. intros Hb t. by rewrite AddStatement_batch, Hb, fmap_app. Qed.

Lemma batches_are_del b l st :
  batches_are b l → batches_are (RemoveStatement ar st b) (l ++ [SDel st]).
Proof. intros Hb t. by rewrite RemoveStatement_batch, Hb, fmap_app. Qed.

Lemma write_stmts_maps p b l t :
  batches_are b l → index_maps (write_stmts p b) t = apply_sops ar l (index_maps p) t.
Proof.
  intros Hb. unfold index_maps, apply_sops. rewrite <- (Hb t).
  destruct t; simpl; apply write_contents.
Qed.

Lemma inv_maps_ext M M' : (∀ t, M t = M' t) → inv_maps ar M → inv_maps ar M'.
Proof.
  intros E [H1 H2]. split.
  - intros t k v. rewrite <- E. apply H1.
  - intros t st. rewrite <- !E. apply H2.
Qed.

(** Writing batches performs the statement operations on the abstract store. *)
Lemma write_stmts_refines p b l :
  Inv p → batches_are b l →
  Inv (write_stmts p b) ∧ abs (write_stmts p b) = foldl (spec_op ar) (abs p) l ∧
  same_ns p (write_stmts p b).
Proof.
  intros HI Hb. split; [|split]; [| |done].
  - eapply inv_maps_ext; [intros t; symmetry; by apply write_stmts_maps|].
    by apply inv_apply_sops.
  - change (abs (write_stmts p b)) with (abs_map (index_maps (write_stmts p b) SPOC)).
    rewrite (write_stmts_maps p b l) by done. by apply abs_apply_sops.
Qed.

Lemma write_ns_refines p b :
  Inv p → Inv (write_ns p b) ∧ abs (write_ns p b) = abs p.
Proof.
  intros HI. split; [|done]. eapply inv_maps_ext; [|exact HI]. by intros [].
Qed.

(** ** Initial state *)

Lemma new_refines : Inv newLevelDBPersistence ∧ abs newLevelDBPersistence = ∅.
Proof.
  assert (E : ∀ t, index_maps newLevelDBPersistence t = ∅)
    by (intros []; apply open_contents).
  split.
  - split; intros t; rewrite ?E; intros *; by rewrite ?lookup_empty.
  - unfold abs, newLevelDBPersistence. simpl. rewrite open_contents.
    unfold abs_map. by rewrite map_to_list_empty.
Qed.

(** ** AddStatements *)

Lemma add_loop_batches l b n l0 :
  batches_are b l0 →
  ∃ b', foldl (λ '(b, count) st, (AddStatement ar st b, count + 1)%Z) (b, n) l =
          (b', (n + Z.of_nat (length l))%Z) ∧
        batches_are b' (l0 ++ (SAdd <$> l)).
Proof.
  revert b n l0; induction l as [|st l IH]; intros b n l0 Hb; simpl.
  - exists b. rewrite Z.add_0_r, app_nil_r. done.
  - destruct (IH (AddStatement ar st b) (n + 1)%Z (l0 ++ [SAdd st])) as (b' & E & Hb').
    { by apply batches_are_add. }
    exists b'. split; [rewrite E; f_equal; lia|].
    by rewrite <- app_assoc in Hb'.
Qed.

Lemma foldl_spec_add l A :
  foldl (spec_op ar) A (SAdd <$> l) = foldl (λ A st, spec_add ar st A) A l.
Proof. revert A; induction l as [|st l IH]; intros A; simpl; [done|apply IH]. Qed.

Lemma foldM_pair_pure {A B C} (f : A * B → C → A * B) (g : A * B → C → res (A * B)) l s :
  (∀ s x, g s x = Ok (f s x)) → foldM g s l = Ok (foldl f s l).
Proof.
  intros E. revert s; induction l as [|x l IH]; intros s; simpl; [done|].
  rewrite E. apply IH.
Qed.

Lemma AddStatements_refines {It} `{IteratorLaws It Statement} (it : It) p :
  Inv p →
  ∃ p', AddStatements ar it p = Ok (Z.of_nat (length (elements it)), p') ∧
    Inv p' ∧ abs p' = foldl (λ A st, spec_add ar st A) (abs p) (elements it) ∧
    same_ns p p'.
Proof.
  intros HI. unfold AddStatements. rewrite for_each_elements.
  rewrite (foldM_pair_pure (λ '(b, count) st, (AddStatement ar st b, count + 1)%Z))
    by (by intros [] ?).
  destruct (add_loop_batches (elements it) empty_stmt_batches 0 [] batches_are_empty)
    as (b & -> & Hb). simpl.
  destruct (write_stmts_refines p b _ HI Hb) as (HI' & Ha & Hn).
  eexists. split; [done|]. split; [done|]. split; [|done].
  by rewrite Ha, <- foldl_spec_add.
Qed.

(** ** GetStatements *)

(** The results of a pattern query, in key order. *)
Definition results (pattern : Statement) (p : LevelDBPersistence) : list Statement :=
  elements (GetStatements_it ar pattern p).

Lemma results_scan pattern p :
  let q := newPatternQuery pattern in
  results pattern p =
  (λ e, ParseFromString e.2) <$>
    scan (index_db (type_ q) p) (Slice (MinKey ar q)) (Slice (MaxKey ar q)).
Proof.
  unfold results, GetStatements_it, newStatementRangeIterator, newLevelDBIterator, scan.
  simpl. rewrite ldb_yield_unparsed by done.
  by rewrite !pending_seek, snapshot_seek_first.
Qed.

(** Results depend only on the index the query reads. *)
Lemma results_index pattern p p' :
  index_db (type_ (newPatternQuery pattern)) p = index_db (type_ (newPatternQuery pattern)) p' →
  results pattern p = results pattern p'.
Proof. intros E. by rewrite !results_scan, E. Qed.

(** The index [t] holds exactly the statements of [A]. *)
Definition holds (t : IndexType) (m : gmap key64 bytes) (A : gset Statement) : Prop :=
  ∀ k v, m !! k = Some v ↔ ∃ st, st ∈ A ∧ k = stmt_key ar t st ∧ v = SerializeToString st.

Lemma holds_inv p t : Inv p → holds t (index_maps p t) (abs p).
Proof.
  intros HI k v. change (abs p) with (abs_map (index_maps p SPOC)).
  rewrite <- (abs_map_index ar (index_maps p) t HI). split.
  - intros E. destruct (inv_keyed _ _ HI t k v E) as (st & -> & ->). exists st.
    by rewrite (elem_of_abs_map ar (index_maps p) t st HI).
  - intros (st & Hst & -> & ->). by rewrite (elem_of_abs_map ar (index_maps p) t st HI) in Hst.
Qed.

(** A query reads one index: what it needs is that this index is right. *)
Lemma results_holds pattern p A :
  let t := type_ (newPatternQuery pattern) in
  holds t (index_maps p t) A →
  NoDup (results pattern p) ∧ list_to_set (results pattern p) = spec_get ar pattern A.
Proof.
  intros t Hh. set (q := newPatternQuery pattern) in *. rewrite results_scan. fold q. split.
  - apply NoDup_fmap_2_strong.
    + intros [k v] [k' v'] [Hk _]%elem_of_scan [Hk' _]%elem_of_scan E. simpl in E.
      apply Hh in Hk as (st & _ & -> & ->), Hk' as (st' & _ & -> & ->).
      rewrite !parse_serialize in E. by subst.
    + eapply NoDup_fmap_1. apply scan_nodup.
  - apply set_eq. intros st. unfold spec_get, hash_matches. rewrite elem_of_list_to_set, elem_of_filter.
    fold q. fold t. unfold t, q. rewrite <- key_in_range. fold q. fold t.
    rewrite list_elem_of_fmap. split.
    + intros ([k v] & -> & Hin). apply elem_of_scan in Hin as (E & Hlo & Hhi).
      apply Hh in E as (s & Hs & -> & ->). simpl. by rewrite parse_serialize.
    + intros [Hr Hst]. exists (stmt_key ar t st, SerializeToString st). simpl.
      rewrite parse_serialize. split; [done|]. apply elem_of_scan. split; [|done]. apply Hh. eauto.
Qed.

Lemma results_set pattern p :
  Inv p → NoDup (results pattern p) ∧ list_to_set (results pattern p) = spec_get ar pattern (abs p).
Proof. intros HI. by apply results_holds, holds_inv. Qed.

Lemma elem_of_results pattern p st :
  Inv p → st ∈ results pattern p ↔ st ∈ spec_get ar pattern (abs p).
Proof. intros HI. destruct (results_set pattern p HI) as [_ <-]. by rewrite elem_of_list_to_set. Qed.

Lemma results_nodup pattern p : Inv p → NoDup (results pattern p).
Proof. apply results_set. Qed.

Lemma results_length pattern p :
  Inv p → length (results pattern p) = size (spec_get ar pattern (abs p)).
Proof.
  intros HI. destruct (results_set pattern p HI) as [Hnd <-]. by rewrite size_list_to_set.
Qed.

Lemma GetStatements_fold {A} pattern (f : A → Statement → A) a p :
  GetStatements ar pattern (λ a st, Ok (true, f a st)) a p = Ok (foldl f a (results pattern p)).
Proof. unfold GetStatements. by rewrite for_each_while_elements, fold_while_continue. Qed.

Lemma foldl_snoc {A} (l k : list A) : foldl (λ l x, l ++ [x]) k l = k ++ l.
Proof.
  revert k; induction l as [|x l IH]; intros k; simpl; [by rewrite app_nil_r|].
  by rewrite IH, <- app_assoc.
Qed.

(** A callback that collects everything collects the results. *)
Lemma GetStatements_collect pattern p :
  GetStatements ar pattern (λ l st, Ok (true, l ++ [st])) [] p = Ok (results pattern p).
Proof. by rewrite (GetStatements_fold pattern (λ l st, l ++ [st])), foldl_snoc. Qed.

Lemma fold_while_ext {T S} (f g : S → T → res (bool * S)) cb l s :
  (∀ s x, f s x = g s x) → fold_while f cb l s = fold_while g cb l s.
Proof.
  intros E. revert cb s; induction l as [|x l IH]; intros cb s; simpl; [done|].
  destruct cb; [|done]. rewrite E. by destruct (g s x) as [[]| |]; simpl.
Qed.

(** ** RemoveStatements *)

Lemma remove_loop_batches l b n l0 :
  batches_are b l0 →
  ∃ b', foldl (λ '(b, count) st, (RemoveStatement ar st b, count + 1)%Z) (b, n) l =
          (b', (n + Z.of_nat (length l))%Z) ∧
        batches_are b' (l0 ++ (SDel <$> l)).
Proof.
  revert b n l0; induction l as [|st l IH]; intros b n l0 Hb; simpl.
  - exists b. rewrite Z.add_0_r, app_nil_r. done.
  - destruct (IH (RemoveStatement ar st b) (n + 1)%Z (l0 ++ [SDel st])) as (b' & E & Hb').
    { by apply batches_are_del. }
    exists b'. split; [rewrite E; f_equal; lia|].
    by rewrite <- app_assoc in Hb'.
Qed.

Lemma RemoveStatements_batch_ops pattern b l0 p :
  batches_are b l0 →
  ∃ b', RemoveStatements_batch ar pattern b p =
          Ok (b', Z.of_nat (length (results pattern p))) ∧
        batches_are b' (l0 ++ (SDel <$> results pattern p)).
Proof.
  intros Hb. unfold RemoveStatements_batch, GetStatements. rewrite for_each_while_elements.
  fold (results pattern p).
  rewrite (fold_while_ext _ (λ s st,
    Ok (true, (λ '(b, count) st, (RemoveStatement ar st b, count + 1)%Z) s st)))
    by (by intros [] ?).
  rewrite (fold_while_continue (λ '(b, count) st, (RemoveStatement ar st b, count + 1)%Z)).
  destruct (remove_loop_batches (results pattern p) b 0 l0 Hb) as (b' & -> & Hb').
  eauto.
Qed.

Lemma RemoveStatements_batch_total pattern b p :
  ∃ b' n, RemoveStatements_batch ar pattern b p = Ok (b', n).
Proof.
  unfold RemoveStatements_batch, GetStatements. rewrite for_each_while_elements.
  rewrite (fold_while_ext _ (λ s st,
    Ok (true, (λ '(b, count) st, (RemoveStatement ar st b, count + 1)%Z) s st))) by (by intros [] ?).
  rewrite fold_while_continue. by destruct (foldl _ _ _) as [b' n]; eauto.
Qed.

Lemma elem_of_foldl_del l A s :
  s ∈ foldl (spec_op ar) A (SDel <$> l) ↔ s ∈ A ∧ ¬ Exists (same_key ar s) l.
Proof.
  revert A; induction l as [|x l IH]; intros A; simpl.
  - split; [|by intros []]. intros ?. split; [done|]. by intros ?%Exists_nil.
  - rewrite IH, Exists_cons. unfold spec_del. rewrite elem_of_filter. tauto.
Qed.

(** Deleting the results of a query removes what the query matches. *)
Lemma foldl_del_results pattern p :
  Inv p →
  foldl (spec_op ar) (abs p) (SDel <$> results pattern p) = spec_remove ar pattern (abs p).
Proof.
  intros HI. apply set_eq. intros s. rewrite elem_of_foldl_del.
  unfold spec_remove. rewrite elem_of_filter. rewrite Exists_exists. split.
  - intros [Hs Hn]. split; [|done]. intros Hm. apply Hn. exists s. split; [|done].
    apply elem_of_results; [done|]. unfold spec_get. by apply elem_of_filter.
  - intros [Hm Hs]. split; [done|]. intros (s' & Hs' & Hk). apply Hm.
    apply elem_of_results in Hs'; [|done]. unfold spec_get in Hs'.
    apply elem_of_filter in Hs' as [Hm' _]. by rewrite Hk.
Qed.

Lemma RemoveStatements_refines pattern p :
  Inv p →
  ∃ p', RemoveStatements ar pattern p =
          Ok (Z.of_nat (size (spec_get ar pattern (abs p))), p') ∧
    Inv p' ∧ abs p' = spec_remove ar pattern (abs p) ∧ same_ns p p'.
Proof.
  intros HI. unfold RemoveStatements.
  destruct (RemoveStatements_batch_ops pattern _ _ p batches_are_empty) as (b & -> & Hb).
  simpl in *. destruct (write_stmts_refines p b _ HI Hb) as (HI' & Ha & Hn).
  eexists. split; [by rewrite results_length|]. split; [done|]. split; [|done].
  by rewrite Ha, foldl_del_results.
Qed.

(** ** Size *)

Lemma Size_loop_spec fuel (it : Iterator key64) n :
  (length (pending it) < fuel)%nat →
  Size_loop fuel it n = Ok (n + Z.of_nat (length (pending it)))%Z.
Proof.
  revert it n; induction fuel as [|fuel IH]; intros it n Hf; [lia|]. simpl.
  destruct (pending it) as [|e l] eqn:E.
  - rewrite valid_nil by done. simpl. by rewrite Z.add_0_r.
  - rewrite (valid_cons _ _ _ E). simpl in Hf.
    rewrite IH; rewrite (pending_next _ _ _ E); [|lia]. simpl. f_equal. lia.
Qed.

Lemma abs_size t p : Inv p → size (contents (index_db t p)) = size (abs p).
Proof.
  intros HI. change (abs p) with (abs_map (index_maps p SPOC)).
  rewrite <- (abs_map_index ar (index_maps p) t) by done. unfold abs_map, index_maps.
  rewrite size_list_to_set.
  - by rewrite length_fmap, length_map_to_list.
  - apply NoDup_fmap_2_strong; [|apply NoDup_map_to_list].
    intros [k v] [k' v'] Hin%elem_of_map_to_list Hin'%elem_of_map_to_list E. simpl in E.
    destruct (inv_keyed _ _ HI t k v Hin) as (s & -> & ->).
    destruct (inv_keyed _ _ HI t k' v' Hin') as (s' & -> & ->).
    rewrite !parse_serialize in E. by subst.
Qed.

Lemma Size_refines p : Inv p → Size p = Ok (Z.of_nat (size (abs p))).
Proof.
  intros HI. unfold Size. rewrite Size_loop_spec by lia.
  rewrite pending_seek_first, length_snapshot.
  by rewrite <- (abs_size CSPO p HI).
Qed.
End Refinement.
