(* ===== verification/UpdateProofs.v ===== *)
(** * UpdateProofs: mixed updates and reachable states

    [Update] consumes a stream of requests.  It queues the operations in six
    batches and writes them at the end, so a removal is resolved against the
    databases as they were before the call: [spec_update] is that semantics on
    the abstract store, [spec_sequential] the one that applies every request in
    turn, and [update_sequential] says when the two agree.  [persist_step] is
    the transition relation of the store under its public operations. *)

From Stdlib Require Import ZArith Lia.
From S2P Require Import Prelude Words Murmur3 Messages LevelDB Iterators Keys Persistence PersistenceSpec Refinement.

Section UpdateSpec.
Context (ar : arch) `{PBL : ProtobufLaws}.

(** One request on the store [A], removals resolved against [A0]. *)
Definition spec_update (A0 A : gset Statement) (req : UpdateRequest) : gset Statement :=
  match req with
  | stmt_added st => spec_add ar st A
  | stmt_removed pattern => filter (λ s, ¬ set_Exists (same_key ar s) (spec_get ar pattern A0)) A
  | _ => A
  end.

(** The same with every removal resolved against the current store. *)
Definition spec_sequential (A : gset Statement) (req : UpdateRequest) : gset Statement :=
  match req with
  | stmt_added st => spec_add ar st A
  | stmt_removed pattern => spec_remove ar pattern A
  | _ => A
  end.

(** What the counters of [UpdateStatistics] count. *)
Definition spec_stats (A0 : gset Statement) (s : UpdateStatistics) (req : UpdateRequest) :
    UpdateStatistics :=
  match req with
  | stmt_added _ =>
      mkUpdateStatistics (added_stmts s + 1) (removed_stmts s) (added_ns s) (removed_ns s)
  | stmt_removed pattern =>
      mkUpdateStatistics (added_stmts s) (removed_stmts s + Z.of_nat (size (spec_get ar pattern A0)))
        (added_ns s) (removed_ns s)
  | ns_added _ =>
      mkUpdateStatistics (added_stmts s) (removed_stmts s) (added_ns s + 1) (removed_ns s)
  | _ => s
  end.

(** No request removes what an earlier request of the stream adds. *)
Fixpoint no_readd (added : list Statement) (reqs : list UpdateRequest) : Prop :=
  match reqs with
  | [] => True
  | stmt_added st :: reqs => no_readd (st :: added) reqs
  | stmt_removed pattern :: reqs =>
      Forall (λ st, ¬ hash_matches ar pattern st) added ∧ no_readd added reqs
  | _ :: reqs => no_readd added reqs
  end.

(** Everything in [A] is in [A0] up to its key, or was added. *)
Definition from_or_added (A0 : gset Statement) (added : list Statement) (A : gset Statement) :=
  ∀ s, s ∈ A → s ∈ A0 ∨ s ∈ added.

Lemma spec_update_remove A0 added A pattern :
  from_or_added A0 added A → Forall (λ st, ¬ hash_matches ar pattern st) added →
  spec_update A0 A (stmt_removed pattern) = spec_remove ar pattern A.
Proof.
  intros HA Hadd. apply set_eq. intros s. simpl. unfold spec_remove, spec_get.
  rewrite !elem_of_filter. split; intros [Hn Hs]; (split; [|done]).
  - intros Hm. apply Hn. exists s. split; [|done]. apply elem_of_filter. split; [done|].
    destruct (HA s Hs) as [?|Hin]; [done|]. rewrite Forall_forall in Hadd.
    by destruct (Hadd s Hin).
  - intros (s' & [Hm _]%elem_of_filter & Hk). apply Hn. by rewrite Hk.
Qed.

Lemma from_or_added_add A0 added A st :
  from_or_added A0 added A → from_or_added A0 (st :: added) (spec_add ar st A).
Proof.
  intros HA s. unfold spec_add. rewrite elem_of_union, elem_of_singleton, elem_of_filter.
  intros [-> |[_ Hs]]; [right; by left|]. destruct (HA s Hs); [by left|right; by right].
Qed.

Lemma from_or_added_remove A0 added A pattern :
  from_or_added A0 added A → from_or_added A0 added (spec_remove ar pattern A).
Proof. intros HA s [_ Hs]%elem_of_filter. by apply HA. Qed.

Lemma spec_update_sequential A0 added A reqs :
  from_or_added A0 added A → no_readd added reqs →
  foldl (spec_update A0) A reqs = foldl spec_sequential A reqs.
Proof.
  revert added A; induction reqs as [|[|st|pattern|ns|ns] reqs IH];
    intros added A HA Hr; cbn [foldl]; [done|..].
  - by apply (IH added).
  - apply (IH (st :: added)); [by apply from_or_added_add|done].
  - destruct Hr as [Hp Hr]. rewrite (spec_update_remove _ added) by done.
    apply (IH added); [by apply from_or_added_remove|done].
  - by apply (IH added).
  - by apply (IH added).
Qed.
End UpdateSpec.

Section UpdateRefinement.
Context (ar : arch) `{PBL : ProtobufLaws}.
Context `{LK : !LevelDB key64} `{LKL : !LevelDBLaws key64}.
Context `{CB : !Comparator bytes} `{LB : !LevelDB bytes} `{LBL : !LevelDBLaws bytes}.

(** The statement operations a request queues. *)
Definition req_ops (p : LevelDBPersistence) (req : UpdateRequest) : list stmt_op :=
  match req with
  | stmt_added st => [SAdd st]
  | stmt_removed pattern => SDel <$> results ar pattern p
  | _ => []
  end.

(** The namespaces a removal pattern selects, and the operations it queues. *)
Definition ns_results (pattern : Namespace) (p : LevelDBPersistence) : list Namespace :=
  elements (GetNamespaces_it pattern p).

Definition req_ns_ops (key : Namespace → string) (p : LevelDBPersistence) (req : UpdateRequest) :
    WriteBatch bytes :=
  match req with
  | ns_added ns => [Put (str_bytes (key ns)) (SerializeToString ns)]
  | ns_removed pattern => (λ ns, Delete (str_bytes (key ns))) <$> ns_results pattern p
  | _ => []
  end.

Lemma RemoveNamespace_ops pattern b p :
  RemoveNamespace pattern b p =
  Ok (mkNsBatches (b_prefix b ++ ((λ ns, Delete (str_bytes (prefix ns))) <$> ns_results pattern p))
                  (b_url b ++ ((λ ns, Delete (str_bytes (ns_uri ns))) <$> ns_results pattern p))).
Proof.
  unfold RemoveNamespace, GetNamespaces. rewrite for_each_while_elements.
  fold (ns_results pattern p).
  rewrite (fold_while_continue (λ b ns,
    mkNsBatches (batch_delete (b_prefix b) (str_bytes (prefix ns)))
      (batch_delete (b_url b) (str_bytes (ns_uri ns))))). f_equal.
  revert b; induction (ns_results pattern p) as [|ns l IH]; intros [bp bu]; simpl.
  - by rewrite !app_nil_r.
  - rewrite IH. unfold batch_delete. simpl. by rewrite <- !app_assoc.
Qed.

Lemma Update_step_total p u req : ∃ u', Update_step ar p u req = Ok u'.
Proof.
  destruct req as [|st|pattern|ns|pattern]; simpl; eauto.
  - destruct (RemoveStatements_batch_total ar pattern (u_stmts u) p) as (b & n & ->). simpl. eauto.
  - rewrite RemoveNamespace_ops. simpl. eauto.
Qed.

(** The loop of [Update]: the three parts of its state. *)
Lemma Update_loop p reqs u l0 :
  Inv ar p → batches_are ar (u_stmts u) l0 →
  ∃ u', foldM (Update_step ar p) u reqs = Ok u' ∧
    u_stats u' = foldl (spec_stats ar (abs p)) (u_stats u) reqs ∧
    batches_are ar (u_stmts u') (l0 ++ (reqs ≫= req_ops p)) ∧
    b_prefix (u_ns u') = b_prefix (u_ns u) ++ (reqs ≫= req_ns_ops prefix p) ∧
    b_url (u_ns u') = b_url (u_ns u) ++ (reqs ≫= req_ns_ops ns_uri p).
Proof.
  intros HI. revert u l0; induction reqs as [|req reqs IH]; intros u l0 Hb.
  { exists u. simpl. rewrite !app_nil_r. done. }
  rewrite !bind_cons. cbn [foldM foldl].
  assert (∃ u1, Update_step ar p u req = Ok u1 ∧
    u_stats u1 = spec_stats ar (abs p) (u_stats u) req ∧
    batches_are ar (u_stmts u1) (l0 ++ req_ops p req) ∧
    b_prefix (u_ns u1) = b_prefix (u_ns u) ++ req_ns_ops prefix p req ∧
    b_url (u_ns u1) = b_url (u_ns u) ++ req_ns_ops ns_uri p req)
    as (u1 & -> & Hs & Hb1 & Hp & Hu).
  { destruct req as [|st|pattern|ns|pattern]; cbn [Update_step].
    - exists u. rewrite !app_nil_r. done.
    - eexists. split; [done|]. simpl. rewrite !app_nil_r. split_and!; try done.
      by apply batches_are_add.
    - destruct (RemoveStatements_batch_ops ar pattern _ _ p Hb) as (b' & -> & Hb').
      simpl. eexists. split; [done|]. simpl. rewrite !app_nil_r.
      by rewrite (results_length ar).
    - eexists. split; [done|]. simpl. by rewrite app_nil_r.
    - rewrite RemoveNamespace_ops. simpl. eexists. split; [done|]. simpl.
      by rewrite app_nil_r. }
  cbn [mbind res_bind]. destruct (IH u1 _ Hb1) as (u' & E & Hs' & Hb' & Hp' & Hu').
  exists u'. split; [done|]. rewrite Hs', Hs, Hp', Hp, Hu', Hu, <- !app_assoc. split_and!; try done.
  by rewrite <- app_assoc in Hb'.
Qed.

Lemma foldl_req_ops p reqs A :
  Inv ar p →
  foldl (spec_op ar) A (reqs ≫= req_ops p) = foldl (spec_update ar (abs p)) A reqs.
Proof.
  intros HI. revert A; induction reqs as [|req reqs IH]; intros A; [done|].
  rewrite bind_cons, foldl_app. cbn [foldl]. rewrite IH. f_equal.
  destruct req as [|st|pattern|ns|ns]; simpl; try done.
  apply set_eq. intros s. rewrite elem_of_foldl_del, elem_of_filter, Exists_exists.
  unfold set_Exists. split; intros [Hl Hr]; (split; [try done | try done]);
    intros (x & Hx & Hk); (apply Hl || apply Hr); exists x; (split; [|done]);
    by apply (elem_of_results ar pattern p x HI).
Qed.

Lemma Update_refines {It} `{IteratorLaws It UpdateRequest} (it : It) p :
  Inv ar p →
  ∃ p', Update ar it p =
      Ok (foldl (spec_stats ar (abs p)) (mkUpdateStatistics 0 0 0 0) (elements it), p') ∧
    Inv ar p' ∧ abs p' = foldl (spec_update ar (abs p)) (abs p) (elements it) ∧
    contents (db_ns_prefix p') =
      apply_batch (elements it ≫= req_ns_ops prefix p) (contents (db_ns_prefix p)) ∧
    contents (db_ns_url p') =
      apply_batch (elements it ≫= req_ns_ops ns_uri p) (contents (db_ns_url p)).
Proof.
  intros HI. unfold Update. rewrite for_each_elements.
  destruct (Update_loop p (elements it)
    (mkUpdateState (mkUpdateStatistics 0 0 0 0) empty_stmt_batches empty_ns_batches) []
    HI (batches_are_empty ar)) as (u & -> & Hs & Hb & Hp & Hu).
  cbn [mbind res_bind]. simpl in Hs, Hb, Hp, Hu. eexists. split; [by rewrite Hs|].
  destruct (write_stmts_refines ar p _ _ HI Hb) as (HI' & Ha & _).
  destruct (write_ns_refines ar _ (u_ns u) HI') as [HI'' Ha'].
  split; [done|]. split; [by rewrite Ha', Ha, foldl_req_ops|].
  simpl. by rewrite !write_contents, Hp, Hu.
Qed.

(** ** The store as a transition system *)

Inductive persist_step : LevelDBPersistence → LevelDBPersistence → Prop :=
  | step_add_statements It (HI : CloseableIterator It Statement)
      (HL : IteratorLaws It Statement) (it : It) n p p' :
      AddStatements ar it p = Ok (n, p') → persist_step p p'
  | step_add_namespaces It (HI : CloseableIterator It Namespace)
      (HL : IteratorLaws It Namespace) (it : It) n p p' :
      AddNamespaces it p = Ok (n, p') → persist_step p p'
  | step_remove_statements pattern n p p' :
      RemoveStatements ar pattern p = Ok (n, p') → persist_step p p'
  | step_update It (HI : CloseableIterator It UpdateRequest)
      (HL : IteratorLaws It UpdateRequest) (it : It) s p p' :
      Update ar it p = Ok (s, p') → persist_step p p'.

Definition reachable (p : LevelDBPersistence) : Prop :=
  rtc persist_step newLevelDBPersistence p.

Lemma persist_step_inv p p' : persist_step p p' → Inv ar p → Inv ar p'.
Proof.
  intros [It HIt HL it n p1 p2 E | It HIt HL it n p1 p2 E | pattern n p1 p2 E
         | It HIt HL it s p1 p2 E] HI.
  - destruct (AddStatements_refines ar it p1 HI) as (q & E' & HI' & _). congruence.
  - unfold AddNamespaces in E. destruct (for_each _ _ _) as [[b c]| |]; try done.
    simpl in E. inv_ok. by apply write_ns_refines.
  - destruct (RemoveStatements_refines ar pattern p1 HI) as (q & E' & HI' & _). congruence.
  - destruct (Update_refines it p1 HI) as (q & E' & HI' & _). congruence.
Qed.

Lemma reachable_inv p : reachable p → Inv ar p.
Proof.
  intros Hr. exact (rtc_preserved _ (Inv ar) _ _ persist_step_inv Hr (proj1 (new_refines ar))).
Qed.
End UpdateRefinement.
