(* ===== verification/Wire.v ===== *)
(** * Wire: a codec that satisfies the codec laws

    The messages of model.proto in the documented wire format of protocol
    buffers, of which they only use length-delimited fields: a key byte
    (field number and wire type 2), the length as a base-128 varint, and the
    payload.  The codec of the sources is a parameter everywhere else; this
    instance shows that its laws can hold and lets closed examples run. *)

From Stdlib Require Import NArith ZArith Lia.
From S2P Require Import Prelude Messages LevelDB.

Definition byte_of_N (n : N) : byte := default x00 (Byte.of_N n).

Lemma byte_of_N_val n : (n < 256)%N → Byte.to_N (byte_of_N n) = n.
Proof.
  intros Hn. unfold byte_of_N. destruct (Byte.of_N n) as [b|] eqn:E; simpl.
  - by apply Byte.to_of_N.
  - apply Byte.of_N_None_iff in E. lia.
Qed.

(** ** Base-128 varints *)

Fixpoint varint (fuel : nat) (n : N) : bytes :=
  match fuel with
  | O => [byte_of_N n]
  | S fuel =>
      if (n <? 128)%N then [byte_of_N n]
      else byte_of_N (128 + n mod 128) :: varint fuel (n / 128)
  end.

Definition put_varint (n : N) : bytes := varint (N.size_nat n) n.

Fixpoint get_varint (bs : bytes) : option (N * bytes) :=
  match bs with
  | [] => None
  | b :: bs =>
      if (Byte.to_N b <? 128)%N then Some (Byte.to_N b, bs)
      else '(n, bs) ← get_varint bs; Some (Byte.to_N b - 128 + 128 * n, bs)%N
  end.

Lemma get_varint_fuel fuel n r :
  (n < 2 ^ N.of_nat fuel)%N → get_varint (varint fuel n ++ r) = Some (n, r).
Proof.
  revert n; induction fuel as [|fuel IH]; intros n Hn.
  - simpl. rewrite byte_of_N_val by (simpl in Hn; lia).
    simpl in Hn. by replace n with 0%N by lia.
  - cbn [varint]. destruct (N.ltb_spec n 128) as [Hlt|Hge].
    + simpl. rewrite byte_of_N_val by lia. by rewrite (proj2 (N.ltb_lt n 128)).
    + pose proof (N.mod_upper_bound n 128 ltac:(lia)) as Hm.
      pose proof (N.div_mod n 128 ltac:(lia)) as Hd.
      rewrite Nat2N.inj_succ, N.pow_succ_r' in Hn.
      revert Hm Hd. generalize (n / 128)%N, (n mod 128)%N. intros q m Hm Hd.
      cbn [app get_varint]. rewrite byte_of_N_val by lia.
      rewrite (proj2 (N.ltb_ge (128 + m) 128)) by lia.
      rewrite IH by lia. simpl. do 2 f_equal. lia.
Qed.

Lemma size_nat_bound n : (n < 2 ^ N.of_nat (N.size_nat n))%N.
Proof.
  destruct n as [|p]; [done|]. simpl. induction p as [p IH|p IH|]; [| |done].
  - cbn [Pos.size_nat]. rewrite Nat2N.inj_succ, N.pow_succ_r'. lia.
  - cbn [Pos.size_nat]. rewrite Nat2N.inj_succ, N.pow_succ_r'. lia.
Qed.

Lemma get_put_varint n r : get_varint (put_varint n ++ r) = Some (n, r).
Proof. apply get_varint_fuel, size_nat_bound. Qed.

(** ** Length-delimited fields *)

Definition fields := list (nat * bytes).

Definition put_field (f : nat * bytes) : bytes :=
  byte_of_N (8 * N.of_nat f.1 + 2) :: put_varint (N.of_nat (length f.2)) ++ f.2.

Definition put_fields (l : fields) : bytes := mjoin (put_field <$> l).

Fixpoint get_fields (fuel : nat) (bs : bytes) : option fields :=
  match bs, fuel with
  | [], _ => Some []
  | _, O => None
  | k :: bs, S fuel =>
      '(n, bs) ← get_varint bs;
      l ← get_fields fuel (drop (N.to_nat n) bs);
      Some ((N.to_nat (Byte.to_N k / 8), take (N.to_nat n) bs) :: l)
  end.

Lemma get_put_fields fuel (l : fields) :
  Forall (λ f, f.1 < 16) l → length l ≤ fuel → get_fields fuel (put_fields l) = Some l.
Proof.
  intros Hf. revert fuel; induction Hf as [|[k b] l Hk Hf IH]; intros fuel Hlen.
  - by destruct fuel.
  - destruct fuel as [|fuel]; [simpl in Hlen; lia|].
    change (put_fields ((k, b) :: l)) with (put_field (k, b) ++ put_fields l).
    unfold put_field. cbn [fst snd app get_fields]. rewrite <- app_assoc, get_put_varint.
    simpl in Hk. rewrite byte_of_N_val by lia. cbn [mbind option_bind].
    rewrite Nat2N.id, drop_app_length, take_app_length.
    rewrite IH by (simpl in Hlen; lia). cbn [mbind option_bind].
    replace ((8 * N.of_nat k + 2) / 8)%N with (N.of_nat k); [by rewrite Nat2N.id|].
    apply (N.div_unique _ _ _ 2); lia.
Qed.

Lemma length_put_fields (l : fields) : length l ≤ length (put_fields l).
Proof.
  induction l as [|f l IH]; [done|].
  change (put_fields (f :: l)) with (put_field f ++ put_fields l).
  rewrite length_app. unfold put_field. simpl. lia.
Qed.

(** ** Messages as fields *)

Class FieldCodec (A : Type) := { to_fields : A → fields; of_fields : fields → A }.

Class FieldCodecLaws (A : Type) `{FieldCodec A} : Prop := {
  of_to_fields (m : A) : of_fields (to_fields m) = m;
  to_fields_small (m : A) : Forall (λ f, f.1 < 16) (to_fields m);
}.

#[global] Instance field_codec `{FieldCodec A} : Codec A := {
  SerializeToString m := put_fields (to_fields m);
  ParseFromString bs := of_fields (default [] (get_fields (length bs) bs));
}.

#[global] Instance field_codec_laws `{FieldCodecLaws A} : CodecLaws A.
Proof.
  intros m. simpl. rewrite get_put_fields.
  - apply of_to_fields.
  - apply to_fields_small.
  - apply length_put_fields.
Qed.

Fixpoint get_field (k : nat) (l : fields) : option bytes :=
  match l with
  | [] => None
  | (k', b) :: l => if Nat.eqb k' k then Some b else get_field k l
  end.

Definition put_string (k : nat) (s : string) : fields :=
  if bool_decide (s = "")%string then [] else [(k, str_bytes s)].
Definition get_string (k : nat) (l : fields) : string :=
  String.string_of_list_byte (default [] (get_field k l)).
Definition put_message {A} `{Codec A} (k : nat) (m : option A) : fields :=
  match m with None => [] | Some m => [(k, SerializeToString m)] end.
Definition get_message {A} `{Codec A} (k : nat) (l : fields) : option A :=
  ParseFromString <$> get_field k l.

Lemma str_bytes_of s : String.string_of_list_byte (str_bytes s) = s.
Proof. apply String.string_of_list_byte_of_string. Qed.

(** Solve a field law: split on which strings are empty, and compute. *)
Ltac field_solve :=
  cbn -[put_string put_message get_string get_message];
  unfold put_string, put_message, get_string, get_message;
  repeat case_bool_decide; subst; cbn -[ParseFromString SerializeToString str_bytes String.string_of_list_byte];
  rewrite ?str_bytes_of, ?parse_serialize;
  first [done | repeat constructor; simpl; lia].

#[global] Instance Namespace_fields : FieldCodec Namespace := {
  to_fields n := put_string 1 (prefix n) ++ put_string 2 (ns_uri n);
  of_fields l := mkNamespace (get_string 1 l) (get_string 2 l);
}.
#[global] Instance Namespace_fields_laws : FieldCodecLaws Namespace.
Proof. split; intros [a b]; field_solve. Qed.

#[global] Instance URI_fields : FieldCodec URI := {
  to_fields n := put_string 1 (uri n);
  of_fields l := mkURI (get_string 1 l);
}.
#[global] Instance URI_fields_laws : FieldCodecLaws URI.
Proof. split; intros [a]; field_solve. Qed.

#[global] Instance BNode_fields : FieldCodec BNode := {
  to_fields n := put_string 1 (id n);
  of_fields l := mkBNode (get_string 1 l);
}.
#[global] Instance BNode_fields_laws : FieldCodecLaws BNode.
Proof. split; intros [a]; field_solve. Qed.

(** The two cases of a [oneof]. *)
Definition get_oneof {A B C} `{Codec A, Codec B} (none : C) (fa : A → C) (fb : B → C)
    (l : fields) : C :=
  match get_message 1 l with
  | Some a => fa a
  | None => match get_message 2 l with Some b => fb b | None => none end
  end.

#[global] Instance Resource_fields : FieldCodec Resource := {
  to_fields r :=
    match r with
    | Resource_none => []
    | Resource_uri u => put_message 1 (Some u)
    | Resource_bnode b => put_message 2 (Some b)
    end;
  of_fields := get_oneof Resource_none Resource_uri Resource_bnode;
}.
#[global] Instance Resource_fields_laws : FieldCodecLaws Resource.
Proof. split; intros [|x|x]; unfold get_oneof; field_solve. Qed.

#[global] Instance StringLiteral_fields : FieldCodec StringLiteral := {
  to_fields n := put_string 1 (sl_content n) ++ put_string 2 (language n);
  of_fields l := mkStringLiteral (get_string 1 l) (get_string 2 l);
}.
#[global] Instance StringLiteral_fields_laws : FieldCodecLaws StringLiteral.
Proof. split; intros [a b]; field_solve. Qed.

#[global] Instance DatatypeLiteral_fields : FieldCodec DatatypeLiteral := {
  to_fields n := put_string 1 (dl_content n) ++ put_message 2 (datatype_ n);
  of_fields l := mkDatatypeLiteral (get_string 1 l) (get_message 2 l);
}.
#[global] Instance DatatypeLiteral_fields_laws : FieldCodecLaws DatatypeLiteral.
Proof. split; intros [a [b|]]; field_solve. Qed.

#[global] Instance Literal_fields : FieldCodec Literal := {
  to_fields r :=
    match r with
    | Literal_none => []
    | Literal_string u => put_message 1 (Some u)
    | Literal_data b => put_message 2 (Some b)
    end;
  of_fields := get_oneof Literal_none Literal_string Literal_data;
}.
#[global] Instance Literal_fields_laws : FieldCodecLaws Literal.
Proof. split; intros [|x|x]; unfold get_oneof; field_solve. Qed.

#[global] Instance Value_fields : FieldCodec Value := {
  to_fields r :=
    match r with
    | Value_none => []
    | Value_resource u => put_message 1 (Some u)
    | Value_literal b => put_message 2 (Some b)
    end;
  of_fields := get_oneof Value_none Value_resource Value_literal;
}.
#[global] Instance Value_fields_laws : FieldCodecLaws Value.
Proof. split; intros [|x|x]; unfold get_oneof; field_solve. Qed.

#[global] Instance Statement_fields : FieldCodec Statement := {
  to_fields s :=
    put_message 1 (subject_ s) ++ put_message 2 (predicate_ s) ++
    put_message 3 (object_ s) ++ put_message 4 (context_ s);
  of_fields l :=
    mkStatement (get_message 1 l) (get_message 2 l) (get_message 3 l) (get_message 4 l);
}.
#[global] Instance Statement_fields_laws : FieldCodecLaws Statement.
Proof. split; intros [[s|] [p|] [o|] [c|]]; field_solve. Qed.

#[global] Instance wire_protobuf : Protobuf := {}.
#[global] Instance wire_protobuf_laws : ProtobufLaws.
Proof. split; apply _. Qed.

(** ** The default comparator of LevelDB: bytewise, shorter first *)

Fixpoint bytes_compare (a b : bytes) : comparison :=
  match a, b with
  | [], [] => Eq
  | [], _ => Lt
  | _, [] => Gt
  | x :: a, y :: b =>
      match (Byte.to_N x ?= Byte.to_N y)%N with
      | Eq => bytes_compare a b
      | c => c
      end
  end.

#[global] Instance bytes_comparator : Comparator bytes := bytes_compare.

Lemma to_N_inj (x y : byte) : Byte.to_N x = Byte.to_N y → x = y.
Proof. intros E. apply byte_val_inj. unfold byte_val. by rewrite E. Qed.

#[global] Instance bytes_comparator_laws : ComparatorLaws bytes.
Proof.
  split; unfold Compare, bytes_comparator.
  - intros a; induction a as [|x a IH]; intros [|y b]; simpl; try done.
    destruct (N.compare_spec (Byte.to_N x) (Byte.to_N y)) as [E|E|E].
    + apply to_N_inj in E. subst. rewrite (IH b). split; congruence.
    + split; [done|]. intros [= -> ->]. lia.
    + split; [done|]. intros [= -> ->]. lia.
  - intros a; induction a as [|x a IH]; intros [|y b]; simpl; try done.
    rewrite (N.compare_antisym (Byte.to_N x) (Byte.to_N y)).
    destruct (N.compare (Byte.to_N x) (Byte.to_N y)); simpl; auto.
  - intros a; induction a as [|x a IH]; intros [|y b] [|z c]; simpl; try done.
    destruct (N.compare_spec (Byte.to_N x) (Byte.to_N y));
    destruct (N.compare_spec (Byte.to_N y) (Byte.to_N z));
    destruct (N.compare_spec (Byte.to_N x) (Byte.to_N z)); try done; try lia.
    apply IH.
Qed.
