(* ===== verification/RdfOperators.v ===== *)
(** * RdfOperators: model/rdf_operators.h and .cc

    The comparison operators and [std::hash] specialisations of the messages.
    [operator==] and [operator!=] are written separately in the sources for the
    five scalar messages, so they are separate definitions here too.
    [std::hash<std::string>] is a parameter. *)

From Stdlib Require Import ZArith.
From S2P Require Import Prelude Messages.

Definition string_eqb (a b : string) : bool := bool_decide (a = b).

(** ** Comparison *)

Definition Namespace_eq (lhs rhs : Namespace) : bool := string_eqb (ns_uri lhs) (ns_uri rhs).
Definition Namespace_ne (lhs rhs : Namespace) : bool := negb (string_eqb (ns_uri lhs) (ns_uri rhs)).

Definition URI_eq (lhs rhs : URI) : bool := string_eqb (uri lhs) (uri rhs).
Definition URI_ne (lhs rhs : URI) : bool := negb (string_eqb (uri lhs) (uri rhs)).

Definition BNode_eq (lhs rhs : BNode) : bool := string_eqb (id lhs) (id rhs).
Definition BNode_ne (lhs rhs : BNode) : bool := negb (string_eqb (id lhs) (id rhs)).

Definition StringLiteral_eq (lhs rhs : StringLiteral) : bool :=
  string_eqb (sl_content lhs) (sl_content rhs) && string_eqb (language lhs) (language rhs).
Definition StringLiteral_ne (lhs rhs : StringLiteral) : bool :=
  negb (string_eqb (sl_content lhs) (sl_content rhs)) ||
  negb (string_eqb (language lhs) (language rhs)).

Definition DatatypeLiteral_eq (lhs rhs : DatatypeLiteral) : bool :=
  string_eqb (dl_content lhs) (dl_content rhs) &&
  string_eqb (uri (datatype lhs)) (uri (datatype rhs)).
Definition DatatypeLiteral_ne (lhs rhs : DatatypeLiteral) : bool :=
  negb (string_eqb (dl_content lhs) (dl_content rhs)) ||
  negb (string_eqb (uri (datatype lhs)) (uri (datatype rhs))).

Definition Value_eq (lhs rhs : Value) : bool :=
  if has_resource lhs && has_resource rhs then
    if has_uri (val_resource lhs) && has_uri (val_resource rhs) then
      URI_eq (res_uri (val_resource lhs)) (res_uri (val_resource rhs))
    else if has_bnode (val_resource lhs) && has_bnode (val_resource rhs) then
      BNode_eq (res_bnode (val_resource lhs)) (res_bnode (val_resource rhs))
    else false
  else if has_literal lhs && has_literal rhs then
    if has_stringliteral (val_literal lhs) && has_stringliteral (val_literal rhs) then
      StringLiteral_eq (stringliteral (val_literal lhs)) (stringliteral (val_literal rhs))
    else if has_dataliteral (val_literal lhs) && has_dataliteral (val_literal rhs) then
      DatatypeLiteral_eq (dataliteral (val_literal lhs)) (dataliteral (val_literal rhs))
    else false
  else false.
Definition Value_ne (lhs rhs : Value) : bool := negb (Value_eq lhs rhs).

Definition Resource_eq (lhs rhs : Resource) : bool :=
  if has_uri lhs && has_uri rhs then URI_eq (res_uri lhs) (res_uri rhs)
  else if has_bnode lhs && has_bnode rhs then BNode_eq (res_bnode lhs) (res_bnode rhs)
  else false.
Definition Resource_ne (lhs rhs : Resource) : bool := negb (Resource_eq lhs rhs).

Definition Statement_eq (lhs rhs : Statement) : bool :=
  Resource_eq (subject lhs) (subject rhs) &&
  URI_eq (predicate lhs) (predicate rhs) &&
  Value_eq (object lhs) (object rhs) &&
  Resource_eq (context lhs) (context rhs).
Definition Statement_ne (lhs rhs : Statement) : bool := negb (Statement_eq lhs rhs).

(** ** Hashing *)

Section Hash.
Context `{Protobuf} (string_hash : bytes → Z).

(** [hash<google::protobuf::Message>]: the hash of the serialized message. *)
Definition Message_hash {A} `{Codec A} (k : A) : Z := string_hash (SerializeToString k).

Definition URI_hash (k : URI) : Z := string_hash (str_bytes (uri k)).
Definition BNode_hash (k : BNode) : Z := string_hash (str_bytes (id k)).

Definition Resource_hash (k : Resource) : Z :=
  if has_uri k then URI_hash (res_uri k)
  else if has_bnode k then BNode_hash (res_bnode k)
  else Message_hash k.

Definition Value_hash (k : Value) : Z := Message_hash k.
Definition StringLiteral_hash (k : StringLiteral) : Z := Message_hash k.
Definition DatatypeLiteral_hash (k : DatatypeLiteral) : Z := Message_hash k.
Definition Statement_hash (k : Statement) : Z := Message_hash k.
Definition Namespace_hash (k : Namespace) : Z := Message_hash k.
End Hash.

(** ** Statement patterns: the [matches] function of leveldb_persistence.cc *)

Definition matches (stmt pattern : Statement) : bool :=
  if has_context pattern && Resource_ne (context stmt) (context pattern) then false
  else if has_subject pattern && Resource_ne (subject stmt) (subject pattern) then false
  else if has_predicate pattern && URI_ne (predicate stmt) (predicate pattern) then false
  else if has_object pattern && Value_ne (object stmt) (object pattern) then false
  else true.

(** ** What the operators decide *)

(** Terms the data model means: every [oneof] is set, a datatype is present. *)
Definition wf_resource (r : Resource) : bool := has_uri r || has_bnode r.

Definition wf_literal (l : Literal) : bool :=
  match l with
  | Literal_none => false
  | Literal_string _ => true
  | Literal_data d => bool_decide (is_Some (datatype_ d))
  end.

Definition wf_value (v : Value) : bool :=
  match v with
  | Value_none => false
  | Value_resource r => wf_resource r
  | Value_literal l => wf_literal l
  end.

(** A quad with all its fields set, and a pattern whose set fields are terms. *)
Definition wf_statement (s : Statement) : bool :=
  match s with
  | mkStatement (Some su) (Some _) (Some o) (Some c) =>
      wf_resource su && wf_value o && wf_resource c
  | _ => false
  end.

Definition wf_pattern (p : Statement) : bool :=
  implb (has_subject p) (wf_resource (subject p)) &&
  implb (has_object p) (wf_value (object p)) &&
  implb (has_context p) (wf_resource (context p)).

Lemma string_eqb_true a b : string_eqb a b = true ↔ a = b.
Proof. apply bool_decide_eq_true. Qed.

Lemma URI_eq_true a b : URI_eq a b = true ↔ a = b.
Proof.
  unfold URI_eq. rewrite string_eqb_true. destruct a, b; simpl. split; congruence.
Qed.

Lemma BNode_eq_true a b : BNode_eq a b = true ↔ a = b.
Proof.
  unfold BNode_eq. rewrite string_eqb_true. destruct a, b; simpl. split; congruence.
Qed.

Lemma StringLiteral_eq_true a b : StringLiteral_eq a b = true ↔ a = b.
Proof.
  unfold StringLiteral_eq. rewrite andb_true_iff, !string_eqb_true.
  destruct a, b; simpl. naive_solver.
Qed.

Lemma DatatypeLiteral_eq_true a b :
  DatatypeLiteral_eq a b = true ↔ dl_content a = dl_content b ∧ datatype a = datatype b.
Proof.
  unfold DatatypeLiteral_eq. rewrite andb_true_iff, !string_eqb_true.
  destruct (datatype a), (datatype b); simpl. naive_solver.
Qed.

Lemma Resource_eq_true a b : Resource_eq a b = true ↔ a = b ∧ wf_resource a = true.
Proof.
  destruct a, b; simpl; unfold Resource_eq; simpl; rewrite ?URI_eq_true, ?BNode_eq_true;
    naive_solver.
Qed.

Lemma Value_eq_true a b :
  wf_value a = true → wf_value b = true → Value_eq a b = true ↔ a = b.
Proof.
  destruct a as [|[]|[| |[]]], b as [|[]|[| |[]]]; try done; intros Ha Hb;
    unfold Value_eq; cbn -[URI_eq BNode_eq StringLiteral_eq DatatypeLiteral_eq];
    rewrite ?URI_eq_true, ?BNode_eq_true, ?StringLiteral_eq_true; try naive_solver.
  rewrite DatatypeLiteral_eq_true. unfold datatype. simpl in *.
  apply bool_decide_eq_true in Ha as [d ->], Hb as [d' ->]. simpl. naive_solver.
Qed.

(** Two literals or resources that [operator==] takes for the same term. *)
Definition same_value (a b : Value) : Prop :=
  match a, b with
  | Value_resource r, Value_resource r' => r = r' ∧ wf_resource r = true
  | Value_literal (Literal_string l), Value_literal (Literal_string l') => l = l'
  | Value_literal (Literal_data l), Value_literal (Literal_data l') =>
      dl_content l = dl_content l' ∧ datatype l = datatype l'
  | _, _ => False
  end.

Lemma Value_eq_same a b : Value_eq a b = true ↔ same_value a b.
Proof.
  destruct a as [|[]|[| |]], b as [|[]|[| |]]; try done;
    unfold Value_eq; cbn -[URI_eq BNode_eq StringLiteral_eq DatatypeLiteral_eq];
    rewrite ?URI_eq_true, ?BNode_eq_true, ?StringLiteral_eq_true, ?DatatypeLiteral_eq_true;
    naive_solver.
Qed.

Lemma Statement_eq_spec a b :
  Statement_eq a b = true ↔
  (subject a = subject b ∧ wf_resource (subject a) = true) ∧ predicate a = predicate b ∧
  same_value (object a) (object b) ∧ context a = context b ∧ wf_resource (context a) = true.
Proof.
  unfold Statement_eq.
  rewrite !andb_true_iff, !Resource_eq_true, URI_eq_true, Value_eq_same. tauto.
Qed.

Lemma Value_ne_false a b :
  wf_value a = true → wf_value b = true → Value_ne a b = false ↔ a = b.
Proof. intros Ha Hb. unfold Value_ne. by rewrite negb_false_iff, Value_eq_true. Qed.

Lemma Resource_ne_false a b :
  wf_resource b = true → Resource_ne a b = false ↔ a = b.
Proof.
  intros Hb. unfold Resource_ne. rewrite negb_false_iff, Resource_eq_true. naive_solver.
Qed.

Lemma URI_ne_false a b : URI_ne a b = false ↔ a = b.
Proof. unfold URI_ne. rewrite negb_false_iff. apply URI_eq_true. Qed.

Lemma matches_spec stmt pattern :
  wf_pattern pattern = true → (has_object pattern = true → wf_value (object stmt) = true) →
  matches stmt pattern = true ↔
  (has_subject pattern = true → subject stmt = subject pattern) ∧
  (has_predicate pattern = true → predicate stmt = predicate pattern) ∧
  (has_object pattern = true → object stmt = object pattern) ∧
  (has_context pattern = true → context stmt = context pattern).
Proof.
  unfold wf_pattern, matches. intros Hwf Ho. split_andb.
  pose proof (Resource_ne_false (context stmt) (context pattern)) as Hc.
  pose proof (Resource_ne_false (subject stmt) (subject pattern)) as Hs.
  pose proof (URI_ne_false (predicate stmt) (predicate pattern)) as Hp.
  pose proof (Value_ne_false (object stmt) (object pattern)) as Hv.
  destruct (has_context pattern), (has_subject pattern), (has_predicate pattern),
    (has_object pattern), (Resource_ne (context stmt) _), (Resource_ne (subject stmt) _),
    (URI_ne _ _), (Value_ne _ _); simpl in *; intuition congruence.
Qed.

(** [operator!=] of the scalar messages is the negation of [operator==]. *)
Lemma StringLiteral_ne_eq a b : StringLiteral_ne a b = negb (StringLiteral_eq a b).
Proof. unfold StringLiteral_ne, StringLiteral_eq. by rewrite negb_andb. Qed.

Lemma DatatypeLiteral_ne_eq a b : DatatypeLiteral_ne a b = negb (DatatypeLiteral_eq a b).
Proof. unfold DatatypeLiteral_ne, DatatypeLiteral_eq. by rewrite negb_andb. Qed.

Lemma wf_statement_inv s :
  wf_statement s = true → ∃ su p o c,
    s = mkStatement (Some su) (Some p) (Some o) (Some c) ∧
    wf_resource su = true ∧ wf_value o = true ∧ wf_resource c = true.
Proof.
  destruct s as [[su|] [p|] [o|] [c|]]; simpl; try done. intros H. split_andb.
  by exists su, p, o, c.
Qed.

Lemma Statement_eq_wf a b :
  wf_statement a = true → wf_statement b = true → Statement_eq a b = true ↔ a = b.
Proof.
  intros (su & p & o & c & -> & Hs & Ho & Hc)%wf_statement_inv
         (su' & p' & o' & c' & -> & Hs' & Ho' & Hc')%wf_statement_inv.
  rewrite Statement_eq_spec, <- Value_eq_same. cbn. rewrite Value_eq_true by done.
  naive_solver.
Qed.

(** ** Properties *)

(** On quads with every term set, [operator==] of statements decides
    equality of the messages; together with [operator!=] it is an equivalence
    there. *)
Theorem statement_equality (a b : Statement) :
  wf_statement a = true → wf_statement b = true →
  (Statement_eq a b = true ↔ a = b) ∧ (Statement_ne a b = true ↔ a ≠ b).
Proof.
  intros Ha Hb. pose proof (Statement_eq_wf a b Ha Hb) as E. split; [done|].
  unfold Statement_ne. rewrite negb_true_iff, <- E. by destruct (Statement_eq a b).
Qed.

Definition quad_example : Statement :=
  mkStatement (Some (Resource_uri (mkURI "s"))) (Some (mkURI "p"))
    (Some (Value_literal (Literal_string (mkStringLiteral "o" "en"))))
    (Some (Resource_bnode (mkBNode "g"))).

Lemma statement_equality_witness :
  (Statement_eq quad_example quad_example = true ↔ quad_example = quad_example) ∧
  (Statement_ne quad_example quad_example = true ↔ quad_example ≠ quad_example).
Proof. apply statement_equality; reflexivity. Defined.

(** A statement without context is not equal to itself: [operator==] of
    two empty resources is false, so every triple outside a named graph differs
    from its own copy. *)
Theorem triple_not_equal_to_itself (a : Statement) :
  has_context a = false → Statement_eq a a = false ∧ Statement_ne a a = true.
Proof.
  intros Hc. assert (E : Statement_eq a a = false).
  { apply not_true_iff_false. rewrite Statement_eq_spec. intros (_ & _ & _ & _ & Hw).
    unfold context, has_context in *. by destruct (context_ a). }
  unfold Statement_ne. by rewrite E.
Qed.

Definition triple_example : Statement :=
  mkStatement (Some (Resource_uri (mkURI "s"))) (Some (mkURI "p"))
    (Some (Value_resource (Resource_uri (mkURI "o")))) None.

Lemma triple_not_equal_to_itself_witness :
  Statement_eq triple_example triple_example = false ∧
  Statement_ne triple_example triple_example = true.
Proof. apply triple_not_equal_to_itself; reflexivity. Defined.

(** Equal resources hash alike, and so do equal quads: the hash
    specialisations are consistent with [operator==] on well-formed terms,
    whatever [std::hash<std::string>] and the wire format are. *)
Theorem hash_consistent `{Protobuf} (string_hash : bytes → Z) :
  (∀ a b, Resource_eq a b = true → Resource_hash string_hash a = Resource_hash string_hash b) ∧
  (∀ a b, wf_value a = true → wf_value b = true → Value_eq a b = true →
     Value_hash string_hash a = Value_hash string_hash b) ∧
  (∀ a b, wf_statement a = true → wf_statement b = true → Statement_eq a b = true →
     Statement_hash string_hash a = Statement_hash string_hash b).
Proof.
  split; [|split].
  - by intros a b [-> _]%Resource_eq_true.
  - intros a b Ha Hb E. by apply Value_eq_true in E as ->.
  - intros a b Ha Hb E. by apply Statement_eq_wf in E as ->.
Qed.
