(* ===== verification/Matching.v ===== *)
(** * Matching: from hashes to terms

    The store compares 128-bit hashes.  [collision_free] says that the hashes
    of the terms at hand are distinct; under it the range scan of a pattern the
    index covers selects exactly the statements the function [matches] of
    leveldb_persistence.cc accepts, and for every pattern it selects at least
    those. *)

From S2P Require Import Prelude Words Murmur3 Messages LevelDB Iterators Keys Persistence PersistenceSpec RdfOperators.

Section Matching.
Context (ar : arch) `{PBL : ProtobufLaws}.

(** Equality of two statements at one position. *)
Definition field_eq (p : Position) (a b : Statement) : Prop :=
  match p with
  | Pos_S => subject a = subject b
  | Pos_P => predicate a = predicate b
  | Pos_O => object a = object b
  | Pos_C => context a = context b
  end.

#[global] Instance field_eq_dec p a b : Decision (field_eq p a b).
Proof. destruct p; simpl; apply _. Defined.

(** No two different terms at the same position hash alike. *)
Definition hash_distinct (a b : Statement) : Prop :=
  Forall (λ p, hash128 ar (term_buf a p) = hash128 ar (term_buf b p) → field_eq p a b)
    [Pos_S; Pos_P; Pos_O; Pos_C].

#[global] Instance hash_distinct_dec a b : Decision (hash_distinct a b).
Proof. unfold hash_distinct. apply _. Defined.

Definition collision_free (A : gset Statement) : Prop :=
  set_Forall (λ a, set_Forall (hash_distinct a) A) A.

Lemma term_buf_eq p a b : term_buf a p = term_buf b p ↔ field_eq p a b.
Proof.
  destruct p; simpl; (split; [apply (inj SerializeToString)|congruence]).
Qed.

Lemma hash_field_eq p a b :
  hash_distinct a b → hash128 ar (term_buf a p) = hash128 ar (term_buf b p) ↔ field_eq p a b.
Proof.
  unfold hash_distinct. rewrite Forall_forall. intros Hd. split.
  - apply Hd. destruct p; set_solver.
  - by intros ->%term_buf_eq.
Qed.

Lemma matches_fields st pattern :
  wf_pattern pattern = true → (has_object pattern = true → wf_value (object st) = true) →
  matches st pattern = true ↔ ∀ p, pattern_has pattern p = true → field_eq p st pattern.
Proof.
  intros Hwf Ho. rewrite matches_spec by done. split.
  - intros (Hs & Hp & Hob & Hc) []; simpl; auto.
  - intros Hf. split_and!; intros Hh;
      [apply (Hf Pos_S)|apply (Hf Pos_P)|apply (Hf Pos_O)|apply (Hf Pos_C)]; done.
Qed.

Lemma bound_positions_has t pattern p :
  p ∈ bound_positions t pattern → pattern_has pattern p = true.
Proof. apply take_while_true. Qed.

Lemma index_covers_spec t pattern :
  index_covers t pattern = true ↔
  ∀ p, pattern_has pattern p = true → p ∈ bound_positions t pattern.
Proof.
  unfold index_covers. rewrite forallb_forall. split.
  - intros Hc p Hp. specialize (Hc p ltac:(destruct p; simpl; tauto)).
    rewrite Hp in Hc. by apply bool_decide_eq_true in Hc.
  - intros Hc p _. destruct (pattern_has pattern p) eqn:E; simpl; [|done].
    apply bool_decide_eq_true. auto.
Qed.

Section Pattern.
Context (pattern st : Statement).
Hypothesis Hwf : wf_pattern pattern = true.
Hypothesis Hst : has_object pattern = true → wf_value (object st) = true.

Lemma matches_hash_matches : matches st pattern = true → hash_matches ar pattern st.
Proof.
  rewrite matches_fields by done. intros Hf. unfold hash_matches.
  rewrite Forall_forall. intros p Hp%bound_positions_has.
  f_equal. by apply term_buf_eq, Hf.
Qed.

Lemma hash_matches_exact :
  index_covers (type_ (newPatternQuery pattern)) pattern = true → hash_distinct st pattern →
  hash_matches ar pattern st ↔ matches st pattern = true.
Proof.
  rewrite index_covers_spec. intros Hc Hd. split; [|apply matches_hash_matches].
  unfold hash_matches. rewrite Forall_forall, matches_fields by done.
  intros Hh p Hp. by apply hash_field_eq, Hh, Hc.
Qed.
End Pattern.

(** Statements that agree in every field have the same key, and under
    [hash_distinct] only those. *)
Lemma same_key_fields a b :
  hash_distinct a b → same_key ar a b ↔ ∀ p, field_eq p a b.
Proof.
  intros Hd. rewrite (same_key_hash ar a b). split; intros Hp p;
    apply (hash_field_eq p a b Hd), Hp.
Qed.

Definition complete (s : Statement) : Prop :=
  is_Some (subject_ s) ∧ is_Some (predicate_ s) ∧ is_Some (object_ s) ∧ is_Some (context_ s).

Lemma complete_fields a b : complete a → complete b → (∀ p, field_eq p a b) → a = b.
Proof.
  intros ([? Ha1] & [? Ha2] & [? Ha3] & [? Ha4]) ([? Hb1] & [? Hb2] & [? Hb3] & [? Hb4]) Hf.
  destruct a, b; simpl in *; subst.
  pose proof (Hf Pos_S) as Hs; pose proof (Hf Pos_P) as Hp;
  pose proof (Hf Pos_O) as Ho; pose proof (Hf Pos_C) as Hc;
  unfold field_eq, subject, predicate, object, context in *; simpl in *. congruence.
Qed.
End Matching.
