(* ===== verification/Service.v ===== *)
(** * Service: the gRPC service of persistence/leveldb_service.cc

    Each handler of [LevelDBService] is a definition on the state of the
    persistence it wraps.  The gRPC streams are explicit: a [ServerReader] is
    the list of messages the client sends, a [ServerWriter] is the list of
    messages written so far and the number the client still accepts ([Write]
    returns false once the stream is broken).  [ReaderIterator] is an
    implementation of the iterator interface, so the persistence consumes it
    like any other. *)

From Stdlib Require Import ZArith Lia.
From S2P Require Import Prelude Words Murmur3 Messages LevelDB Iterators Keys Persistence RdfOperators.
Local Open Scope Z_scope.

Inductive Status := StatusOK | NotFound (message : string) | Unavailable (message : string).

Definition status_ok (s : Status) : bool :=
  match s with StatusOK => true | _ => false end.

(** ** Streams *)

Abbreviation ServerReader T := (list T).

(** [reader->Read(&buffer)]: false at the end of the stream. *)
Definition Read {T} (reader : ServerReader T) (buffer : T) : bool * (ServerReader T * T) :=
  match reader with
  | [] => (false, ([], buffer))
  | x :: reader => (true, (reader, x))
  end.

Record ServerWriter T := mkServerWriter {
  written : list T;
  w_room : option nat;  (* messages the client still takes; [None]: all of them *)
}.
Arguments mkServerWriter {T} _ _.
Arguments written {T} _.
Arguments w_room {T} _.

Definition newServerWriter {T} (room : option nat) : ServerWriter T := mkServerWriter [] room.

Definition WriteMsg {T} (w : ServerWriter T) (x : T) : bool * ServerWriter T :=
  match w_room w with
  | None => (true, mkServerWriter (written w ++ [x]) None)
  | Some O => (false, w)
  | Some (S n) => (true, mkServerWriter (written w ++ [x]) (Some n))
  end.

Record ReaderIterator T := mkReaderIterator {
  reader : ServerReader T;
  buffer : T;
  finished : bool;
}.
Arguments mkReaderIterator {T} _ _ _.
Arguments reader {T} _.
Arguments buffer {T} _.
Arguments finished {T} _.

Definition ri_next {T} (it : ReaderIterator T) : ReaderIterator T :=
  if negb (finished it) then
    let '(ok, (r, b)) := Read (reader it) (buffer it) in
    mkReaderIterator r b (negb ok)
  else it.

Definition newReaderIterator {T} `{Message T} (r : ServerReader T) : ReaderIterator T :=
  ri_next (mkReaderIterator r default_instance false).

#[global] Instance reader_iterator {T} : CloseableIterator (ReaderIterator T) T := {
  next := ri_next;
  deref it := Ok (buffer it, it);
  hasNext it := negb (finished it);
  elements it := if finished it then [] else buffer it :: reader it;
}.

#[global] Instance reader_iterator_laws {T} : IteratorLaws (ReaderIterator T) T.
Proof.
  split.
  - by intros [r b []].
  - intros [r b []] x l; simpl; [done|]. intros ?. simplify_eq. eauto.
  - intros [[|y r] b []] x l; simpl; try done; intros ?; by simplify_eq.
Qed.

Lemma elements_newReaderIterator {T} `{Message T} (r : ServerReader T) :
  elements (newReaderIterator r) = r.
Proof. by destruct r. Qed.

(** Update requests are messages: a [oneof] of the four kinds. *)
#[global] Instance UpdateRequest_message : Message UpdateRequest := {
  default_instance := Update_none;
  MergeFrom to from :=
    match from, to with
    | Update_none, _ => to
    | stmt_added s, stmt_added t => stmt_added (MergeFrom t s)
    | stmt_removed s, stmt_removed t => stmt_removed (MergeFrom t s)
    | ns_added n, ns_added t => ns_added (MergeFrom t n)
    | ns_removed n, ns_removed t => ns_removed (MergeFrom t n)
    | _, _ => from
    end;
}.

(** ** Handlers *)

Section Service.
Context (ar : arch) `{PB : Protobuf}.
Context `{LK : !LevelDB key64} `{LB : !LevelDB bytes}.

Definition svc_AddNamespaces (r : ServerReader Namespace) (p : LevelDBPersistence) :
    res (Status * Z * LevelDBPersistence) :=
  '(count, p) ← AddNamespaces (newReaderIterator r) p;
  Ok (StatusOK, count, p).

Definition svc_GetNamespace (pattern : Namespace) (p : LevelDBPersistence) :
    res (Status * Namespace) :=
  GetNamespaces pattern (λ _ r, Ok (true, (StatusOK, r)))
    (NotFound "Namespace not found", default_instance) p.

Definition svc_GetNamespaces (w : ServerWriter Namespace) (p : LevelDBPersistence) :
    res (Status * ServerWriter Namespace) :=
  w ← GetNamespaces default_instance (λ w r, Ok (WriteMsg w r)) w p;
  Ok (StatusOK, w).

Definition svc_AddStatements (r : ServerReader Statement) (p : LevelDBPersistence) :
    res (Status * Z * LevelDBPersistence) :=
  '(count, p) ← AddStatements ar (newReaderIterator r) p;
  Ok (StatusOK, count, p).

Definition svc_GetStatements (pattern : Statement) (w : ServerWriter Statement)
    (p : LevelDBPersistence) : res (Status * ServerWriter Statement) :=
  w ← GetStatements ar pattern (λ w st, Ok (WriteMsg w st)) w p;
  Ok (StatusOK, w).

Definition svc_RemoveStatements (pattern : Statement) (p : LevelDBPersistence) :
    res (Status * Z * LevelDBPersistence) :=
  '(count, p) ← RemoveStatements ar pattern p;
  Ok (StatusOK, count, p).

(** [pattern.mutable_context()->CopyFrom(r)] *)
Definition set_context (pattern : Statement) (r : Resource) : Statement :=
  mkStatement (subject_ pattern) (predicate_ pattern) (object_ pattern) (Some r).

(** One round of the loops of Clear and Size; [pattern] lives across rounds. *)
Definition Clear_step (s : Statement * Z * LevelDBPersistence) (r : Resource) :
    res (Statement * Z * LevelDBPersistence) :=
  let '(pattern, count, p) := s in
  let pattern := set_context pattern r in
  '(n, p) ← RemoveStatements ar pattern p;
  Ok (pattern, count + n, p).

Definition Size_step (p : LevelDBPersistence) (s : Statement * Z) (r : Resource) :
    res (Statement * Z) :=
  let '(pattern, count) := s in
  let pattern := set_context pattern r in
  count ← GetStatements ar pattern (λ count _, Ok (true, count + 1)) count p;
  Ok (pattern, count).

Definition svc_Clear (contexts : ContextRequest) (p : LevelDBPersistence) :
    res (Status * Z * LevelDBPersistence) :=
  let pattern := default_instance in
  '(_, count, p) ←
    (if bool_decide (0 < length (req_context contexts))%nat then
       foldM Clear_step (pattern, 0, p) (req_context contexts)
     else
       '(n, p) ← RemoveStatements ar pattern p;
       Ok (pattern, 0 + n, p));
  Ok (StatusOK, count, p).

Definition svc_Size (contexts : ContextRequest) (p : LevelDBPersistence) : res (Status * Z) :=
  count ←
    (if bool_decide (0 < length (req_context contexts))%nat then
       '(_, count) ← foldM (Size_step p) (default_instance, 0) (req_context contexts);
       Ok count
     else Size p);
  Ok (StatusOK, count).

(** [std::unordered_set<Resource>::insert]; the order of the elements is not
    specified by the library, here it is the order of insertion. *)
Definition uset_insert (s : list Resource) (r : Resource) : list Resource :=
  if existsb (λ x, Resource_eq x r) s then s else s ++ [r].

Definition svc_GetContexts (w : ServerWriter Resource) (p : LevelDBPersistence) :
    res (Status * ServerWriter Resource) :=
  contexts ← GetStatements ar default_instance
    (λ contexts stmt,
      Ok (true, if has_context stmt then uset_insert contexts (context stmt) else contexts)) [] p;
  Ok (StatusOK, foldl (λ w c, (WriteMsg w c).2) w contexts).

Definition svc_Update (r : ServerReader UpdateRequest) (p : LevelDBPersistence) :
    res (Status * UpdateResponse * LevelDBPersistence) :=
  '(stats, p) ← Update ar (newReaderIterator r) p;
  Ok (StatusOK,
      mkUpdateResponse (added_stmts stats) (removed_stmts stats) (added_ns stats)
        (removed_ns stats), p).
End Service.
