(* ===== verification/DemoStore.v ===== *)
(** * DemoStore: a concrete store for closed examples

    The wire format of Wire.v, the database [MapDB] and a few quads: the store
    on which the general theorems are instantiated and evaluated. *)

From Stdlib Require Import ZArith.
From S2P Require Import Prelude Words Murmur3 Messages Iterators LevelDB Keys Wire RdfOperators.
From S2P Require Import Persistence PersistenceSpec Refinement UpdateProofs Service.

Module Demo.
Abbreviation ar := arch_x86_64.
Definition store : Type :=
  LevelDBPersistence (LK := MapDB.map_db) (LB := MapDB.map_db).
Definition empty_store : store := newLevelDBPersistence.

Definition res_ (s : string) : Resource := Resource_uri (mkURI s).
Definition quad (s p o c : string) : Statement :=
  mkStatement (Some (res_ s)) (Some (mkURI p)) (Some (Value_resource (res_ o))) (Some (res_ c)).
Definition any : Statement := mkStatement None None None None.
Definition by_subject (s : string) : Statement := mkStatement (Some (res_ s)) None None None.
Definition by_subject_object (s o : string) : Statement :=
  mkStatement (Some (res_ s)) None (Some (Value_resource (res_ o))) None.

Definition quads : list Statement :=
  [quad "alice" "knows" "bob" "g1"; quad "alice" "knows" "carol" "g2";
   quad "bob" "likes" "carol" "g1"].

Lemma empty_inv : Inv ar empty_store.
Proof. apply (new_refines ar). Qed.

Lemma empty_abs : abs empty_store = ∅.
Proof. apply (new_refines ar). Qed.

(** The store after adding the three quads. *)
Definition loaded : store :=
  match AddStatements ar (newReaderIterator quads) empty_store with
  | Ok (_, p) => p
  | _ => empty_store
  end.

Lemma loaded_inv : Inv ar loaded.
Proof.
  unfold loaded.
  destruct (AddStatements_refines ar (newReaderIterator quads) empty_store empty_inv)
    as (p & -> & HI & _). done.
Qed.

Lemma loaded_reachable : reachable ar loaded.
Proof.
  apply rtc_once. apply (step_add_statements ar _ _ _ (newReaderIterator quads) 3%Z).
  fold empty_store. unfold loaded.
  destruct (AddStatements_refines ar (newReaderIterator quads) empty_store empty_inv)
    as (p & -> & _). done.
Qed.

Lemma loaded_abs : abs loaded = list_to_set quads.
Proof. apply (bool_decide_unpack _). vm_compute. exact I. Qed.
End Demo.

