(* ===== verification/StoreTheorems.v ===== *)
(** * StoreTheorems: the properties of the statement store

    The theorems are stated for any codec, any database and any iterator that
    keep the laws of their interfaces.  The witnesses run them on the wire
    format of Wire.v and on the database [MapDB]. *)

From Stdlib Require Import ZArith Lia.
From S2P Require Import Prelude Words Murmur3 Messages Iterators LevelDB Keys Wire RdfOperators.
From S2P Require Import Persistence PersistenceSpec Refinement UpdateProofs Matching Service DemoStore.

Section Theorems.
Context (ar : arch) `{PBL : ProtobufLaws}.
Context `{LK : !LevelDB key64} `{LKL : !LevelDBLaws key64}.
Context `{CB : !Comparator bytes} `{LB : !LevelDB bytes} `{LBL : !LevelDBLaws bytes}.

(** C1. Invariant of every reachable store: after any sequence of
    AddStatements, AddNamespaces, RemoveStatements and Update from an empty
    store, each entry of each of the four indexes is a serialized statement
    under the key of that statement in that index, and the four indexes hold
    the same statements. *)
Theorem reachable_indexes_consistent (p : LevelDBPersistence) :
  reachable ar p →
  (∀ t k v, contents (index_db t p) !! k = Some v →
     ∃ st, k = stmt_key ar t st ∧ v = SerializeToString st) ∧
  (∀ t st, contents (index_db t p) !! stmt_key ar t st =
           contents (db_spoc p) !! stmt_key ar SPOC st).
Proof.
  intros HI%(reachable_inv ar). split; [apply (inv_keyed _ _ HI)|apply (inv_agree _ _ HI)].
Qed.

(** C2. AddStatements returns, for every iterator, the number of statements
    read, and its effect on the abstract store is the insertion of each of them
    in order, a statement with the same key being replaced; the namespaces and
    the invariant are kept. *)
Theorem add_statements_correct {It} `{IteratorLaws It Statement} (it : It)
    (p : LevelDBPersistence) :
  Inv ar p →
  ∃ p', AddStatements ar it p = Ok (Z.of_nat (length (elements it)), p') ∧
    Inv ar p' ∧ abs p' = foldl (λ A st, spec_add ar st A) (abs p) (elements it) ∧
    same_ns p p'.
Proof. exact (AddStatements_refines ar it p). Qed.

(** C3. GetStatements with a pattern its index covers, on a store whose terms
    do not collide with those of the pattern, delivers exactly the stored
    statements that [matches] accepts, each once. *)
Theorem get_statements_exact (pattern : Statement) (p : LevelDBPersistence) :
  Inv ar p → wf_pattern pattern = true →
  index_covers (type_ (newPatternQuery pattern)) pattern = true →
  set_Forall (λ st, wf_value (object st) = true ∧ hash_distinct ar st pattern) (abs p) →
  ∃ l, GetStatements ar pattern (λ l st, Ok (true, l ++ [st])) [] p = Ok l ∧ NoDup l ∧
    ∀ st, st ∈ l ↔ matches st pattern = true ∧ st ∈ abs p.
Proof.
  intros HI Hwf Hc Hd. exists (results ar pattern p).
  rewrite (GetStatements_collect ar pattern). split; [done|].
  split; [exact (results_nodup ar pattern p HI)|].
  intros st. rewrite (elem_of_results ar pattern p st HI). unfold spec_get.
  rewrite elem_of_filter. split; intros [Hm Hst]; (split; [|done]);
    destruct (Hd st Hst) as [Hv Hx];
    by apply (hash_matches_exact ar pattern st Hwf (λ _, Hv) Hc Hx).
Qed.

(** Whatever the pattern, GetStatements never misses a stored statement
    that [matches] accepts: collisions and indexes that do not cover the
    pattern only add results. *)
Theorem get_statements_complete (pattern : Statement) (p : LevelDBPersistence) :
  Inv ar p → wf_pattern pattern = true →
  ∃ l, GetStatements ar pattern (λ l st, Ok (true, l ++ [st])) [] p = Ok l ∧
    ∀ st, st ∈ abs p → wf_value (object st) = true → matches st pattern = true → st ∈ l.
Proof.
  intros HI Hwf. exists (results ar pattern p). rewrite (GetStatements_collect ar pattern).
  split; [done|]. intros st Hst Hv Hm. rewrite (elem_of_results ar pattern p st HI).
  unfold spec_get. rewrite elem_of_filter. split; [|done].
  by apply (matches_hash_matches ar pattern st Hwf (λ _, Hv)).
Qed.

(** C4. RemoveStatements removes from the abstract store exactly what
    GetStatements with the same pattern returns, from all four indexes, and
    returns their number. *)
Theorem remove_statements_correct (pattern : Statement) (p : LevelDBPersistence) :
  Inv ar p →
  ∃ l p', GetStatements ar pattern (λ l st, Ok (true, l ++ [st])) [] p = Ok l ∧
    RemoveStatements ar pattern p = Ok (Z.of_nat (length l), p') ∧
    Inv ar p' ∧ same_ns p p' ∧ (∀ st, st ∈ abs p' ↔ st ∈ abs p ∧ st ∉ l) ∧
    GetStatements ar pattern (λ l st, Ok (true, l ++ [st])) [] p' = Ok [].
Proof.
  intros HI. destruct (RemoveStatements_refines ar pattern p HI) as (p' & E & HI' & Ha & Hn).
  exists (results ar pattern p), p'. rewrite !(GetStatements_collect ar pattern), E.
  rewrite (results_length ar pattern p HI). split_and!; try done.
  - intros st. rewrite (elem_of_results ar pattern p st HI), Ha.
    unfold spec_remove, spec_get. rewrite !elem_of_filter.
    destruct (decide (hash_matches ar pattern st)); tauto.
  - f_equal. apply length_zero_iff_nil.
    rewrite (results_length ar pattern p' HI'), Ha. apply size_empty_iff.
    unfold spec_remove, spec_get. set_solver.
Qed.

(** Size counts the statements of the abstract store. *)
Theorem size_correct (p : LevelDBPersistence) :
  Inv ar p → Size p = Ok (Z.of_nat (size (abs p))).
Proof. exact (Size_refines ar p). Qed.

(** A statement that was just added is found by its own pattern, with any
    of its fields left out: no assumption on hashes. *)
Theorem add_then_get (st pattern : Statement) (p : LevelDBPersistence) :
  Inv ar p → (∀ q, pattern_has pattern q = true → field_eq q st pattern) →
  ∃ p' l, AddStatements ar (newSingletonIterator st) p = Ok (1%Z, p') ∧
    GetStatements ar pattern (λ l st, Ok (true, l ++ [st])) [] p' = Ok l ∧ st ∈ l.
Proof.
  intros HI Hf.
  destruct (AddStatements_refines ar (newSingletonIterator st) p HI) as (p' & E & HI' & Ha & _).
  exists p', (results ar pattern p'). rewrite (GetStatements_collect ar pattern). split_and!; try done.
  rewrite (elem_of_results ar pattern p' st HI'), Ha. cbn.
  unfold spec_get, spec_add. rewrite elem_of_filter. split; [|set_solver].
  unfold hash_matches. rewrite Forall_forall. intros q Hq%bound_positions_has.
  f_equal. by apply term_buf_eq, Hf.
Qed.

(** C5. Update processes its whole stream and returns: the counters are those
    of [spec_stats], the statements change as [spec_update] says (a removal
    takes what matched before the call), and the two namespace databases get
    the queued writes in order. *)
Theorem update_correct {It} `{IteratorLaws It UpdateRequest} (it : It) (p : LevelDBPersistence) :
  Inv ar p →
  ∃ p', Update ar it p =
      Ok (foldl (spec_stats ar (abs p)) (mkUpdateStatistics 0 0 0 0) (elements it), p') ∧
    Inv ar p' ∧ abs p' = foldl (spec_update ar (abs p)) (abs p) (elements it) ∧
    contents (db_ns_prefix p') =
      apply_batch (elements it ≫= req_ns_ops prefix p) (contents (db_ns_prefix p)) ∧
    contents (db_ns_url p') =
      apply_batch (elements it ≫= req_ns_ops ns_uri p) (contents (db_ns_url p)).
Proof. exact (Update_refines ar it p). Qed.

(** C17. When no request of the stream removes what an earlier one adds, Update
    has the effect of applying the requests one after the other. *)
Theorem update_sequential {It} `{IteratorLaws It UpdateRequest} (it : It)
    (p : LevelDBPersistence) :
  Inv ar p → no_readd ar [] (elements it) →
  ∃ s p', Update ar it p = Ok (s, p') ∧
    abs p' = foldl (spec_sequential ar) (abs p) (elements it).
Proof.
  intros HI Hr. destruct (Update_refines ar it p HI) as (p' & E & _ & Ha & _).
  eexists _, p'. split; [exact E|]. rewrite Ha.
  apply (spec_update_sequential ar (abs p) [] (abs p)); [|done]. by left.
Qed.

(** Adding a statement and removing it in the same Update does not remove
    it: if the store did not hold a statement with that key, it does after the
    call. *)
Theorem update_add_remove_keeps (st : Statement) (p : LevelDBPersistence) :
  Inv ar p → spec_get ar st (abs p) = ∅ →
  ∃ s p', Update ar (newReaderIterator [stmt_added st; stmt_removed st]) p = Ok (s, p') ∧
    removed_stmts s = 0%Z ∧ st ∈ abs p'.
Proof.
  intros HI Hg.
  destruct (Update_refines ar (newReaderIterator [stmt_added st; stmt_removed st]) p HI)
    as (p' & E & _ & Ha & _).
  rewrite elements_newReaderIterator in E, Ha. eexists _, p'. split; [exact E|].
  cbn in *. rewrite Hg in *. split; [done|]. rewrite Ha. apply elem_of_filter.
  split; [|unfold spec_add; set_solver]. intros (x & Hx & _). set_solver.
Qed.

(** RemoveStatements with a subject and an object but no predicate deletes
    every statement with that subject, whatever its object: the range of the
    query only uses the subject, and the results are not filtered by
    [matches]. *)
Theorem remove_subject_object_overreaches (pattern : Statement) (p : LevelDBPersistence) :
  Inv ar p → has_subject pattern = true → has_predicate pattern = false →
  has_object pattern = true → has_context pattern = false →
  ∃ n p', RemoveStatements ar pattern p = Ok (n, p') ∧
    ∀ st, subject st = subject pattern → st ∉ abs p'.
Proof.
  intros HI Hs Hp Ho Hc.
  destruct (RemoveStatements_refines ar pattern p HI) as (p' & E & _ & Ha & _).
  eexists _, p'. split; [exact E|]. intros st Hst. rewrite Ha.
  unfold spec_remove. rewrite elem_of_filter. intros [Hn _]. apply Hn.
  unfold hash_matches, newPatternQuery, bound_positions. cbn. rewrite Hs, Hc. cbn.
  rewrite Hs, Hp. constructor; [|constructor]. simpl. by rewrite Hst.
Qed.
End Theorems.

(** ** Witnesses: the theorems on the concrete store *)

Section Witnesses.
Import Demo.

Lemma reachable_indexes_consistent_witness :
  reachable ar loaded ∧
  contents (db_pcos loaded) !! stmt_key ar PCOS (quad "bob" "likes" "carol" "g1") =
  contents (db_spoc loaded) !! stmt_key ar SPOC (quad "bob" "likes" "carol" "g1").
Proof.
  split; [apply loaded_reachable|].
  exact (proj2 (reachable_indexes_consistent ar loaded loaded_reachable) PCOS
    (quad "bob" "likes" "carol" "g1")).
Defined.

Lemma add_statements_correct_witness :
  ∃ p', AddStatements ar (newReaderIterator quads) empty_store = Ok (3%Z, p') ∧
    Inv ar p' ∧ abs p' = foldl (λ A st, spec_add ar st A) (abs empty_store) quads ∧
    same_ns empty_store p'.
Proof.
  destruct (add_statements_correct ar (newReaderIterator quads) empty_store empty_inv)
    as (p' & E & HI & Ha & Hn).
  exists p'. split; [exact E|]. split; [exact HI|]. split; [exact Ha|exact Hn].
Defined.

Lemma get_statements_exact_witness :
  ∃ l, GetStatements ar (by_subject "alice") (λ l st, Ok (true, l ++ [st])) [] loaded = Ok l ∧
    NoDup l ∧ ∀ st, st ∈ l ↔ matches st (by_subject "alice") = true ∧ st ∈ abs loaded.
Proof.
  apply (get_statements_exact ar (by_subject "alice") loaded).
  - apply loaded_inv.
  - reflexivity.
  - reflexivity.
  - apply (bool_decide_unpack _). vm_compute. exact I.
Defined.

Lemma get_statements_complete_witness :
  ∃ l, GetStatements ar (by_subject_object "alice" "bob") (λ l st, Ok (true, l ++ [st])) []
         loaded = Ok l ∧
    ∀ st, st ∈ abs loaded → wf_value (object st) = true →
      matches st (by_subject_object "alice" "bob") = true → st ∈ l.
Proof.
  apply (get_statements_complete ar (by_subject_object "alice" "bob") loaded);
    [apply loaded_inv | reflexivity].
Defined.

Lemma remove_statements_correct_witness :
  ∃ l p', GetStatements ar (by_subject "alice") (λ l st, Ok (true, l ++ [st])) [] loaded = Ok l ∧
    RemoveStatements ar (by_subject "alice") loaded = Ok (Z.of_nat (length l), p') ∧
    Inv ar p' ∧ same_ns loaded p' ∧ (∀ st, st ∈ abs p' ↔ st ∈ abs loaded ∧ st ∉ l) ∧
    GetStatements ar (by_subject "alice") (λ l st, Ok (true, l ++ [st])) [] p' = Ok [].
Proof. apply (remove_statements_correct ar (by_subject "alice") loaded loaded_inv). Defined.

Lemma size_correct_witness : Size loaded = Ok 3%Z.
Proof.
  rewrite (size_correct ar loaded loaded_inv). rewrite loaded_abs. vm_compute. reflexivity.
Defined.

Lemma add_then_get_witness :
  ∃ p' l, AddStatements ar (newSingletonIterator (quad "dan" "knows" "bob" "g2")) loaded =
      Ok (1%Z, p') ∧
    GetStatements ar (by_subject_object "dan" "bob") (λ l st, Ok (true, l ++ [st])) [] p' = Ok l ∧
    quad "dan" "knows" "bob" "g2" ∈ l.
Proof.
  apply (add_then_get ar (quad "dan" "knows" "bob" "g2") (by_subject_object "dan" "bob") loaded).
  - apply loaded_inv.
  - intros []; simpl; intros ?; first [reflexivity | discriminate].
Defined.

Definition demo_requests : list UpdateRequest :=
  [stmt_removed (by_subject "alice"); stmt_added (quad "alice" "likes" "dan" "g3");
   ns_added (mkNamespace "foaf" "http://xmlns.com/foaf/0.1/")].

Lemma update_correct_witness :
  ∃ p', Update ar (newReaderIterator demo_requests) loaded =
      Ok (foldl (spec_stats ar (abs loaded)) (mkUpdateStatistics 0 0 0 0) demo_requests, p') ∧
    Inv ar p' ∧ abs p' = foldl (spec_update ar (abs loaded)) (abs loaded) demo_requests ∧
    contents (db_ns_prefix p') =
      apply_batch (demo_requests ≫= req_ns_ops prefix loaded) (contents (db_ns_prefix loaded)) ∧
    contents (db_ns_url p') =
      apply_batch (demo_requests ≫= req_ns_ops ns_uri loaded) (contents (db_ns_url loaded)).
Proof.
  pose proof (update_correct ar (newReaderIterator demo_requests) loaded loaded_inv) as T.
  rewrite elements_newReaderIterator in T. exact T.
Defined.

Lemma update_sequential_witness :
  ∃ s p', Update ar (newReaderIterator demo_requests) loaded = Ok (s, p') ∧
    abs p' = foldl (spec_sequential ar) (abs loaded) demo_requests.
Proof.
  pose proof (update_sequential ar (newReaderIterator demo_requests) loaded loaded_inv) as T.
  rewrite elements_newReaderIterator in T. apply T. repeat split. constructor.
Defined.

Lemma update_add_remove_keeps_witness :
  ∃ s p', Update ar (newReaderIterator [stmt_added (quad "a" "b" "c" "d");
                                        stmt_removed (quad "a" "b" "c" "d")]) empty_store = Ok (s, p') ∧
    removed_stmts s = 0%Z ∧ quad "a" "b" "c" "d" ∈ abs p'.
Proof.
  apply (update_add_remove_keeps ar (quad "a" "b" "c" "d") empty_store empty_inv).
  rewrite empty_abs. reflexivity.
Defined.

(** The overreach on the loaded store: asked to remove what alice knows of bob,
    it removes her statement about carol too. *)
Lemma remove_subject_object_overreaches_witness :
  (∃ n p', RemoveStatements ar (by_subject_object "alice" "bob") loaded = Ok (n, p') ∧
     ∀ st, subject st = res_ "alice" → st ∉ abs p') ∧
  quad "alice" "knows" "carol" "g2" ∈ abs loaded ∧
  matches (quad "alice" "knows" "carol" "g2") (by_subject_object "alice" "bob") = false.
Proof.
  split; [|split].
  - apply (remove_subject_object_overreaches ar (by_subject_object "alice" "bob") loaded);
      [apply loaded_inv | reflexivity..].
  - apply (bool_decide_unpack _). vm_compute. exact I.
  - reflexivity.
Defined.
End Witnesses.
