(* ===== verification/Namespaces.v ===== *)
(** * Namespaces: the two namespace databases

    A namespace is stored under its prefix and under its URI.  The invariant
    [NsInv] says that every entry is a serialized namespace under its own
    prefix (its own URI); the theorems give the round trip from AddNamespaces
    to GetNamespaces by prefix, by URI and by the empty pattern, and what
    removing through Update leaves. *)

From Stdlib Require Import ZArith Lia.
From S2P Require Import Prelude Words Murmur3 Messages Iterators LevelDB Keys Persistence PersistenceSpec Refinement UpdateProofs Service Wire DemoStore.

Section Namespaces.
Context (ar : arch) `{PBL : ProtobufLaws}.
Context `{LK : !LevelDB key64} `{LKL : !LevelDBLaws key64}.
Context `{CB : !Comparator bytes} `{LB : !LevelDB bytes} `{LBL : !LevelDBLaws bytes}.

(** Entries of a namespace database whose keys are given by [key]. *)
Definition ns_keyed (key : Namespace → string) (m : gmap bytes bytes) : Prop :=
  ∀ k v, m !! k = Some v → ∃ ns, k = str_bytes (key ns) ∧ v = SerializeToString ns.

Definition NsInv (p : LevelDBPersistence) : Prop :=
  ns_keyed prefix (contents (db_ns_prefix p)) ∧ ns_keyed ns_uri (contents (db_ns_url p)).

(** The namespace stored under a string. *)
Definition ns_lookup (m : gmap bytes bytes) (s : string) : option Namespace :=
  ParseFromString <$> m !! str_bytes s.

(** The last namespace of a list with the given key. *)
Definition last_with (key : Namespace → string) (s : string) (l : list Namespace) :
    option Namespace :=
  foldl (λ o ns, if bool_decide (key ns = s) then Some ns else o) None l.

Definition add_ns_ops (key : Namespace → string) (l : list Namespace) : WriteBatch bytes :=
  (λ ns, Put (str_bytes (key ns)) (SerializeToString ns)) <$> l.

Lemma add_ns_loop l b n :
  foldl (λ '(b, count) ns, (AddNamespace ns b, count + 1)%Z) (b, n) l =
  (mkNsBatches (b_prefix b ++ add_ns_ops prefix l) (b_url b ++ add_ns_ops ns_uri l),
   n + Z.of_nat (length l))%Z.
Proof.
  revert b n; induction l as [|ns l IH]; intros b n; simpl.
  - rewrite !app_nil_r, Z.add_0_r. by destruct b.
  - rewrite IH. unfold AddNamespace, batch_put. simpl. rewrite <- !app_assoc.
    f_equal. lia.
Qed.

Lemma AddNamespaces_contents {It} `{IteratorLaws It Namespace} (it : It) p :
  ∃ p', AddNamespaces it p = Ok (Z.of_nat (length (elements it)), p') ∧
    contents (db_ns_prefix p') =
      apply_batch (add_ns_ops prefix (elements it)) (contents (db_ns_prefix p)) ∧
    contents (db_ns_url p') =
      apply_batch (add_ns_ops ns_uri (elements it)) (contents (db_ns_url p)) ∧
    (∀ t, index_db t p' = index_db t p).
Proof.
  unfold AddNamespaces. rewrite for_each_elements.
  rewrite (foldM_pair_pure (λ '(b, count) ns, (AddNamespace ns b, count + 1)%Z))
    by (by intros [] ?).
  rewrite add_ns_loop. simpl. eexists. split; [done|]. simpl.
  rewrite !write_contents. by split_and!.
Qed.

Lemma ns_lookup_add key l m s :
  ns_lookup (apply_batch (add_ns_ops key l) m) s =
  match last_with key s l with Some ns => Some ns | None => ns_lookup m s end.
Proof.
  unfold last_with. revert m. induction l as [|ns l IH] using rev_ind; intros m; [done|].
  unfold add_ns_ops, apply_batch. rewrite fmap_app, !foldl_app. simpl.
  fold (apply_batch (add_ns_ops key l) m). unfold ns_lookup.
  case_bool_decide as Hk.
  - subst s. rewrite lookup_insert_eq. simpl. by rewrite parse_serialize.
  - rewrite lookup_insert_ne by (by intros ?%str_bytes_inj). apply IH.
Qed.

Lemma ns_keyed_batch key l m :
  ns_keyed key m → ns_keyed key (apply_batch (add_ns_ops key l) m).
Proof.
  revert m. induction l as [|ns l IH]; intros m Hm; [done|]. apply IH.
  intros k v. cbn [apply_op]. rewrite lookup_insert_Some. intros [[<- <-]|[_ E]]; [by exists ns|by apply Hm].
Qed.

(** The elements of the iterator for a pattern. *)
Lemma ns_results_prefix s u p :
  s ≠ ""%string →
  ns_results (mkNamespace s u) p = option_list (ns_lookup (contents (db_ns_prefix p)) s).
Proof.
  intros Hs. unfold ns_results, GetNamespaces_it, ns_lookup. simpl.
  rewrite bool_decide_eq_true_2, get_contents by done.
  by destruct (contents (db_ns_prefix p) !! str_bytes s).
Qed.

Lemma ns_results_uri u p :
  u ≠ ""%string →
  ns_results (mkNamespace "" u) p = option_list (ns_lookup (contents (db_ns_url p)) u).
Proof.
  intros Hu. unfold ns_results, GetNamespaces_it, ns_lookup. simpl.
  rewrite (bool_decide_eq_true_2 (u ≠ ""%string)), get_contents by done.
  by destruct (contents (db_ns_url p) !! str_bytes u).
Qed.

Lemma ns_results_all p :
  ns_results default_instance p ≡ₚ
  (λ e, ParseFromString e.2) <$> map_to_list (contents (db_ns_prefix p)).
Proof.
  unfold ns_results, GetNamespaces_it. simpl. rewrite ldb_yield_unparsed by done.
  simpl. by rewrite pending_seek_first, (snapshot_contents (db_ns_prefix p)).
Qed.

Lemma GetNamespaces_fold {A} pattern (f : A → Namespace → A) a p :
  GetNamespaces pattern (λ a ns, Ok (true, f a ns)) a p = Ok (foldl f a (ns_results pattern p)).
Proof. unfold GetNamespaces. by rewrite for_each_while_elements, fold_while_continue. Qed.

Lemma svc_GetNamespace_results pattern p :
  svc_GetNamespace pattern p =
  Ok (foldl (λ _ r, (StatusOK, r)) (NotFound "Namespace not found", default_instance)
        (ns_results pattern p)).
Proof.
  apply (GetNamespaces_fold pattern (λ _ r, (StatusOK, r))).
Qed.

(** ** Invariant *)

Lemma ns_keyed_ops key p m reqs :
  ns_keyed key m → ns_keyed key (apply_batch (reqs ≫= req_ns_ops key p) m).
Proof.
  revert m; induction reqs as [|req reqs IH]; intros m Hm; [done|].
  rewrite bind_cons. unfold apply_batch. rewrite foldl_app. apply IH.
  destruct req as [|st|st|ns|pattern]; simpl; try done.
  - apply (ns_keyed_batch key [ns] m Hm).
  - revert m Hm. induction (ns_results pattern p) as [|ns l IHl]; intros m Hm; [done|].
    apply IHl. intros k v. cbn [apply_op]. rewrite lookup_delete_Some. intros [_ E].
    by apply Hm.
Qed.

Lemma NsInv_step p p' : Inv ar p → NsInv p → persist_step ar p p' → NsInv p'.
Proof.
  intros HI [Hp Hu] Hs. revert HI Hp Hu.
  destruct Hs as [It HIt HL it n p1 p2 E | It HIt HL it n p1 p2 E | pattern n p1 p2 E
         | It HIt HL it s p1 p2 E]; intros HI Hp Hu.
  - destruct (AddStatements_refines ar it p1 HI) as (q & E' & _ & _ & H1 & H2 & _).
    rewrite E in E'. inv_ok. unfold NsInv. by rewrite H1, H2.
  - destruct (AddNamespaces_contents it p1) as (q & E' & H1 & H2 & _).
    rewrite E in E'. inv_ok. unfold NsInv. rewrite H1, H2.
    split; by apply ns_keyed_batch.
  - destruct (RemoveStatements_refines ar pattern p1 HI) as (q & E' & _ & _ & H1 & H2 & _).
    rewrite E in E'. inv_ok. unfold NsInv. by rewrite H1, H2.
  - destruct (Update_refines ar it p1 HI) as (q & E' & _ & _ & H1 & H2).
    rewrite E in E'. inv_ok. unfold NsInv. rewrite H1, H2. split; by apply ns_keyed_ops.
Qed.

Lemma NsInv_new : NsInv newLevelDBPersistence.
Proof.
  split; intros k v; simpl; rewrite open_contents; by rewrite lookup_empty.
Qed.

Lemma reachable_NsInv p : reachable ar p → NsInv p.
Proof.
  intros Hr. apply (rtc_preserved _ (λ p, Inv ar p ∧ NsInv p) _ p) in Hr; [apply Hr| |].
  - intros p1 p2 Hs [HI HN]. split; [by eapply persist_step_inv|by eapply NsInv_step].
  - split; [apply (new_refines ar)|apply NsInv_new].
Qed.

(** A listed namespace is found under its own prefix. *)
Lemma ns_results_lookup p ns :
  NsInv p → ns ∈ ns_results default_instance p →
  ns_lookup (contents (db_ns_prefix p)) (prefix ns) = Some ns.
Proof.
  intros [Hp _]. rewrite ns_results_all, list_elem_of_fmap.
  intros ([k v] & -> & Hin%elem_of_map_to_list). simpl.
  destruct (Hp k v Hin) as (n & -> & ->). rewrite parse_serialize.
  unfold ns_lookup. rewrite Hin. simpl. by rewrite parse_serialize.
Qed.

Lemma ns_results_nodup p : NsInv p → NoDup (prefix <$> ns_results default_instance p).
Proof.
  intros [Hp _]. rewrite ns_results_all, <- list_fmap_compose.
  apply NoDup_fmap_2_strong; [|apply NoDup_map_to_list].
  intros [k v] [k' v'] Hin%elem_of_map_to_list Hin'%elem_of_map_to_list E. simpl in E.
  destruct (Hp k v Hin) as (n & -> & ->), (Hp k' v' Hin') as (n' & -> & ->).
  rewrite !parse_serialize in E. rewrite E in Hin. congruence.
Qed.
End Namespaces.

Section NsTheorems.
Context (ar : arch) `{PBL : ProtobufLaws}.
Context `{LK : !LevelDB key64} `{LKL : !LevelDBLaws key64}.
Context `{CB : !Comparator bytes} `{LB : !LevelDB bytes} `{LBL : !LevelDBLaws bytes}.

(** What GetNamespace answers for a lookup result. *)
Definition ns_answer (o : option Namespace) : Status * Namespace :=
  match o with
  | Some ns => (StatusOK, ns)
  | None => (NotFound "Namespace not found", default_instance)
  end.

Lemma ns_answer_list (o : option Namespace) :
  foldl (λ _ r, (StatusOK, r)) (NotFound "Namespace not found", default_instance) (option_list o) =
  ns_answer o.
Proof. by destruct o. Qed.

(** C29. AddNamespaces then GetNamespace: a lookup by prefix (by URI) answers
    with the last namespace of the stream that has it, and otherwise as before
    the call; when there is none it answers NOT_FOUND. *)
Theorem add_get_namespace {It} `{IteratorLaws It Namespace} (it : It) (p : LevelDBPersistence) :
  ∃ p', AddNamespaces it p = Ok (Z.of_nat (length (elements it)), p') ∧
  (∀ s u, s ≠ ""%string →
     svc_GetNamespace (mkNamespace s u) p' =
     Ok (ns_answer (match last_with prefix s (elements it) with
                    | Some ns => Some ns
                    | None => ns_lookup (contents (db_ns_prefix p)) s end))) ∧
  (∀ u, u ≠ ""%string →
     svc_GetNamespace (mkNamespace "" u) p' =
     Ok (ns_answer (match last_with ns_uri u (elements it) with
                    | Some ns => Some ns
                    | None => ns_lookup (contents (db_ns_url p)) u end))).
Proof.
  destruct (AddNamespaces_contents it p) as (p' & E & Hp & Hu & _).
  exists p'. split; [done|]. split.
  - intros s u Hs. rewrite svc_GetNamespace_results, ns_results_prefix, Hp, ns_lookup_add by done.
    by rewrite ns_answer_list.
  - intros u Hn. rewrite svc_GetNamespace_results, ns_results_uri, Hu, ns_lookup_add by done.
    by rewrite ns_answer_list.
Qed.

(** In every reachable store the listing of all namespaces has each prefix
    once, and each listed namespace is the one its prefix resolves to. *)
Theorem list_namespaces_consistent (p : LevelDBPersistence) :
  reachable ar p →
  ∃ l, GetNamespaces default_instance (λ l ns, Ok (true, l ++ [ns])) [] p = Ok l ∧
    NoDup (prefix <$> l) ∧
    ∀ ns, ns ∈ l → prefix ns ≠ ""%string → svc_GetNamespace ns p = Ok (StatusOK, ns).
Proof.
  intros HN%(reachable_NsInv ar). exists (ns_results default_instance p).
  rewrite (GetNamespaces_fold default_instance (λ l ns, l ++ [ns])), foldl_snoc.
  split; [done|]. split; [by apply ns_results_nodup|]. intros ns Hin Hne.
  rewrite svc_GetNamespace_results. destruct ns as [s u]; simpl in *.
  rewrite ns_results_prefix by done. pose proof (ns_results_lookup p _ HN Hin) as El.
  simpl in El. by rewrite El.
Qed.

(** Adding a namespace again with the same prefix and another URI leaves
    the entry of the old URI behind: a lookup by the old URI still answers with
    a namespace that its own prefix does not resolve to. *)
Theorem readded_prefix_stale_uri (s u u' : string) (p : LevelDBPersistence) :
  s ≠ ""%string → u ≠ ""%string → u' ≠ u →
  ∃ p', AddNamespaces (newReaderIterator [mkNamespace s u; mkNamespace s u']) p = Ok (2%Z, p') ∧
    svc_GetNamespace (mkNamespace "" u) p' = Ok (StatusOK, mkNamespace s u) ∧
    svc_GetNamespace (mkNamespace s "") p' = Ok (StatusOK, mkNamespace s u').
Proof.
  intros Hs Hu Hne.
  destruct (AddNamespaces_contents (newReaderIterator [mkNamespace s u; mkNamespace s u']) p)
    as (p' & E & Hp & Hr & _).
  exists p'. split; [done|].
  rewrite !svc_GetNamespace_results, (ns_results_prefix s), ns_results_uri, Hp, Hr by done.
  rewrite !elements_newReaderIterator, !ns_lookup_add. unfold last_with. simpl.
  repeat case_bool_decide; simplify_eq; done.
Qed.

(** Removing a namespace by its prefix in an Update makes later lookups of
    that prefix answer NOT_FOUND, and the call reports no removed namespace. *)
Theorem update_remove_namespace (s u : string) (p : LevelDBPersistence) :
  reachable ar p → s ≠ ""%string →
  ∃ st p', Update ar (newReaderIterator [ns_removed (mkNamespace s u)]) p = Ok (st, p') ∧
    svc_GetNamespace (mkNamespace s "") p' = Ok (NotFound "Namespace not found", default_instance) ∧
    removed_ns st = 0%Z.
Proof.
  intros Hr Hs. pose proof (reachable_NsInv ar p Hr) as [HN _].
  pose proof (reachable_inv ar p Hr) as HI.
  destruct (Update_refines ar (newReaderIterator [ns_removed (mkNamespace s u)]) p HI)
    as (p' & E & _ & _ & Hp & _).
  rewrite elements_newReaderIterator in E, Hp. eexists _, p'. split; [exact E|]. split; [|done].
  rewrite svc_GetNamespace_results, ns_results_prefix, Hp by done. cbn [mbind list_bind app].
  rewrite app_nil_r. cbn [req_ns_ops]. rewrite ns_results_prefix by done. unfold ns_lookup.
  destruct (contents (db_ns_prefix p) !! str_bytes s) as [v|] eqn:El; simpl; [|by rewrite El].
  destruct (HN _ _ El) as (n & Hk & ->). rewrite parse_serialize, <- Hk.
  by rewrite lookup_delete_eq.
Qed.
End NsTheorems.

Section NsWitnesses.
Import Demo.

Definition foaf : Namespace := mkNamespace "foaf" "http://xmlns.com/foaf/0.1/".

Lemma add_get_namespace_witness :
  ∃ p', AddNamespaces (newReaderIterator [foaf]) empty_store = Ok (1%Z, p') ∧
    svc_GetNamespace (mkNamespace "foaf" "") p' = Ok (StatusOK, foaf).
Proof.
  destruct (add_get_namespace (newReaderIterator [foaf]) empty_store) as (p' & E & Hp & _).
  exists p'. split; [exact E|]. rewrite (Hp "foaf" "")%string by discriminate. reflexivity.
Defined.

(** The loaded store with a namespace. *)
Definition with_ns : store :=
  match AddNamespaces (newReaderIterator [foaf]) loaded with Ok (_, p) => p | _ => loaded end.

Lemma with_ns_reachable : reachable ar with_ns.
Proof.
  eapply rtc_r; [exact loaded_reachable|].
  apply (step_add_namespaces ar _ _ _ (newReaderIterator [foaf]) 1%Z). unfold with_ns.
  destruct (AddNamespaces_contents (newReaderIterator [foaf]) loaded) as (p & -> & _). done.
Qed.

Lemma list_namespaces_consistent_witness :
  GetNamespaces default_instance (λ l ns, Ok (true, l ++ [ns])) [] with_ns = Ok [foaf] ∧
  svc_GetNamespace foaf with_ns = Ok (StatusOK, foaf).
Proof.
  destruct (list_namespaces_consistent ar with_ns with_ns_reachable) as (l & E & _ & Hl).
  assert (E' : GetNamespaces default_instance (λ l ns, Ok (true, l ++ [ns])) [] with_ns = Ok [foaf])
    by (vm_compute; reflexivity).
  rewrite E in E'. injection E' as ->. split; [exact E|].
  apply Hl; [by left | discriminate].
Defined.

Lemma readded_prefix_stale_uri_witness :
  ∃ p', AddNamespaces (newReaderIterator [mkNamespace "ex" "http://old/"; mkNamespace "ex" "http://new/"])
          empty_store = Ok (2%Z, p') ∧
    svc_GetNamespace (mkNamespace "" "http://old/") p' = Ok (StatusOK, mkNamespace "ex" "http://old/") ∧
    svc_GetNamespace (mkNamespace "ex" "") p' = Ok (StatusOK, mkNamespace "ex" "http://new/").
Proof. apply (readded_prefix_stale_uri "ex" "http://old/" "http://new/" empty_store); discriminate. Defined.

Lemma update_remove_namespace_witness :
  ∃ st p', Update ar (newReaderIterator [ns_removed (mkNamespace "foaf" "")]) with_ns = Ok (st, p') ∧
    svc_GetNamespace (mkNamespace "foaf" "") p' =
      Ok (NotFound "Namespace not found", default_instance) ∧
    removed_ns st = 0%Z.
Proof.
  apply (update_remove_namespace ar "foaf" "" with_ns with_ns_reachable); discriminate.
Defined.
End NsWitnesses.
