(* ===== verification/Commit.v ===== *)
(** * Commit: the writer threads of a mutation

    AddStatements, RemoveStatements and Update end by starting one thread per
    database, each writing its batch, and joining them all.  A state of the
    commit is the list of threads still to write and the store; [commit_step]
    lets any of them write next, so a run is any interleaving.  Every run ends,
    and all end in the store that [write_stmts] and [write_ns] describe.  In
    between, a reader can see the databases disagree. *)

From Stdlib Require Import ZArith Lia.
From S2P Require Import Prelude Words Murmur3 Messages Iterators LevelDB Keys Wire.
From S2P Require Import Persistence PersistenceSpec Refinement UpdateProofs Service DemoStore.

Inductive writer := W_pcos | W_opsc | W_cspo | W_spoc | W_prefix | W_url.

#[global] Instance writer_eq_dec : EqDecision writer.
Proof. solve_decision. Defined.

(** The threads of AddStatements and RemoveStatements, and those of Update. *)
Definition stmt_writers : list writer := [W_pcos; W_opsc; W_cspo; W_spoc].
Definition update_writers : list writer := [W_pcos; W_opsc; W_cspo; W_spoc; W_prefix; W_url].

Section Commit.
Context `{LK : !LevelDB key64} `{LB : !LevelDB bytes}.
Context (b : StmtBatches) (bn : NsBatches).

(** The body of one thread. *)
Definition run_writer (w : writer) (p : LevelDBPersistence) : LevelDBPersistence :=
  let 'mkPersistence spoc cspo opsc pcos np nu meta := p in
  match w with
  | W_pcos => mkPersistence spoc cspo opsc (Write pcos (b_pcos b)) np nu meta
  | W_opsc => mkPersistence spoc cspo (Write opsc (b_opsc b)) pcos np nu meta
  | W_cspo => mkPersistence spoc (Write cspo (b_cspo b)) opsc pcos np nu meta
  | W_spoc => mkPersistence (Write spoc (b_spoc b)) cspo opsc pcos np nu meta
  | W_prefix => mkPersistence spoc cspo opsc pcos (Write np (b_prefix bn)) nu meta
  | W_url => mkPersistence spoc cspo opsc pcos np (Write nu (b_url bn)) meta
  end.

(** The thread that writes an index. *)
Definition writer_of (t : IndexType) : writer :=
  match t with SPOC => W_spoc | CSPO => W_cspo | OPSC => W_opsc | PCOS => W_pcos end.

Lemma run_writer_index w p t :
  index_db t (run_writer w p) =
  if decide (w = writer_of t) then Write (index_db t p) (stmt_batch t b) else index_db t p.
Proof. by destruct p, w, t. Qed.

Definition commit_state : Type := list writer * LevelDBPersistence.

Inductive commit_step : commit_state → commit_state → Prop :=
  | commit_write l1 w l2 p :
      commit_step (l1 ++ w :: l2, p) (l1 ++ l2, run_writer w p).

(** All threads in the order they are started. *)
Definition run_all (ws : list writer) (p : LevelDBPersistence) : LevelDBPersistence :=
  foldl (λ p w, run_writer w p) p ws.

Lemma run_writer_comm w w' p :
  w ≠ w' → run_writer w (run_writer w' p) = run_writer w' (run_writer w p).
Proof. destruct p, w, w'; simpl; try done; congruence. Qed.

Lemma run_all_first w l1 l2 p :
  NoDup (l1 ++ w :: l2) → run_all (l1 ++ w :: l2) p = run_all (l1 ++ l2) (run_writer w p).
Proof.
  revert p; induction l1 as [|w' l1 IH]; intros p Hnd; [done|].
  simpl in Hnd. apply NoDup_cons in Hnd as [Hw Hnd]. cbn [app run_all foldl].
  fold (run_all (l1 ++ w :: l2) (run_writer w' p)).
  fold (run_all (l1 ++ l2) (run_writer w' (run_writer w p))).
  rewrite IH, run_writer_comm; [done| |done]. intros ->. apply Hw. set_solver.
Qed.

Lemma commit_step_result ws p ws' p' :
  NoDup ws → commit_step (ws, p) (ws', p') →
  NoDup ws' ∧ run_all ws' p' = run_all ws p ∧ length ws = S (length ws').
Proof.
  intros Hnd Hs. inversion Hs as [l1 w l2 q E E']; subst. split_and!.
  - apply NoDup_app in Hnd as (H1 & H2 & H3%NoDup_cons). apply NoDup_app. set_solver.
  - symmetry. by apply run_all_first.
  - rewrite !length_app. simpl. lia.
Qed.

Lemma commit_rtc_result s s' :
  rtc commit_step s s' → NoDup s.1 → NoDup s'.1 ∧ run_all s'.1 s'.2 = run_all s.1 s.2.
Proof.
  induction 1 as [|[ws p] [ws' p'] s'' Hs _ IH]; [done|]. intros Hnd.
  destruct (commit_step_result _ _ _ _ Hnd Hs) as (Hnd' & E & _).
  destruct (IH Hnd') as [? E']. split; [done|]. simpl in *. by rewrite E', E.
Qed.

Lemma commit_nf s : nf commit_step s → s.1 = [].
Proof.
  destruct s as [[|w ws] p]; [done|]. intros Hnf. destruct Hnf.
  exists (ws, run_writer w p). apply (commit_write [] w ws p).
Qed.

Lemma commit_sn s : sn commit_step s.
Proof.
  apply (sn_measure commit_step (λ s, length s.1)). intros ? ? [l1 w l2 p]. simpl.
  rewrite !length_app. simpl. lia.
Qed.

Lemma commit_final ws p s :
  NoDup ws → rtc commit_step (ws, p) s → nf commit_step s → s = ([], run_all ws p).
Proof.
  intros Hnd Hr Hnf%commit_nf. destruct (commit_rtc_result _ _ Hr Hnd) as [_ E].
  destruct s as [ws' q]. simpl in Hnf, E. subst ws'. simpl in E. by rewrite E.
Qed.

Lemma run_all_update p : run_all update_writers p = write_ns (write_stmts p b) bn.
Proof. by destruct p. Qed.

Lemma run_all_stmts p : run_all stmt_writers p = write_stmts p b.
Proof. by destruct p. Qed.
End Commit.

Section CommitTheorems.
Context `{LK : !LevelDB key64} `{LB : !LevelDB bytes}.

(** C12. Whatever order the writer threads run in, the commit ends (no infinite
    run), it ends only when every thread has written, and the resulting store
    is always the same: the one the sequential model of the operations uses. *)
Theorem commit_schedule_independent (b : StmtBatches) (bn : NsBatches) (p : LevelDBPersistence) :
  sn (commit_step b bn) (update_writers, p) ∧
  sn (commit_step b bn) (stmt_writers, p) ∧
  (∀ s, rtc (commit_step b bn) (update_writers, p) s → nf (commit_step b bn) s →
     s = ([], write_ns (write_stmts p b) bn)) ∧
  (∀ s, rtc (commit_step b bn) (stmt_writers, p) s → nf (commit_step b bn) s →
     s = ([], write_stmts p b)).
Proof.
  split_and!; try apply commit_sn; intros s Hr Hnf.
  - rewrite <- run_all_update. apply commit_final; [|done..].
    apply (bool_decide_unpack _); vm_compute; exact I.
  - rewrite <- (run_all_stmts b bn). apply commit_final; [|done..].
    apply (bool_decide_unpack _); vm_compute; exact I.
Qed.
End CommitTheorems.

Section Visibility.
Context (ar : arch) `{PBL : ProtobufLaws}.
Context `{LK : !LevelDB key64} `{LKL : !LevelDBLaws key64} `{LB : !LevelDB bytes}.

(** A commit is not atomic for a concurrent reader: while a statement whose
    key is new is being added, there is a schedule with a state in which the
    SPOC index already holds it and the CSPO index does not, so a query by
    subject and a query by context disagree there. *)
Theorem commit_not_atomic (st : Statement) (p : LevelDBPersistence) :
  Inv ar p → contents (db_cspo p) !! stmt_key ar CSPO st = None →
  let b := AddStatement ar st empty_stmt_batches in
  ∃ ws q, rtc (commit_step b empty_ns_batches) (stmt_writers, p) (ws, q) ∧
    contents (db_spoc q) !! stmt_key ar SPOC st = Some (SerializeToString st) ∧
    contents (db_cspo q) !! stmt_key ar CSPO st = None ∧ ¬ Inv ar q.
Proof.
  intros HI Hn b. exists [W_pcos; W_opsc; W_cspo], (run_writer b empty_ns_batches W_spoc p).
  assert (Hs : contents (db_spoc (run_writer b empty_ns_batches W_spoc p)) !! stmt_key ar SPOC st =
               Some (SerializeToString st)).
  { pose proof (AddStatement_batch ar SPOC st empty_stmt_batches) as E. simpl in E.
    destruct p. simpl in *. rewrite write_contents, E. simpl. apply lookup_insert_eq. }
  assert (Hc : contents (db_cspo (run_writer b empty_ns_batches W_spoc p)) !! stmt_key ar CSPO st =
               None) by (by destruct p).
  split_and!; try done.
  - apply rtc_once. apply (commit_write b empty_ns_batches [W_pcos; W_opsc; W_cspo] W_spoc [] p).
  - intros HI'. pose proof (inv_agree _ _ HI' CSPO st) as E.
    unfold index_maps in E. simpl in E. rewrite Hs, Hc in E. done.
Qed.
End Visibility.

Lemma commit_not_atomic_witness :
  let st := Demo.quad "dan" "knows" "bob" "g9" in
  let b := AddStatement Demo.ar st empty_stmt_batches in
  ∃ ws q, rtc (commit_step b empty_ns_batches) (stmt_writers, Demo.loaded) (ws, q) ∧
    contents (db_spoc q) !! stmt_key Demo.ar SPOC st = Some (SerializeToString st) ∧
    contents (db_cspo q) !! stmt_key Demo.ar CSPO st = None ∧ ¬ Inv Demo.ar q.
Proof.
  apply (commit_not_atomic Demo.ar (Demo.quad "dan" "knows" "bob" "g9") Demo.loaded).
  - apply Demo.loaded_inv.
  - vm_compute. reflexivity.
Defined.
