(* ===== verification/Concurrency.v ===== *)
(** * Concurrency: requests that run at the same time

    The gRPC server runs every request in a thread of its own, all on one
    LevelDBPersistence, which takes no lock.  A state of the server is the list
    of the calls in progress and the shared store.  A call reads the databases
    while it builds its batches (a removal or a query scans a snapshot of one
    index), then its writer threads write one batch each, in any order and
    interleaved with the steps of all other calls.

    The theorems: every call gets its answer; while one mutation runs, every
    query sees the store either before or after it; additions may run side by
    side; an addition and a removal of the same statement may not. *)

From Stdlib Require Import ZArith Lia.
From S2P Require Import Prelude Words Murmur3 Messages Iterators LevelDB Keys Wire.
From S2P Require Import Persistence PersistenceSpec Refinement UpdateProofs Service DemoStore Commit.
Local Open Scope Z_scope.

Section Model.
Context (ar : arch) `{PB : Protobuf}.
Context `{LK : !LevelDB key64} `{LB : !LevelDB bytes}.

(** The requests of the service that reach the statement indexes. *)
Inductive request :=
  | RAdd (l : list Statement)
  | RRemove (pattern : Statement)
  | RUpdate (reqs : list UpdateRequest)
  | RQuery (pattern : Statement).

Inductive reply := Count (n : Z) | Stats (s : UpdateStatistics).

(** Where a call is: before it has read anything, in the loop of Update, with
    writer threads [ws] still to run, or done. *)
Inductive call :=
  | Adding (l : list Statement)
  | Removing (pattern : Statement)
  | Updating (u : UpdateState) (reqs : list UpdateRequest)
  | Querying (pattern : Statement)
  | Committing (b : StmtBatches) (bn : NsBatches) (ws : list writer) (r : reply)
  | Replied (r : reply)
  | Answered (pattern : Statement) (l : list Statement).

Definition start (r : request) : call :=
  match r with
  | RAdd l => Adding l
  | RRemove pattern => Removing pattern
  | RUpdate reqs =>
      Updating (mkUpdateState (mkUpdateStatistics 0 0 0 0) empty_stmt_batches empty_ns_batches) reqs
  | RQuery pattern => Querying pattern
  end.

(** The loop of AddStatements over the stream of the request. *)
Definition add_batches (l : list Statement) : res (StmtBatches * Z) :=
  for_each (λ '(b, count) st, Ok (AddStatement ar st b, count + 1)) (newReaderIterator l)
    (empty_stmt_batches, 0).

(** One step of a call on the shared store. *)
Inductive call_step : call → LevelDBPersistence → call → LevelDBPersistence → Prop :=
  | step_add l p b n :
      add_batches l = Ok (b, n) →
      call_step (Adding l) p (Committing b empty_ns_batches stmt_writers (Count n)) p
  | step_remove pattern p b n :
      RemoveStatements_batch ar pattern empty_stmt_batches p = Ok (b, n) →
      call_step (Removing pattern) p (Committing b empty_ns_batches stmt_writers (Count n)) p
  | step_update u req reqs p u' :
      Update_step ar p u req = Ok u' →
      call_step (Updating u (req :: reqs)) p (Updating u' reqs) p
  | step_update_end u p :
      call_step (Updating u []) p
        (Committing (u_stmts u) (u_ns u) update_writers (Stats (u_stats u))) p
  | step_query pattern p l :
      GetStatements ar pattern (λ l st, Ok (true, l ++ [st])) [] p = Ok l →
      call_step (Querying pattern) p (Answered pattern l) p
  | step_write b bn l1 w l2 r p :
      call_step (Committing b bn (l1 ++ w :: l2) r) p (Committing b bn (l1 ++ l2) r)
        (run_writer b bn w p)
  | step_join b bn r p : call_step (Committing b bn [] r) p (Replied r) p.

Record system := mkSystem { calls : list call; shared : LevelDBPersistence }.

Inductive sys_step : system → system → Prop :=
  | sys_call cs i c p c' p' :
      cs !! i = Some c → call_step c p c' p' →
      sys_step (mkSystem cs p) (mkSystem (<[i := c']> cs) p').

Definition server (rs : list request) (p : LevelDBPersistence) : system :=
  mkSystem (start <$> rs) p.

Definition finished (c : call) : bool :=
  match c with Replied _ | Answered _ _ => true | _ => false end.

(** The request run alone. *)
Definition sequential (r : request) (p : LevelDBPersistence) : res LevelDBPersistence :=
  match r with
  | RAdd l => '(_, p) ← AddStatements ar (newReaderIterator l) p; Ok p
  | RRemove pattern => '(_, p) ← RemoveStatements ar pattern p; Ok p
  | RUpdate reqs => '(_, p) ← Update ar (newReaderIterator reqs) p; Ok p
  | RQuery _ => Ok p
  end.

(** ** Every run ends *)

Definition call_measure (c : call) : nat :=
  match c with
  | Adding _ | Removing _ => 8
  | Updating _ reqs => 8 + length reqs
  | Querying _ => 1
  | Committing _ _ ws _ => 1 + length ws
  | Replied _ | Answered _ _ => 0
  end.

Lemma call_step_measure c p c' p' : call_step c p c' p' → (call_measure c' < call_measure c)%nat.
Proof. destruct 1; simpl; rewrite ?length_app; simpl; lia. Qed.

Lemma sys_sn s : sn sys_step s.
Proof.
  apply (sn_measure sys_step (λ s, sum_list_with call_measure (calls s))).
  intros ? ? [cs i c p c' p' Hi Hc%call_step_measure]. simpl.
  pose proof (sum_list_with_insert call_measure cs i c c' Hi). lia.
Qed.
End Model.
Arguments call : clear implicits.
Arguments finished : clear implicits.
Arguments start : clear implicits.

Section Progress.
Context (ar : arch) `{PBL : ProtobufLaws}.
Context `{LK : !LevelDB key64} `{LKL : !LevelDBLaws key64}.
Context `{CB : !Comparator bytes} `{LB : !LevelDB bytes} `{LBL : !LevelDBLaws bytes}.

Lemma add_batches_ops l :
  ∃ b, add_batches ar l = Ok (b, Z.of_nat (length l)) ∧ batches_are ar b (SAdd <$> l).
Proof.
  unfold add_batches. rewrite for_each_elements, elements_newReaderIterator.
  rewrite (foldM_pair_pure (λ '(b, count) st, (AddStatement ar st b, count + 1))) by (by intros [] ?).
  destruct (add_loop_batches ar l empty_stmt_batches 0 [] (batches_are_empty ar)) as (b & -> & Hb).
  by exists b.
Qed.

Lemma call_progress c p : finished c = false → ∃ c' p', call_step ar c p c' p'.
Proof.
  destruct c as [l|pattern|u [|req reqs]|pattern|b bn [|w ws] r|r|pattern l]; simpl; try done; intros _.
  - destruct (add_batches_ops l) as (b & E & _). eauto using call_step.
  - destruct (RemoveStatements_batch_total ar pattern empty_stmt_batches p) as (b & n & E).
    eauto using call_step.
  - eauto using call_step.
  - destruct (Update_step_total ar p u req) as [u' E]. eauto using call_step.
  - eauto using call_step, GetStatements_collect.
  - eauto using call_step.
  - eexists _, _. apply (step_write ar b bn [] w ws).
Qed.

Lemma sys_nf s : nf (sys_step ar) s → Forall (λ c, finished c = true) (calls s).
Proof.
  destruct s as [cs p]. intros Hnf. apply Forall_lookup. intros i c Hi. simpl in Hi.
  destruct (finished c) eqn:E; [done|]. destruct (call_progress c p E) as (c' & p' & Hc).
  destruct Hnf. eexists. by eapply sys_call.
Qed.

(** A property of the call [i] and the store that every step keeps. *)
Lemma sys_invariant (J : nat → call → Prop) s s' :
  (∀ i c p c' p', call_step ar c p c' p' → J i c → J i c') →
  rtc (sys_step ar) s s' →
  (∀ i c, calls s !! i = Some c → J i c) → ∀ i c, calls s' !! i = Some c → J i c.
Proof.
  intros HJ. induction 1 as [|s s1 s' Hs _ IH]; [done|]. intros H0. apply IH.
  destruct Hs as [cs i c p c' p' Hi Hc]. simpl in *. intros j d Hj.
  destruct (decide (i = j)) as [<-|Hne].
  - rewrite list_lookup_insert_eq in Hj by (by eapply lookup_lt_Some). simplify_eq. eauto.
  - rewrite list_lookup_insert_ne in Hj by done. eauto.
Qed.

Lemma sys_length s s' : rtc (sys_step ar) s s' → length (calls s') = length (calls s).
Proof.
  induction 1 as [|s s1 s' Hs _ IH]; [done|]. rewrite IH. destruct Hs; simpl. apply length_insert.
Qed.

(** What a call can have become. *)
Definition call_of (r : request) (c : call) : Prop :=
  match r with
  | RAdd l => c = Adding l ∨ (∃ b bn ws, c = Committing b bn ws (Count (Z.of_nat (length l)))) ∨
      c = Replied (Count (Z.of_nat (length l)))
  | RRemove pattern => c = Removing pattern ∨ (∃ b bn ws n, c = Committing b bn ws (Count n)) ∨
      ∃ n, c = Replied (Count n)
  | RUpdate _ => (∃ u reqs, c = Updating u reqs) ∨ (∃ b bn ws st, c = Committing b bn ws (Stats st)) ∨
      ∃ st, c = Replied (Stats st)
  | RQuery pattern => c = Querying pattern ∨ ∃ l, c = Answered pattern l
  end.

Lemma call_of_step r c p c' p' : call_step ar c p c' p' → call_of r c → call_of r c'.
Proof.
  intros Hs Hc. destruct r as [l|pattern|reqs|pattern]; simpl in *.
  - destruct Hc as [->|[(b & bn & ws & ->)| ->]]; inversion Hs as [l' q b' n E| | | | | |]; subst; eauto 6.
    destruct (add_batches_ops l) as (b & E' & _). rewrite E in E'. inv_ok. eauto 6.
  - destruct Hc as [->|[(b & bn & ws & n & ->)|[n ->]]]; inversion Hs; subst; eauto 7.
  - destruct Hc as [(u & reqs' & ->)|[(b & bn & ws & st & ->)|[st ->]]]; inversion Hs; subst; eauto 7.
  - destruct Hc as [->|[l ->]]; inversion Hs; subst; eauto.
Qed.

Lemma call_of_rtc rs p s i r c :
  rtc (sys_step ar) (server rs p) s → rs !! i = Some r → calls s !! i = Some c → call_of r c.
Proof.
  intros Hr Hi Hc.
  refine (sys_invariant (λ j d, ∀ r, rs !! j = Some r → call_of r d) _ _ _ Hr _ i c Hc r Hi).
  - intros j d q d' q' Hs Hd r' Hr'. eapply call_of_step; eauto.
  - simpl. intros j d Hj r' Hr'. rewrite list_lookup_fmap, Hr' in Hj. simpl in Hj.
    injection Hj as <-. destruct r'; simpl; eauto.
Qed.
End Progress.

Section Complete.
Context (ar : arch) `{PBL : ProtobufLaws}.
Context `{LK : !LevelDB key64} `{LKL : !LevelDBLaws key64}.
Context `{CB : !Comparator bytes} `{LB : !LevelDB bytes} `{LBL : !LevelDBLaws bytes}.

(** C15. Whatever requests run at the same time and however their steps interleave,
    no run is infinite, and a run can only end when every request has its
    answer; an addition reports the length of its stream. *)
Theorem concurrent_calls_complete (rs : list request) (p : LevelDBPersistence) :
  sn (sys_step ar) (server rs p) ∧
  ∀ s, rtc (sys_step ar) (server rs p) s → nf (sys_step ar) s →
    length (calls s) = length rs ∧
    ∀ i r, rs !! i = Some r →
      match r with
      | RAdd l => calls s !! i = Some (Replied (Count (Z.of_nat (length l))))
      | RRemove _ => ∃ n, calls s !! i = Some (Replied (Count n))
      | RUpdate _ => ∃ st, calls s !! i = Some (Replied (Stats st))
      | RQuery pattern => ∃ l, calls s !! i = Some (Answered pattern l)
      end.
Proof.
  split; [apply sys_sn|]. intros s Hr Hnf.
  assert (Hl : length (calls s) = length rs) by (rewrite (sys_length ar _ _ Hr); apply length_fmap).
  split; [done|]. intros i r Hi. pose proof (lookup_lt_Some _ _ _ Hi) as Hlt. rewrite <- Hl in Hlt.
  destruct (lookup_lt_is_Some_2 _ _ Hlt) as [c Hc].
  pose proof (call_of_rtc ar rs p s i r c Hr Hi Hc) as Ho.
  pose proof (sys_nf ar s Hnf) as Hf. rewrite Forall_lookup in Hf. specialize (Hf i c Hc).
  rewrite Hc. destruct r; simpl in Ho; naive_solver.
Qed.
End Complete.

(** ** One mutation and any number of queries *)

Section OneMutation.
Context (ar : arch) `{PBL : ProtobufLaws}.
Context `{LK : !LevelDB key64} `{LKL : !LevelDBLaws key64}.
Context `{CB : !Comparator bytes} `{LB : !LevelDB bytes} `{LBL : !LevelDBLaws bytes}.

(** The batches a call will write when the store does not change before. *)
Definition prep (c : call) (p : LevelDBPersistence) :
    res (StmtBatches * NsBatches * list writer * reply) :=
  match c with
  | Adding l => '(b, n) ← add_batches ar l; Ok (b, empty_ns_batches, stmt_writers, Count n)
  | Removing pattern =>
      '(b, n) ← RemoveStatements_batch ar pattern empty_stmt_batches p;
      Ok (b, empty_ns_batches, stmt_writers, Count n)
  | Updating u reqs =>
      u ← foldM (Update_step ar p) u reqs;
      Ok (u_stmts u, u_ns u, update_writers, Stats (u_stats u))
  | _ => OutOfFuel
  end.

Definition is_query (r : request) : bool := match r with RQuery _ => true | _ => false end.

Lemma sequential_prep r p :
  is_query r = false →
  ∃ b bn ws rep, prep (start r) p = Ok (b, bn, ws, rep) ∧ NoDup ws ∧ (∀ t, writer_of t ∈ ws) ∧
    sequential ar r p = Ok (run_all b bn ws p) ∧
    ∀ t, index_db t (run_all b bn ws p) = Write (index_db t p) (stmt_batch t b).
Proof.
  assert (Hs : NoDup stmt_writers ∧ ∀ t, writer_of t ∈ stmt_writers).
  { split; [apply (bool_decide_unpack _); vm_compute; exact I|]. intros []; set_solver. }
  assert (Hu : NoDup update_writers ∧ ∀ t, writer_of t ∈ update_writers).
  { split; [apply (bool_decide_unpack _); vm_compute; exact I|]. intros []; set_solver. }
  destruct r as [l|pattern|reqs|pattern]; intros Hq; [| | |done]; simpl.
  - destruct (add_batches_ops ar l) as (b & E & _). eexists b, _, _, _. rewrite E. simpl.
    split_and!; [done|apply Hs|apply Hs| |by destruct p; intros []].
    unfold AddStatements. change (for_each _ _ _) with (add_batches ar l). rewrite E. by destruct p.
  - destruct (RemoveStatements_batch_total ar pattern empty_stmt_batches p) as (b & n & E).
    eexists b, _, _, _. rewrite E. simpl.
    split_and!; [done|apply Hs|apply Hs| |by destruct p; intros []].
    unfold RemoveStatements. rewrite E. by destruct p.
  - assert (E : ∃ u, foldM (Update_step ar p) (mkUpdateState (mkUpdateStatistics 0 0 0 0)
      empty_stmt_batches empty_ns_batches) reqs = Ok u).
    { generalize (mkUpdateState (mkUpdateStatistics 0 0 0 0) empty_stmt_batches empty_ns_batches).
      induction reqs as [|req reqs IH]; intros u; simpl; [eauto|].
      destruct (Update_step_total ar p u req) as [u' ->]. by apply IH. }
    destruct E as [u E]. eexists _, _, _, _. rewrite E. simpl.
    split_and!; [done|apply Hu|apply Hu| |by destruct p; intros []].
    unfold Update. rewrite for_each_elements, elements_newReaderIterator, E. by destruct p.
Qed.

Context (p0 p1 : LevelDBPersistence) (b0 : StmtBatches) (bn0 : NsBatches) (ws0 : list writer) (rep0 : reply).
Context (Hprep_nodup : NoDup ws0) (Hprep_all : ∀ t, writer_of t ∈ ws0).
Context (Hp1 : p1 = run_all b0 bn0 ws0 p0).
Context (Hp1_index : ∀ t, index_db t p1 = Write (index_db t p0) (stmt_batch t b0)).

(** The store while the mutation is at [c]. *)
Definition during (c : call) (p : LevelDBPersistence) : Prop :=
  match c with
  | Committing b bn ws rep =>
      b = b0 ∧ bn = bn0 ∧ NoDup ws ∧ run_all b0 bn0 ws p = p1 ∧
      ∀ t, index_db t p = if decide (writer_of t ∈ ws) then index_db t p0 else index_db t p1
  | Replied _ => p = p1
  | _ => p = p0 ∧ prep c p0 = Ok (b0, bn0, ws0, rep0)
  end.

Lemma during_commit : during (Committing b0 bn0 ws0 rep0) p0.
Proof.
  split_and!; try done. intros t. by rewrite decide_True by apply Hprep_all.
Qed.

Lemma during_step c p c' p' : call_step ar c p c' p' → during c p → during c' p'.
Proof.
  intros Hs Hd. destruct Hs as [l p b n E|pattern p b n E|u req reqs p u' E|u p|pattern p l E
    |b bn l1 w l2 r p|b bn r p]; simpl in Hd.
  - destruct Hd as [-> Hd]. rewrite E in Hd. simpl in Hd. injection Hd as -> -> -> ->. apply during_commit.
  - destruct Hd as [-> Hd]. rewrite E in Hd. simpl in Hd. injection Hd as -> -> -> ->. apply during_commit.
  - destruct Hd as [-> Hd]. rewrite E in Hd. by split.
  - destruct Hd as [-> Hd]. injection Hd as -> -> -> ->. apply during_commit.
  - by destruct Hd.
  - destruct Hd as (-> & -> & Hnd & Hr & Hi). split_and!; try done.
    + apply NoDup_app in Hnd as (H1 & H2 & H3%NoDup_cons). apply NoDup_app. set_solver.
    + rewrite <- Hr. symmetry. by apply run_all_first.
    + intros t. rewrite run_writer_index, Hi.
      assert (Hw : w ∉ l1 ++ l2).
      { apply NoDup_app in Hnd as (_ & H2 & [? _]%NoDup_cons). set_solver. }
      destruct (decide (w = writer_of t)) as [->|Hne].
      * rewrite decide_True by set_solver. by rewrite decide_False, Hp1_index by done.
      * apply decide_ext. set_solver.
  - destruct Hd as (-> & -> & _ & Hr & _). by simpl in Hr.
Qed.

Lemma during_index c p t : during c p → index_db t p = index_db t p0 ∨ index_db t p = index_db t p1.
Proof.
  destruct c; simpl; try (intros [-> _]; by left).
  - intros (_ & _ & _ & _ & ->). case_decide; auto.
  - intros ->. by right.
Qed.

(** The invariant: the mutation is call [k], all others are queries. *)
Definition one_mutation (k : nat) (s : system) : Prop :=
  (∃ c, calls s !! k = Some c ∧ during c (shared s)) ∧
  ∀ i c, calls s !! i = Some c → i ≠ k →
    ∃ pattern, c = Querying pattern ∨
      ∃ l, c = Answered pattern l ∧ (l = results ar pattern p0 ∨ l = results ar pattern p1).

Lemma one_mutation_step k s s' : sys_step ar s s' → one_mutation k s → one_mutation k s'.
Proof.
  intros [cs i c p c' p' Hi Hc] [(m & Hk & Hd) Hq]. simpl in *.
  pose proof (lookup_lt_Some _ _ _ Hi) as Hlt. destruct (decide (i = k)) as [->|Hne].
  - simplify_eq. split; simpl.
    + exists c'. rewrite list_lookup_insert_eq by done. split; [done|]. by eapply during_step.
    + intros j d Hj Hjk. rewrite list_lookup_insert_ne in Hj by done. by eapply Hq.
  - destruct (Hq i c Hi Hne) as (pattern & [->|(l' & -> & _)]); inversion Hc as [| | | |pt q l E| |]; subst.
    split; simpl.
    + exists m. by rewrite list_lookup_insert_ne by done.
    + intros j d Hj Hjk. destruct (decide (i = j)) as [<-|Hij].
      * rewrite list_lookup_insert_eq in Hj by done. simplify_eq. exists pattern. right.
        exists l. split; [done|]. rewrite (GetStatements_collect ar pattern p') in E. inv_ok.
        destruct (during_index m p' (type_ (newPatternQuery pattern)) Hd) as [Ht|Ht]; [left|right];
          exact (results_index ar pattern _ _ Ht).
      * rewrite list_lookup_insert_ne in Hj by done. by eapply Hq.
Qed.

Lemma one_mutation_rtc k s s' : rtc (sys_step ar) s s' → one_mutation k s → one_mutation k s'.
Proof. induction 1; eauto using one_mutation_step. Qed.
End OneMutation.

Section Linearizable.
Context (ar : arch) `{PBL : ProtobufLaws}.
Context `{LK : !LevelDB key64} `{LKL : !LevelDBLaws key64}.
Context `{CB : !Comparator bytes} `{LB : !LevelDB bytes} `{LBL : !LevelDBLaws bytes}.

Lemma sequential_inv r p p' : Inv ar p → sequential ar r p = Ok p' → Inv ar p'.
Proof.
  intros HI. destruct r as [l|pattern|reqs|pattern]; simpl.
  - destruct (AddStatements_refines ar (newReaderIterator l) p HI) as (q & -> & HI' & _). simpl. congruence.
  - destruct (RemoveStatements_refines ar pattern p HI) as (q & -> & HI' & _). simpl. congruence.
  - destruct (Update_refines ar (newReaderIterator reqs) p HI) as (q & -> & HI' & _). simpl. congruence.
  - congruence.
Qed.

(** C13. While one mutation runs, with any number of queries at any moment: every
    query answers exactly as it would on the store before the mutation or on the
    store after it, although in between the four indexes disagree; and the
    mutation ends in the store it produces when it runs alone. *)
Theorem query_linearizable (rs : list request) (k : nat) (r : request) (p0 : LevelDBPersistence) :
  Inv ar p0 → rs !! k = Some r → is_query r = false →
  (∀ i r', rs !! i = Some r' → i ≠ k → is_query r' = true) →
  ∃ p1, sequential ar r p0 = Ok p1 ∧ Inv ar p1 ∧
    ∀ s, rtc (sys_step ar) (server rs p0) s →
      (∀ i pattern l, calls s !! i = Some (Answered pattern l) →
         NoDup l ∧ (list_to_set l = spec_get ar pattern (abs p0) ∨
                    list_to_set l = spec_get ar pattern (abs p1))) ∧
      (nf (sys_step ar) s → shared s = p1).
Proof.
  intros HI Hk Hm Hq. destruct (sequential_prep ar r p0 Hm) as (b & bn & ws & rep & Ep & Hnd & Hall & Es & Hi).
  set (p1 := run_all b bn ws p0). fold p1 in Es, Hi. exists p1. split; [done|].
  pose proof (sequential_inv r p0 p1 HI Es) as HI1. split; [done|]. intros s Hr.
  assert (H0 : one_mutation ar p0 p1 b bn ws rep k (server rs p0)).
  { split; simpl.
    - exists (start r). rewrite list_lookup_fmap, Hk. split; [done|]. destruct r; [by split..|done].
    - intros i c Hc Hne. rewrite list_lookup_fmap in Hc.
      destruct (rs !! i) as [r'|] eqn:Er; [|done]. specialize (Hq i r' Er Hne).
      destruct r'; try done. simpl in Hc. simplify_eq. eauto. }
  destruct (one_mutation_rtc ar p0 p1 b bn ws rep Hnd Hall eq_refl Hi k _ s Hr H0) as [(c & Hc & Hd) Hans].
  split.
  - intros i pattern l Hl. destruct (decide (i = k)) as [->|Hne].
    { exfalso. pose proof (call_of_rtc ar rs p0 s k r _ Hr Hk Hl). destruct r; naive_solver. }
    destruct (Hans i _ Hl Hne) as (pt & [?|(l' & ? & [->| ->])]); simplify_eq.
    + destruct (results_set ar pt p0 HI). auto.
    + destruct (results_set ar pt p1 HI1). auto.
  - intros Hnf%(sys_nf ar). rewrite Forall_lookup in Hnf. specialize (Hnf k c Hc).
    destruct c; simpl in *; try done.
    exfalso. pose proof (call_of_rtc ar rs p0 s k r _ Hr Hk Hc). destruct r; naive_solver.
Qed.
End Linearizable.

(** ** Additions side by side *)

Section Adds.
Context (ar : arch) `{PBL : ProtobufLaws}.
Context `{LK : !LevelDB key64} `{LKL : !LevelDBLaws key64}.
Context `{CB : !Comparator bytes} `{LB : !LevelDB bytes} `{LBL : !LevelDBLaws bytes}.

Lemma inv_holds p A : key_injective ar A → (∀ t, holds ar t (index_maps p t) A) → Inv ar p ∧ abs p = A.
Proof.
  intros Hk Hh.
  assert (HI : Inv ar p).
  { split.
    - intros t k v (st & _ & ? & ?)%Hh. eauto.
    - intros t st. destruct (index_maps p SPOC !! stmt_key ar SPOC st) as [v|] eqn:E.
      + apply Hh in E as (st' & Hst' & Ek & ->). apply Hh. exists st'. split; [done|]. split; [|done].
        apply (same_key_index ar). exact Ek.
      + destruct (index_maps p t !! stmt_key ar t st) as [v|] eqn:E'; [|done].
        apply Hh in E' as (st' & Hst' & Ek & ->). apply (same_key_index ar) in Ek.
        assert (E2 : index_maps p SPOC !! stmt_key ar SPOC st = Some (SerializeToString st')).
        { apply Hh. exists st'. done. }
        congruence. }
  split; [done|]. apply set_eq. intros st. change (abs p) with (abs_map (index_maps p SPOC)).
  rewrite (elem_of_abs_map ar (index_maps p) SPOC st HI). split.
  - intros (st' & Hst' & _ & E%(inj SerializeToString))%Hh. by subst.
  - intros Hst. apply Hh. eauto.
Qed.

Lemma holds_put t m A st :
  key_injective ar ({[st]} ∪ A) → holds ar t m A →
  holds ar t (<[stmt_key ar t st := SerializeToString st]> m) ({[st]} ∪ A).
Proof.
  intros Hk Hm k v. rewrite lookup_insert_Some. split.
  - intros [[<- <-]|[Hne (st' & Hst' & -> & ->)%Hm]]; [exists st; set_solver|exists st'; set_solver].
  - intros (st' & Hst' & -> & ->). destruct (decide (stmt_key ar t st = stmt_key ar t st')) as [Ek|Hne].
    + left. split; [done|]. apply (same_key_index ar) in Ek. apply Hk in Ek; [by subst|set_solver..].
    + right. split; [done|]. apply Hm. exists st'. split; [|done]. set_solver.
Qed.

Lemma holds_batch t l m A :
  key_injective ar (list_to_set l ∪ A) → holds ar t m A →
  holds ar t (apply_batch (op_batch ar t <$> (SAdd <$> l)) m) (list_to_set l ∪ A).
Proof.
  revert m A; induction l as [|st l IH]; intros m A Hk Hm; simpl.
  - by rewrite (left_id_L ∅ (∪)).
  - assert (E : {[st]} ∪ list_to_set l ∪ A = list_to_set l ∪ ({[st]} ∪ A)) by set_solver. rewrite E.
    simpl in Hk. rewrite E in Hk. apply IH; [done|]. apply holds_put; [|done].
    eapply (key_injective_subseteq ar); [|exact Hk]. set_solver.
Qed.

Lemma union_list_insert (L : list (gset Statement)) i X :
  L !! i = Some ∅ → ⋃ (<[i := X]> L) = X ∪ ⋃ L.
Proof.
  revert i; induction L as [|Y L IH]; intros [|i] Hi; simpl in *; [done|done| |].
  - injection Hi as ->. set_solver.
  - rewrite (IH i Hi). set_solver.
Qed.

Lemma zip_with_insert_r {A B C} (f : A → B → C) l k i a b :
  l !! i = Some a → zip_with f l (<[i := b]> k) = <[i := f a b]> (zip_with f l k).
Proof.
  revert k i; induction l as [|x l IH]; intros [|y k] [|i] Hi; simpl in *; try done.
  - by simplify_eq.
  - f_equal. by apply IH.
Qed.

Lemma zip_with_lookup {A B C} (f : A → B → C) l k i a b :
  l !! i = Some a → k !! i = Some b → zip_with f l k !! i = Some (f a b).
Proof. intros Ha Hb. rewrite lookup_zip_with, Ha. simpl. by rewrite Hb. Qed.

(** The statements a request adds, and those its call has written to an index. *)
Definition added (r : request) : gset Statement :=
  match r with RAdd l => list_to_set l | _ => ∅ end.

Definition written_to (t : IndexType) (r : request) (c : call) : gset Statement :=
  match c with
  | Committing _ _ ws _ => if decide (writer_of t ∈ ws) then ∅ else added r
  | Replied _ => added r
  | _ => ∅
  end.

Definition add_or_query (r : request) : bool :=
  match r with RAdd _ | RQuery _ => true | _ => false end.

Context (A0 : gset Statement) (rs : list request).
Context (Hk : key_injective ar (A0 ∪ ⋃ (added <$> rs))).

Definition stored (t : IndexType) (cs : list call) : gset Statement :=
  A0 ∪ ⋃ zip_with (written_to t) rs cs.

Definition add_call (r : request) (c : call) : Prop :=
  match r, c with
  | RAdd l, Adding l' => l' = l
  | RAdd l, Committing b _ ws _ => batches_are ar b (SAdd <$> l) ∧ NoDup ws
  | RAdd _, Replied _ => True
  | RQuery pattern, Querying pattern' => pattern' = pattern
  | RQuery pattern, Answered pattern' l =>
      NoDup l ∧ spec_get ar pattern' A0 ⊆ list_to_set l ∧
      list_to_set l ⊆ spec_get ar pattern' (A0 ∪ ⋃ (added <$> rs))
  | _, _ => False
  end.

Definition adds_inv (s : system) : Prop :=
  Forall2 add_call rs (calls s) ∧ ∀ t, holds ar t (index_maps (shared s) t) (stored t (calls s)).

Lemma written_subseteq t cs : ⋃ zip_with (written_to t) rs cs ⊆ ⋃ (added <$> rs).
Proof.
  intros st (X & HX & Hst)%elem_of_union_list. apply list_elem_of_lookup in HX as [i HX].
  rewrite lookup_zip_with in HX. destruct (rs !! i) as [r|] eqn:Er; [|done].
  destruct (cs !! i) as [c|]; simplify_eq/=. apply elem_of_union_list. exists (added r). split.
  - apply list_elem_of_fmap_2. by eapply list_elem_of_lookup_2.
  - unfold written_to in Hst. destruct c; try set_solver. case_decide; set_solver.
Qed.

Lemma spec_get_mono pattern A A' : A ⊆ A' → spec_get ar pattern A ⊆ spec_get ar pattern A'.
Proof. unfold spec_get. set_solver. Qed.

(** A step that does not write: the call changes, its writes do not. *)
Lemma adds_inv_same cs p i r c c' :
  adds_inv (mkSystem cs p) → rs !! i = Some r → cs !! i = Some c → add_call r c' →
  (∀ t, written_to t r c' = written_to t r c) → adds_inv (mkSystem (<[i := c']> cs) p).
Proof.
  intros [HF Hh] Hr Hc Hadd Hw. split; simpl in *.
  - rewrite <- (list_insert_id rs i r Hr). by apply Forall2_insert.
  - intros t. unfold stored. rewrite (zip_with_insert_r _ rs cs i r c' Hr), Hw.
    rewrite list_insert_id by (by apply zip_with_lookup). apply Hh.
Qed.

Lemma adds_inv_write cs p i l b bn l1 w l2 rep :
  adds_inv (mkSystem cs p) → rs !! i = Some (RAdd l) →
  cs !! i = Some (Committing b bn (l1 ++ w :: l2) rep) →
  batches_are ar b (SAdd <$> l) → NoDup (l1 ++ w :: l2) →
  adds_inv (mkSystem (<[i := Committing b bn (l1 ++ l2) rep]> cs) (run_writer b bn w p)).
Proof.
  intros [HF Hh] Hr Hc Hb Hnd. simpl in *.
  assert (Hw : (w ∉ l1 ++ l2) ∧ NoDup (l1 ++ l2)).
  { apply NoDup_app in Hnd as (H1 & H2 & [? ?]%NoDup_cons). split; [set_solver|].
    apply NoDup_app. set_solver. }
  destruct Hw as [Hw Hnd']. split; simpl.
  - rewrite <- (list_insert_id rs i (RAdd l) Hr). by apply Forall2_insert.
  - intros t. unfold index_maps, stored. rewrite run_writer_index.
    rewrite (zip_with_insert_r _ rs cs i (RAdd l) _ Hr).
    pose proof (zip_with_lookup (written_to t) rs cs i _ _ Hr Hc) as El. simpl in El |- *.
    destruct (decide (w = writer_of t)) as [->|Hne].
    + rewrite decide_True in El by set_solver. rewrite decide_False by done.
      rewrite (union_list_insert _ _ _ El), write_contents, (Hb t).
      assert (E : A0 ∪ (list_to_set l ∪ ⋃ zip_with (written_to t) rs cs) = list_to_set l ∪ stored t cs)
        by (unfold stored; set_solver). rewrite E.
      apply holds_batch; [|apply Hh]. eapply (key_injective_subseteq ar); [|exact Hk].
      pose proof (written_subseteq t cs). unfold stored.
      assert (list_to_set l ⊆ ⋃ (added <$> rs)); [|set_solver].
      intros st Hst. apply elem_of_union_list. exists (added (RAdd l)). split; [|done].
      apply list_elem_of_fmap_2. by eapply list_elem_of_lookup_2.
    + assert (Ed : (if decide (writer_of t ∈ l1 ++ l2) then ∅ else list_to_set l : gset Statement) =
        if decide (writer_of t ∈ l1 ++ w :: l2) then ∅ else list_to_set l) by (apply decide_ext; set_solver).
      rewrite Ed, list_insert_id by done. apply Hh.
Qed.

Lemma adds_inv_step s s' : sys_step ar s s' → adds_inv s → adds_inv s'.
Proof.
  intros [cs i c p c' p' Hi Hc] HA. pose proof HA as [HF Hh]. simpl in *.
  destruct (Forall2_lookup_r _ _ _ _ _ HF Hi) as (r & Hr & Hadd).
  destruct Hc as [l p b n E|pattern p b n E|u req reqs p u' E|u p|pattern p l E
    |b bn l1 w l2 rep p|b bn rep p]; destruct r as [l0|pt|reqs0|pt]; simpl in Hadd; try done.
  - subst l. destruct (add_batches_ops ar l0) as (b' & E' & Hb). rewrite E in E'. inv_ok.
    eapply adds_inv_same; [done..| |].
    + simpl. split; [done|]. apply (bool_decide_unpack _); vm_compute; exact I.
    + intros t. simpl. rewrite decide_True; [done|]. destruct t; set_solver.
  - subst pattern. eapply adds_inv_same; [done..| |done]. simpl.
    rewrite (GetStatements_collect ar pt p) in E. inv_ok.
    destruct (results_holds ar pt p _ (Hh _)) as [Hnd ->]. split; [done|].
    pose proof (written_subseteq (type_ (newPatternQuery pt)) cs). unfold stored.
    split; apply spec_get_mono; set_solver.
  - destruct Hadd as [Hb Hnd]. by eapply adds_inv_write.
  - eapply adds_inv_same; [done..|done|]. by intros [].
Qed.

Lemma adds_inv_rtc s s' : rtc (sys_step ar) s s' → adds_inv s → adds_inv s'.
Proof. induction 1; eauto using adds_inv_step. Qed.

Lemma written_start t : ⋃ zip_with (written_to t) rs (start <$> rs) = ∅.
Proof.
  clear Hk. induction rs as [|r l IH]; [done|].
  change (written_to t r (start r) ∪ ⋃ zip_with (written_to t) l (start <$> l) = ∅).
  rewrite IH, (right_id_L ∅ (∪)). by destruct r.
Qed.

Lemma adds_inv_finished t s :
  adds_inv s → Forall (λ c, finished c = true) (calls s) → zip_with (written_to t) rs (calls s) = added <$> rs.
Proof.
  intros [HF _]. clear Hk. induction HF as [|r c rs' cs Hrc _ IH]; [done|]. intros [Hc Hf]%Forall_cons.
  simpl. f_equal; [|by apply IH]. destruct c, r; simpl in *; done.
Qed.
End Adds.

Section ConcurrentTheorems.
Context (ar : arch) `{PBL : ProtobufLaws}.
Context `{LK : !LevelDB key64} `{LKL : !LevelDBLaws key64}.
Context `{CB : !Comparator bytes} `{LB : !LevelDB bytes} `{LBL : !LevelDBLaws bytes}.

(** C14. Any number of additions and queries may run side by side: when no two of the
    statements collide, every schedule ends in a consistent store that holds what
    was there and everything added, and every query on the way finds at least
    what was there before and nothing that is not there in the end. *)
Theorem concurrent_adds (rs : list request) (p0 : LevelDBPersistence) (s : system) :
  Inv ar p0 → Forall (λ r, add_or_query r = true) rs →
  key_injective ar (abs p0 ∪ ⋃ (added <$> rs)) →
  rtc (sys_step ar) (server rs p0) s →
  (∀ i pattern l, calls s !! i = Some (Answered pattern l) →
     NoDup l ∧ spec_get ar pattern (abs p0) ⊆ list_to_set l ∧
     list_to_set l ⊆ spec_get ar pattern (abs p0 ∪ ⋃ (added <$> rs))) ∧
  (nf (sys_step ar) s → Inv ar (shared s) ∧ abs (shared s) = abs p0 ∪ ⋃ (added <$> rs)).
Proof.
  intros HI Hrs Hk Hr.
  assert (H0 : adds_inv ar (abs p0) rs (server rs p0)).
  { split; simpl.
    - apply Forall2_fmap_r, Forall_Forall2_diag. eapply Forall_impl; [exact Hrs|]. by intros [].
    - intros t. assert (E : stored (abs p0) rs t (start <$> rs) = abs p0).
      { unfold stored. by rewrite written_start, (right_id_L ∅ (∪)). }
      rewrite E. by apply holds_inv. }
  pose proof (adds_inv_rtc ar (abs p0) rs Hk _ s Hr H0) as HA. split.
  - intros i pattern l Hl. destruct HA as [HF _].
    destruct (Forall2_lookup_r _ _ _ _ _ HF Hl) as (r & _ & Hadd). by destruct r.
  - intros Hnf%(sys_nf ar). apply (inv_holds ar); [done|]. intros t.
    pose proof (proj2 HA t) as Ht. unfold stored in Ht.
    by rewrite (adds_inv_finished ar (abs p0) rs t s HA Hnf) in Ht.
Qed.

(** The rest of a commit without interruption. *)
Lemma commit_rest cs i b bn ws r p :
  cs !! i = Some (Committing b bn ws r) →
  rtc (sys_step ar) (mkSystem cs p) (mkSystem (<[i := Replied r]> cs) (run_all b bn ws p)).
Proof.
  revert cs p; induction ws as [|w ws IH]; intros cs p Hi.
  - apply rtc_once. eapply sys_call; [exact Hi|]. apply step_join.
  - eapply rtc_l; [eapply sys_call; [exact Hi|]; apply (step_write ar b bn [] w ws)|].
    pose proof (IH (<[i := Committing b bn ws r]> cs) (run_writer b bn w p)) as Hr.
    rewrite list_insert_insert_eq in Hr. apply Hr. apply list_lookup_insert_eq. by eapply lookup_lt_Some.
Qed.

Lemma delete_batch_lookup t l st m :
  st ∈ l → apply_batch (op_batch ar t <$> (SDel <$> l)) m !! stmt_key ar t st = None.
Proof.
  assert (Hn : ∀ l m k, m !! k = None → apply_batch (op_batch ar t <$> (SDel <$> l)) m !! k = None).
  { clear. induction l as [|x l IH]; intros m k Hm; [done|]. apply IH. simpl.
    destruct (decide (stmt_key ar t x = k)) as [->|Hne]; [apply lookup_delete_eq|].
    by rewrite lookup_delete_ne. }
  intros Hin. revert m. induction Hin as [x l|x y l Hin IH]; intros m; [|apply IH].
  apply (Hn l (delete (stmt_key ar t x) m)), lookup_delete_eq.
Qed.

(** C16. Without a lock, an addition and a removal that run side by side can leave the
    indexes inconsistent when both have ended: when a stored statement is added again while
    it is removed, there is a schedule that answers both requests and ends with
    the statement in one index and not in another. *)
Theorem concurrent_add_remove_diverges (st : Statement) (p0 : LevelDBPersistence) :
  Inv ar p0 → st ∈ abs p0 →
  ∃ s, rtc (sys_step ar) (server [RAdd [st]; RRemove st] p0) s ∧
    Forall (λ c, finished c = true) (calls s) ∧
    index_maps (shared s) SPOC !! stmt_key ar SPOC st = None ∧
    index_maps (shared s) CSPO !! stmt_key ar CSPO st = Some (SerializeToString st) ∧
    ¬ Inv ar (shared s).
Proof.
  intros HI Hst. destruct (add_batches_ops ar [st]) as (ba & Ea & Hba).
  destruct (RemoveStatements_batch_ops ar st _ _ p0 (batches_are_empty ar)) as (bd & Ed & Hbd).
  assert (Hres : st ∈ results ar st p0).
  { apply (elem_of_results ar st p0 st HI). unfold spec_get. apply elem_of_filter.
    split; [|done]. unfold hash_matches. by apply Forall_true. }
  set (p1 := run_writer ba empty_ns_batches W_spoc p0).
  set (p2 := run_all bd empty_ns_batches stmt_writers p1).
  set (p3 := run_all ba empty_ns_batches [W_pcos; W_opsc; W_cspo] p2).
  set (r0 := Count (Z.of_nat (length [st]))). set (r1 := Count (Z.of_nat (length (results ar st p0)))).
  assert (HS : index_maps p3 SPOC !! stmt_key ar SPOC st = None).
  { assert (E : index_db SPOC p3 = Write (index_db SPOC p1) (stmt_batch SPOC bd)) by (by destruct p0).
    unfold index_maps. rewrite E, write_contents, (Hbd SPOC). by apply delete_batch_lookup. }
  assert (HC : index_maps p3 CSPO !! stmt_key ar CSPO st = Some (SerializeToString st)).
  { assert (E : index_db CSPO p3 = Write (index_db CSPO p2) (stmt_batch CSPO ba)) by (by destruct p0).
    unfold index_maps. rewrite E, write_contents, (Hba CSPO). apply lookup_insert_eq. }
  exists (mkSystem [Replied r0; Replied r1] p3). split_and!; [|by repeat constructor|done|done|].
  - eapply rtc_l; [eapply (sys_call ar _ 0%nat); [done|by apply step_add]|].
    eapply rtc_l; [eapply (sys_call ar _ 1%nat); [done|by apply step_remove]|].
    eapply rtc_l; [eapply (sys_call ar _ 0%nat); [done|];
      apply (step_write ar ba empty_ns_batches [W_pcos; W_opsc; W_cspo] W_spoc [])|].
    etrans; [by apply (commit_rest _ 1%nat)|].
    apply (commit_rest [Committing ba empty_ns_batches [W_pcos; W_opsc; W_cspo] r0; Replied r1] 0%nat ba
      empty_ns_batches [W_pcos; W_opsc; W_cspo] r0 p2 eq_refl).
  - intros HI'. pose proof (inv_agree _ _ HI' CSPO st) as E. simpl in E. rewrite HS in E.
    change (index_maps p3 CSPO !! stmt_key ar CSPO st = None) in E. congruence.
Qed.
End ConcurrentTheorems.

(** ** Witnesses *)

Section ConcurrencyWitnesses.
Import Demo.

Definition dan : Statement := quad "dan" "knows" "bob" "g9".
Definition eve : Statement := quad "eve" "knows" "dan" "g9".

Lemma concurrent_calls_complete_witness :
  sn (sys_step ar) (server [RAdd [dan]; RQuery any] loaded) ∧
  ∀ s, rtc (sys_step ar) (server [RAdd [dan]; RQuery any] loaded) s → nf (sys_step ar) s →
    calls s !! 0%nat = Some (Replied (Count 1)).
Proof.
  destruct (concurrent_calls_complete ar [RAdd [dan]; RQuery any] loaded) as [Hsn Hc].
  split; [exact Hsn|]. intros s Hr Hnf. exact (proj2 (Hc s Hr Hnf) 0%nat (RAdd [dan]) eq_refl).
Defined.

Lemma query_linearizable_witness :
  ∃ p1, sequential ar (RAdd [dan]) loaded = Ok p1 ∧ Inv ar p1 ∧
    ∀ s, rtc (sys_step ar) (server [RQuery any; RAdd [dan]; RQuery (by_subject "dan")] loaded) s →
      (∀ i pattern l, calls s !! i = Some (Answered pattern l) →
         NoDup l ∧ (list_to_set l = spec_get ar pattern (abs loaded) ∨
                    list_to_set l = spec_get ar pattern (abs p1))) ∧
      (nf (sys_step ar) s → shared s = p1).
Proof.
  apply (query_linearizable ar [RQuery any; RAdd [dan]; RQuery (by_subject "dan")] 1 (RAdd [dan]) loaded loaded_inv).
  - reflexivity.
  - reflexivity.
  - intros [|[|[|i]]] r E Hne; simpl in E; simplify_eq; done.
Defined.

(** A query between two additions. *)
Definition demo_run : system :=
  mkSystem [Adding [dan]; Answered (by_subject "dan") (results ar (by_subject "dan") loaded); Adding [eve; dan]]
    loaded.

Lemma concurrent_adds_witness :
  let rs := [RAdd [dan]; RQuery (by_subject "dan"); RAdd [eve; dan]] in
  rtc (sys_step ar) (server rs loaded) demo_run ∧
  (∀ i pattern l, calls demo_run !! i = Some (Answered pattern l) →
     NoDup l ∧ spec_get ar pattern (abs loaded) ⊆ list_to_set l ∧
     list_to_set l ⊆ spec_get ar pattern (abs loaded ∪ ⋃ (added <$> rs))) ∧
  (nf (sys_step ar) demo_run →
   Inv ar (shared demo_run) ∧ abs (shared demo_run) = abs loaded ∪ ⋃ (added <$> rs)).
Proof.
  intros rs.
  assert (Hr : rtc (sys_step ar) (server rs loaded) demo_run).
  { apply rtc_once.
    refine (sys_call ar (start <$> rs) 1 (Querying (by_subject "dan")) loaded
      (Answered (by_subject "dan") (results ar (by_subject "dan") loaded)) loaded eq_refl _).
    apply step_query. exact (GetStatements_collect ar (by_subject "dan") loaded). }
  split; [exact Hr|].
  apply (concurrent_adds ar rs loaded demo_run loaded_inv); [by repeat constructor| |exact Hr].
  apply (bool_decide_unpack _). vm_compute. exact I.
Defined.

Lemma concurrent_add_remove_diverges_witness :
  let st := quad "alice" "knows" "bob" "g1" in
  ∃ s, rtc (sys_step ar) (server [RAdd [st]; RRemove st] loaded) s ∧
    Forall (λ c, finished c = true) (calls s) ∧
    index_maps (shared s) SPOC !! stmt_key ar SPOC st = None ∧
    index_maps (shared s) CSPO !! stmt_key ar CSPO st = Some (SerializeToString st) ∧
    ¬ Inv ar (shared s).
Proof.
  intros st. apply (concurrent_add_remove_diverges ar st loaded loaded_inv).
  rewrite loaded_abs. apply (bool_decide_unpack _). vm_compute. exact I.
Defined.
End ConcurrencyWitnesses.
