(* ===== verification/ServiceTheorems.v ===== *)
(** * ServiceTheorems: what the handlers of LevelDBService do

    Clear and Size by contexts, GetContexts, and the streaming handlers with a
    client that may stop reading. *)

From Stdlib Require Import ZArith Lia.
From S2P Require Import Prelude Words Murmur3 Messages Iterators LevelDB Keys Wire RdfOperators.
From S2P Require Import Persistence PersistenceSpec Refinement UpdateProofs Matching Service DemoStore.

(** ** Writers *)

(** How many messages a writer accepts of a list. *)
Definition accepted {T} (room : option nat) (l : list T) : list T :=
  match room with None => l | Some n => take n l end.

Lemma write_stream {T} (l : list T) (w : ServerWriter T) :
  ∃ r, fold_while (λ w x, Ok (WriteMsg w x)) true l w =
       Ok (mkServerWriter (written w ++ accepted (w_room w) l) r).
Proof.
  revert w; induction l as [|x l IH]; intros [wr room].
  - exists room. simpl. destruct room; simpl; by rewrite ?take_nil, app_nil_r.
  - cbn [fold_while]. destruct room as [[|n]|]; unfold WriteMsg at 1; cbn.
    + exists (Some 0). rewrite app_nil_r. by destruct l.
    + destruct (IH (mkServerWriter (wr ++ [x]) (Some n))) as [r E]. exists r.
      etrans; [exact E|]. simpl. by rewrite <- app_assoc.
    + destruct (IH (mkServerWriter (wr ++ [x]) None)) as [r E]. exists r.
      etrans; [exact E|]. simpl. by rewrite <- app_assoc.
Qed.

(** [for (auto c : contexts) result->Write(c);] *)
Lemma write_all {T} (l : list T) (wr : list T) (room : option nat) :
  written (foldl (λ w c, (WriteMsg w c).2) (mkServerWriter wr room) l) = wr ++ accepted room l.
Proof.
  revert wr room; induction l as [|x l IH]; intros wr room; cbn [foldl].
  - destruct room; simpl; by rewrite ?take_nil, app_nil_r.
  - destruct room as [[|n]|]; unfold WriteMsg at 2; cbn.
    + rewrite IH. by destruct l.
    + rewrite IH. simpl. by rewrite <- app_assoc.
    + rewrite IH. simpl. by rewrite <- app_assoc.
Qed.

Section ServiceProofs.
Context (ar : arch) `{PBL : ProtobufLaws}.
Context `{LK : !LevelDB key64} `{LKL : !LevelDBLaws key64}.
Context `{CB : !Comparator bytes} `{LB : !LevelDB bytes} `{LBL : !LevelDBLaws bytes}.

(** The pattern with only a context. *)
Definition in_context (r : Resource) : Statement := mkStatement None None None (Some r).

Lemma set_context_in r r' : set_context (in_context r') r = in_context r.
Proof. done. Qed.

(** ** Clear *)

(** The loop of Clear, with its pattern variable. *)
Lemma clear_loop l pat n p :
  Inv ar p → (pat = default_instance ∨ ∃ r, pat = in_context r) →
  ∃ pat' p', foldM (Clear_step ar) (pat, n, p) l =
    Ok (pat', (n + Z.of_nat (size (abs p) - size (abs p')))%Z, p') ∧
    Inv ar p' ∧ abs p' ⊆ abs p ∧ same_ns p p' ∧
    abs p' = filter (λ s, Forall (λ r, ¬ hash_matches ar (in_context r) s) l) (abs p).
Proof.
  revert pat n p; induction l as [|r l IH]; intros pat n p HI Hpat.
  - exists pat, p. simpl. rewrite Nat.sub_diag, Z.add_0_r. split_and!; try done.
    symmetry. apply set_eq. intros s. rewrite elem_of_filter. naive_solver.
  - assert (set_context pat r = in_context r) as Er by (by destruct Hpat as [-> |[r' ->]]).
    cbn [foldM Clear_step]. cbv zeta. rewrite Er.
    destruct (RemoveStatements_refines ar (in_context r) p HI) as (p1 & -> & HI1 & Ha1 & Hn1).
    cbn [mbind res_bind].
    destruct (IH (in_context r) (n + Z.of_nat (size (spec_get ar (in_context r) (abs p))))%Z p1 HI1)
      as (pat' & p' & E & HI' & Hsub & Hn & Ha); [right; eauto|].
    exists pat', p'. cbn in E |- *. rewrite E.
    assert (Hs1 : abs p1 ⊆ abs p) by (rewrite Ha1; unfold spec_remove; set_solver).
    assert (Hsz : size (abs p) = size (spec_get ar (in_context r) (abs p)) + size (abs p1)).
    { rewrite Ha1, <- size_union by (unfold spec_get, spec_remove; set_solver).
      f_equal. apply set_eq. intros s. unfold spec_get, spec_remove.
      rewrite elem_of_union, !elem_of_filter.
      destruct (decide (hash_matches ar (in_context r) s)); tauto. }
    pose proof (subseteq_size _ _ Hsub) as Hle.
    split_and!.
    + do 2 f_equal. f_equal. lia.
    + done.
    + by etrans.
    + unfold same_ns in *. by destruct Hn as (-> & -> & ->).
    + rewrite Ha, Ha1. apply set_eq. intros s. unfold spec_remove.
      rewrite !elem_of_filter, Forall_cons. tauto.
Qed.

Lemma hash_matches_any s : hash_matches ar default_instance s.
Proof. constructor. Qed.

(** ** Size *)

Lemma count_results pattern n p :
  GetStatements ar pattern (λ count _, Ok (true, (count + 1)%Z)) n p =
  Ok (n + Z.of_nat (length (results ar pattern p)))%Z.
Proof.
  rewrite (GetStatements_fold ar pattern (λ count _, (count + 1)%Z)). f_equal.
  revert n; induction (results ar pattern p) as [|x l IH]; intros n; simpl; [lia|].
  rewrite IH. lia.
Qed.

Lemma size_loop l pat n p :
  Inv ar p → (pat = default_instance ∨ ∃ r, pat = in_context r) →
  ∃ pat', foldM (Size_step ar p) (pat, n) l =
    Ok (pat', (n + Z.of_nat (sum_list_with (λ r, size (spec_get ar (in_context r) (abs p))) l))%Z).
Proof.
  intros HI. revert pat n; induction l as [|r l IH]; intros pat n Hpat.
  - exists pat. simpl. by rewrite Z.add_0_r.
  - assert (set_context pat r = in_context r) as Er by (by destruct Hpat as [-> |[r' ->]]).
    cbn [foldM Size_step]. cbv zeta. rewrite Er, count_results, (results_length ar _ p HI).
    cbn [mbind res_bind].
    destruct (IH (in_context r) (n + Z.of_nat (size (spec_get ar (in_context r) (abs p))))%Z)
      as (pat' & E); [right; eauto|].
    exists pat'. etrans; [exact E|]. simpl. do 2 f_equal. lia.
Qed.

(** ** GetContexts *)

Definition all_wf_contexts (l : list Resource) : Prop := Forall (λ r, wf_resource r = true) l.

Lemma uset_insert_spec s r :
  all_wf_contexts s → wf_resource r = true → NoDup s →
  all_wf_contexts (uset_insert s r) ∧ NoDup (uset_insert s r) ∧
  ∀ x, x ∈ uset_insert s r ↔ x ∈ s ∨ x = r.
Proof.
  intros Hs Hr Hnd. unfold uset_insert. destruct (existsb _ s) eqn:E.
  - apply existsb_exists in E as (x & Hin%list_elem_of_In & Heq%Resource_eq_true).
    destruct Heq as [-> _]. split_and!; try done. intros y. naive_solver.
  - assert (r ∉ s) as Hn.
    { intros Hin. apply not_true_iff_false in E. apply E, existsb_exists.
      exists r. split; [by apply list_elem_of_In|]. by apply Resource_eq_true. }
    split_and!.
    + apply Forall_app. split; [done|by constructor].
    + apply NoDup_app. split_and!; [done| |apply NoDup_singleton]. set_solver.
    + set_solver.
Qed.

(** The contexts of a list of statements, as GetContexts collects them. *)
Definition collect_contexts (contexts : list Resource) (stmt : Statement) : list Resource :=
  if has_context stmt then uset_insert contexts (context stmt) else contexts.

Lemma collect_contexts_spec l s :
  all_wf_contexts s → NoDup s →
  Forall (λ st, has_context st = true → wf_resource (context st) = true) l →
  NoDup (foldl collect_contexts s l) ∧
  ∀ x, x ∈ foldl collect_contexts s l ↔
       x ∈ s ∨ ∃ st, st ∈ l ∧ has_context st = true ∧ context st = x.
Proof.
  intros Hs Hnd Hl. revert s Hs Hnd. induction Hl as [|st l Hst Hl IH]; intros s Hs Hnd; simpl.
  - split; [done|]. intros x. set_solver.
  - unfold collect_contexts at 2 4. destruct (has_context st) eqn:Hc.
    + destruct (uset_insert_spec s (context st) Hs (Hst eq_refl) Hnd) as (Hs' & Hnd' & Hin).
      destruct (IH _ Hs' Hnd') as [Hn Hx]. split; [done|]. intros x. rewrite Hx, Hin.
      setoid_rewrite elem_of_cons. naive_solver.
    + destruct (IH _ Hs Hnd) as [Hn Hx]. split; [done|]. intros x. rewrite Hx.
      setoid_rewrite elem_of_cons. naive_solver congruence.
Qed.
(** ** The handlers *)

Lemma svc_Clear_refines (contexts : list Resource) (p : LevelDBPersistence) :
  Inv ar p →
  ∃ p', svc_Clear ar (mkContextRequest contexts) p =
      Ok (StatusOK, Z.of_nat (size (abs p) - size (abs p')), p') ∧
    Inv ar p' ∧ same_ns p p' ∧
    abs p' = match contexts with
             | [] => ∅
             | _ => filter (λ s, Forall (λ r, ¬ hash_matches ar (in_context r) s) contexts) (abs p)
             end.
Proof.
  intros HI. unfold svc_Clear. cbn [req_context]. destruct contexts as [|r l].
  - cbn. destruct (RemoveStatements_refines ar default_instance p HI) as (p' & E & HI' & Ha & Hn).
    cbn in E. rewrite E.
    assert (E0 : abs p' = ∅).
    { rewrite Ha. apply set_eq. intros s. unfold spec_remove. rewrite elem_of_filter.
      split; [|set_solver]. intros [Hm _]. destruct Hm. apply hash_matches_any. }
    assert (E1 : spec_get ar default_instance (abs p) = abs p).
    { apply set_eq. intros s. unfold spec_get. rewrite elem_of_filter.
      split; [by intros [_ ?]|]. intros ?. split; [apply hash_matches_any|done]. }
    exists p'. cbn in E1 |- *. rewrite E1, E0, size_empty, Nat.sub_0_r. done.
  - rewrite bool_decide_eq_true_2 by (simpl; lia).
    destruct (clear_loop (r :: l) default_instance 0%Z p HI (or_introl eq_refl))
      as (pat' & p' & E & HI' & _ & Hn & Ha).
    rewrite E. exists p'. by rewrite Z.add_0_l.
Qed.

Lemma svc_Size_refines (contexts : list Resource) (p : LevelDBPersistence) :
  Inv ar p →
  svc_Size ar (mkContextRequest contexts) p =
  Ok (StatusOK,
      Z.of_nat (match contexts with
                | [] => size (abs p)
                | _ => sum_list_with (λ r, size (spec_get ar (in_context r) (abs p))) contexts
                end)).
Proof.
  intros HI. unfold svc_Size. cbn [req_context]. destruct contexts as [|r l].
  - rewrite bool_decide_eq_false_2 by (simpl; lia). by rewrite (Size_refines ar p HI).
  - rewrite bool_decide_eq_true_2 by (simpl; lia).
    destruct (size_loop (r :: l) default_instance 0%Z p HI (or_introl eq_refl)) as (pat' & E).
    by rewrite E.
Qed.

End ServiceProofs.

Section ServiceTheorems.
Context (ar : arch) `{PBL : ProtobufLaws}.
Context `{LK : !LevelDB key64} `{LKL : !LevelDBLaws key64}.
Context `{CB : !Comparator bytes} `{LB : !LevelDB bytes} `{LBL : !LevelDBLaws bytes}.

(** C28. Clear with a list of contexts removes exactly the statements in one of
    them (up to the hash of the context) and returns how many; with no context
    it empties the store.  The namespaces are kept. *)
Theorem clear_correct (contexts : list Resource) (p : LevelDBPersistence) :
  Inv ar p →
  ∃ p', svc_Clear ar (mkContextRequest contexts) p =
      Ok (StatusOK, Z.of_nat (size (abs p) - size (abs p')), p') ∧
    Inv ar p' ∧ same_ns p p' ∧
    abs p' = match contexts with
             | [] => ∅
             | _ => filter (λ s, Forall (λ r, ¬ hash_matches ar (in_context r) s) contexts) (abs p)
             end.
Proof. exact (svc_Clear_refines ar contexts p). Qed.

(** Size with a list of contexts returns the sum over the list of the
    number of statements in each; with no context, the size of the store. *)
Theorem size_contexts_correct (contexts : list Resource) (p : LevelDBPersistence) :
  Inv ar p →
  svc_Size ar (mkContextRequest contexts) p =
  Ok (StatusOK,
      Z.of_nat (match contexts with
                | [] => size (abs p)
                | _ => sum_list_with (λ r, size (spec_get ar (in_context r) (abs p))) contexts
                end)).
Proof. exact (svc_Size_refines ar contexts p). Qed.

(** GetContexts writes each context that occurs in a stored statement
    exactly once, and nothing else, to a client that reads the whole stream. *)
Theorem get_contexts_correct (p : LevelDBPersistence) :
  Inv ar p →
  set_Forall (λ st, has_context st = true → wf_resource (context st) = true) (abs p) →
  ∃ w, svc_GetContexts ar (newServerWriter None) p = Ok (StatusOK, w) ∧
    NoDup (written w) ∧
    ∀ r, r ∈ written w ↔ ∃ st, st ∈ abs p ∧ has_context st = true ∧ context st = r.
Proof.
  intros HI Hwf. unfold svc_GetContexts.
  rewrite (GetStatements_fold ar default_instance collect_contexts). cbn [mbind res_bind].
  eexists. split; [done|]. unfold newServerWriter. rewrite write_all. cbn [app accepted].
  assert (Hin : ∀ st, st ∈ results ar default_instance p ↔ st ∈ abs p).
  { intros st. rewrite (elem_of_results ar default_instance p st HI). unfold spec_get.
    rewrite elem_of_filter. pose proof (hash_matches_any ar st). tauto. }
  destruct (collect_contexts_spec (results ar default_instance p) []) as [Hnd Hx];
    [constructor..| |].
  - apply Forall_forall. intros st Hst%Hin. by apply Hwf.
  - split; [done|]. intros r. rewrite Hx. setoid_rewrite Hin. set_solver.
Qed.

(** GetStatements streams the results in order until the client stops
    reading: what is written is the prefix of the results it accepts. *)
Theorem get_statements_stream (pattern : Statement) (room : option nat) (p : LevelDBPersistence) :
  Inv ar p →
  ∃ l w, GetStatements ar pattern (λ l st, Ok (true, l ++ [st])) [] p = Ok l ∧
    svc_GetStatements ar pattern (newServerWriter room) p = Ok (StatusOK, w) ∧
    written w = accepted room l.
Proof.
  intros HI. rewrite (GetStatements_collect ar pattern p).
  destruct (write_stream (results ar pattern p) (newServerWriter room)) as [r E].
  eexists (results ar pattern p), _. split; [done|].
  unfold svc_GetStatements, GetStatements. rewrite for_each_while_elements.
  fold (results ar pattern p). rewrite E. done.
Qed.
End ServiceTheorems.

Section ServiceWitnesses.
Import Demo.

Lemma clear_correct_witness :
  ∃ p', svc_Clear ar (mkContextRequest [res_ "g1"]) loaded =
      Ok (StatusOK, Z.of_nat (size (abs loaded) - size (abs p')), p') ∧
    Inv ar p' ∧ same_ns loaded p' ∧
    abs p' = filter (λ s, Forall (λ r, ¬ hash_matches ar (in_context r) s) [res_ "g1"]) (abs loaded).
Proof. apply (clear_correct ar [res_ "g1"] loaded loaded_inv). Defined.

Lemma size_contexts_correct_witness :
  svc_Size ar (mkContextRequest [res_ "g1"; res_ "g2"]) loaded = Ok (StatusOK, 3%Z).
Proof.
  rewrite (size_contexts_correct ar [res_ "g1"; res_ "g2"] loaded loaded_inv).
  vm_compute. reflexivity.
Defined.

Lemma get_contexts_correct_witness :
  ∃ w, svc_GetContexts ar (newServerWriter None) loaded = Ok (StatusOK, w) ∧
    NoDup (written w) ∧
    ∀ r, r ∈ written w ↔ ∃ st, st ∈ abs loaded ∧ has_context st = true ∧ context st = r.
Proof.
  apply (get_contexts_correct ar loaded loaded_inv).
  apply (bool_decide_unpack _). vm_compute. exact I.
Defined.

Lemma get_statements_stream_witness :
  ∃ l w, GetStatements ar any (λ l st, Ok (true, l ++ [st])) [] loaded = Ok l ∧
    svc_GetStatements ar any (newServerWriter (Some 2)) loaded = Ok (StatusOK, w) ∧
    written w = accepted (Some 2) l.
Proof. apply (get_statements_stream ar any (Some 2) loaded loaded_inv). Defined.
End ServiceWitnesses.
