(* ===== verification/RdfModel.v ===== *)
(** * RdfModel: the model classes of model/rdf_model.h and .cc

    One Module per class.  An object is a record of its [internal_] message
    (and of its type tag for Value and Resource).  Constructors return the new
    object; those that take an rvalue reference, and the move assignments,
    return the moved-from object too, since [Swap] leaves it a definite value.
    The setters and copy assignments merge, as the sources do. *)

From Stdlib Require Import ZArith Ascii.
From S2P Require Import Prelude Messages RdfOperators.

(** Scalar setters of the messages. *)
Definition set_prefix (s : string) (n : Namespace) : Namespace := mkNamespace s (ns_uri n).
Definition set_ns_uri (s : string) (n : Namespace) : Namespace := mkNamespace (prefix n) s.
Definition set_uri (s : string) (u : URI) : URI := mkURI s.
Definition set_id (s : string) (b : BNode) : BNode := mkBNode s.
Definition set_sl_content (s : string) (l : StringLiteral) : StringLiteral :=
  mkStringLiteral s (language l).
Definition set_language (s : string) (l : StringLiteral) : StringLiteral :=
  mkStringLiteral (sl_content l) s.
Definition set_dl_content (s : string) (l : DatatypeLiteral) : DatatypeLiteral :=
  mkDatatypeLiteral s (datatype_ l).
(** [mutable_x()] of a submessage, applied to an update of the result. *)
Definition mutable_datatype (f : URI → URI) (l : DatatypeLiteral) : DatatypeLiteral :=
  mkDatatypeLiteral (dl_content l) (Some (f (datatype l))).
Definition mutable_subject (f : Resource → Resource) (s : Statement) : Statement :=
  mkStatement (Some (f (subject s))) (predicate_ s) (object_ s) (context_ s).
Definition mutable_predicate (f : URI → URI) (s : Statement) : Statement :=
  mkStatement (subject_ s) (Some (f (predicate s))) (object_ s) (context_ s).
Definition mutable_object (f : Value → Value) (s : Statement) : Statement :=
  mkStatement (subject_ s) (predicate_ s) (Some (f (object s))) (context_ s).
Definition mutable_context (f : Resource → Resource) (s : Statement) : Statement :=
  mkStatement (subject_ s) (predicate_ s) (object_ s) (Some (f (context s))).

(** ** Turtle syntax: the [as_turtle_] overloads *)

Local Open Scope string_scope.
Definition dquote : string := String "034"%char EmptyString.

Definition as_turtle_URI (u : URI) : string := "<" +:+ uri u +:+ ">".

Definition as_turtle_BNode (b : BNode) : string := "_:" +:+ id b.

Definition as_turtle_StringLiteral (l : StringLiteral) : string :=
  if string_eqb (language l) "" then dquote +:+ sl_content l +:+ dquote
  else dquote +:+ sl_content l +:+ dquote +:+ "@" +:+ language l.

Definition as_turtle_DatatypeLiteral (l : DatatypeLiteral) : string :=
  dquote +:+ dl_content l +:+ dquote +:+ "^^" +:+ as_turtle_URI (datatype l).

Definition as_turtle_Resource (r : Resource) : string :=
  if has_uri r then as_turtle_URI (res_uri r)
  else if has_bnode r then as_turtle_BNode (res_bnode r)
  else "".

Definition as_turtle_Value (v : Value) : string :=
  if has_resource v && has_uri (val_resource v) then as_turtle_URI (res_uri (val_resource v))
  else if has_resource v && has_bnode (val_resource v) then
    as_turtle_BNode (res_bnode (val_resource v))
  else if has_literal v && has_stringliteral (val_literal v) then
    as_turtle_StringLiteral (stringliteral (val_literal v))
  else if has_literal v && has_dataliteral (val_literal v) then
    as_turtle_DatatypeLiteral (dataliteral (val_literal v))
  else "".
Close Scope string_scope.

Module rdf.

Module Namespace.
Record t := mk { internal_ : Messages.Namespace }.

Definition new : t := mk default_instance.
(** Raptor passes a null prefix for the base namespace. *)
Definition of_c_strings (prefix : option string) (uri : string) : t :=
  let m := default_instance in
  let m := match prefix with Some p => set_prefix p m | None => m end in
  mk (set_ns_uri uri m).
Definition of_strings (prefix uri : string) : t :=
  mk (set_ns_uri uri (set_prefix prefix default_instance)).
Definition of_message (ns : Messages.Namespace) : t := mk ns.
Definition of_message_move (ns : Messages.Namespace) : t * Messages.Namespace :=
  let '(i, ns) := Swap default_instance ns in (mk i, ns).
Definition getPrefix (x : t) : string := prefix (internal_ x).
Definition setPrefix (x : t) (p : string) : t := mk (set_prefix p (internal_ x)).
Definition getUri (x : t) : string := ns_uri (internal_ x).
Definition setUri (x : t) (u : string) : t := mk (set_ns_uri u (internal_ x)).
Definition getMessage (x : t) : Messages.Namespace := internal_ x.
End Namespace.

Module URI.
Record t := mk { internal_ : Messages.URI }.

Definition new : t := mk default_instance.
Definition of_string (uri : string) : t := mk (set_uri uri default_instance).
Definition of_message (uri : Messages.URI) : t := mk uri.
Definition of_message_move (uri : Messages.URI) : t * Messages.URI :=
  let '(i, uri) := Swap default_instance uri in (mk i, uri).
Definition copy (other : t) : t := mk (internal_ other).
Definition move (other : t) : t * t :=
  let '(i, o) := Swap default_instance (internal_ other) in (mk i, mk o).
Definition assign_message_move (x : t) (other : Messages.URI) : t * Messages.URI :=
  let '(i, other) := Swap (internal_ x) other in (mk i, other).
Definition assign (x other : t) : t := mk (MergeFrom (internal_ x) (internal_ other)).
Definition assign_move (x other : t) : t * t :=
  let '(i, o) := Swap (internal_ x) (internal_ other) in (mk i, mk o).
Definition getUri (x : t) : string := uri (internal_ x).
Definition setUri (x : t) (u : string) : t := mk (set_uri u (internal_ x)).
Definition stringValue (x : t) : string := uri (internal_ x).
Definition as_turtle (x : t) : string := as_turtle_URI (internal_ x).
Definition getMessage (x : t) : Messages.URI := internal_ x.
End URI.

Module BNode.
Record t := mk { internal_ : Messages.BNode }.

Definition new : t := mk default_instance.
Definition of_string (id : string) : t := mk (set_id id default_instance).
Definition of_message (n : Messages.BNode) : t := mk n.
Definition of_message_move (n : Messages.BNode) : t * Messages.BNode :=
  let '(i, n) := Swap default_instance n in (mk i, n).
Definition copy (n : t) : t := mk (internal_ n).
Definition move (n : t) : t * t :=
  let '(i, o) := Swap default_instance (internal_ n) in (mk i, mk o).
Definition assign_message_move (x : t) (other : Messages.BNode) : t * Messages.BNode :=
  let '(i, other) := Swap (internal_ x) other in (mk i, other).
Definition assign (x other : t) : t := mk (MergeFrom (internal_ x) (internal_ other)).
Definition assign_move (x other : t) : t * t :=
  let '(i, o) := Swap (internal_ x) (internal_ other) in (mk i, mk o).
Definition getId (x : t) : string := id (internal_ x).
Definition setId (x : t) (i : string) : t := mk (set_id i (internal_ x)).
Definition stringValue (x : t) : string := id (internal_ x).
Definition as_turtle (x : t) : string := as_turtle_BNode (internal_ x).
Definition getMessage (x : t) : Messages.BNode := internal_ x.
End BNode.

Module StringLiteral.
Record t := mk { internal_ : Messages.StringLiteral }.

Definition new : t := mk default_instance.
Definition of_string (content : string) : t := mk (set_sl_content content default_instance).
Definition of_strings (content language : string) : t :=
  mk (set_language language (set_sl_content content default_instance)).
Definition of_message (other : Messages.StringLiteral) : t := mk other.
Definition of_message_move (other : Messages.StringLiteral) : t * Messages.StringLiteral :=
  let '(i, other) := Swap default_instance other in (mk i, other).
Definition copy (other : t) : t := mk (internal_ other).
Definition move (other : t) : t * t :=
  let '(i, o) := Swap default_instance (internal_ other) in (mk i, mk o).
Definition assign_message_move (x : t) (other : Messages.StringLiteral) :
    t * Messages.StringLiteral :=
  let '(i, other) := Swap (internal_ x) other in (mk i, other).
Definition assign (x other : t) : t := mk (MergeFrom (internal_ x) (internal_ other)).
Definition assign_move (x other : t) : t * t :=
  let '(i, o) := Swap (internal_ x) (internal_ other) in (mk i, mk o).
Definition getContent (x : t) : string := sl_content (internal_ x).
Definition setContent (x : t) (c : string) : t := mk (set_sl_content c (internal_ x)).
Definition getLanguage (x : t) : string := language (internal_ x).
Definition setLanguage (x : t) (l : string) : t := mk (set_language l (internal_ x)).
Definition stringValue (x : t) : string := sl_content (internal_ x).
Definition as_turtle (x : t) : string := as_turtle_StringLiteral (internal_ x).
Definition getMessage (x : t) : Messages.StringLiteral := internal_ x.
End StringLiteral.

Module DatatypeLiteral.
Record t := mk { internal_ : Messages.DatatypeLiteral }.

Definition new : t := mk default_instance.
Definition of_content (content : string) (dt : URI.t) : t :=
  let m := set_dl_content content default_instance in
  mk (mutable_datatype (λ d, MergeFrom d (URI.getMessage dt)) m).
Definition of_message (other : Messages.DatatypeLiteral) : t := mk other.
Definition of_message_move (other : Messages.DatatypeLiteral) : t * Messages.DatatypeLiteral :=
  let '(i, other) := Swap default_instance other in (mk i, other).
Definition copy (other : t) : t := mk (internal_ other).
Definition move (other : t) : t * t :=
  let '(i, o) := Swap default_instance (internal_ other) in (mk i, mk o).
Definition assign_message_move (x : t) (other : Messages.DatatypeLiteral) :
    t * Messages.DatatypeLiteral :=
  let '(i, other) := Swap (internal_ x) other in (mk i, other).
Definition assign (x other : t) : t := mk (MergeFrom (internal_ x) (internal_ other)).
Definition assign_move (x other : t) : t * t :=
  let '(i, o) := Swap (internal_ x) (internal_ other) in (mk i, mk o).
Definition getContent (x : t) : string := dl_content (internal_ x).
Definition setContent (x : t) (c : string) : t := mk (set_dl_content c (internal_ x)).
Definition getDatatype (x : t) : URI.t := URI.of_message (datatype (internal_ x)).
Definition setDatatype (x : t) (dt : URI.t) : t :=
  mk (mutable_datatype (λ d, MergeFrom d (URI.getMessage dt)) (internal_ x)).
Definition stringValue (x : t) : string := dl_content (internal_ x).
Definition as_turtle (x : t) : string := as_turtle_DatatypeLiteral (internal_ x).
Definition getMessage (x : t) : Messages.DatatypeLiteral := internal_ x.
End DatatypeLiteral.

Module Value.
Inductive tag := T_URI | T_BNODE | T_STRING_LITERAL | T_DATATYPE_LITERAL | T_NONE.

Record t := mk { type : tag; internal_ : Messages.Value }.

(** The tag the two constructors from a message compute. *)
Definition type_of (v : Messages.Value) : tag :=
  if has_resource v then
    if has_uri (val_resource v) then T_URI else T_BNODE
  else if has_literal v then
    if has_stringliteral (val_literal v) then T_STRING_LITERAL else T_DATATYPE_LITERAL
  else T_NONE.

Definition new : t := mk T_NONE default_instance.
Definition of_message (v : Messages.Value) : t := mk (type_of v) v.
Definition of_message_move (v : Messages.Value) : t * Messages.Value :=
  let ty := type_of v in
  let '(i, v) := Swap default_instance v in (mk ty i, v).

(** [mutable_resource()->mutable_uri()->MergeFrom(u)] and the like. *)
Definition merge_uri (u : Messages.URI) : Messages.Value → Messages.Value :=
  mutable_resource (mutable_uri (λ t, MergeFrom t u)).
Definition merge_bnode (b : Messages.BNode) : Messages.Value → Messages.Value :=
  mutable_resource (mutable_bnode (λ t, MergeFrom t b)).
Definition merge_string (l : Messages.StringLiteral) : Messages.Value → Messages.Value :=
  mutable_literal (mutable_stringliteral (λ t, MergeFrom t l)).
Definition merge_data (l : Messages.DatatypeLiteral) : Messages.Value → Messages.Value :=
  mutable_literal (mutable_dataliteral (λ t, MergeFrom t l)).

(** [mutable_resource()->mutable_uri()->Swap(&u)]: the old submessage goes to
    the other object; it is the default one when another case was set. *)
Definition swap_uri (v : Messages.Value) (u : Messages.URI) : Messages.Value * Messages.URI :=
  (mutable_resource (mutable_uri (λ _, u)) v, res_uri (val_resource v)).
Definition swap_bnode (v : Messages.Value) (b : Messages.BNode) : Messages.Value * Messages.BNode :=
  (mutable_resource (mutable_bnode (λ _, b)) v, res_bnode (val_resource v)).
Definition swap_string (v : Messages.Value) (l : Messages.StringLiteral) :
    Messages.Value * Messages.StringLiteral :=
  (mutable_literal (mutable_stringliteral (λ _, l)) v, stringliteral (val_literal v)).
Definition swap_data (v : Messages.Value) (l : Messages.DatatypeLiteral) :
    Messages.Value * Messages.DatatypeLiteral :=
  (mutable_literal (mutable_dataliteral (λ _, l)) v, dataliteral (val_literal v)).

Definition of_URI (u : URI.t) : t := mk T_URI (merge_uri (URI.getMessage u) default_instance).
Definition of_URI_move (u : URI.t) : t * URI.t :=
  let '(i, o) := swap_uri default_instance (URI.internal_ u) in (mk T_URI i, URI.mk o).
Definition of_BNode (b : BNode.t) : t := mk T_BNODE (merge_bnode (BNode.getMessage b) default_instance).
Definition of_BNode_move (b : BNode.t) : t * BNode.t :=
  let '(i, o) := swap_bnode default_instance (BNode.internal_ b) in (mk T_BNODE i, BNode.mk o).
Definition of_StringLiteral (l : StringLiteral.t) : t :=
  mk T_STRING_LITERAL (merge_string (StringLiteral.getMessage l) default_instance).
Definition of_StringLiteral_move (l : StringLiteral.t) : t * StringLiteral.t :=
  let '(i, o) := swap_string default_instance (StringLiteral.internal_ l) in
  (mk T_STRING_LITERAL i, StringLiteral.mk o).
Definition of_DatatypeLiteral (l : DatatypeLiteral.t) : t :=
  mk T_DATATYPE_LITERAL (merge_data (DatatypeLiteral.getMessage l) default_instance).
Definition of_DatatypeLiteral_move (l : DatatypeLiteral.t) : t * DatatypeLiteral.t :=
  let '(i, o) := swap_data default_instance (DatatypeLiteral.internal_ l) in
  (mk T_DATATYPE_LITERAL i, DatatypeLiteral.mk o).
Definition of_string (literal : string) : t :=
  mk T_STRING_LITERAL
    (mutable_literal (mutable_stringliteral (set_sl_content literal)) default_instance).

Definition assign_URI (x : t) (u : URI.t) : t :=
  mk T_URI (merge_uri (URI.getMessage u) (internal_ x)).
Definition assign_BNode (x : t) (b : BNode.t) : t :=
  mk T_BNODE (merge_bnode (BNode.getMessage b) (internal_ x)).
Definition assign_StringLiteral (x : t) (l : StringLiteral.t) : t :=
  mk T_STRING_LITERAL (merge_string (StringLiteral.getMessage l) (internal_ x)).
Definition assign_DatatypeLiteral (x : t) (l : DatatypeLiteral.t) : t :=
  mk T_DATATYPE_LITERAL (merge_data (DatatypeLiteral.getMessage l) (internal_ x)).
Definition assign_URI_move (x : t) (u : URI.t) : t * URI.t :=
  let '(i, o) := swap_uri (internal_ x) (URI.internal_ u) in (mk T_URI i, URI.mk o).
Definition assign_BNode_move (x : t) (b : BNode.t) : t * BNode.t :=
  let '(i, o) := swap_bnode (internal_ x) (BNode.internal_ b) in (mk T_BNODE i, BNode.mk o).
Definition assign_StringLiteral_move (x : t) (l : StringLiteral.t) : t * StringLiteral.t :=
  let '(i, o) := swap_string (internal_ x) (StringLiteral.internal_ l) in
  (mk T_STRING_LITERAL i, StringLiteral.mk o).
Definition assign_DatatypeLiteral_move (x : t) (l : DatatypeLiteral.t) : t * DatatypeLiteral.t :=
  let '(i, o) := swap_data (internal_ x) (DatatypeLiteral.internal_ l) in
  (mk T_DATATYPE_LITERAL i, DatatypeLiteral.mk o).

Definition stringValue (x : t) : string :=
  match type x with
  | T_URI => uri (res_uri (val_resource (internal_ x)))
  | T_BNODE => id (res_bnode (val_resource (internal_ x)))
  | T_STRING_LITERAL => sl_content (stringliteral (val_literal (internal_ x)))
  | T_DATATYPE_LITERAL => dl_content (dataliteral (val_literal (internal_ x)))
  | T_NONE => ""
  end.
Definition as_turtle (x : t) : string := as_turtle_Value (internal_ x).
Definition getMessage (x : t) : Messages.Value := internal_ x.
End Value.

Module Resource.
Inductive tag := T_URI | T_BNODE | T_NONE.

Record t := mk { type : tag; internal_ : Messages.Resource }.

Definition type_of (v : Messages.Resource) : tag :=
  if has_uri v then T_URI else if has_bnode v then T_BNODE else T_NONE.

Definition new : t := mk T_NONE default_instance.
Definition of_message (v : Messages.Resource) : t := mk (type_of v) v.
Definition of_message_move (v : Messages.Resource) : t * Messages.Resource :=
  let ty := type_of v in
  let '(i, v) := Swap default_instance v in (mk ty i, v).
Definition of_string (uri : string) : t := mk T_URI (mutable_uri (set_uri uri) default_instance).
Definition of_URI (u : URI.t) : t :=
  mk T_URI (mutable_uri (λ t, MergeFrom t (URI.getMessage u)) default_instance).
Definition of_BNode (b : BNode.t) : t :=
  mk T_BNODE (mutable_bnode (λ t, MergeFrom t (BNode.getMessage b)) default_instance).

Definition swap_uri (r : Messages.Resource) (u : Messages.URI) : Messages.Resource * Messages.URI :=
  (mutable_uri (λ _, u) r, res_uri r).
Definition swap_bnode (r : Messages.Resource) (b : Messages.BNode) :
    Messages.Resource * Messages.BNode :=
  (mutable_bnode (λ _, b) r, res_bnode r).

Definition of_URI_move (u : URI.t) : t * URI.t :=
  let '(i, o) := swap_uri default_instance (URI.internal_ u) in (mk T_URI i, URI.mk o).
Definition of_BNode_move (b : BNode.t) : t * BNode.t :=
  let '(i, o) := swap_bnode default_instance (BNode.internal_ b) in (mk T_BNODE i, BNode.mk o).
Definition assign_URI (x : t) (u : URI.t) : t :=
  mk T_URI (mutable_uri (λ t, MergeFrom t (URI.getMessage u)) (internal_ x)).
Definition assign_BNode (x : t) (b : BNode.t) : t :=
  mk T_BNODE (mutable_bnode (λ t, MergeFrom t (BNode.getMessage b)) (internal_ x)).
Definition assign_URI_move (x : t) (u : URI.t) : t * URI.t :=
  let '(i, o) := swap_uri (internal_ x) (URI.internal_ u) in (mk T_URI i, URI.mk o).
Definition assign_BNode_move (x : t) (b : BNode.t) : t * BNode.t :=
  let '(i, o) := swap_bnode (internal_ x) (BNode.internal_ b) in (mk T_BNODE i, BNode.mk o).

Definition stringValue (x : t) : string :=
  match type x with
  | T_URI => uri (res_uri (internal_ x))
  | T_BNODE => id (res_bnode (internal_ x))
  | T_NONE => ""
  end.
Definition as_turtle (x : t) : string := as_turtle_Resource (internal_ x).
Definition getMessage (x : t) : Messages.Resource := internal_ x.
End Resource.

Module Statement.
Record t := mk { internal_ : Messages.Statement }.

Definition new : t := mk default_instance.
Definition copy (other : t) : t := mk (internal_ other).
Definition move (other : t) : t * t :=
  let '(i, o) := Swap default_instance (internal_ other) in (mk i, mk o).
Definition of_message (other : Messages.Statement) : t := mk other.
Definition of_message_move (other : Messages.Statement) : t * Messages.Statement :=
  let '(i, other) := Swap default_instance other in (mk i, other).
Definition assign_message (x : t) (other : Messages.Statement) : t :=
  mk (MergeFrom (internal_ x) other).
Definition assign_message_move (x : t) (other : Messages.Statement) : t * Messages.Statement :=
  let '(i, other) := Swap (internal_ x) other in (mk i, other).
Definition assign (x other : t) : t := mk (MergeFrom (internal_ x) (internal_ other)).
Definition assign_move (x other : t) : t * t :=
  let '(i, o) := Swap (internal_ x) (internal_ other) in (mk i, mk o).

Definition merge_subject (r : Resource.t) : Messages.Statement → Messages.Statement :=
  mutable_subject (λ m, MergeFrom m (Resource.getMessage r)).
Definition merge_predicate (u : URI.t) : Messages.Statement → Messages.Statement :=
  mutable_predicate (λ m, MergeFrom m (URI.getMessage u)).
Definition merge_object (v : Value.t) : Messages.Statement → Messages.Statement :=
  mutable_object (λ m, MergeFrom m (Value.getMessage v)).
Definition merge_context (r : Resource.t) : Messages.Statement → Messages.Statement :=
  mutable_context (λ m, MergeFrom m (Resource.getMessage r)).

Definition of_triple (s : Resource.t) (p : URI.t) (o : Value.t) : t :=
  let i := merge_subject s default_instance in
  let i := merge_predicate p i in
  mk (merge_object o i).
Definition of_quad (s : Resource.t) (p : URI.t) (o : Value.t) (c : Resource.t) : t :=
  let i := merge_subject s default_instance in
  let i := merge_predicate p i in
  let i := merge_object o i in
  mk (merge_context c i).

(** The move constructors: each [mutable_x()->Swap] on the fresh statement
    leaves the argument with the default message (and its old type tag). *)
Definition of_triple_move (s : Resource.t) (p : URI.t) (o : Value.t) :
    t * (Resource.t * URI.t * Value.t) :=
  let i := mutable_subject (λ _, Resource.internal_ s) default_instance in
  let i := mutable_predicate (λ _, URI.internal_ p) i in
  let i := mutable_object (λ _, Value.internal_ o) i in
  (mk i, (Resource.mk (Resource.type s) default_instance, URI.mk default_instance,
          Value.mk (Value.type o) default_instance)).
Definition of_quad_move (s : Resource.t) (p : URI.t) (o : Value.t) (c : Resource.t) :
    t * (Resource.t * URI.t * Value.t * Resource.t) :=
  let i := mutable_subject (λ _, Resource.internal_ s) default_instance in
  let i := mutable_predicate (λ _, URI.internal_ p) i in
  let i := mutable_object (λ _, Value.internal_ o) i in
  let i := mutable_context (λ _, Resource.internal_ c) i in
  (mk i, (Resource.mk (Resource.type s) default_instance, URI.mk default_instance,
          Value.mk (Value.type o) default_instance,
          Resource.mk (Resource.type c) default_instance)).

Definition getSubject (x : t) : Resource.t := Resource.of_message (subject (internal_ x)).
Definition setSubject (x : t) (r : Resource.t) : t := mk (merge_subject r (internal_ x)).
Definition getPredicate (x : t) : URI.t := URI.of_message (predicate (internal_ x)).
Definition setPredicate (x : t) (u : URI.t) : t := mk (merge_predicate u (internal_ x)).
Definition getObject (x : t) : Value.t := Value.of_message (object (internal_ x)).
Definition setObject (x : t) (v : Value.t) : t := mk (merge_object v (internal_ x)).
Definition getContext (x : t) : Resource.t := Resource.of_message (context (internal_ x)).
Definition setContext (x : t) (r : Resource.t) : t := mk (merge_context r (internal_ x)).
Definition hasContext (x : t) : bool := has_context (internal_ x).

Definition as_turtle (x : t) : string :=
  let i := internal_ x in
  if hasContext x then
    as_turtle_Resource (context i) +:+ " { " +:+ as_turtle_Resource (subject i) +:+ " " +:+
    as_turtle_URI (predicate i) +:+ " " +:+ as_turtle_Value (object i) +:+ ". }"
  else
    as_turtle_Resource (subject i) +:+ " " +:+ as_turtle_URI (predicate i) +:+ " " +:+
    as_turtle_Value (object i) +:+ ".".
Definition getMessage (x : t) : Messages.Statement := internal_ x.
End Statement.
End rdf.

(** ** Comparison of model objects: that of their messages *)

Definition rdf_Namespace_eq (lhs rhs : rdf.Namespace.t) : bool :=
  Namespace_eq (rdf.Namespace.getMessage lhs) (rdf.Namespace.getMessage rhs).
Definition rdf_Namespace_ne (lhs rhs : rdf.Namespace.t) : bool := negb (rdf_Namespace_eq lhs rhs).
Definition rdf_URI_eq (lhs rhs : rdf.URI.t) : bool :=
  URI_eq (rdf.URI.getMessage lhs) (rdf.URI.getMessage rhs).
Definition rdf_URI_ne (lhs rhs : rdf.URI.t) : bool := negb (rdf_URI_eq lhs rhs).
Definition rdf_BNode_eq (lhs rhs : rdf.BNode.t) : bool :=
  BNode_eq (rdf.BNode.getMessage lhs) (rdf.BNode.getMessage rhs).
Definition rdf_BNode_ne (lhs rhs : rdf.BNode.t) : bool := negb (rdf_BNode_eq lhs rhs).
Definition rdf_StringLiteral_eq (lhs rhs : rdf.StringLiteral.t) : bool :=
  StringLiteral_eq (rdf.StringLiteral.getMessage lhs) (rdf.StringLiteral.getMessage rhs).
Definition rdf_StringLiteral_ne (lhs rhs : rdf.StringLiteral.t) : bool :=
  negb (rdf_StringLiteral_eq lhs rhs).
Definition rdf_DatatypeLiteral_eq (lhs rhs : rdf.DatatypeLiteral.t) : bool :=
  DatatypeLiteral_eq (rdf.DatatypeLiteral.getMessage lhs) (rdf.DatatypeLiteral.getMessage rhs).
Definition rdf_DatatypeLiteral_ne (lhs rhs : rdf.DatatypeLiteral.t) : bool :=
  negb (rdf_DatatypeLiteral_eq lhs rhs).
Definition rdf_Value_eq (lhs rhs : rdf.Value.t) : bool :=
  Value_eq (rdf.Value.getMessage lhs) (rdf.Value.getMessage rhs).
Definition rdf_Value_ne (lhs rhs : rdf.Value.t) : bool := negb (rdf_Value_eq lhs rhs).
Definition rdf_Resource_eq (lhs rhs : rdf.Resource.t) : bool :=
  Resource_eq (rdf.Resource.getMessage lhs) (rdf.Resource.getMessage rhs).
Definition rdf_Resource_ne (lhs rhs : rdf.Resource.t) : bool := negb (rdf_Resource_eq lhs rhs).
Definition rdf_Statement_eq (lhs rhs : rdf.Statement.t) : bool :=
  Statement_eq (rdf.Statement.getMessage lhs) (rdf.Statement.getMessage rhs).
Definition rdf_Statement_ne (lhs rhs : rdf.Statement.t) : bool := negb (rdf_Statement_eq lhs rhs).
