(* ===== verification/RdfModelTheorems.v ===== *)
(** * RdfModelTheorems: properties of the model classes *)

From Stdlib Require Import ZArith Ascii.
From S2P Require Import Prelude Messages RdfOperators RdfModel.

(** ** Type tags *)

(** The Value objects a program can build without reading a moved-from one. *)
Inductive value_built : rdf.Value.t → Prop :=
  | built_new : value_built rdf.Value.new
  | built_message m : value_built (rdf.Value.of_message m)
  | built_message_move m : value_built (rdf.Value.of_message_move m).1
  | built_URI u : value_built (rdf.Value.of_URI u)
  | built_URI_move u : value_built (rdf.Value.of_URI_move u).1
  | built_BNode b : value_built (rdf.Value.of_BNode b)
  | built_BNode_move b : value_built (rdf.Value.of_BNode_move b).1
  | built_StringLiteral l : value_built (rdf.Value.of_StringLiteral l)
  | built_StringLiteral_move l : value_built (rdf.Value.of_StringLiteral_move l).1
  | built_DatatypeLiteral l : value_built (rdf.Value.of_DatatypeLiteral l)
  | built_DatatypeLiteral_move l : value_built (rdf.Value.of_DatatypeLiteral_move l).1
  | built_string s : value_built (rdf.Value.of_string s)
  | built_assign_URI x u : value_built x → value_built (rdf.Value.assign_URI x u)
  | built_assign_URI_move x u : value_built x → value_built (rdf.Value.assign_URI_move x u).1
  | built_assign_BNode x b : value_built x → value_built (rdf.Value.assign_BNode x b)
  | built_assign_BNode_move x b : value_built x → value_built (rdf.Value.assign_BNode_move x b).1
  | built_assign_StringLiteral x l :
      value_built x → value_built (rdf.Value.assign_StringLiteral x l)
  | built_assign_StringLiteral_move x l :
      value_built x → value_built (rdf.Value.assign_StringLiteral_move x l).1
  | built_assign_DatatypeLiteral x l :
      value_built x → value_built (rdf.Value.assign_DatatypeLiteral x l)
  | built_assign_DatatypeLiteral_move x l :
      value_built x → value_built (rdf.Value.assign_DatatypeLiteral_move x l).1.

Inductive resource_built : rdf.Resource.t → Prop :=
  | rbuilt_new : resource_built rdf.Resource.new
  | rbuilt_message m : resource_built (rdf.Resource.of_message m)
  | rbuilt_message_move m : resource_built (rdf.Resource.of_message_move m).1
  | rbuilt_string s : resource_built (rdf.Resource.of_string s)
  | rbuilt_URI u : resource_built (rdf.Resource.of_URI u)
  | rbuilt_URI_move u : resource_built (rdf.Resource.of_URI_move u).1
  | rbuilt_BNode b : resource_built (rdf.Resource.of_BNode b)
  | rbuilt_BNode_move b : resource_built (rdf.Resource.of_BNode_move b).1
  | rbuilt_assign_URI x u : resource_built x → resource_built (rdf.Resource.assign_URI x u)
  | rbuilt_assign_URI_move x u :
      resource_built x → resource_built (rdf.Resource.assign_URI_move x u).1
  | rbuilt_assign_BNode x b : resource_built x → resource_built (rdf.Resource.assign_BNode x b)
  | rbuilt_assign_BNode_move x b :
      resource_built x → resource_built (rdf.Resource.assign_BNode_move x b).1.

(** The lexical form of a term. *)
Definition resource_string (r : Resource) : string :=
  match r with
  | Resource_none => ""
  | Resource_uri u => uri u
  | Resource_bnode b => id b
  end.

Definition value_string (v : Value) : string :=
  match v with
  | Value_none => ""
  | Value_resource r => resource_string r
  | Value_literal Literal_none => ""
  | Value_literal (Literal_string l) => sl_content l
  | Value_literal (Literal_data l) => dl_content l
  end.

Lemma value_tag x :
  value_built x → rdf.Value.type x = rdf.Value.type_of (rdf.Value.internal_ x).
Proof. by destruct 1. Qed.

Lemma resource_tag x :
  resource_built x → rdf.Resource.type x = rdf.Resource.type_of (rdf.Resource.internal_ x).
Proof. by destruct 1. Qed.

Lemma value_tag_string x :
  rdf.Value.type x = rdf.Value.type_of (rdf.Value.internal_ x) →
  rdf.Value.stringValue x = value_string (rdf.Value.getMessage x).
Proof.
  intros E. unfold rdf.Value.stringValue. rewrite E.
  destruct x as [ty [|[| |]|[| |]]]; done.
Qed.

Lemma resource_tag_string x :
  rdf.Resource.type x = rdf.Resource.type_of (rdf.Resource.internal_ x) →
  rdf.Resource.stringValue x = resource_string (rdf.Resource.getMessage x).
Proof.
  intros E. unfold rdf.Resource.stringValue. rewrite E. by destruct x as [ty []].
Qed.

(** The kind of term a message holds: what is set in its oneofs, down to the
    innermost one. *)
Definition value_kind (v : Value) : rdf.Value.tag :=
  match v with
  | Value_resource (Resource_uri _) => rdf.Value.T_URI
  | Value_resource (Resource_bnode _) => rdf.Value.T_BNODE
  | Value_literal (Literal_string _) => rdf.Value.T_STRING_LITERAL
  | Value_literal (Literal_data _) => rdf.Value.T_DATATYPE_LITERAL
  | Value_none | Value_resource Resource_none | Value_literal Literal_none => rdf.Value.T_NONE
  end.

Definition resource_kind (r : Resource) : rdf.Resource.tag :=
  match r with
  | Resource_uri _ => rdf.Resource.T_URI
  | Resource_bnode _ => rdf.Resource.T_BNODE
  | Resource_none => rdf.Resource.T_NONE
  end.

(** C33. However a Value or Resource is built (any constructor, followed by any
    sequence of copy and move assignments from terms), stringValue returns the
    lexical form of the term its message holds.  The type tag of a Resource is
    the kind of that term, and so is the tag of a Value, with two exceptions:
    a Value whose message has a resource in which nothing is set is tagged
    BNODE, and one whose literal is empty is tagged DATATYPE_LITERAL, although
    neither holds a term. *)
Theorem term_tag_invariant :
  (∀ x, value_built x →
     rdf.Value.stringValue x = value_string (rdf.Value.getMessage x) ∧
     rdf.Value.type x =
       if decide (rdf.Value.getMessage x = Value_resource Resource_none) then rdf.Value.T_BNODE
       else if decide (rdf.Value.getMessage x = Value_literal Literal_none) then rdf.Value.T_DATATYPE_LITERAL
       else value_kind (rdf.Value.getMessage x)) ∧
  (∀ x, resource_built x →
     rdf.Resource.stringValue x = resource_string (rdf.Resource.getMessage x) ∧
     rdf.Resource.type x = resource_kind (rdf.Resource.getMessage x)).
Proof.
  split; intros x Hx.
  - split; [by apply value_tag_string, value_tag|]. rewrite (value_tag x Hx).
    by destruct x as [ty [|[| |]|[| |]]].
  - split; [by apply resource_tag_string, resource_tag|]. rewrite (resource_tag x Hx).
    by destruct x as [ty []].
Qed.

(** ** Statements *)

Lemma resource_of_message x :
  resource_built x → rdf.Resource.of_message (rdf.Resource.getMessage x) = x.
Proof.
  intros Hx%resource_tag. destruct x; simpl in *. unfold rdf.Resource.of_message. by f_equal.
Qed.

Lemma value_of_message x :
  value_built x → rdf.Value.of_message (rdf.Value.getMessage x) = x.
Proof.
  intros Hx%value_tag. destruct x; simpl in *. unfold rdf.Value.of_message. by f_equal.
Qed.

(** The message of a fresh quad. *)
Lemma of_quad_message s p o c :
  rdf.Statement.getMessage (rdf.Statement.of_quad s p o c) =
  mkStatement (Some (rdf.Resource.getMessage s)) (Some (rdf.URI.getMessage p))
    (Some (rdf.Value.getMessage o)) (Some (rdf.Resource.getMessage c)).
Proof.
  unfold rdf.Statement.of_quad, rdf.Statement.merge_subject, rdf.Statement.merge_predicate,
    rdf.Statement.merge_object, rdf.Statement.merge_context, mutable_subject,
    mutable_predicate, mutable_object, mutable_context.
  cbn -[MergeFrom default_instance]. do 4 f_equal; apply merge_default_l.
Qed.

(** A statement built from four terms gives each of them back, has a
    context, and the copying and the moving constructor build the same one. *)
Theorem quad_round_trip (s : rdf.Resource.t) (p : rdf.URI.t) (o : rdf.Value.t) (c : rdf.Resource.t) :
  resource_built s → value_built o → resource_built c →
  let st := rdf.Statement.of_quad s p o c in
  rdf.Statement.getSubject st = s ∧ rdf.Statement.getPredicate st = p ∧
  rdf.Statement.getObject st = o ∧ rdf.Statement.getContext st = c ∧
  rdf.Statement.hasContext st = true ∧ (rdf.Statement.of_quad_move s p o c).1 = st.
Proof.
  intros Hs Ho Hc st.
  assert (E : rdf.Statement.internal_ st = mkStatement (Some (rdf.Resource.getMessage s))
    (Some (rdf.URI.getMessage p)) (Some (rdf.Value.getMessage o))
    (Some (rdf.Resource.getMessage c))) by apply of_quad_message.
  unfold rdf.Statement.getSubject, rdf.Statement.getPredicate, rdf.Statement.getObject,
    rdf.Statement.getContext, rdf.Statement.hasContext. rewrite E.
  split_and!; try done.
  - by apply resource_of_message.
  - by destruct p.
  - by apply value_of_message.
  - by apply resource_of_message.
  - destruct st as [i]. simpl in E. by rewrite E.
Qed.

Lemma quad_round_trip_witness :
  let s := rdf.Resource.of_string "s" in
  let o := rdf.Value.of_string "o" in
  let c := rdf.Resource.of_BNode (rdf.BNode.of_string "g") in
  let p := rdf.URI.of_string "p" in
  let st := rdf.Statement.of_quad s p o c in
  rdf.Statement.getSubject st = s ∧ rdf.Statement.getPredicate st = p ∧
  rdf.Statement.getObject st = o ∧ rdf.Statement.getContext st = c ∧
  rdf.Statement.hasContext st = true ∧ (rdf.Statement.of_quad_move s p o c).1 = st.
Proof. intros s o c p. apply quad_round_trip; constructor. Defined.

(** ** Copy assignment *)

(** Copy assignment merges: into a fresh object it is the copy constructor,
    but a statement keeps its old context when the assigned one has none, and
    a literal keeps its old language when the assigned one has none. *)
Theorem copy_assignment_merges :
  (∀ other, rdf.Statement.assign rdf.Statement.new other = rdf.Statement.copy other) ∧
  (∀ x other, rdf.Statement.hasContext other = false →
     rdf.Statement.hasContext (rdf.Statement.assign x other) = rdf.Statement.hasContext x ∧
     rdf.Statement.getContext (rdf.Statement.assign x other) = rdf.Statement.getContext x) ∧
  (∀ x other, rdf.StringLiteral.getLanguage other = ""%string →
     rdf.StringLiteral.getLanguage (rdf.StringLiteral.assign x other) =
     rdf.StringLiteral.getLanguage x) ∧
  (∀ x other, rdf.StringLiteral.getLanguage other = ""%string →
     rdf.StringLiteral.getContent other ≠ ""%string →
     rdf.Value.getMessage (rdf.Value.assign_StringLiteral (rdf.Value.of_StringLiteral x) other) =
     Value_literal (Literal_string
       (mkStringLiteral (rdf.StringLiteral.getContent other) (rdf.StringLiteral.getLanguage x)))).
Proof.
  split_and!.
  - intros [m]. unfold rdf.Statement.assign, rdf.Statement.copy. f_equal. apply merge_default_l.
  - intros [x] [y]. unfold rdf.Statement.hasContext, rdf.Statement.getContext, has_context,
      context. simpl. by destruct (context_ y).
  - intros [x] [[c l]]. unfold rdf.StringLiteral.getLanguage. simpl. by intros ->.
  - intros [[c' l']] [[c l]]. unfold rdf.StringLiteral.getLanguage, rdf.StringLiteral.getContent.
    simpl. intros -> Hc. unfold rdf.Value.merge_string, rdf.StringLiteral.getMessage. simpl.
    unfold merge_string. simpl. rewrite (bool_decide_eq_false_2 _ Hc).
    unfold mutable_literal, mutable_stringliteral. simpl. do 3 f_equal. by case_bool_decide.
Qed.

(** ** Turtle *)

Fixpoint no_char (c : ascii) (s : string) : bool :=
  match s with
  | EmptyString => true
  | String x s => negb (Ascii.eqb x c) && no_char c s
  end.

(** Literals whose content has no double quote. *)
Definition quote_free (v : Value) : bool :=
  match v with
  | Value_literal (Literal_string l) => no_char "034" (sl_content l)
  | Value_literal (Literal_data l) => no_char "034" (dl_content l)
  | _ => true
  end.

Lemma append_assoc (a b c : string) : ((a +:+ b) +:+ c = a +:+ (b +:+ c))%string.
Proof. induction a as [|x a IH]; [done|]. exact (f_equal (String x) IH). Qed.

Lemma append_snoc_inj c s1 s2 :
  (s1 +:+ String c EmptyString = s2 +:+ String c EmptyString)%string → s1 = s2.
Proof.
  revert s2; induction s1 as [|x s1 IH]; intros [|y s2]; simpl; intros E; try done.
  - injection E as -> E. by destruct s2.
  - injection E as -> E. by destruct s1.
  - injection E as -> E. f_equal. by apply IH.
Qed.

(** Two strings up to the first occurrence of a delimiter. *)
Lemma append_delim_inj c s1 s2 r1 r2 :
  no_char c s1 = true → no_char c s2 = true →
  (s1 +:+ String c r1 = s2 +:+ String c r2)%string → s1 = s2 ∧ r1 = r2.
Proof.
  revert s2; induction s1 as [|x s1 IH]; intros [|y s2]; simpl; intros H1 H2 E.
  - by injection E as ->.
  - injection E as -> _. by rewrite Ascii.eqb_refl in H2.
  - injection E as -> _. by rewrite Ascii.eqb_refl in H1.
  - injection E as -> E. split_andb. by destruct (IH s2) as [-> ->].
Qed.

Lemma as_turtle_URI_inj u1 u2 : as_turtle_URI u1 = as_turtle_URI u2 → u1 = u2.
Proof.
  unfold as_turtle_URI. simpl. intros E. injection E as E%append_snoc_inj.
  destruct u1, u2; simpl in *. congruence.
Qed.

Lemma as_turtle_BNode_inj b1 b2 : as_turtle_BNode b1 = as_turtle_BNode b2 → b1 = b2.
Proof.
  destruct b1, b2. unfold as_turtle_BNode. intros E.
  apply (inj (String.app "_:")) in E. simpl in E. congruence.
Qed.

(** What follows the closing quote of a literal. *)
Definition literal_suffix (l : Literal) : string :=
  match l with
  | Literal_none => ""
  | Literal_string l => if string_eqb (language l) "" then "" else "@" +:+ language l
  | Literal_data l => "^^" +:+ as_turtle_URI (datatype l)
  end.

Definition literal_content (l : Literal) : string := value_string (Value_literal l).

Lemma as_turtle_literal l :
  wf_literal l = true →
  as_turtle_Value (Value_literal l) =
  String "034" (literal_content l +:+ String "034" (literal_suffix l)).
Proof.
  destruct l as [|[c la]|[c d]]; [done| |done]. intros _.
  unfold as_turtle_Value, as_turtle_StringLiteral, literal_suffix. simpl.
  by destruct (string_eqb la "").
Qed.

Lemma literal_suffix_inj l1 l2 :
  wf_literal l1 = true → wf_literal l2 = true →
  literal_content l1 = literal_content l2 → literal_suffix l1 = literal_suffix l2 → l1 = l2.
Proof.
  destruct l1 as [|[c1 la1]|[c1 [d1|]]], l2 as [|[c2 la2]|[c2 [d2|]]]; try done;
    unfold literal_content, literal_suffix; cbn; intros _ _ ->.
  - unfold string_eqb. repeat case_bool_decide; intros E; simplify_eq; done.
  - unfold string_eqb. case_bool_decide; done.
  - unfold string_eqb. case_bool_decide; done.
  - unfold datatype. intros E. apply (inj (String.app "^^")) in E. simpl in E.
    by apply (as_turtle_URI_inj d1 d2) in E as ->.
Qed.

(** On terms whose literals contain no double quote the Turtle syntax of a
    value determines the value: as_turtle is injective across and within the
    four kinds of terms. *)
Theorem as_turtle_injective (a b : rdf.Value.t) :
  value_built a → value_built b →
  wf_value (rdf.Value.getMessage a) = true → wf_value (rdf.Value.getMessage b) = true →
  quote_free (rdf.Value.getMessage a) = true → quote_free (rdf.Value.getMessage b) = true →
  rdf.Value.as_turtle a = rdf.Value.as_turtle b → a = b.
Proof.
  intros Ha Hb. rewrite <- (value_of_message a Ha), <- (value_of_message b Hb).
  clear Ha Hb. generalize (rdf.Value.getMessage a), (rdf.Value.getMessage b). intros m1 m2.
  unfold rdf.Value.as_turtle. simpl. intros W1 W2 Q1 Q2 E. f_equal.
  destruct m1 as [|r1|l1], m2 as [|r2|l2]; try done.
  - destruct r1, r2; try done; cbn in E;
      [apply as_turtle_URI_inj in E | apply as_turtle_BNode_inj in E]; by subst.
  - rewrite (as_turtle_literal l2) in E by done. by destruct r1.
  - rewrite (as_turtle_literal l1) in E by done. by destruct r2.
  - rewrite !as_turtle_literal in E by done. injection E as E.
    apply append_delim_inj in E as [E1 E2]; [|by destruct l1|by destruct l2].
    f_equal. by apply literal_suffix_inj.
Qed.

Lemma as_turtle_injective_witness :
  rdf.Value.of_string "a" = rdf.Value.of_StringLiteral (rdf.StringLiteral.of_string "a").
Proof. apply as_turtle_injective; first [constructor | reflexivity]. Defined.

(** as_turtle does not escape: for every content and language there are two
    different literals with the same Turtle syntax, one of them with a double
    quote in its content. *)
Theorem as_turtle_not_escaped (c l : string) :
  l ≠ ""%string →
  let a := mkStringLiteral c (l +:+ dquote) in
  let b := mkStringLiteral (c +:+ dquote +:+ "@" +:+ l) "" in
  a ≠ b ∧ as_turtle_StringLiteral a = as_turtle_StringLiteral b.
Proof.
  intros Hl a b. split.
  - intros [= _ E]. destruct l; done.
  - unfold as_turtle_StringLiteral, a, b, string_eqb. simpl.
    rewrite bool_decide_eq_false_2 by (by destruct l). simpl. f_equal.
    rewrite append_assoc. done.
Qed.

Lemma as_turtle_not_escaped_witness :
  let a := mkStringLiteral "a" ("en" +:+ dquote) in
  let b := mkStringLiteral ("a" +:+ dquote +:+ "@" +:+ "en") "" in
  a ≠ b ∧ as_turtle_StringLiteral a = as_turtle_StringLiteral b.
Proof. apply as_turtle_not_escaped. discriminate. Defined.
