(* ===== verification/Numbers.v ===== *)
(** * Numbers: text and numbers, as std::to_string and std::stoi do it

    The conversions of class DatatypeLiteral in model/rdf_model.h (intValue,
    longValue, floatValue, doubleValue and the conversion operators) call
    std::stoi, stoll, stof and stod on the content; the SPARQL adapter prints
    numbers with std::to_string.  The library functions are modelled here:
    white space and a sign, the longest prefix that is a number, an error when
    there is none, and a range check.  [int] has 32 bits, [long] and
    [long long] have 64, and the floating types are those of IEEE 754. *)

From Stdlib Require Import ZArith Ascii Floats.SpecFloat Lia.
From stdpp Require Import pretty.
From S2P Require Import Prelude Messages RdfOperators RdfModel.

(** ** Characters *)

(** [isspace] in the C locale. *)
Definition is_space (c : ascii) : bool :=
  let n := N_of_ascii c in ((n =? 32) || ((9 <=? n) && (n <=? 13)))%N.

Definition digit_val (c : ascii) : option Z :=
  let n := N_of_ascii c in
  if ((48 <=? n) && (n <=? 57))%N then Some (Z.of_N n - 48)%Z else None.

Definition is_digit (c : ascii) : bool := match digit_val c with Some _ => true | None => false end.

Fixpoint skip_space (s : string) : string :=
  match s with
  | String c s' => if is_space c then skip_space s' else s
  | EmptyString => s
  end.

(** An optional sign: whether it is negative, and the rest. *)
Definition get_sign (s : string) : bool * string :=
  match s with
  | String c s' =>
      if Ascii.eqb c "-" then (true, s') else if Ascii.eqb c "+" then (false, s') else (false, s)
  | EmptyString => (false, s)
  end.

(** Digits from the front: their value after [acc], their number, the rest. *)
Fixpoint get_digits (acc : Z) (n : nat) (s : string) : Z * nat * string :=
  match s with
  | String c s' =>
      match digit_val c with
      | Some d => get_digits (10 * acc + d)%Z (S n) s'
      | None => (acc, n, s)
      end
  | EmptyString => (acc, n, s)
  end.

(** ** std::to_string *)

Definition to_string_int (z : Z) : string := pretty z.

(** Division by a positive number, rounded to nearest, ties to even. *)
Definition round_half_even (n d : Z) : Z :=
  let q := (n / d)%Z in
  let r := (n mod d)%Z in
  if (2 * r <? d)%Z then q
  else if (d <? 2 * r)%Z then (q + 1)%Z
  else if Z.even q then q else (q + 1)%Z.

(** Six digits, filled with zeros on the left. *)
Definition pad6 (s : string) : string :=
  String.append (String.substring 0 (6 - String.length s) "000000") s.

(** A double printed with [%f]: the exact value [m * 2 ^ e] rounded to six
    decimals. *)
Definition to_string_double (f : spec_float) : string :=
  let sign (s : bool) := if s then "-"%string else ""%string in
  match f with
  | S754_zero s => String.append (sign s) "0.000000"
  | S754_infinity s => String.append (sign s) "inf"
  | S754_nan => "nan"
  | S754_finite s m e =>
      let q := if (0 <=? e)%Z then (Z.pos m * 2 ^ e * 1000000)%Z
               else round_half_even (Z.pos m * 1000000) (2 ^ (- e)) in
      String.append (sign s)
        (String.append (pretty (q / 1000000)%Z)
           (String.append "." (pad6 (pretty (q mod 1000000)%Z))))
  end.

(** ** std::stoi and std::stoll *)

Definition in_int (n : Z) : bool := ((- 2 ^ 31 <=? n) && (n <? 2 ^ 31))%Z.
Definition in_long (n : Z) : bool := ((- 2 ^ 63 <=? n) && (n <? 2 ^ 63))%Z.

(** [strtol] and [strtoll] in base ten: nothing when there is no number, else
    the value, saturated, and whether [errno] was set to [ERANGE]. *)
Definition strtol (s : string) : option (Z * bool) :=
  let '(neg, s) := get_sign (skip_space s) in
  let '(v, n, _) := get_digits 0 0 s in
  if bool_decide (n = 0) then None
  else
    let v := if neg then (- v)%Z else v in
    Some (if in_long v then (v, false)
          else ((if neg then - 2 ^ 63 else 2 ^ 63 - 1)%Z, true)).

Definition stoi (s : string) : res Z :=
  match strtol s with
  | None => Throw (InvalidArgument "stoi")
  | Some (v, erange) => if erange || negb (in_int v) then Throw (OutOfRange "stoi") else Ok v
  end.

Definition stoll (s : string) : res Z :=
  match strtol s with
  | None => Throw (InvalidArgument "stoll")
  | Some (v, erange) => if erange then Throw (OutOfRange "stoll") else Ok v
  end.

(** ** std::stof and std::stod *)

(** The text of a floating-point number after its sign. *)
Inductive float_text :=
  | FT_infinity
  | FT_nan
  | FT_number (mantissa : Z) (base : Z) (exponent : Z).  (* mantissa * base ^ exponent *)

Definition lower (c : ascii) : ascii :=
  let n := N_of_ascii c in
  if ((65 <=? n) && (n <=? 90))%N then ascii_of_N (n + 32) else c.

(** Does the string start with the word, whatever the case of its letters? *)
Fixpoint starts_with (word s : string) : option string :=
  match word, s with
  | EmptyString, _ => Some s
  | String w word, String c s => if Ascii.eqb (lower c) w then starts_with word s else None
  | _, _ => None
  end.

Definition hex_val (c : ascii) : option Z :=
  match digit_val c with
  | Some d => Some d
  | None =>
      let n := N_of_ascii (lower c) in
      if ((97 <=? n) && (n <=? 102))%N then Some (Z.of_N n - 87)%Z else None
  end.

(** Digits of a base with an optional point: value, number of digits, digits
    after the point, the rest.  A point without any digit is not a number. *)
Fixpoint get_mantissa (val : ascii → option Z) (base : Z) (point : bool) (acc : Z) (n frac : nat)
    (s : string) : Z * nat * nat * string :=
  match s with
  | String c s' =>
      match val c with
      | Some d => get_mantissa val base point (base * acc + d)%Z (S n) (if point then S frac else frac) s'
      | None =>
          if Ascii.eqb c "." && negb point then get_mantissa val base true acc n frac s'
          else (acc, n, frac, s)
      end
  | EmptyString => (acc, n, frac, s)
  end.

(** An exponent after the letter [e] (or [p]); without digits there is none. *)
Definition get_exponent (letter : ascii) (s : string) : Z :=
  match s with
  | String c s =>
      if Ascii.eqb (lower c) letter then
        let '(neg, s) := get_sign s in
        let '(v, n, _) := get_digits 0 0 s in
        if bool_decide (n = 0) then 0%Z else if neg then (- v)%Z else v
      else 0%Z
  | EmptyString => 0%Z
  end.

Definition get_decimal (s : string) : option float_text :=
  let '(m, n, frac, rest) := get_mantissa digit_val 10 false 0 0 0 s in
  if bool_decide (n = 0) then None
  else Some (FT_number m 10 (get_exponent "e" rest - Z.of_nat frac)).

Definition get_float (s : string) : option float_text :=
  match starts_with "inf" s, starts_with "nan" s, starts_with "0x" s with
  | Some _, _, _ => Some FT_infinity
  | _, Some _, _ => Some FT_nan
  | _, _, Some s' =>
      let '(m, n, frac, rest) := get_mantissa hex_val 16 false 0 0 0 s' in
      if bool_decide (n = 0) then get_decimal s
      else Some (FT_number m 2 (get_exponent "p" rest - 4 * Z.of_nat frac))
  | _, _, _ => get_decimal s
  end.

(** The nearest number of the format, ties to even: the quotient of two
    integers in the division of SpecFloat, which rounds once. *)
Definition round_number (prec emax : Z) (neg : bool) (m base e : Z) : spec_float :=
  match m with
  | Z.pos m =>
      let num := (Z.pos m * base ^ (Z.max e 0))%Z in
      let den := (base ^ (Z.max (- e) 0))%Z in
      SFdiv prec emax (S754_finite neg (Z.to_pos num) 0) (S754_finite false (Z.to_pos den) 0)
  | _ => S754_zero neg
  end.

(** Is [f] exactly [m * base ^ e]? *)
Definition is_exact (f : spec_float) (m base e : Z) : bool :=
  match f with
  | S754_finite _ fm fe =>
      (Z.pos fm * 2 ^ (Z.max fe 0) * base ^ (Z.max (- e) 0) =?
       m * base ^ (Z.max e 0) * 2 ^ (Z.max (- fe) 0))%Z
  | S754_zero _ => (m =? 0)%Z
  | _ => false
  end.

(** Below the smallest normal number. *)
Definition is_tiny (prec : Z) (f : spec_float) : bool :=
  match f with
  | S754_finite _ fm _ => (Z.pos fm <? 2 ^ (prec - 1))%Z
  | S754_zero _ => true
  | _ => false
  end.

(** [strtod] and [strtof]: the number and whether [errno] was set to [ERANGE],
    on overflow and when a tiny result is not exact. *)
Definition strtod (prec emax : Z) (s : string) : option (spec_float * bool) :=
  let '(neg, s) := get_sign (skip_space s) in
  match get_float s with
  | None => None
  | Some FT_infinity => Some (S754_infinity neg, false)
  | Some FT_nan => Some (S754_nan, false)
  | Some (FT_number m base e) =>
      let f := round_number prec emax neg m base e in
      Some (f, match f with S754_infinity _ => true | _ => is_tiny prec f && negb (is_exact f m base e) end)
  end.

Definition sto_float (name : string) (prec emax : Z) (s : string) : res spec_float :=
  match strtod prec emax s with
  | None => Throw (InvalidArgument name)
  | Some (f, erange) => if erange then Throw (OutOfRange name) else Ok f
  end.

Definition stof : string → res spec_float := sto_float "stof" 24 128.
Definition stod : string → res spec_float := sto_float "stod" 53 1024.

(** ** The conversions of DatatypeLiteral *)

Module DatatypeLiteral.

Definition intValue (x : rdf.DatatypeLiteral.t) : res Z := stoi (rdf.DatatypeLiteral.getContent x).
Definition operator_int (x : rdf.DatatypeLiteral.t) : res Z := stoi (rdf.DatatypeLiteral.getContent x).
Definition longValue (x : rdf.DatatypeLiteral.t) : res Z := stoll (rdf.DatatypeLiteral.getContent x).
Definition operator_long_long (x : rdf.DatatypeLiteral.t) : res Z := stoll (rdf.DatatypeLiteral.getContent x).
Definition floatValue (x : rdf.DatatypeLiteral.t) : res spec_float := stof (rdf.DatatypeLiteral.getContent x).
Definition operator_float (x : rdf.DatatypeLiteral.t) : res spec_float := stof (rdf.DatatypeLiteral.getContent x).
Definition doubleValue (x : rdf.DatatypeLiteral.t) : res spec_float := stod (rdf.DatatypeLiteral.getContent x).
Definition operator_double (x : rdf.DatatypeLiteral.t) : res spec_float := stod (rdf.DatatypeLiteral.getContent x).
End DatatypeLiteral.

(** Sample conversions, with the doubles written as [m * 2 ^ e]. *)
Example stod_tenth : stod "0.1" = Ok (S754_finite false 7205759403792794 (-56)).
Proof. vm_compute. reflexivity. Qed.

Example stod_hex : stod " -0x1.8p3kg" = Ok (S754_finite true 6755399441055744 (-49)).
Proof. vm_compute. reflexivity. Qed.

Example stod_limits :
  stod "1e400" = Throw (OutOfRange "stod") ∧ stod "1e-400" = Throw (OutOfRange "stod") ∧
  stod "-Infinity" = Ok (S754_infinity true) ∧ stod "." = Throw (InvalidArgument "stod") ∧
  stof "16777217" = Ok (S754_finite false 8388608 1).
Proof. vm_compute. done. Qed.

(** ** Integers in text *)

Fixpoint all_chars (P : ascii → bool) (s : string) : bool :=
  match s with EmptyString => true | String c s => P c && all_chars P s end.

Definition head_is (P : ascii → bool) (s : string) : bool :=
  match s with EmptyString => false | String c _ => P c end.

(** The value of digits after [acc]. *)
Fixpoint decimal (acc : Z) (s : string) : Z :=
  match s with
  | EmptyString => acc
  | String c s => decimal (10 * acc + default 0%Z (digit_val c))%Z s
  end.

Definition signed (sg : string) (n : Z) : Z := if string_eqb sg "-" then (- n)%Z else n.

(** The text starts with the integer [n], after white space, and no digit
    follows it. *)
Definition int_text (s : string) (n : Z) : Prop :=
  ∃ ws sg ds rest, s = (ws +:+ sg +:+ ds +:+ rest)%string ∧
    all_chars is_space ws = true ∧ (sg = "" ∨ sg = "+" ∨ sg = "-")%string ∧
    ds ≠ ""%string ∧ all_chars is_digit ds = true ∧ head_is is_digit rest = false ∧
    n = signed sg (decimal 0 ds).

Lemma string_app_cons c a b : (String c a +:+ b = String c (a +:+ b))%string.
Proof. done. Qed.

Lemma string_app_nil a : ("" +:+ a = a)%string.
Proof. done. Qed.

Lemma digit_not_space c : is_digit c = true → is_space c = false.
Proof.
  unfold is_digit, digit_val, is_space. destruct (N.leb_spec 48 (N_of_ascii c)); simpl; [|done].
  intros _. rewrite orb_false_iff, andb_false_iff, N.eqb_neq, !N.leb_gt. lia.
Qed.

Lemma skip_space_app ws s :
  all_chars is_space ws = true → head_is is_space s = false → skip_space (ws +:+ s) = s.
Proof.
  intros Hw Hs. induction ws as [|c ws IH].
  - rewrite string_app_nil. destruct s as [|c s]; [done|]. simpl in *. by rewrite Hs.
  - simpl in Hw. split_andb. rewrite string_app_cons. simpl.
    destruct (is_space c); [by apply IH|done].
Qed.

Lemma skip_space_split s :
  ∃ ws, s = (ws +:+ skip_space s)%string ∧ all_chars is_space ws = true ∧
    head_is is_space (skip_space s) = false.
Proof.
  induction s as [|c s (ws & E & Hw & Hh)]; [by exists ""%string|]. simpl.
  destruct (is_space c) eqn:Hc.
  - exists (String c ws). rewrite string_app_cons, <- E. simpl. by rewrite Hc, Hw.
  - exists ""%string. simpl. by rewrite Hc.
Qed.

Lemma get_digits_app acc n ds rest :
  all_chars is_digit ds = true → head_is is_digit rest = false →
  get_digits acc n (ds +:+ rest) = (decimal acc ds, n + String.length ds, rest).
Proof.
  intros Hd Hr. revert acc n. induction ds as [|c ds IH]; intros acc n.
  - rewrite string_app_nil. simpl. rewrite Nat.add_0_r. destruct rest as [|c rest]; [done|].
    simpl in *. unfold is_digit in Hr. by destruct (digit_val c).
  - simpl in Hd. split_andb. rewrite string_app_cons. simpl. unfold is_digit in *.
    destruct (digit_val c) as [d|]; [|done]. simpl. rewrite IH by done. f_equal; f_equal; lia.
Qed.

Lemma get_digits_split s :
  ∃ ds rest, s = (ds +:+ rest)%string ∧ all_chars is_digit ds = true ∧ head_is is_digit rest = false.
Proof.
  induction s as [|c s (ds & rest & E & Hd & Hr)]; [by exists ""%string, ""%string|].
  destruct (is_digit c) eqn:Hc.
  - exists (String c ds), rest. rewrite string_app_cons, <- E. simpl. by rewrite Hc, Hd.
  - exists ""%string, (String c s). by split_and!.
Qed.

(** A sign is read as such; without one the text starts with a digit. *)
Lemma get_sign_app sg ds rest :
  (sg = "" ∨ sg = "+" ∨ sg = "-")%string → ds ≠ ""%string → all_chars is_digit ds = true →
  get_sign (sg +:+ ds +:+ rest) = (string_eqb sg "-", (ds +:+ rest)%string).
Proof.
  intros [-> | [-> | ->]] Hne Hd; [|done..]. rewrite string_app_nil.
  destruct ds as [|c ds]; [done|]. simpl in Hd. split_andb. rewrite string_app_cons. simpl.
  destruct (Ascii.eqb_spec c "-") as [->|]; [done|]. by destruct (Ascii.eqb_spec c "+") as [->|].
Qed.

Lemma get_sign_split s :
  ∃ sg, (sg = "" ∨ sg = "+" ∨ sg = "-")%string ∧ s = (sg +:+ (get_sign s).2)%string ∧
    (get_sign s).1 = string_eqb sg "-".
Proof.
  destruct s as [|c s]; [by exists ""%string; eauto|]. simpl.
  destruct (Ascii.eqb_spec c "-") as [->|]; [by exists "-"%string; eauto|].
  destruct (Ascii.eqb_spec c "+") as [->|]; [by exists "+"%string; eauto|].
  by exists ""%string; eauto.
Qed.

Lemma head_space_sign sg ds rest :
  (sg = "" ∨ sg = "+" ∨ sg = "-")%string → ds ≠ ""%string → all_chars is_digit ds = true →
  head_is is_space (sg +:+ ds +:+ rest) = false.
Proof.
  intros [-> | [-> | ->]] Hne Hd; [|done..]. rewrite string_app_nil.
  destruct ds as [|c ds]; [done|]. simpl in Hd. split_andb. rewrite string_app_cons. simpl.
  by apply digit_not_space.
Qed.

(** The outcome of [strtol] for a text that holds the integer [n]. *)
Definition saturate (n : Z) : Z * bool :=
  if in_long n then (n, false) else ((if (n <? 0)%Z then - 2 ^ 63 else 2 ^ 63 - 1)%Z, true).

Lemma decimal_nonneg acc ds : (0 ≤ acc)%Z → (0 ≤ decimal acc ds)%Z.
Proof.
  revert acc; induction ds as [|c ds IH]; intros acc Ha; simpl; [done|]. apply IH.
  assert (0 ≤ default 0 (digit_val c))%Z; [|lia].
  unfold digit_val. destruct (N.leb_spec 48 (N_of_ascii c)); simpl; [|lia].
  destruct (N.leb_spec (N_of_ascii c) 57); simpl; lia.
Qed.

Lemma strtol_text s n : int_text s n → strtol s = Some (saturate n).
Proof.
  intros (ws & sg & ds & rest & -> & Hw & Hs & Hne & Hd & Hr & ->). unfold strtol.
  rewrite skip_space_app by (done || by apply head_space_sign). rewrite get_sign_app by done.
  rewrite get_digits_app by done. rewrite bool_decide_eq_false_2 by (by destruct ds).
  f_equal. unfold saturate, signed. pose proof (decimal_nonneg 0 ds ltac:(lia)) as Hp.
  destruct (string_eqb sg "-"), (in_long _) eqn:E; try done; unfold in_long in E;
    [destruct (Z.ltb_spec (- decimal 0 ds) 0)|destruct (Z.ltb_spec (decimal 0 ds) 0)]; try done; lia.
Qed.

Lemma strtol_dec s : (∃ n, int_text s n) ∨ strtol s = None.
Proof.
  destruct (skip_space_split s) as (ws & Es & Hw & _).
  destruct (get_sign_split (skip_space s)) as (sg & Hsg & Eg & En).
  destruct (get_digits_split (get_sign (skip_space s)).2) as (ds & rest & Ed & Hd & Hr).
  unfold strtol. destruct (get_sign (skip_space s)) as [neg s'] eqn:Egs. simpl in *. subst s'.
  rewrite get_digits_app by done. destruct ds as [|c ds]; [by right|left].
  exists (signed sg (decimal 0 (String c ds))), ws, sg, (String c ds), rest.
  split_and!; try done. by rewrite Es, Eg.
Qed.

(** ** Printed integers *)

Lemma digit_val_pretty d : (d < 10)%N → digit_val (pretty_N_char d) = Some (Z.of_N d).
Proof.
  intros Hd. assert (d ∈ [0; 1; 2; 3; 4; 5; 6; 7; 8; 9]%N) as Hin.
  { apply (bool_decide_unpack _). destruct d as [|p]; [done|].
    do 4 (destruct p as [p|p|]; try done); lia. }
  repeat (apply elem_of_cons in Hin as [->|Hin]; [done|]). by apply elem_of_nil in Hin.
Qed.

Lemma pretty_N_go_digits x s :
  all_chars is_digit (pretty_N_go x s) = all_chars is_digit s ∧
  ∃ k, (0 ≤ k)%Z ∧ ∀ acc, decimal acc (pretty_N_go x s) = decimal (acc * 10 ^ k + Z.of_N x) s.
Proof.
  revert s. induction (N.lt_wf_0 x) as [x _ IH]; intros s.
  destruct (decide (x = 0)%N) as [->|Hx].
  { rewrite pretty_N_go_0. split; [done|]. exists 0%Z. split; [lia|]. intros acc. f_equal. lia. }
  rewrite pretty_N_go_step by lia. pose proof (N.mod_lt x 10 ltac:(done)) as Hm.
  destruct (IH (x `div` 10)%N (N.div_lt x 10 ltac:(lia) eq_refl) (String (pretty_N_char (x `mod` 10)) s))
    as (Hd & k & Hk & Hv).
  split.
  - rewrite Hd. simpl. unfold is_digit. by rewrite digit_val_pretty.
  - exists (k + 1)%Z. split; [lia|]. intros acc. rewrite Hv. simpl. rewrite digit_val_pretty by done. simpl.
    f_equal. rewrite Z.pow_add_r, N2Z.inj_div, N2Z.inj_mod by lia.
    pose proof (Z.div_mod (Z.of_N x) 10 ltac:(lia)). lia.
Qed.

Lemma pretty_N_text x :
  pretty x ≠ ""%string ∧ all_chars is_digit (pretty x) = true ∧ decimal 0 (pretty x) = Z.of_N x.
Proof.
  unfold pretty, pretty_N. case_decide as Hx; [by subst|].
  destruct (pretty_N_go_digits x "") as (Hd & k & Hk & Hv). specialize (Hv 0%Z). simpl in *.
  split_and!; [|done|lia]. intros E. rewrite E in Hv. simpl in Hv. lia.
Qed.

Lemma string_app_empty s : (s +:+ "" = s)%string.
Proof. induction s as [|c s IH]; [done|]. by rewrite string_app_cons, IH. Qed.

Lemma to_string_int_text n : int_text (to_string_int n) n.
Proof.
  unfold to_string_int. destruct n as [|p|p]; unfold pretty, pretty_Z.
  - by exists ""%string, ""%string, "0"%string, ""%string; split_and!; auto.
  - destruct (pretty_N_text (N.pos p)) as (Hne & Hd & Hv).
    exists ""%string, ""%string, (pretty (N.pos p)), ""%string. rewrite !string_app_nil, string_app_empty.
    split_and!; auto.
  - destruct (pretty_N_text (N.pos p)) as (Hne & Hd & Hv).
    exists ""%string, "-"%string, (pretty (N.pos p)), ""%string. rewrite !string_app_nil, string_app_empty.
    split_and!; auto. unfold signed. simpl. by rewrite Hv.
Qed.

Lemma stoi_text s n :
  int_text s n → stoi s = if in_int n then Ok n else Throw (OutOfRange "stoi").
Proof.
  intros Ht. unfold stoi. rewrite (strtol_text s n Ht). unfold saturate.
  destruct (in_long n) eqn:El; [by destruct (in_int n)|]. simpl.
  destruct (in_int n) eqn:Ei; [|done]. unfold in_int, in_long in *. lia.
Qed.

Lemma stoll_text s n :
  int_text s n → stoll s = if in_long n then Ok n else Throw (OutOfRange "stoll").
Proof.
  intros Ht. unfold stoll. rewrite (strtol_text s n Ht). unfold saturate. by destruct (in_long n).
Qed.

(** ** Properties *)

(** C38. The integer conversions of a literal: when the content starts with an
    integer (after white space) the result is exactly that integer if it fits
    into the type, and out_of_range otherwise; when it does not,
    invalid_argument.  So every result is in the range of its type, and the two
    conversions agree wherever the narrower one succeeds. *)
Theorem literal_integer_value (x : rdf.DatatypeLiteral.t) :
  let s := rdf.DatatypeLiteral.getContent x in
  (∃ n, int_text s n ∧
     DatatypeLiteral.intValue x = (if in_int n then Ok n else Throw (OutOfRange "stoi")) ∧
     DatatypeLiteral.longValue x = (if in_long n then Ok n else Throw (OutOfRange "stoll"))) ∨
  ((∀ n, ¬ int_text s n) ∧
     DatatypeLiteral.intValue x = Throw (InvalidArgument "stoi") ∧
     DatatypeLiteral.longValue x = Throw (InvalidArgument "stoll")).
Proof.
  intros s. unfold DatatypeLiteral.intValue, DatatypeLiteral.longValue. fold s.
  destruct (strtol_dec s) as [[n Hn]|E].
  - left. exists n. split_and!; [done|by apply stoi_text|by apply stoll_text].
  - right. unfold stoi, stoll. rewrite E. split; [|done].
    intros n Hn%strtol_text. congruence.
Qed.

(** Printing an integer and reading it back gives the integer, whenever it fits
    into the type that is read. *)
Theorem integer_round_trip (n : Z) (dt : rdf.URI.t) :
  let x := rdf.DatatypeLiteral.of_content (to_string_int n) dt in
  (in_int n = true → DatatypeLiteral.intValue x = Ok n) ∧
  (in_long n = true → DatatypeLiteral.longValue x = Ok n) ∧
  (in_int n = false → DatatypeLiteral.intValue x = Throw (OutOfRange "stoi")).
Proof.
  intros x.
  assert (E : rdf.DatatypeLiteral.getContent x = to_string_int n) by (by destruct dt).
  unfold DatatypeLiteral.intValue, DatatypeLiteral.longValue. rewrite E.
  rewrite (stoi_text _ n), (stoll_text _ n) by apply to_string_int_text.
  by split_and!; intros ->.
Qed.
