(* ===== verification/Split.v ===== *)
(** * Split: util/split.cc

    [split] reads a [std::stringstream] with [std::getline].  The stream is its
    remaining characters and its end-of-file flag; [getline] fails on a stream
    that reached its end, and when it meets the end without extracting a
    character. *)

From Stdlib Require Import Ascii Lia.
From S2P Require Import Prelude.

Record stringstream := mkStringstream { ss_rest : list ascii; ss_eof : bool }.

Definition newStringstream (s : list ascii) : stringstream := mkStringstream s false.

(** Characters up to the delimiter, and what follows it, if it occurs. *)
Fixpoint scan_delim (delim : ascii) (l : list ascii) : list ascii * option (list ascii) :=
  match l with
  | [] => ([], None)
  | c :: l =>
      if Ascii.eqb c delim then ([], Some l)
      else let '(item, rest) := scan_delim delim l in (c :: item, rest)
  end.

(** [std::getline(ss, item, delim)]: the item, or [None] when it fails. *)
Definition getline (delim : ascii) (ss : stringstream) : option (list ascii) * stringstream :=
  if ss_eof ss then (None, ss)
  else
    match scan_delim delim (ss_rest ss) with
    | (item, Some rest) => (Some item, mkStringstream rest false)
    | ([], None) => (None, mkStringstream [] true)
    | (item, None) => (Some item, mkStringstream [] true)
    end.

(** [while (std::getline(ss, item, delim)) elems.push_back(item);] *)
Fixpoint split_loop (fuel : nat) (delim : ascii) (ss : stringstream) (elems : list (list ascii)) :
    res (list (list ascii)) :=
  match fuel with
  | O => OutOfFuel
  | S fuel =>
      match getline delim ss with
      | (Some item, ss) => split_loop fuel delim ss (elems ++ [item])
      | (None, _) => Ok elems
      end
  end.

(** Every round but the last two consumes a delimiter. *)
Definition split_into (s : list ascii) (delim : ascii) (elems : list (list ascii)) :
    res (list (list ascii)) :=
  split_loop (2 + length s) delim (newStringstream s) elems.

Definition split (s : list ascii) (delim : ascii) : res (list (list ascii)) :=
  split_into s delim [].

(** ** Specification *)

(** Joining with the delimiter. *)
Fixpoint join (delim : ascii) (ps : list (list ascii)) : list ascii :=
  match ps with
  | [] => []
  | [p] => p
  | p :: ps => p ++ delim :: join delim ps
  end.

Definition free_of (delim : ascii) (l : list ascii) : Prop := delim ∉ l.

#[global] Instance free_of_dec delim l : Decision (free_of delim l).
Proof. unfold free_of. apply _. Defined.

Lemma scan_delim_app delim p l :
  free_of delim p →
  scan_delim delim (p ++ l) =
  let '(item, rest) := scan_delim delim l in (p ++ item, rest).
Proof.
  intros Hp. induction p as [|c p IH]; simpl.
  - by destruct (scan_delim delim l).
  - destruct (Ascii.eqb_spec c delim) as [->|Hc]; [by destruct Hp; left|].
    rewrite IH by (intros ?; apply Hp; by right). by destruct (scan_delim delim l).
Qed.

Lemma scan_delim_free delim p : free_of delim p → scan_delim delim p = (p, None).
Proof.
  intros Hp. rewrite <- (app_nil_r p) at 1. rewrite scan_delim_app by done. simpl.
  by rewrite app_nil_r.
Qed.

Lemma scan_delim_at delim p l :
  free_of delim p → scan_delim delim (p ++ delim :: l) = (p, Some l).
Proof.
  intros Hp. rewrite scan_delim_app by done. simpl. rewrite Ascii.eqb_refl.
  by rewrite app_nil_r.
Qed.

(** Parts each followed by the delimiter. *)
Fixpoint terminated (delim : ascii) (ps : list (list ascii)) : list ascii :=
  match ps with
  | [] => []
  | p :: ps => p ++ delim :: terminated delim ps
  end.

(** The parts of a string: a last part without delimiter counts when not empty. *)
Definition parts (ps : list (list ascii)) (p : list ascii) : list (list ascii) :=
  match p with [] => ps | _ => ps ++ [p] end.

Lemma split_loop_terminated fuel delim ps p elems :
  Forall (free_of delim) ps → free_of delim p → 2 + length ps ≤ fuel →
  split_loop fuel delim (newStringstream (terminated delim ps ++ p)) elems =
  Ok (elems ++ parts ps p).
Proof.
  intros Hps Hp. revert fuel elems. induction Hps as [|q ps Hq Hps IH]; intros fuel elems Hf.
  - destruct fuel as [|[|fuel]]; simpl in Hf; [lia..|]. simpl.
    unfold getline. simpl. rewrite scan_delim_free by done.
    destruct p; [by rewrite app_nil_r | done].
  - destruct fuel as [|fuel]; simpl in Hf; [lia|]. cbn [terminated].
    rewrite <- app_assoc. cbn [split_loop]. unfold getline. cbn [ss_eof ss_rest newStringstream app].
    rewrite scan_delim_at by done. pose proof (IH fuel (elems ++ [q]) ltac:(lia)) as E.
    rewrite <- app_assoc in E. destruct q, p; exact E.
Qed.

Lemma length_terminated delim ps : length ps ≤ length (terminated delim ps).
Proof. induction ps as [|q ps IH]; simpl; [lia|]. rewrite length_app. simpl. lia. Qed.

Lemma split_terminated delim ps p :
  Forall (free_of delim) ps → free_of delim p →
  split (terminated delim ps ++ p) delim = Ok (parts ps p).
Proof.
  intros Hps Hp. apply split_loop_terminated; [done..|].
  rewrite length_app. pose proof (length_terminated delim ps). lia.
Qed.

(** Every string is a list of terminated parts and a rest. *)
Lemma decompose delim s :
  ∃ ps p, Forall (free_of delim) ps ∧ free_of delim p ∧ s = terminated delim ps ++ p.
Proof.
  induction s as [|c s (ps & p & Hps & Hp & ->)].
  - exists [], []. split_and!; [done| |done]. by intros ?%elem_of_nil.
  - destruct (Ascii.eqb_spec c delim) as [->|Hc].
    + exists ([] :: ps), p. split_and!; [|done..]. constructor; [|done]. by intros ?%elem_of_nil.
    + destruct Hps as [|q ps Hq Hps].
      * exists [], (c :: p). split_and!; [done| |done]. unfold free_of in *. set_solver.
      * exists ((c :: q) :: ps), p. split_and!; [|done..]. constructor; [|done].
        unfold free_of in *. set_solver.
Qed.

Lemma join_snoc delim ps p : join delim (ps ++ [p]) = terminated delim ps ++ p.
Proof.
  induction ps as [|q ps IH]; [done|]. simpl. rewrite IH.
  destruct (ps ++ [p]) eqn:E; [by destruct ps|]. by rewrite <- app_assoc.
Qed.

Lemma join_terminated delim ps :
  ps ≠ [] → join delim ps ++ [delim] = terminated delim ps.
Proof.
  destruct ps as [|q ps _] using rev_ind; [done|]. intros _. rewrite join_snoc.
  induction ps as [|r ps IH]; simpl; [done|]. by rewrite <- !app_assoc; simpl; rewrite <- IH, <- app_assoc.
Qed.

(** [split] always ends, none of the parts contains the delimiter, and
    joining them gives the string back, up to one final delimiter. *)
Theorem split_join (s : list ascii) (delim : ascii) :
  ∃ l, split s delim = Ok l ∧ Forall (free_of delim) l ∧
    (join delim l = s ∨ join delim l ++ [delim] = s).
Proof.
  destruct (decompose delim s) as (ps & p & Hps & Hp & ->).
  exists (parts ps p). split; [by apply split_terminated|].
  destruct p as [|c p]; simpl.
  - split; [done|]. rewrite app_nil_r. destruct ps as [|q ps]; [by left|right].
    by apply join_terminated.
  - split; [by apply Forall_app; split; [|by constructor]|]. left. apply join_snoc.
Qed.

(** Splitting a joined list gives the list back: any list of parts without
    the delimiter whose last part is not empty. *)
Theorem join_split (ps : list (list ascii)) (p : list ascii) (delim : ascii) :
  Forall (free_of delim) ps → free_of delim p → p ≠ [] →
  split (join delim (ps ++ [p])) delim = Ok (ps ++ [p]).
Proof.
  intros Hps Hp Hne. rewrite join_snoc, split_terminated by done. by destruct p.
Qed.

Lemma join_split_witness :
  split (join "," ([["a"%char; "b"%char]; []] ++ [["c"%char]])) "," =
  Ok [["a"%char; "b"%char]; []; ["c"%char]].
Proof.
  apply (join_split [["a"%char; "b"%char]; []] ["c"%char] ",").
  - apply (bool_decide_unpack _). vm_compute. exact I.
  - apply (bool_decide_unpack _). vm_compute. exact I.
  - discriminate.
Defined.
