(* ===== verification/StoreEquiv.v ===== *)
(** * StoreEquiv: requests cannot tell apart two stores with the same contents

    A restarted server has new database handles on the same files.  Stores are
    equivalent when their seven databases hold the same maps; every handler of
    LevelDBService gives the same reply on equivalent stores and leaves
    equivalent stores.  [handle] is the dispatch of a call to its handler, with
    the messages of the reply as a value. *)

From Stdlib Require Import ZArith Lia.
From S2P Require Import Prelude Words Murmur3 Messages Iterators LevelDB Keys RdfOperators.
From S2P Require Import Persistence PersistenceSpec Refinement UpdateProofs Service ServiceTheorems Namespaces.

(** ** Calls of the service *)

Module sail.

(** A call with what the client sends; [room] is what it accepts of a stream. *)
Inductive request :=
  | AddNamespacesCall (namespaces : list Namespace)
  | GetNamespaceCall (pattern : Namespace)
  | GetNamespacesCall (room : option nat)
  | AddStatementsCall (statements : list Statement)
  | GetStatementsCall (pattern : Statement) (room : option nat)
  | RemoveStatementsCall (pattern : Statement)
  | UpdateCall (updates : list UpdateRequest)
  | ClearCall (contexts : ContextRequest)
  | SizeCall (contexts : ContextRequest)
  | GetContextsCall (room : option nat).

Inductive reply :=
  | CountReply (s : Status) (n : Z)
  | NamespaceReply (s : Status) (ns : Namespace)
  | NamespaceStream (s : Status) (l : list Namespace)
  | StatementStream (s : Status) (l : list Statement)
  | ContextStream (s : Status) (l : list Resource)
  | UpdateReply (s : Status) (r : UpdateResponse).

Section Handle.
Context (ar : arch) `{PB : Protobuf}.
Context `{LK : !LevelDB key64} `{LB : !LevelDB bytes}.

Definition handle (q : request) (p : LevelDBPersistence) : res (reply * LevelDBPersistence) :=
  match q with
  | AddNamespacesCall l => '(s, n, p) ← svc_AddNamespaces l p; Ok (CountReply s n, p)
  | GetNamespaceCall pattern => '(s, ns) ← svc_GetNamespace pattern p; Ok (NamespaceReply s ns, p)
  | GetNamespacesCall room =>
      '(s, w) ← svc_GetNamespaces (newServerWriter room) p; Ok (NamespaceStream s (written w), p)
  | AddStatementsCall l => '(s, n, p) ← svc_AddStatements ar l p; Ok (CountReply s n, p)
  | GetStatementsCall pattern room =>
      '(s, w) ← svc_GetStatements ar pattern (newServerWriter room) p;
      Ok (StatementStream s (written w), p)
  | RemoveStatementsCall pattern => '(s, n, p) ← svc_RemoveStatements ar pattern p; Ok (CountReply s n, p)
  | UpdateCall l => '(s, r, p) ← svc_Update ar l p; Ok (UpdateReply s r, p)
  | ClearCall contexts => '(s, n, p) ← svc_Clear ar contexts p; Ok (CountReply s n, p)
  | SizeCall contexts => '(s, n) ← svc_Size ar contexts p; Ok (CountReply s n, p)
  | GetContextsCall room =>
      '(s, w) ← svc_GetContexts ar (newServerWriter room) p; Ok (ContextStream s (written w), p)
  end.

(** Calls served one after the other. *)
Fixpoint serve (qs : list request) (p : LevelDBPersistence) : res (list reply * LevelDBPersistence) :=
  match qs with
  | [] => Ok ([], p)
  | q :: qs => '(r, p) ← handle q p; '(rs, p) ← serve qs p; Ok (r :: rs, p)
  end.
End Handle.
End sail.

(** ** Equivalent stores *)

Section StoreEquiv.
Context (ar : arch) `{PBL : ProtobufLaws}.
Context `{LK : !LevelDB key64} `{LKL : !LevelDBLaws key64}.
Context `{CB : !Comparator bytes} `{CBL : !ComparatorLaws bytes} `{LB : !LevelDB bytes} `{LBL : !LevelDBLaws bytes}.

#[global] Instance store_equiv : Equiv LevelDBPersistence := λ p p',
  (∀ t, index_maps p t = index_maps p' t) ∧
  contents (db_ns_prefix p) = contents (db_ns_prefix p') ∧
  contents (db_ns_url p) = contents (db_ns_url p') ∧
  contents (db_meta p) = contents (db_meta p').

#[global] Instance store_equivalence : Equivalence (≡@{LevelDBPersistence}).
Proof.
  split.
  - done.
  - intros p p' (H1 & H2 & H3 & H4). by split_and!.
  - intros p p' p'' (H1 & H2 & H3 & H4) (K1 & K2 & K3 & K4). split_and!; congruence.
Qed.

#[global] Instance abs_proper : Proper ((≡) ==> (=)) abs.
Proof. intros p p' [E _]. exact (f_equal abs_map (E SPOC)). Qed.

#[global] Instance Inv_proper : Proper ((≡) ==> iff) (Inv ar).
Proof. intros p p' [E _]. by split; apply inv_maps_ext. Qed.

#[global] Instance results_proper pattern : Proper ((≡) ==> (=)) (results ar pattern).
Proof.
  intros p p' [E _]. rewrite (results_scan ar pattern p), (results_scan ar pattern p'). cbv zeta.
  by rewrite !scan_filter, (snapshot_same _ _ (E (type_ (newPatternQuery pattern)))).
Qed.

#[global] Instance ns_results_proper pattern : Proper ((≡) ==> (=)) (ns_results pattern).
Proof.
  intros p p' (_ & Ep & Eu & _). unfold ns_results, GetNamespaces_it.
  case_bool_decide; [by rewrite !get_contents, Ep|].
  case_bool_decide; [by rewrite !get_contents, Eu|].
  cbn [elements namespace_iterator leveldb_iterator]. rewrite !ldb_yield_unparsed by done.
  cbn [ldb_it newLevelDBIterator]. by rewrite !pending_seek_first, (snapshot_same _ _ Ep).
Qed.

(** ** Reading *)

#[global] Instance GetStatements_proper {A} pattern (f : A → Statement → res (bool * A)) a :
  Proper ((≡) ==> (=)) (GetStatements ar pattern f a).
Proof.
  intros p p' E. unfold GetStatements. rewrite !for_each_while_elements.
  exact (f_equal (λ l, fold_while f true l a) (results_proper pattern p p' E)).
Qed.

#[global] Instance GetNamespaces_proper {A} pattern (f : A → Namespace → res (bool * A)) a :
  Proper ((≡) ==> (=)) (GetNamespaces pattern f a).
Proof.
  intros p p' E. unfold GetNamespaces. rewrite !for_each_while_elements.
  exact (f_equal (λ l, fold_while f true l a) (ns_results_proper pattern p p' E)).
Qed.

Lemma Size_entries p : Size p = Ok (Z.of_nat (size (index_maps p CSPO))).
Proof. unfold Size. rewrite Size_loop_spec by lia. by rewrite pending_seek_first, length_snapshot. Qed.

#[global] Instance Size_proper : Proper ((≡) ==> (=)) Size.
Proof. intros p p' [E _]. by rewrite !Size_entries, E. Qed.

(** ** Writing *)

#[global] Instance write_stmts_proper : Proper ((≡) ==> (=) ==> (≡)) write_stmts.
Proof.
  intros p p' (E & En) b b' <-. split; [|done].
  intros t. specialize (E t). unfold index_maps in *. destruct t; simpl in *; by rewrite !write_contents, E.
Qed.

#[global] Instance write_ns_proper : Proper ((≡) ==> (=) ==> (≡)) write_ns.
Proof.
  intros p p' (E & Ep & Eu & Em) b b' <-. split_and!; simpl; rewrite ?write_contents, ?Ep, ?Eu; done.
Qed.

#[global] Instance RemoveStatements_batch_proper pattern b :
  Proper ((≡) ==> (=)) (RemoveStatements_batch ar pattern b).
Proof. intros p p' E. unfold RemoveStatements_batch. by rewrite E. Qed.

#[global] Instance Update_step_proper : Proper ((≡) ==> (=) ==> (=) ==> (=)) (Update_step ar).
Proof.
  intros p p' E u u' <- req req' <-. destruct req; simpl; try done.
  - by rewrite E.
  - unfold RemoveNamespace. by rewrite E.
Qed.

(** Both runs return, with the same answer and equivalent stores. *)
Definition agree {A} (r r' : res (A * LevelDBPersistence)) : Prop :=
  ∃ a p p', r = Ok (a, p) ∧ r' = Ok (a, p') ∧ p ≡ p'.

Lemma agree_bind {A B} (r r' : res (A * LevelDBPersistence)) (k k' : A * LevelDBPersistence → res (B * LevelDBPersistence)) :
  agree r r' → (∀ a p p', p ≡ p' → agree (k (a, p)) (k' (a, p'))) → agree (r ≫= k) (r' ≫= k').
Proof. intros (a & p & p' & -> & -> & E) Hk. by apply Hk. Qed.

Lemma agree_ret {A} (a : A) p p' : p ≡ p' → agree (Ok (a, p)) (Ok (a, p')).
Proof. by exists a, p, p'. Qed.

Lemma agree_read {A B} (r r' : res A) (f : A → B) p p' :
  r = r' → (∃ a, r' = Ok a) → p ≡ p' → agree (a ← r; Ok (f a, p)) (a ← r'; Ok (f a, p')).
Proof. intros -> [a ->] E. by apply agree_ret. Qed.

(** ** Handlers *)

Lemma RemoveStatements_agree pattern p p' :
  p ≡ p' → agree (RemoveStatements ar pattern p) (RemoveStatements ar pattern p').
Proof.
  intros E. unfold RemoveStatements.
  destruct (RemoveStatements_batch_total ar pattern empty_stmt_batches p) as (b & n & Eb).
  rewrite <- (RemoveStatements_batch_proper pattern empty_stmt_batches p p' E), Eb.
  cbn [mbind res_bind]. apply agree_ret. by rewrite E.
Qed.

Lemma AddStatements_agree l p p' :
  p ≡ p' → agree (AddStatements ar (newReaderIterator l) p) (AddStatements ar (newReaderIterator l) p').
Proof.
  intros E. unfold AddStatements. rewrite for_each_elements.
  rewrite (foldM_pair_pure (λ '(b, count) st, (AddStatement ar st b, count + 1)%Z)) by (by intros [] ?).
  destruct (foldl _ _ _) as [b n]. cbn [mbind res_bind]. apply agree_ret. by rewrite E.
Qed.

Lemma AddNamespaces_agree l p p' :
  p ≡ p' → agree (AddNamespaces (newReaderIterator l) p) (AddNamespaces (newReaderIterator l) p').
Proof.
  intros E. unfold AddNamespaces. rewrite for_each_elements.
  rewrite (foldM_pair_pure (λ '(b, count) ns, (AddNamespace ns b, count + 1)%Z)) by (by intros [] ?).
  destruct (foldl _ _ _) as [b n]. cbn [mbind res_bind]. apply agree_ret. by rewrite E.
Qed.

Lemma foldM_total {A C} (f : A → C → res A) l a :
  (∀ a x, ∃ a', f a x = Ok a') → ∃ a', foldM f a l = Ok a'.
Proof.
  intros Hf. revert a; induction l as [|x l IH]; intros a; simpl; [eauto|].
  destruct (Hf a x) as [a' ->]. apply IH.
Qed.

Lemma foldM_ext {A C} (f g : A → C → res A) l a :
  (∀ a x, f a x = g a x) → foldM f a l = foldM g a l.
Proof.
  intros E. revert a; induction l as [|x l IH]; intros a; simpl; [done|].
  rewrite E. destruct (g a x); simpl; [apply IH|done|done].
Qed.

Lemma Update_agree l p p' :
  p ≡ p' → agree (Update ar (newReaderIterator l) p) (Update ar (newReaderIterator l) p').
Proof.
  intros E. unfold Update. rewrite !for_each_elements.
  rewrite (foldM_ext (Update_step ar p) (Update_step ar p')) by (intros u req; by rewrite E).
  destruct (foldM_total (Update_step ar p') (elements (newReaderIterator l))
    (mkUpdateState (mkUpdateStatistics 0 0 0 0) empty_stmt_batches empty_ns_batches)) as [u ->].
  { intros u req. exact (Update_step_total ar p' u req). }
  cbn [mbind res_bind]. apply agree_ret. by rewrite E.
Qed.

Lemma Clear_loop_agree l pat n p p' :
  p ≡ p' → ∃ pat' n' q q',
    foldM (Clear_step ar) (pat, n, p) l = Ok (pat', n', q) ∧
    foldM (Clear_step ar) (pat, n, p') l = Ok (pat', n', q') ∧ q ≡ q'.
Proof.
  revert pat n p p'; induction l as [|r l IH]; intros pat n p p' E; simpl; [eauto 8|].
  destruct (RemoveStatements_agree (set_context pat r) p p' E) as (m & q & q' & -> & -> & E').
  cbn [mbind res_bind]. by apply IH.
Qed.

Lemma svc_Clear_agree contexts p p' : p ≡ p' → agree (svc_Clear ar contexts p) (svc_Clear ar contexts p').
Proof.
  intros E. unfold svc_Clear. case_bool_decide.
  - destruct (Clear_loop_agree (req_context contexts) default_instance 0%Z p p' E)
      as (pat & n & q & q' & -> & -> & E').
    by apply agree_ret.
  - destruct (RemoveStatements_agree default_instance p p' E) as (m & q & q' & -> & -> & E').
    by apply agree_ret.
Qed.

Lemma Size_step_total p s r : ∃ s', Size_step ar p s r = Ok s'.
Proof.
  destruct s as [pat n]. unfold Size_step.
  rewrite (GetStatements_fold ar _ (λ count _, count + 1)%Z). cbn [mbind res_bind]. eauto.
Qed.

#[global] Instance svc_Size_proper contexts : Proper ((≡) ==> (=)) (svc_Size ar contexts).
Proof.
  intros p p' E. unfold svc_Size. case_bool_decide; [|by rewrite E].
  rewrite (foldM_ext (Size_step ar p) (Size_step ar p')); [done|].
  intros [pat n] r. unfold Size_step. by rewrite E.
Qed.

Lemma svc_Size_total contexts p : ∃ a, svc_Size ar contexts p = Ok a.
Proof.
  unfold svc_Size. case_bool_decide.
  - destruct (foldM_total (Size_step ar p) (req_context contexts) (default_instance, 0%Z)) as [[pat n] ->].
    { intros s r. exact (Size_step_total p s r). }
    simpl. eauto.
  - rewrite Size_entries. simpl. eauto.
Qed.

Lemma svc_GetStatements_total pattern w p : ∃ a, svc_GetStatements ar pattern w p = Ok a.
Proof.
  unfold svc_GetStatements, GetStatements. rewrite for_each_while_elements.
  destruct (write_stream (elements (GetStatements_it ar pattern p)) w) as [r ->]. simpl. eauto.
Qed.

Lemma svc_GetNamespaces_total w p : ∃ a, svc_GetNamespaces w p = Ok a.
Proof.
  unfold svc_GetNamespaces, GetNamespaces. rewrite for_each_while_elements.
  destruct (write_stream (elements (GetNamespaces_it default_instance p)) w) as [r ->]. simpl. eauto.
Qed.

Lemma svc_GetContexts_total w p : ∃ a, svc_GetContexts ar w p = Ok a.
Proof.
  unfold svc_GetContexts. rewrite (GetStatements_fold ar _ collect_contexts). simpl. eauto.
Qed.

Lemma agree_stats r r' :
  agree (A:=UpdateStatistics) r r' →
  agree ('(stats, p) ← r; Ok (StatusOK, mkUpdateResponse (added_stmts stats) (removed_stmts stats)
           (added_ns stats) (removed_ns stats), p))
        ('(stats, p) ← r'; Ok (StatusOK, mkUpdateResponse (added_stmts stats) (removed_stmts stats)
           (added_ns stats) (removed_ns stats), p)).
Proof. intros Hr. apply (agree_bind _ _ _ _ Hr). intros s p p' E. by apply agree_ret. Qed.

Lemma agree_count (r r' : res (Z * LevelDBPersistence)) :
  agree r r' → agree ('(n, p) ← r; Ok (StatusOK, n, p)) ('(n, p) ← r'; Ok (StatusOK, n, p)).
Proof. intros Hr. apply (agree_bind _ _ _ _ Hr). intros n p p' E. by apply agree_ret. Qed.

(** A handled call: the same reply, equivalent stores. *)
Lemma handle_agree q p p' : p ≡ p' → agree (sail.handle ar q p) (sail.handle ar q p').
Proof.
  intros E. destruct q; cbn [sail.handle];
    try (eapply agree_bind; [|by intros [s n] q q' E'; apply agree_ret]).
  - by apply agree_count, AddNamespaces_agree.
  - unfold svc_GetNamespace. rewrite E. fold (svc_GetNamespace pattern p').
    rewrite svc_GetNamespace_results. destruct (foldl _ _ _). by apply agree_ret.
  - unfold svc_GetNamespaces at 1. rewrite E. fold (svc_GetNamespaces (newServerWriter room) p').
    destruct (svc_GetNamespaces_total (newServerWriter room) p') as [[s w] ->]. by apply agree_ret.
  - by apply agree_count, AddStatements_agree.
  - unfold svc_GetStatements at 1. rewrite E. fold (svc_GetStatements ar pattern (newServerWriter room) p').
    destruct (svc_GetStatements_total pattern (newServerWriter room) p') as [[s w] ->]. by apply agree_ret.
  - by apply agree_count, RemoveStatements_agree.
  - by apply agree_stats, Update_agree.
  - by apply svc_Clear_agree.
  - rewrite E. destruct (svc_Size_total contexts p') as [[s n] ->]. by apply agree_ret.
  - unfold svc_GetContexts at 1. rewrite E. fold (svc_GetContexts ar (newServerWriter room) p').
    destruct (svc_GetContexts_total (newServerWriter room) p') as [[s w] ->]. by apply agree_ret.
Qed.

Lemma serve_agree qs p p' : p ≡ p' → agree (sail.serve ar qs p) (sail.serve ar qs p').
Proof.
  revert p p'; induction qs as [|q qs IH]; intros p p' E; cbn [sail.serve]; [by apply agree_ret|].
  eapply agree_bind; [by apply handle_agree|]. intros r p1 p1' E1. cbn beta iota.
  eapply agree_bind; [by apply IH|]. intros rs p2 p2' E2. by apply agree_ret.
Qed.

Lemma serve_total qs p : ∃ rs p', sail.serve ar qs p = Ok (rs, p').
Proof. destruct (serve_agree qs p p) as (rs & p' & _ & E & _); [done|]. eauto. Qed.

Lemma serve_app qs qs' p rs p1 :
  sail.serve ar qs p = Ok (rs, p1) →
  sail.serve ar (qs ++ qs') p = '(rs', p2) ← sail.serve ar qs' p1; Ok (rs ++ rs', p2).
Proof.
  revert p rs; induction qs as [|q qs IH]; intros p rs; cbn [sail.serve app].
  - intros [= <- <-]. by destruct (sail.serve ar qs' p) as [[]| |].
  - destruct (sail.handle ar q p) as [[r p2]| |]; try done. cbn [mbind res_bind].
    destruct (sail.serve ar qs p2) as [[rs2 p3]| |] eqn:E2; try done. cbn [mbind res_bind].
    intros [= <- <-]. rewrite (IH _ _ E2). by destruct (sail.serve ar qs' p3) as [[]| |].
Qed.
End StoreEquiv.
