(* ===== verification/Storage.v ===== *)
(** * Storage: databases on disk, and the life of a LevelDB server

    How LevelDBPersistence opens and closes its seven databases (buildDB,
    buildOptions, buildNsOptions and the constructor of
    persistence/leveldb_persistence.cc) and [main] of
    persistence/leveldb_server.cc, from the creation of the directory to the
    destruction of the persistence when the server is stopped.  The assertion on
    the status of an open is compiled out (the build defines NDEBUG): a database
    that does not open leaves a null handle, and the server starts all the same.

    The file system and LevelDB's files are not code of the repository.
    [Disk D] and [DiskDB D K] hold the operations the sources call (mkdir,
    opening a database by name, deleting a handle) and three model fields: the
    directories, the databases by name with the name of their comparator and
    their entries, and the databases that are open.  The laws state the
    documented behaviour of LevelDB: a database is opened by one handle at a
    time, is created only on request and in a directory that exists, only
    opens with the comparator it was created with, and keeps what was written
    when its handle is deleted.  [disk_map] shows that they can hold. *)

From Stdlib Require Import ZArith Ascii Lia.
From Stdlib Require Strings.String.
From S2P Require Import Prelude Words Murmur3 Messages Iterators LevelDB Keys Wire RdfOperators.
From S2P Require Import Persistence PersistenceSpec Refinement UpdateProofs Service DemoStore.
From S2P Require Import ServiceTheorems Namespaces Split StoreEquiv.

(** ** Options *)

Record Options := mkOptions {
  create_if_missing : bool;
  comparator : string;           (* its [Name()] *)
  block_cache : option Z;        (* the size of the cache *)
  filter_policy : option Z;      (* bits per key of a bloom filter *)
}.

Definition KeyComparator_Name : string := "KeyComparator".

(** [leveldb::Options()] *)
Definition default_options : Options :=
  mkOptions false "leveldb.BytewiseComparator" None None.

Definition buildOptions (cmp : string) (cache : Z) : Options :=
  let options := default_options in
  let options := mkOptions true (comparator options) (block_cache options) (filter_policy options) in
  let options := mkOptions (create_if_missing options) cmp (block_cache options) (filter_policy options) in
  let options := mkOptions (create_if_missing options) (comparator options) (Some cache) (filter_policy options) in
  mkOptions (create_if_missing options) (comparator options) (block_cache options) (Some 10%Z).

Definition buildNsOptions : Options :=
  let options := default_options in
  mkOptions true (comparator options) (block_cache options) (filter_policy options).

(** ** The disk *)

Definition under (path base : string) : string := (path +:+ "/" +:+ base)%string.

Definition plain (base : string) : Prop := free_of "/" (String.list_ascii_of_string base).

(** The comparator's name and the entries. *)
Abbreviation file := (string * gmap bytes bytes)%type.

Class Disk (D : Type) := {
  mkdir : string → D → D;
  dirs : D → gset string;
  files : D → gmap string file;
  locks : D → gset string;
}.

Class DiskLaws (D : Type) `{Disk D} : Prop := {
  mkdir_files path d : files (mkdir path d) = files d;
  mkdir_locks path d : locks (mkdir path d) = locks d;
  mkdir_old path d : dirs d ⊆ dirs (mkdir path d);
  mkdir_new parent base d :
    plain base → parent ∈ dirs d → under parent base ∈ dirs (mkdir (under parent base) d);
  mkdir_orphan parent base d :
    plain base → parent ∉ dirs d → dirs (mkdir (under parent base) d) = dirs d;
}.

(** Keys are stored as their bytes. *)
Class DiskKey (K : Type) := key_raw : K → bytes.
#[global] Instance key64_raw : DiskKey key64 := λ k, `k.
#[global] Instance bytes_raw : DiskKey bytes := λ k, k.

Definition raw `{Countable K, DiskKey K} (m : gmap K bytes) : gmap bytes bytes := kmap key_raw m.

Class DiskDB (D K : Type) `{LevelDB K} := {
  OpenDB : Options → string → D → option (DB K) * D;
  DeleteDB : DB K → string → D → D;
}.

Class DiskDBLaws (D K : Type) `{Disk D} `{LK : LevelDB K} `{DiskKey K} `{!DiskDB D K} : Prop := {
  open_existing o name m d :
    name ∉ locks d → files d !! name = Some (comparator o, raw m) →
    ∃ db d', OpenDB (K:=K) o name d = (Some db, d') ∧ contents db = m ∧
      files d' = files d ∧ locks d' = {[name]} ∪ locks d ∧ dirs d ⊆ dirs d';
  open_new o path base d :
    under path base ∉ locks d → files d !! under path base = None → create_if_missing o = true →
    plain base → path ∈ dirs d →
    ∃ db d', OpenDB (K:=K) o (under path base) d = (Some db, d') ∧ contents db = ∅ ∧
      files d' = <[under path base := (comparator o, ∅)]> (files d) ∧
      locks d' = {[under path base]} ∪ locks d ∧ dirs d ⊆ dirs d';
  open_locked o name d : name ∈ locks d → (OpenDB (K:=K) o name d).1 = None;
  open_orphan o path base d :
    plain base → path ∉ dirs d → files d !! under path base = None →
    (OpenDB (K:=K) o (under path base) d).1 = None;
  open_comparator o name c m d :
    files d !! name = Some (c, m) → c ≠ comparator o → (OpenDB (K:=K) o name d).1 = None;
  delete_files (db : DB K) name c m d :
    files d !! name = Some (c, m) →
    files (DeleteDB db name d) = <[name := (c, raw (contents db))]> (files d);
  delete_locks (db : DB K) name d : locks (DeleteDB db name d) = locks d ∖ {[name]};
  delete_dirs (db : DB K) name d : dirs (DeleteDB db name d) = dirs d;
}.

(** ** Opening and closing a store *)

Definition db_name (path suffix : string) : string := (path +:+ "/" +:+ suffix +:+ ".db")%string.

Section Open.
Context {D : Type} `{LK : !LevelDB key64} `{LB : !LevelDB bytes}.
Context `{!DiskDB D key64} `{!DiskDB D bytes}.

(** [DB::Open] stores a null pointer when it fails; the assertion on its status
    does nothing under NDEBUG. *)
Definition buildDB {K} `{LevelDB K} `{!DiskDB D K} (path suffix : string) (options : Options) (d : D) :
    option (DB K) * D := OpenDB options (db_name path suffix) d.

(** The handles the object has: those that did not open are null. *)
Record members := mkMembers {
  m_spoc : option (DB key64);
  m_cspo : option (DB key64);
  m_opsc : option (DB key64);
  m_pcos : option (DB key64);
  m_ns_prefix : option (DB bytes);
  m_ns_url : option (DB bytes);
  m_meta : option (DB bytes);
}.

(** All databases opened. *)
Definition opened (p : LevelDBPersistence) : members :=
  mkMembers (Some (db_spoc p)) (Some (db_cspo p)) (Some (db_opsc p)) (Some (db_pcos p))
    (Some (db_ns_prefix p)) (Some (db_ns_url p)) (Some (db_meta p)).

(** The constructor: the members are initialised in the order of their
    declaration. *)
Definition openLevelDBPersistence (path : string) (cacheSize : Z) (d : D) : members * D :=
  let options := buildOptions KeyComparator_Name cacheSize in
  let '(spoc, d) := buildDB path "spoc" options d in
  let '(cspo, d) := buildDB path "cspo" options d in
  let '(opsc, d) := buildDB path "opsc" options d in
  let '(pcos, d) := buildDB path "pcos" options d in
  let '(ns_prefix, d) := buildDB path "ns_prefix" buildNsOptions d in
  let '(ns_url, d) := buildDB path "ns_url" buildNsOptions d in
  let '(meta, d) := buildDB path "metadata" buildNsOptions d in
  (mkMembers spoc cspo opsc pcos ns_prefix ns_url meta, d).

(** The destructor of a [unique_ptr] to a database. *)
Definition delete_handle {K} `{LevelDB K} `{!DiskDB D K} (db : option (DB K)) (name : string) (d : D) : D :=
  match db with Some db => DeleteDB db name d | None => d end.

(** The destructor: the members are destroyed in the reverse order. *)
Definition deleteLevelDBPersistence (path : string) (m : members) (d : D) : D :=
  let d := delete_handle (m_meta m) (db_name path "metadata") d in
  let d := delete_handle (m_ns_url m) (db_name path "ns_url") d in
  let d := delete_handle (m_ns_prefix m) (db_name path "ns_prefix") d in
  let d := delete_handle (m_pcos m) (db_name path "pcos") d in
  let d := delete_handle (m_opsc m) (db_name path "opsc") d in
  let d := delete_handle (m_cspo m) (db_name path "cspo") d in
  delete_handle (m_spoc m) (db_name path "spoc") d.

(** ** Calls on an object with null handles *)

Definition is_null {K} `{LevelDB K} (db : option (DB K)) : bool :=
  match db with Some _ => false | None => true end.

Definition index_null (t : IndexType) (m : members) : bool :=
  match t with
  | SPOC => is_null (m_spoc m)
  | CSPO => is_null (m_cspo m)
  | OPSC => is_null (m_opsc m)
  | PCOS => is_null (m_pcos m)
  end.

Definition pattern_null (pattern : Statement) (m : members) : bool :=
  index_null (pq_Type (newPatternQuery pattern)) m.

(** The writer threads of a mutation use all four indexes. *)
Definition indexes_null (m : members) : bool :=
  index_null SPOC m || index_null CSPO m || index_null OPSC m || index_null PCOS m.

(** Does a call go through a null handle?  GetNamespaces takes a null handle for
    a pattern that is empty, and reads the prefix database then. *)
Definition uses_null (q : sail.request) (m : members) : bool :=
  match q with
  | sail.AddNamespacesCall _ => is_null (m_ns_prefix m) || is_null (m_ns_url m)
  | sail.GetNamespaceCall pattern =>
      if bool_decide (prefix pattern = "" ∧ ns_uri pattern ≠ "")%string
      then is_null (m_ns_url m) && is_null (m_ns_prefix m)
      else is_null (m_ns_prefix m)
  | sail.GetNamespacesCall _ => is_null (m_ns_prefix m)
  | sail.AddStatementsCall _ | sail.RemoveStatementsCall _ | sail.ClearCall _ => indexes_null m
  | sail.GetStatementsCall pattern _ => pattern_null pattern m
  | sail.UpdateCall _ => indexes_null m || is_null (m_ns_prefix m) || is_null (m_ns_url m)
  | sail.SizeCall contexts =>
      match req_context contexts with
      | [] => index_null CSPO m
      | l => existsb (λ r, pattern_null (set_context default_instance r) m) l
      end
  | sail.GetContextsCall _ => pattern_null default_instance m
  end.

(** What GetNamespace looks for when the handle it selects is null. *)
Definition effective (q : sail.request) (m : members) : sail.request :=
  match q with
  | sail.GetNamespaceCall pattern =>
      if bool_decide (prefix pattern = "")%string && is_null (m_ns_url m)
      then sail.GetNamespaceCall (mkNamespace "" "") else q
  | _ => q
  end.

(** The handles, with some database in place of a null one: it is not used. *)
Definition handles (m : members) : LevelDBPersistence :=
  mkPersistence (default Open (m_spoc m)) (default Open (m_cspo m)) (default Open (m_opsc m))
    (default Open (m_pcos m)) (default Open (m_ns_prefix m)) (default Open (m_ns_url m)) (default Open (m_meta m)).

Definition after_call (m : members) (p : LevelDBPersistence) : members :=
  mkMembers ((λ _, db_spoc p) <$> m_spoc m) ((λ _, db_cspo p) <$> m_cspo m) ((λ _, db_opsc p) <$> m_opsc m)
    ((λ _, db_pcos p) <$> m_pcos m) ((λ _, db_ns_prefix p) <$> m_ns_prefix m)
    ((λ _, db_ns_url p) <$> m_ns_url m) ((λ _, db_meta p) <$> m_meta m).
End Open.
Arguments members {_ _}.

(** ** The server *)

Module leveldb_server.
Record Flags := mkFlags {
  FLAGS_host : string;
  FLAGS_port : string;
  FLAGS_db : string;
  FLAGS_cache_size : Z;
}.

Definition default_flags : Flags := mkFlags "0.0.0.0" "10000" "/tmp/testdb" (100 * 1048576).

Section Server.
Context (ar : arch) `{PB : Protobuf} `{LK : !LevelDB key64} `{LB : !LevelDB bytes}.
Context {D : Type} `{!Disk D} `{!DiskDB D key64} `{!DiskDB D bytes}.

Definition handle (q : sail.request) (m : members) : res (sail.reply * members) :=
  if uses_null q m then Throw (UndefinedBehaviour "null database handle")
  else
    '(r, p) ← sail.handle ar (effective q m) (handles m);
    Ok (r, after_call m p).

Fixpoint serve (qs : list sail.request) (m : members) : res (list sail.reply * members) :=
  match qs with
  | [] => Ok ([], m)
  | q :: qs => '(r, m) ← handle q m; '(rs, m) ← serve qs m; Ok (r :: rs, m)
  end.

(** [session]: the calls the server gets between its start and the signal. *)
Definition main (flags : Flags) (session : list sail.request) (d : D) :
    res (string * list sail.reply * D) :=
  let d := mkdir (FLAGS_db flags) d in
  let '(persistence, d) := openLevelDBPersistence (FLAGS_db flags) (FLAGS_cache_size flags) d in
  let address := (FLAGS_host flags +:+ ":" +:+ FLAGS_port flags)%string in
  '(replies, persistence) ← serve session persistence;
  Ok (address, replies, deleteLevelDBPersistence (FLAGS_db flags) persistence d).

(** The server is started once for each session, one after the other. *)
Fixpoint runs (flags : Flags) (sessions : list (list sail.request)) (d : D) :
    res (list (list sail.reply) * D) :=
  match sessions with
  | [] => Ok ([], d)
  | session :: sessions =>
      '(_, replies, d) ← main flags session d;
      '(rest, d) ← runs flags sessions d;
      Ok (replies :: rest, d)
  end.
End Server.
End leveldb_server.

(** ** Names *)

Definition suffixes : list string :=
  ["spoc"; "cspo"; "opsc"; "pcos"; "ns_prefix"; "ns_url"; "metadata"]%string.

Definition names (path : string) : gset string := list_to_set (db_name path <$> suffixes).

Lemma last_slash (l1 l2 r1 r2 : list ascii) (c : ascii) :
  c ∉ r1 → c ∉ r2 → l1 ++ c :: r1 = l2 ++ c :: r2 → l1 = l2 ∧ r1 = r2.
Proof.
  revert l2; induction l1 as [|x l1 IH]; intros [|y l2] H1 H2 E.
  - by injection E.
  - injection E as _ ->. destruct H1. set_solver.
  - injection E as _ <-. destruct H2. set_solver.
  - injection E as -> E. by destruct (IH l2 H1 H2 E) as [-> ->].
Qed.

Lemma ascii_app s1 s2 :
  String.list_ascii_of_string (s1 +:+ s2) = String.list_ascii_of_string s1 ++ String.list_ascii_of_string s2.
Proof. induction s1 as [|c s1 IH]; [done|]. simpl. by rewrite <- IH. Qed.

Lemma ascii_inj s1 s2 : String.list_ascii_of_string s1 = String.list_ascii_of_string s2 → s1 = s2.
Proof.
  intros E. by rewrite <- (String.string_of_list_ascii_of_string s1), E, String.string_of_list_ascii_of_string.
Qed.

(** A name in a directory determines both. *)
Lemma under_inj path base path' base' :
  plain base → plain base' → under path base = under path' base' → path = path' ∧ base = base'.
Proof.
  intros H1 H2 E. apply (f_equal String.list_ascii_of_string) in E. unfold under in E.
  rewrite !ascii_app in E. destruct (last_slash _ _ _ _ _ H1 H2 E) as [E1 E2].
  split; by apply ascii_inj.
Qed.

Lemma db_name_plain suffix : suffix ∈ suffixes → plain (suffix +:+ ".db").
Proof.
  assert (H : Forall (λ s, plain (s +:+ ".db")) suffixes)
    by (repeat constructor; apply (bool_decide_unpack _); vm_compute; exact I).
  rewrite Forall_forall in H. apply H.
Qed.

Lemma names_path path path' suffix :
  suffix ∈ suffixes → db_name path suffix ∈ names path' → path = path'.
Proof.
  intros Hs. unfold names. rewrite elem_of_list_to_set, list_elem_of_fmap. intros (s' & E & Hs').
  by apply (under_inj _ (suffix +:+ ".db") _ (s' +:+ ".db")) in E as [-> _]; [| |]; try apply db_name_plain.
Qed.

#[global] Instance db_name_inj path : Inj (=) (=) (db_name path).
Proof.
  intros s s' E. unfold db_name in E. apply (inj (String.app path)) in E. injection E as E.
  apply (f_equal String.list_ascii_of_string) in E. rewrite !ascii_app in E.
  by apply ascii_inj, (app_inv_tail (String.list_ascii_of_string ".db")).
Qed.

(** ** What a store looks like on disk *)

(** The maps of the seven databases. *)
Record image := mkImage {
  im_spoc : gmap key64 bytes;
  im_cspo : gmap key64 bytes;
  im_opsc : gmap key64 bytes;
  im_pcos : gmap key64 bytes;
  im_prefix : gmap bytes bytes;
  im_url : gmap bytes bytes;
  im_meta : gmap bytes bytes;
}.

Definition empty_image : image := mkImage ∅ ∅ ∅ ∅ ∅ ∅ ∅.

Definition image_of `{LK : !LevelDB key64} `{LB : !LevelDB bytes} (p : LevelDBPersistence) : image :=
  mkImage (contents (db_spoc p)) (contents (db_cspo p)) (contents (db_opsc p)) (contents (db_pcos p))
    (contents (db_ns_prefix p)) (contents (db_ns_url p)) (contents (db_meta p)).

Definition image_files (im : image) : list (string * file) :=
  let key := λ m : gmap key64 bytes, (KeyComparator_Name, raw m) in
  let ns := λ m : gmap bytes bytes, ("leveldb.BytewiseComparator"%string, raw m) in
  [("spoc", key (im_spoc im)); ("cspo", key (im_cspo im)); ("opsc", key (im_opsc im));
   ("pcos", key (im_pcos im)); ("ns_prefix", ns (im_prefix im)); ("ns_url", ns (im_url im));
   ("metadata", ns (im_meta im))]%string.

Definition store_files (path : string) (im : image) : gmap string file :=
  list_to_map ((λ e : string * file, (db_name path e.1, e.2)) <$> image_files im).

Lemma store_files_inserts (path : string) (im : image) (m : gmap string file) :
  foldl (λ m e, <[e.1 := e.2]> m) m ((λ e : string * file, (db_name path e.1, e.2)) <$> image_files im) =
  store_files path im ∪ m.
Proof.
  rewrite foldl_insert_union. f_equal. apply list_to_map_proper; [|by rewrite reverse_Permutation].
  rewrite reverse_Permutation, <- list_fmap_compose.
  change (NoDup (db_name path <$> suffixes)). apply (NoDup_fmap_2 _).
  apply (bool_decide_unpack _). vm_compute. exact I.
Qed.

Lemma store_files_None (path : string) (im : image) name :
  name ∉ names path → store_files path im !! name = None.
Proof.
  intros Hn. apply not_elem_of_list_to_map_1. rewrite <- list_fmap_compose.
  intros Hin. apply Hn. unfold names. by apply elem_of_list_to_set.
Qed.

(** Writing a store again replaces it. *)
Lemma store_files_replace (path : string) (im im' : image) (F : gmap string file) :
  store_files path im' ∪ (store_files path im ∪ F) = store_files path im' ∪ F.
Proof.
  rewrite (assoc_L (∪)). f_equal. apply map_eq. intros k. rewrite lookup_union.
  destruct (store_files path im' !! k) eqn:Ek; [by destruct (store_files path im !! k)|].
  rewrite (left_id None (∪)). apply not_elem_of_list_to_map_1.
  apply not_elem_of_list_to_map_2 in Ek. rewrite <- list_fmap_compose in Ek |- *. exact Ek.
Qed.

(** A database can be opened: nobody holds it, and it either exists with this
    content or can be created and is empty. *)
Definition available {D} `{Disk D} (path : string) (d : D) (e : string * file) : Prop :=
  let name := db_name path e.1 in
  (name ∉ locks d) ∧
  (files d !! name = Some e.2 ∨ files d !! name = None ∧ e.2.2 = ∅ ∧ path ∈ dirs d).

Definition ready {D} `{Disk D} (path : string) (im : image) (d : D) : Prop :=
  Forall (available path d) (image_files im).

#[global] Instance key64_raw_inj : Inj (=) (=) (key_raw (K:=key64)).
Proof. intros k k' E. by apply dsig_eq. Qed.
#[global] Instance bytes_raw_inj : Inj (=) (=) (key_raw (K:=bytes)).
Proof. by intros k k' E. Qed.

Section StorageProofs.
Context {D : Type} `{!Disk D} `{!DiskLaws D}.

Section OneDatabase.
Context {K : Type} `{LK : LevelDB K} `{!DiskKey K} `{!Inj (=) (=) (key_raw (K:=K))}.
Context `{!DiskDB D K} `{!DiskDBLaws D K}.

Lemma buildDB_available path suffix o (m : gmap K bytes) (d : D) :
  suffix ∈ suffixes → create_if_missing o = true → available path d (suffix, (comparator o, raw m)) →
  ∃ (db : DB K) d', buildDB path suffix o d = (Some db, d') ∧ contents db = m ∧
    files d' = <[db_name path suffix := (comparator o, raw m)]> (files d) ∧
    locks d' = {[db_name path suffix]} ∪ locks d ∧ dirs d ⊆ dirs d'.
Proof.
  intros Hs Hc [Hl [Hf|(Hf & Hm & Hd)]]; unfold buildDB; simpl in *.
  - destruct (open_existing o _ m d Hl Hf) as (db & d' & -> & Em & Ef & El & Ed).
    exists db, d'. split_and!; try done. by rewrite insert_id.
  - destruct (open_new (K:=K) o path (suffix +:+ ".db") d Hl Hf Hc (db_name_plain _ Hs) Hd)
      as (db & d' & E & Em & Ef & El & Ed).
    unfold raw in Hm. apply kmap_empty_iff in Hm as ->; [|apply _].
    exists db, d'. unfold db_name. unfold under in E. rewrite E. unfold raw. rewrite kmap_empty by apply _.
    by split_and!.
Qed.

(** Opening another database changes nothing. *)
Lemma available_other path path' suffix f (d d' : D) e :
  db_name path' suffix ≠ db_name path e.1 →
  files d' = <[db_name path' suffix := f]> (files d) →
  locks d' = {[db_name path' suffix]} ∪ locks d → dirs d ⊆ dirs d' →
  available path d e → available path d' e.
Proof.
  intros Hne Ef El Ed [Hl Hf]. split; [rewrite El; set_solver|].
  rewrite Ef, lookup_insert_ne by done. destruct Hf as [|(? & ? & ?)]; [by left|right]. set_solver.
Qed.
End OneDatabase.

Context `{LK : !LevelDB key64} `{LB : !LevelDB bytes}.
Context `{!DiskDB D key64} `{!DiskDBLaws D key64} `{!DiskDB D bytes} `{!DiskDBLaws D bytes}.

Ltac other_name := let E := fresh in intros E%(inj (db_name _)); discriminate E.
Ltac is_suffix := repeat first [apply list_elem_of_here | apply list_elem_of_further].

(** Open the next database, and keep what is known of the others. *)
Ltac open_next :=
  lazymatch goal with
  | H : available ?path ?d (?s, (?c, @raw _ _ _ _ ?m)) |- context [buildDB ?path ?s ?o ?d] =>
      let db := fresh "db" in let d' := fresh "d" in let E := fresh in
      let Em := fresh "Em" in let Ef := fresh "Ef" in let El := fresh "El" in let Ed := fresh "Ed" in
      destruct (buildDB_available path s o m d) as (db & d' & E & Em & Ef & El & Ed);
      [is_suffix|done|exact H|];
      rewrite E; clear E H;
      repeat match goal with
      | H' : available path d ?e |- _ =>
          apply (available_other path path s _ d d' e ltac:(other_name) Ef El Ed) in H'
      end
  end.

Lemma open_ready path cacheSize im (d : D) :
  ready path im d →
  ∃ p d', openLevelDBPersistence path cacheSize d = (opened p, d') ∧ image_of p = im ∧
    files d' = store_files path im ∪ files d ∧ locks d' = names path ∪ locks d ∧ dirs d ⊆ dirs d'.
Proof.
  unfold ready, image_files. rewrite !Forall_cons.
  intros (A1 & A2 & A3 & A4 & A5 & A6 & A7 & _). unfold openLevelDBPersistence. cbv beta zeta in *.
  do 7 open_next. eexists (mkPersistence _ _ _ _ _ _ _), _. split; [reflexivity|].
  split; [destruct im; unfold image_of; simpl in *; by subst|].
  split_and!.
  - rewrite <- store_files_inserts. simpl.
    repeat match goal with E : files ?d' = _ |- context [files ?d'] => rewrite E; clear E end. done.
  - repeat match goal with E : locks ?d' = _ |- context [locks ?d'] => rewrite E; clear E end.
    unfold names, suffixes. simpl. clear. set_solver.
  - by repeat (etrans; [eassumption|]).
Qed.

Lemma ready_unlocked path im (d : D) : ready path im d → names path ## locks d.
Proof.
  intros Hr. intros name Hn Hl. unfold names in Hn.
  apply elem_of_list_to_set, list_elem_of_fmap in Hn as (s & -> & Hs).
  change suffixes with (image_files im).*1 in Hs. apply list_elem_of_fmap in Hs as (e & -> & He).
  unfold ready in Hr. rewrite Forall_forall in Hr. by destruct (Hr e He).
Qed.

Lemma lookup_store_files (path : string) (im : image) e :
  e ∈ image_files im → store_files path im !! db_name path e.1 = Some e.2.
Proof.
  intros He. unfold store_files. apply elem_of_list_to_map_1.
  - rewrite <- list_fmap_compose. change (NoDup (db_name path <$> suffixes)). apply (NoDup_fmap_2 _).
    apply (bool_decide_unpack _). vm_compute. exact I.
  - apply (list_elem_of_fmap_2 (λ e : string * file, (db_name path e.1, e.2))). done.
Qed.

(** The store that was written can be opened again. *)
Lemma ready_stored (path : string) (im : image) (F : gmap string file) (d : D) :
  files d = store_files path im ∪ F → names path ## locks d → ready path im d.
Proof.
  intros Ef Hl. unfold ready. apply Forall_forall. intros e He. split.
  - intros Hn. apply (Hl (db_name path e.1)); [|done]. unfold names. apply elem_of_list_to_set.
    apply list_elem_of_fmap_2. change suffixes with (image_files im).*1. by apply list_elem_of_fmap_2.
  - left. rewrite Ef. by apply lookup_union_Some_l, lookup_store_files.
Qed.

Definition created (d : D) (c name : string) : Prop := ∃ m, files d !! name = Some (c, m).

Lemma created_delete {K} `{LKK : LevelDB K, !DiskKey K, !DiskDB D K, !DiskDBLaws D K} (db : DB K) d c name c' name' :
  created d c name → created d c' name' → created (DeleteDB db name d) c' name'.
Proof.
  intros [m E] [m' E']. unfold created. rewrite (delete_files db name c m d E).
  rewrite lookup_insert. case_decide; simplify_eq; eauto.
Qed.

Lemma files_delete {K} `{LKK : LevelDB K, !DiskKey K, !DiskDB D K, !DiskDBLaws D K} (db : DB K) d c name :
  created d c name → files (DeleteDB db name d) = <[name := (c, raw (contents db))]> (files d).
Proof. intros [m E]. by apply (delete_files db name c m). Qed.

Ltac still_created := repeat first [eassumption | eapply created_delete].

Lemma delete_store (path : string) (p : LevelDBPersistence) (im : image) (F : gmap string file) (d : D) :
  files d = store_files path im ∪ F →
  files (deleteLevelDBPersistence path (opened p) d) = store_files path (image_of p) ∪ files d ∧
  locks (deleteLevelDBPersistence path (opened p) d) = locks d ∖ names path ∧
  dirs (deleteLevelDBPersistence path (opened p) d) = dirs d.
Proof.
  intros Ef.
  assert (Hc : Forall (λ e : string * file, created d e.2.1 (db_name path e.1)) (image_files im)).
  { apply Forall_forall. intros e He. exists e.2.2. rewrite Ef. destruct e as [s [c m]].
    by apply lookup_union_Some_l, (lookup_store_files path im (s, (c, m))). }
  unfold image_files in Hc. rewrite !Forall_cons in Hc. simpl in Hc.
  destruct Hc as (C1 & C2 & C3 & C4 & C5 & C6 & C7 & _).
  unfold deleteLevelDBPersistence, delete_handle, opened. cbn [m_spoc m_cspo m_opsc m_pcos m_ns_prefix m_ns_url m_meta].
  split_and!.
  - rewrite 4!(files_delete (K:=key64) _ _ KeyComparator_Name) by still_created.
    rewrite 3!(files_delete (K:=bytes) _ _ "leveldb.BytewiseComparator") by still_created.
    unfold store_files. simpl. by rewrite <- !insert_union_l, map_empty_union.
  - rewrite !delete_locks. unfold names, suffixes. simpl. clear. set_solver.
  - by rewrite !delete_dirs.
Qed.
End StorageProofs.

Section ServerProofs.
Context (ar : arch) `{PBL : ProtobufLaws}.
Context `{LK : !LevelDB key64} `{LKL : !LevelDBLaws key64}.
Context `{CB : !Comparator bytes} `{CBL : !ComparatorLaws bytes} `{LB : !LevelDB bytes} `{LBL : !LevelDBLaws bytes}.
Context {D : Type} `{!Disk D} `{!DiskLaws D}.
Context `{!DiskDB D key64} `{!DiskDBLaws D key64} `{!DiskDB D bytes} `{!DiskDBLaws D bytes}.

Lemma image_equiv (p p' : LevelDBPersistence) : image_of p = image_of p' ↔ p ≡ p'.
Proof.
  unfold image_of. split.
  - intros E. injection E as E1 E2 E3 E4 E5 E6 E7. split_and!; try done. by intros [].
  - intros (E & -> & -> & ->). pose proof (E SPOC) as E1. pose proof (E CSPO) as E2.
    pose proof (E OPSC) as E3. pose proof (E PCOS) as E4. unfold index_maps in *. simpl in *. congruence.
Qed.

Lemma lock_unlock (N L : gset string) : N ## L → (N ∪ L) ∖ N = L.
Proof. set_solver. Qed.

(** When everything opened, calls are served by the persistence. *)
Lemma handle_opened q p :
  leveldb_server.handle ar q (opened p) = '(rp, p) ← sail.handle ar q p; Ok (rp, opened p).
Proof.
  unfold leveldb_server.handle.
  assert (E : uses_null q (opened p) = false).
  { destruct q; simpl; try done; unfold pattern_null.
    - by case_bool_decide.
    - by destruct (pq_Type _).
    - destruct (req_context contexts) as [|c l]; [done|]. apply not_true_iff_false.
      intros (x & _ & Hx)%existsb_exists. by destruct (pq_Type (newPatternQuery (set_context default_instance x))). }
  assert (Eq : effective q (opened p) = q) by (destruct q; simpl; rewrite ?andb_false_r; done).
  rewrite E, Eq. replace (handles (opened p)) with p by (by destruct p).
  destruct (sail.handle ar q p) as [[rp p']| |]; done.
Qed.

Lemma serve_opened qs p :
  leveldb_server.serve ar qs (opened p) = '(rs, p) ← sail.serve ar qs p; Ok (rs, opened p).
Proof.
  revert p; induction qs as [|q qs IH]; intros p; cbn [leveldb_server.serve sail.serve]; [done|].
  rewrite handle_opened. destruct (sail.handle ar q p) as [[rp p1]| |]; try done. cbn [mbind res_bind].
  rewrite IH. by destruct (sail.serve ar qs p1) as [[rs p2]| |].
Qed.

(** A null handle stays null, and a call that goes through it is the end. *)
Lemma serve_null qs m :
  m_spoc m = None →
  Exists (λ q, ∀ m, m_spoc m = None → uses_null q m = true) qs →
  leveldb_server.serve ar qs m = Throw (UndefinedBehaviour "null database handle").
Proof.
  intros Hm Hq. revert m Hm; induction qs as [|q qs IH]; intros m Hm; [by apply Exists_nil in Hq|].
  cbn [leveldb_server.serve]. unfold leveldb_server.handle.
  destruct (uses_null q m) eqn:Eu; [done|].
  apply Exists_cons in Hq as [Hq|Hq]; [by rewrite Hq in Eu|].
  destruct (serve_total ar [effective q m] (handles m)) as (rs & p & E). cbn [sail.serve] in E.
  destruct (sail.handle ar (effective q m) (handles m)) as [[rp p1]| |]; try done. cbn [mbind res_bind].
  by rewrite (IH Hq) by (simpl; by rewrite Hm).
Qed.

(** The calls that use the spoc database: all that change statements, and the
    queries that scan it. *)
Definition uses_spoc (q : sail.request) : bool :=
  match q with
  | sail.AddStatementsCall _ | sail.RemoveStatementsCall _ | sail.ClearCall _ | sail.UpdateCall _
  | sail.GetContextsCall _ => true
  | sail.GetStatementsCall pattern _ => bool_decide (pq_Type (newPatternQuery pattern) = SPOC)
  | _ => false
  end.

Lemma uses_spoc_null q m : uses_spoc q = true → m_spoc m = None → uses_null q m = true.
Proof.
  intros Hq Hm. assert (Hi : index_null SPOC m = true) by (unfold index_null; by rewrite Hm).
  destruct q as [| | | |pattern room| | | | |]; try done;
    cbn [uses_null]; unfold indexes_null, pattern_null; rewrite ?Hi; try done.
  cbn [uses_spoc] in Hq. apply bool_decide_eq_true_1 in Hq.
  exact (eq_trans (f_equal (λ t, index_null t m) Hq) Hi).
Qed.

Definition listening (flags : leveldb_server.Flags) : string :=
  (leveldb_server.FLAGS_host flags +:+ ":" +:+ leveldb_server.FLAGS_port flags)%string.

(** One run of the server. *)
Lemma main_ready flags session (p : LevelDBPersistence) (d : D) :
  let path := leveldb_server.FLAGS_db flags in
  ready path (image_of p) (mkdir path d) →
  ∃ rs p' d', sail.serve ar session p = Ok (rs, p') ∧
    leveldb_server.main ar flags session d = Ok (listening flags, rs, d') ∧
    files d' = store_files path (image_of p') ∪ files d ∧ locks d' = locks d ∧ names path ## locks d'.
Proof.
  intros path Hr. pose proof (ready_unlocked path _ _ Hr) as Hl. rewrite mkdir_locks in Hl.
  destruct (open_ready path (leveldb_server.FLAGS_cache_size flags) _ _ Hr)
    as (q & d1 & Eo & Ei & Ef & El & _).
  rewrite mkdir_files in Ef. rewrite mkdir_locks in El.
  destruct (serve_agree ar session p q) as (rs & p' & q' & Es & Es' & E').
  { symmetry. by apply image_equiv. }
  destruct (delete_store path q' _ _ d1 Ef) as (Ef' & El' & _).
  exists rs, p', (deleteLevelDBPersistence path (opened q') d1). split; [done|]. split; [|split_and!].
  - unfold leveldb_server.main. fold path. rewrite Eo, serve_opened, Es'. done.
  - apply image_equiv in E'. by rewrite Ef', Ef, E', store_files_replace.
  - by rewrite El', El, lock_unlock.
  - by rewrite El', El, lock_unlock.
Qed.

Lemma serve_length session p rs p' :
  sail.serve ar session p = Ok (rs, p') → length rs = length session.
Proof.
  revert p rs; induction session as [|q session IH]; intros p rs; cbn [sail.serve]; [by intros [= <- _]|].
  destruct (sail.handle ar q p) as [[r p1]| |]; try done. cbn [mbind res_bind].
  destruct (sail.serve ar session p1) as [[rs1 p2]| |] eqn:E; try done. cbn [mbind res_bind].
  intros [= <- <-]. simpl. by rewrite (IH _ _ E).
Qed.

Lemma runs_serve flags sessions (p : LevelDBPersistence) (d : D) :
  let path := leveldb_server.FLAGS_db flags in
  ready path (image_of p) (mkdir path d) →
  ∃ rss p' d', leveldb_server.runs ar flags sessions d = Ok (rss, d') ∧
    sail.serve ar (mjoin sessions) p = Ok (mjoin rss, p') ∧ locks d' = locks d ∧
    length <$> rss = length <$> sessions ∧
    (sessions ≠ [] → files d' = store_files path (image_of p') ∪ files d).
Proof.
  intros path. revert p d; induction sessions as [|session sessions IH]; intros p d Hr.
  - by exists [], p, d.
  - destruct (main_ready flags session p d Hr) as (rs & p1 & d1 & Es & Em & Ef & El & Hn). fold path in Ef, Hn.
    destruct (IH p1 d1) as (rss & p2 & d2 & Er & Es2 & El2 & En2 & Ef2).
    { eapply ready_stored; [by rewrite mkdir_files|by rewrite mkdir_locks]. }
    exists (rs :: rss), p2, d2. split_and!.
    + cbn [leveldb_server.runs]. rewrite Em. cbn [mbind res_bind]. by rewrite Er.
    + change (mjoin (session :: sessions)) with (session ++ mjoin sessions).
      by rewrite (serve_app ar _ (mjoin sessions) _ _ _ Es), Es2.
    + congruence.
    + rewrite !fmap_cons, En2. by rewrite (serve_length _ _ _ _ Es).
    + intros _. destruct sessions as [|s sessions].
      * cbn in Er, Es2. injection Er as <- <-. by injection Es2 as <-.
      * by rewrite Ef2, Ef, store_files_replace by done.
Qed.
End ServerProofs.

(** The first handle is what opening the spoc database gave. *)
Lemma open_spoc `{LK : !LevelDB key64} `{LB : !LevelDB bytes} {D : Type} `{!DiskDB D key64} `{!DiskDB D bytes}
    path cacheSize (d : D) :
  m_spoc (openLevelDBPersistence path cacheSize d).1 =
  (OpenDB (K:=key64) (buildOptions KeyComparator_Name cacheSize) (db_name path "spoc") d).1.
Proof.
  unfold openLevelDBPersistence, buildDB.
  repeat match goal with |- context [let '(_, _) := ?x in _] => destruct x end. done.
Qed.

(** ** Properties *)

Section ServerTheorems.
Context (ar : arch) `{PBL : ProtobufLaws}.
Context `{LK : !LevelDB key64} `{LKL : !LevelDBLaws key64}.
Context `{CB : !Comparator bytes} `{CBL : !ComparatorLaws bytes} `{LB : !LevelDB bytes} `{LBL : !LevelDBLaws bytes}.
Context {D : Type} `{!Disk D} `{!DiskLaws D}.
Context `{!DiskDB D key64} `{!DiskDBLaws D key64} `{!DiskDB D bytes} `{!DiskDBLaws D bytes}.

(** C8. A server that is stopped and started again, any number of times, on the
    same database directory answers every call as a server that was never
    stopped, the calls being the same, and leaves the same databases; the
    other databases of the disk are untouched, and nothing stays locked. *)
Theorem restart_transparent (flags : leveldb_server.Flags) (sessions : list (list sail.request))
    (im : image) (d : D) :
  sessions ≠ [] → ready (leveldb_server.FLAGS_db flags) im (mkdir (leveldb_server.FLAGS_db flags) d) →
  ∃ rss im' d1 d2,
    leveldb_server.runs ar flags sessions d = Ok (rss, d1) ∧
    leveldb_server.main ar flags (mjoin sessions) d = Ok (listening flags, mjoin rss, d2) ∧
    length <$> rss = length <$> sessions ∧
    files d1 = store_files (leveldb_server.FLAGS_db flags) im' ∪ files d ∧ files d2 = files d1 ∧
    locks d1 = locks d ∧ locks d2 = locks d.
Proof.
  intros Hne Hr.
  destruct (open_ready _ (leveldb_server.FLAGS_cache_size flags) _ _ Hr) as (p & d0 & _ & Ei & _).
  rewrite <- Ei in Hr.
  destruct (runs_serve ar flags sessions p d Hr) as (rss & p1 & d1 & E1 & Es1 & El1 & En & Ef1).
  destruct (main_ready ar flags (mjoin sessions) p d Hr) as (rs & p2 & d2 & Es2 & E2 & Ef2 & El2 & _).
  rewrite Es1 in Es2. injection Es2 as <- <-. specialize (Ef1 Hne).
  exists rss, (image_of p1), d1, d2. split_and!; try done. by rewrite Ef2.
Qed.

(** While a store is open no second one can be opened on the same path, in this
    or another process: it gets null handles; a store at another path is not
    affected. *)
Theorem store_exclusive (path : string) (cacheSize : Z) (im : image) (d : D) :
  ready path im d →
  ∃ p d', openLevelDBPersistence path cacheSize d = (opened p, d') ∧ image_of p = im ∧
    (∀ cacheSize', m_spoc (openLevelDBPersistence path cacheSize' d').1 = None) ∧
    (∀ path' im', path' ≠ path → ready path' im' d → ready path' im' d').
Proof.
  intros Hr. destruct (open_ready path cacheSize im d Hr) as (p & d' & E & Ei & Ef & El & Ed).
  exists p, d'. split_and!; try done.
  - intros c. rewrite open_spoc. apply open_locked. rewrite El. unfold names, suffixes. simpl. set_solver.
  - intros path' im' Hne Hr'. unfold ready in *. rewrite Forall_forall in Hr' |- *. intros e He.
    destruct (Hr' e He) as [Hl Hf].
    assert (Hn : db_name path' e.1 ∉ names path).
    { intros Hn. apply Hne. eapply names_path, Hn.
      change suffixes with (image_files im').*1. by apply list_elem_of_fmap_2. }
    split; [by rewrite El, not_elem_of_union|]. rewrite Ef, lookup_union_r by (by apply store_files_None).
    destruct Hf as [|(? & ? & Hd)]; [by left|right]. split_and!; [done|done|]. by apply Ed.
Qed.

(** C39. The server starts although it could not open its database: when the
    database is in use, when neither its directory nor the parent of it exists,
    or when the statement database was written with another comparator (the
    result of mkdir is ignored, and the assertion on the one of opening is
    compiled out), it listens on its address all the same, and a session with
    any call that uses the spoc database ends in the use of a null pointer
    instead of an error status. *)
Theorem server_start_fails (flags : leveldb_server.Flags) (d : D) :
  let path := leveldb_server.FLAGS_db flags in
  let spoc := db_name path "spoc" in
  spoc ∈ locks d ∨
  (∃ parent base, path = under parent base ∧ plain base ∧ (parent ∉ dirs d) ∧ (path ∉ dirs d) ∧
     files d !! spoc = None) ∨
  (∃ c m, files d !! spoc = Some (c, m) ∧ c ≠ KeyComparator_Name) →
  (∃ d', leveldb_server.main ar flags [] d = Ok (listening flags, [], d')) ∧
  ∀ session, existsb uses_spoc session = true →
    leveldb_server.main ar flags session d = Throw (UndefinedBehaviour "null database handle").
Proof.
  intros path spoc Hb. unfold leveldb_server.main. fold path.
  pose proof (open_spoc path (leveldb_server.FLAGS_cache_size flags) (mkdir path d)) as Es. fold spoc in Es.
  set (o := buildOptions _ _) in Es.
  assert (Hn : (OpenDB (K:=key64) o spoc (mkdir path d)).1 = None).
  { destruct Hb as [Hb|[(parent & base & Ep & Hp & Hd & Hd' & Hf)|(c & m & Hf & Hc)]].
    - apply open_locked. by rewrite mkdir_locks.
    - apply (open_orphan o path "spoc.db").
      + by apply (db_name_plain "spoc"), list_elem_of_here.
      + rewrite Ep at 2. by rewrite mkdir_orphan.
      + by rewrite mkdir_files.
    - apply (open_comparator o spoc c m); [by rewrite mkdir_files|done]. }
  rewrite Hn in Es. destruct (openLevelDBPersistence path _ (mkdir path d)) as [m d1]. simpl in Es.
  split; [by eexists|]. intros session Hq%existsb_exists. rewrite (serve_null ar); [done|done|].
  destruct Hq as (q & Hin & Hq). apply Exists_exists. exists q. split; [by apply list_elem_of_In|].
  intros m' Hm. by eapply uses_spoc_null.
Qed.
End ServerTheorems.

(** ** A disk that satisfies the laws

    A record of maps: a handle is the map read from the file. *)

Record disk_map := mkDisk {
  dm_dirs : gset string;
  dm_files : gmap string file;
  dm_locks : gset string;
}.

(** The directory and the last component of a path. *)
Fixpoint split_path (l : list ascii) : option (list ascii * list ascii) :=
  match l with
  | [] => None
  | c :: l =>
      match split_path l with
      | Some (parent, base) => Some (c :: parent, base)
      | None => if decide (c = "/"%char) then Some ([], l) else None
      end
  end.

Definition parent_of (path : string) : string :=
  match split_path (String.list_ascii_of_string path) with
  | Some (parent, _) => String.string_of_list_ascii parent
  | None => ""
  end.

Lemma split_path_none l : "/"%char ∉ l → split_path l = None.
Proof.
  induction l as [|c l IH]; [done|]. intros Hc. simpl. rewrite IH by set_solver.
  rewrite decide_False; set_solver.
Qed.

Lemma split_path_last p l : "/"%char ∉ l → split_path (p ++ "/"%char :: l) = Some (p, l).
Proof.
  intros Hl. induction p as [|c p IH]; simpl.
  - by rewrite split_path_none.
  - by rewrite IH.
Qed.

Lemma parent_of_under path base : plain base → parent_of (under path base) = path.
Proof.
  intros Hb. unfold parent_of, under. rewrite !ascii_app. change (String.list_ascii_of_string "/") with ["/"%char].
  cbn [app]. rewrite split_path_last by done. apply String.string_of_list_ascii_of_string.
Qed.

#[global] Instance disk_map_disk : Disk disk_map := {
  mkdir path d :=
    if decide (parent_of path ∈ dm_dirs d)
    then mkDisk ({[path]} ∪ dm_dirs d) (dm_files d) (dm_locks d) else d;
  dirs := dm_dirs;
  files := dm_files;
  locks := dm_locks;
}.

#[global] Instance disk_map_laws : DiskLaws disk_map.
Proof.
  split; simpl; intros *; try case_decide; simpl; try done.
  - set_solver.
  - set_solver.
  - intros Hb Hp. by rewrite parent_of_under in *.
  - intros Hb Hp. by rewrite parent_of_under in *.
Qed.

Section DiskMapDB.
Context {K : Type} `{Countable K} `{!Comparator K} `{!ComparatorLaws K} `{!DiskKey K}.
Context (decode : bytes → K) (decode_raw : ∀ k, decode (key_raw k) = k).

Definition unraw (m : gmap bytes bytes) : gmap K bytes :=
  list_to_map ((λ e : bytes * bytes, (decode e.1, e.2)) <$> map_to_list m).

Lemma unraw_raw (m : gmap K bytes) : unraw (raw m) = m.
Proof using decode_raw.
  assert (Inj (=) (=) (key_raw (K:=K))) by (intros k k' E; by rewrite <- (decode_raw k), E).
  assert (Hp : (λ e : bytes * bytes, (decode e.1, e.2)) <$> map_to_list (raw m) ≡ₚ map_to_list m).
  { unfold raw. rewrite map_to_list_kmap by done. rewrite <- list_fmap_compose.
    rewrite <- (list_fmap_id (map_to_list m)) at 2. apply reflexive_eq, list_fmap_ext.
    intros i [k v] _. simpl. by rewrite decode_raw. }
  unfold unraw. rewrite (list_to_map_proper _ (map_to_list m)); [apply list_to_map_to_list| |done].
  rewrite Hp. apply NoDup_fst_map_to_list.
Qed.

Definition disk_map_db : DiskDB (H0:=MapDB.map_db) disk_map K := {|
  OpenDB o name d :=
    let lock := λ fs, mkDisk (dm_dirs d) fs ({[name]} ∪ dm_locks d) in
    if decide (name ∈ dm_locks d) then (None, d)
    else match dm_files d !! name with
    | Some (c, m) => if decide (c = comparator o) then (Some (unraw m), lock (dm_files d)) else (None, d)
    | None =>
        if create_if_missing o && bool_decide (parent_of name ∈ dm_dirs d)
        then (Some ∅, lock (<[name := (comparator o, ∅)]> (dm_files d))) else (None, d)
    end;
  DeleteDB db name d :=
    mkDisk (dm_dirs d) (alter (λ f : file, (f.1, raw db)) name (dm_files d)) (dm_locks d ∖ {[name]});
|}.

Lemma disk_map_db_laws :
  DiskDBLaws (LK:=MapDB.map_db) (DiskDB0:=disk_map_db) disk_map K.
Proof using decode_raw.
  split; simpl.
  - intros o name m d Hl Hf. rewrite decide_False, Hf, decide_True by done.
    eexists _, _. split; [reflexivity|]. by rewrite unraw_raw.
  - intros o path base d Hl Hf Hc Hb Hd. rewrite decide_False, Hf, Hc by done.
    rewrite bool_decide_eq_true_2 by (by rewrite parent_of_under). eexists _, _. by split.
  - intros o name d Hl. by rewrite decide_True.
  - intros o path base d Hb Hd Hf. case_decide; [done|]. rewrite Hf.
    rewrite bool_decide_eq_false_2 by (by rewrite parent_of_under). by rewrite andb_false_r.
  - intros o name c m d Hf Hc. case_decide; [done|]. by rewrite Hf, decide_False.
  - intros db name c m d Hf. apply map_eq. intros k. rewrite lookup_insert. case_decide as E.
    + subst k. by rewrite lookup_alter_eq, Hf.
    + by rewrite lookup_alter_ne.
  - done.
  - done.
Qed.
End DiskMapDB.

Section StorageWitnesses.
Import Demo.
#[local] Instance disk_keys : DiskDB disk_map key64 := disk_map_db Slice.
#[local] Instance disk_bytes : DiskDB disk_map bytes := disk_map_db (λ b, b).

#[local] Instance disk_keys_laws : DiskDBLaws disk_map key64.
Proof.
  apply disk_map_db_laws. intros k. apply dsig_eq. unfold key_raw, key64_raw, Slice. simpl.
  apply resize_all_alt. symmetry. apply key64_length.
Qed.
#[local] Instance disk_bytes_laws : DiskDBLaws disk_map bytes.
Proof. by apply disk_map_db_laws. Qed.

(** A disk with only the directory /tmp. *)
Definition fresh_disk : disk_map := mkDisk {["/tmp"%string]} ∅ ∅.

Definition demo_sessions : list (list sail.request) :=
  [[sail.AddStatementsCall quads; sail.AddNamespacesCall [foaf]];
   [sail.RemoveStatementsCall (by_subject "bob")];
   [sail.GetStatementsCall any None; sail.SizeCall (mkContextRequest []); sail.GetNamespacesCall None]].

Lemma fresh_ready : ready "/tmp/testdb" empty_image (mkdir "/tmp/testdb" fresh_disk).
Proof.
  unfold ready. apply Forall_forall. intros e He. split; [apply not_elem_of_empty|]. right. split_and!.
  - apply lookup_empty.
  - unfold image_files in He. simpl in He. rewrite !elem_of_cons in He.
    by destruct He as [->|[->|[->|[->|[->|[->|[->|[]%elem_of_nil]]]]]]].
  - apply (bool_decide_unpack _). vm_compute. exact I.
Qed.

(** Three runs of the server, evaluated: the third one answers from what the
    first two left on the disk. *)
Example three_runs :
  fst <$> leveldb_server.runs ar leveldb_server.default_flags demo_sessions fresh_disk =
  Ok [[sail.CountReply StatusOK 3; sail.CountReply StatusOK 1]; [sail.CountReply StatusOK 1];
      [sail.StatementStream StatusOK [quad "alice" "knows" "carol" "g2"; quad "alice" "knows" "bob" "g1"];
       sail.CountReply StatusOK 2; sail.NamespaceStream StatusOK [foaf]]].
Proof. vm_compute. reflexivity. Qed.

Lemma restart_transparent_witness :
  ∃ rss im' d1 d2,
    leveldb_server.runs ar leveldb_server.default_flags demo_sessions fresh_disk = Ok (rss, d1) ∧
    leveldb_server.main ar leveldb_server.default_flags (mjoin demo_sessions) fresh_disk =
      Ok ("0.0.0.0:10000"%string, mjoin rss, d2) ∧
    length <$> rss = length <$> demo_sessions ∧
    files d1 = store_files "/tmp/testdb" im' ∪ files fresh_disk ∧ files d2 = files d1 ∧
    locks d1 = locks fresh_disk ∧ locks d2 = locks fresh_disk.
Proof.
  apply (restart_transparent ar leveldb_server.default_flags demo_sessions empty_image fresh_disk).
  - discriminate.
  - exact fresh_ready.
Defined.

Lemma store_exclusive_witness :
  ∃ p d', openLevelDBPersistence "/tmp/testdb" 1000 (mkdir "/tmp/testdb" fresh_disk) = (opened p, d') ∧
    image_of p = empty_image ∧
    (∀ cacheSize', m_spoc (openLevelDBPersistence "/tmp/testdb" cacheSize' d').1 = None) ∧
    (∀ path' im', path' ≠ "/tmp/testdb"%string → ready path' im' (mkdir "/tmp/testdb" fresh_disk) → ready path' im' d').
Proof. apply (store_exclusive "/tmp/testdb" 1000 empty_image). exact fresh_ready. Defined.

Definition orphan_flags : leveldb_server.Flags := leveldb_server.mkFlags "0.0.0.0" "10000" "/data/db" 1000.

Lemma server_start_fails_witness :
  (∃ d', leveldb_server.main ar orphan_flags [] fresh_disk = Ok ("0.0.0.0:10000"%string, [], d')) ∧
  leveldb_server.main ar orphan_flags [sail.AddStatementsCall quads] fresh_disk =
    Throw (UndefinedBehaviour "null database handle").
Proof.
  destruct (server_start_fails ar orphan_flags fresh_disk) as [Hs Hq].
  - right. left. exists "/data"%string, "db"%string.
    split_and!; try reflexivity; apply (bool_decide_unpack _); vm_compute; exact I.
  - exact (conj Hs (Hq [sail.AddStatementsCall quads] eq_refl)).
Defined.
End StorageWitnesses.
