(* ===== verification/Crash.v ===== *)
(** * Crash: mutations that are cut off, and what a restarted server can do

    Every write of a mutation is checked with CHECK_STATUS: when one fails the
    process aborts, whatever the other writer threads have done by then.  A
    process that is killed stops in such a state, too.  [write_step] is the end
    of a mutation with these outcomes.  The databases are then on disk as the
    threads left them, and the next server opens them as they are: there is no
    recovery code.

    An addition can be repeated, a removal cannot; but adding the statements
    again that a removal was to delete restores the store. *)

From Stdlib Require Import ZArith Lia.
From S2P Require Import Prelude Words Murmur3 Messages Iterators LevelDB Keys Wire RdfOperators.
From S2P Require Import Persistence PersistenceSpec Refinement UpdateProofs Service DemoStore.
From S2P Require Import Commit Concurrency ServiceTheorems Namespaces Split StoreEquiv Storage.

(** ** The end of a mutation *)

Section Model.
Context `{LK : !LevelDB key64} `{LB : !LevelDB bytes}.
Context (b : StmtBatches) (bn : NsBatches).

Inductive process :=
  | Writing (ws : list writer) (p : LevelDBPersistence)
  | Committed (p : LevelDBPersistence)
  | Aborted (p : LevelDBPersistence).

(** What is in the databases. *)
Definition on_disk (s : process) : LevelDBPersistence :=
  match s with Writing _ p | Committed p | Aborted p => p end.

(** A failed write may have reached the database or not; then the process is
    gone, with all its threads. *)
Inductive write_step : process → process → Prop :=
  | write_ok l1 w l2 p :
      write_step (Writing (l1 ++ w :: l2) p) (Writing (l1 ++ l2) (run_writer b bn w p))
  | write_error l1 w l2 p p' :
      p' = p ∨ p' = run_writer b bn w p → write_step (Writing (l1 ++ w :: l2) p) (Aborted p')
  | write_join p : write_step (Writing [] p) (Committed p).

(** Every database has all of its batch or nothing of it. *)
Definition torn (p q : LevelDBPersistence) : Prop :=
  (∀ t, index_db t q = index_db t p ∨ index_db t q = Write (index_db t p) (stmt_batch t b)) ∧
  same_ns p q.

Definition torn_state (p : LevelDBPersistence) (s : process) : Prop :=
  torn p (on_disk s) ∧
  match s with
  | Writing ws q => NoDup ws ∧ ws ⊆ stmt_writers ∧ ∀ t, writer_of t ∈ ws → index_db t q = index_db t p
  | _ => True
  end.

Lemma same_ns_writer w p : w ∈ stmt_writers → same_ns p (run_writer b bn w p).
Proof. destruct p, w; unfold same_ns; simpl; try done; set_solver. Qed.

Lemma torn_writer p q w :
  w ∈ stmt_writers → torn p q → (∀ t, w = writer_of t → index_db t q = index_db t p) →
  torn p (run_writer b bn w q).
Proof.
  intros Hw [Hi (En & Eu & Em)] Hf. split.
  - intros t. rewrite run_writer_index. destruct (decide (w = writer_of t)) as [Hwt|]; [|done].
    right. by rewrite Hf.
  - destruct (same_ns_writer w q Hw) as (En' & Eu' & Em'). split_and!; congruence.
Qed.

Lemma torn_step p s s' : write_step s s' → torn_state p s → torn_state p s'.
Proof.
  intros Hs [Ht Hw]. destruct Hs as [l1 w l2 q|l1 w l2 q q' Hq|q]; simpl in *.
  - destruct Hw as (Hnd & Hsub & Hf).
    assert (Hwn : w ∉ l1 ++ l2).
    { apply NoDup_app in Hnd as (_ & ? & [? _]%NoDup_cons). set_solver. }
    split; [apply torn_writer; [set_solver|done|]; intros t ->; apply Hf; set_solver|]. split_and!.
    + apply NoDup_app in Hnd as (? & ? & ?%NoDup_cons). apply NoDup_app. set_solver.
    + set_solver.
    + intros t Hin. rewrite run_writer_index, decide_False by (intros ->; done). apply Hf. set_solver.
  - split; [|done]. destruct Hw as (_ & Hsub & Hf). destruct Hq as [->| ->]; [done|].
    apply torn_writer; [set_solver|done|]. intros t ->. apply Hf. set_solver.
  - done.
Qed.

End Model.

Section Runs.
Context `{LK : !LevelDB key64} `{LB : !LevelDB bytes}.

(** Wherever the threads are stopped, every database is whole. *)
Lemma torn_rtc b bn p s :
  rtc (write_step b bn) (Writing stmt_writers p) s → torn b p (on_disk s).
Proof.
  intros Hr. eapply (rtc_preserved _ (torn_state b p)); [apply torn_step|exact Hr|].
  split; [split; [by left|done]|]. split_and!; [|done|done].
  apply (bool_decide_unpack _). vm_compute. exact I.
Qed.
End Runs.

(** ** Batches on maps *)

Section Batches.
Context (ar : arch) `{PBL : ProtobufLaws}.

Definition entry (t : IndexType) (st : Statement) : key64 * bytes :=
  (stmt_key ar t st, SerializeToString st).

Lemma apply_adds t l m :
  apply_batch (op_batch ar t <$> (SAdd <$> l)) m = list_to_map (reverse (entry t <$> l)) ∪ m.
Proof.
  rewrite <- foldl_insert_union. unfold apply_batch. revert m.
  induction l as [|st l IH]; intros m; [done|]. apply IH.
Qed.

Lemma apply_adds_idemp t l m :
  let B := op_batch ar t <$> (SAdd <$> l) in apply_batch B (apply_batch B m) = apply_batch B m.
Proof. cbv zeta. by rewrite !apply_adds, assoc, (idemp_L (∪)) by apply _. Qed.

Lemma lookup_dels t l m k :
  k ∉ stmt_key ar t <$> l → apply_batch (op_batch ar t <$> (SDel <$> l)) m !! k = m !! k.
Proof.
  revert m. induction l as [|st l IH]; intros m Hk; [done|]. cbn [fmap list_fmap] in *.
  apply not_elem_of_cons in Hk as [Hne Hk]. unfold apply_batch. cbn [foldl].
  etrans; [apply IH, Hk|]. simpl. by rewrite lookup_delete_ne.
Qed.

(** Adding entries that [m] has restores [m] wherever it differs at their keys. *)
Lemma apply_adds_restore t l m m' :
  (∀ st, st ∈ l → m !! stmt_key ar t st = Some (SerializeToString st)) →
  (∀ k, k ∉ stmt_key ar t <$> l → m' !! k = m !! k) →
  apply_batch (op_batch ar t <$> (SAdd <$> l)) m' = m.
Proof.
  intros Hl Hm. rewrite apply_adds. apply map_eq. intros k. rewrite lookup_union.
  destruct (list_to_map (reverse (entry t <$> l)) !! k) as [v|] eqn:E.
  - apply elem_of_list_to_map_2 in E. rewrite elem_of_reverse, list_elem_of_fmap in E.
    destruct E as (st & [= -> ->] & Hst). rewrite Hl by done. by destruct (m' !! _).
  - apply not_elem_of_list_to_map_2 in E. rewrite left_id by apply _. apply Hm.
    intros Hk. apply E. rewrite fmap_reverse, elem_of_reverse, <- list_fmap_compose. exact Hk.
Qed.
End Batches.

(** ** After the restart *)

Section Recovery.
Context (ar : arch) `{PBL : ProtobufLaws}.
Context `{LK : !LevelDB key64} `{LKL : !LevelDBLaws key64}.
Context `{CB : !Comparator bytes} `{CBL : !ComparatorLaws bytes} `{LB : !LevelDB bytes} `{LBL : !LevelDBLaws bytes}.
Context {D : Type} `{!Disk D} `{!DiskLaws D}.
Context `{!DiskDB D key64} `{!DiskDBLaws D key64} `{!DiskDB D bytes} `{!DiskDBLaws D bytes}.

(** A new server opens an equivalent store. *)
Lemma reopen (path : string) (cacheSize : Z) (p : LevelDBPersistence) (d : D) :
  ready path (image_of p) d → ∃ q d', openLevelDBPersistence path cacheSize d = (opened q, d') ∧ q ≡ p.
Proof.
  intros Hd. destruct (open_ready path cacheSize _ d Hd) as (q & d' & E & Ei & _). exists q, d'.
  split; [done|]. exact (proj1 (image_equiv q p) Ei).
Qed.

(** Each database of a torn store holds the old map or the new one. *)
Lemma torn_index (b : StmtBatches) (l : list stmt_op) (p q : LevelDBPersistence) (t : IndexType) :
  batches_are ar b l → torn b p q →
  index_maps q t = index_maps p t ∨ index_maps q t = apply_batch (op_batch ar t <$> l) (index_maps p t).
Proof.
  intros Hb [Ht _]. unfold index_maps. rewrite <- (Hb t).
  destruct (Ht t) as [->| ->]; [by left|right; apply write_contents].
Qed.

Lemma AddStatements_writes (l : list Statement) (b : StmtBatches) (n : Z) (p : LevelDBPersistence) :
  add_batches ar l = Ok (b, n) → AddStatements ar (newReaderIterator l) p = Ok (n, write_stmts p b).
Proof. intros E. unfold AddStatements. change (for_each _ _ _) with (add_batches ar l). by rewrite E. Qed.

(** Writing a batch to a torn store, database by database. *)
Lemma rewrite_torn (b b' : StmtBatches) (l l' : list stmt_op) (p q r : LevelDBPersistence) :
  batches_are ar b l → batches_are ar b' l' → torn b p q → same_ns p r →
  (∀ t, apply_batch (op_batch ar t <$> l') (index_maps p t) = index_maps r t) →
  (∀ t, apply_batch (op_batch ar t <$> l') (apply_batch (op_batch ar t <$> l) (index_maps p t)) = index_maps r t) →
  write_stmts q b' ≡ r.
Proof.
  intros Hb Hb' Ht (Er1 & Er2 & Er3) H1 H2. pose proof Ht as [_ (E1 & E2 & E3)]. split_and!.
  - intros t. rewrite (write_stmts_maps ar q b' l' t Hb'). unfold apply_sops.
    destruct (torn_index b l p q t Hb Ht) as [->| ->]; auto.
  - simpl. congruence.
  - simpl. congruence.
  - simpl. congruence.
Qed.

(** C9. An addition that was cut off anywhere can be repeated: the restarted
    server opens what the aborted one left, and after the same call its store
    holds what the uninterrupted addition would have left. *)
Theorem crash_add_redo (l : list Statement) (b : StmtBatches) (n : Z) (p : LevelDBPersistence)
    (s : process) (path : string) (cacheSize : Z) (d : D) :
  add_batches ar l = Ok (b, n) →
  rtc (write_step b empty_ns_batches) (Writing stmt_writers p) s →
  ready path (image_of (on_disk s)) d →
  ∃ q d' q' p', openLevelDBPersistence path cacheSize d = (opened q, d') ∧
    AddStatements ar (newReaderIterator l) q = Ok (n, q') ∧
    AddStatements ar (newReaderIterator l) p = Ok (n, p') ∧ q' ≡ p'.
Proof.
  intros Ea Hr Hd. destruct (reopen path cacheSize _ d Hd) as (q & d' & Eo & Ei).
  exists q, d', (write_stmts q b), (write_stmts p b). rewrite !(AddStatements_writes l b n) by done.
  split_and!; try done. rewrite Ei.
  destruct (add_batches_ops ar l) as (b' & E & Hb). rewrite Ea in E. inv_ok.
  eapply rewrite_torn; [exact Hb|exact Hb|exact (torn_rtc _ _ _ _ Hr)|done|..]; intros t;
    rewrite (write_stmts_maps ar p _ _ t Hb); [done|]. apply apply_adds_idemp.
Qed.

(** C10. A removal that was cut off anywhere can be undone: adding the statements
    that matched to the reopened store gives the store before the removal. *)
Theorem crash_remove_undo (pattern : Statement) (b : StmtBatches) (n : Z) (p : LevelDBPersistence)
    (s : process) (path : string) (cacheSize : Z) (d : D) :
  Inv ar p → RemoveStatements_batch ar pattern empty_stmt_batches p = Ok (b, n) →
  rtc (write_step b empty_ns_batches) (Writing stmt_writers p) s →
  ready path (image_of (on_disk s)) d →
  ∃ l q d' q', GetStatements ar pattern (λ l st, Ok (true, l ++ [st])) [] p = Ok l ∧
    openLevelDBPersistence path cacheSize d = (opened q, d') ∧
    AddStatements ar (newReaderIterator l) q = Ok (n, q') ∧ q' ≡ p.
Proof.
  intros HI Er Hr Hd. destruct (reopen path cacheSize _ d Hd) as (q & d' & Eo & Ei).
  destruct (RemoveStatements_batch_ops ar pattern _ _ p (batches_are_empty ar)) as (b' & E & Hb).
  rewrite Er in E. inv_ok. destruct (add_batches_ops ar (results ar pattern p)) as (ba & Ea & Hba).
  exists (results ar pattern p), q, d', (write_stmts q ba). rewrite (GetStatements_collect ar).
  split_and!; try done; [by apply AddStatements_writes|]. rewrite Ei.
  assert (Hin : ∀ t st, st ∈ results ar pattern p → index_maps p t !! stmt_key ar t st = Some (SerializeToString st)).
  { intros t st Hst. apply (holds_inv ar p t HI). exists st. split; [|done].
    apply (elem_of_results ar pattern p st HI) in Hst. unfold spec_get in Hst.
    by apply elem_of_filter in Hst as [_ ?]. }
  eapply rewrite_torn; [exact Hb|exact Hba|exact (torn_rtc _ _ _ _ Hr)|done|..]; intros t;
    apply apply_adds_restore; auto. intros k Hk. by apply lookup_dels.
Qed.

(** C11. A removal that was cut off is not completed by repeating it: when only
    the index that the pattern scans was written, the repeated call finds
    nothing to remove, and every query that reads another index still returns
    the statements. *)
Theorem crash_remove_ghost (pattern : Statement) (b : StmtBatches) (n : Z) (p : LevelDBPersistence) :
  Inv ar p → RemoveStatements_batch ar pattern empty_stmt_batches p = Ok (b, n) →
  ∃ s, rtc (write_step b empty_ns_batches) (Writing stmt_writers p) (Aborted s) ∧
    ∀ path cacheSize (d : D), ready path (image_of s) d →
    ∃ q d' q', openLevelDBPersistence path cacheSize d = (opened q, d') ∧
      RemoveStatements ar pattern q = Ok (0%Z, q') ∧ q' ≡ q ∧
      ∀ pattern', type_ (newPatternQuery pattern') ≠ type_ (newPatternQuery pattern) →
        ∀ A (f : A → Statement → res (bool * A)) a,
        GetStatements ar pattern' f a q' = GetStatements ar pattern' f a p.
Proof.
  intros HI Er. set (t := type_ (newPatternQuery pattern)).
  exists (run_writer b empty_ns_batches (writer_of t) p). split.
  { apply rtc_once. assert (Hw : writer_of t ∈ stmt_writers) by (destruct t; unfold stmt_writers; set_solver).
    apply list_elem_of_split in Hw as (l1 & l2 & ->). constructor. by right. }
  intros path cacheSize d Hd. destruct (reopen path cacheSize _ d Hd) as (q & d' & Eo & Ei).
  destruct (RemoveStatements_batch_ops ar pattern _ _ p (batches_are_empty ar)) as (b' & E & Hb).
  rewrite Er in E. inv_ok.
  simpl in Hb.
  destruct (write_stmts_refines ar p b' _ HI Hb) as (HI' & Ha & _). rewrite (foldl_del_results ar pattern p HI) in Ha.
  assert (E0 : results ar pattern q = []).
  { rewrite Ei, (results_index ar pattern _ (write_stmts p b')).
    - apply length_zero_iff_nil. rewrite (results_length ar pattern _ HI'), Ha.
      apply size_empty_iff. unfold spec_get, spec_remove. set_solver.
    - fold t. rewrite run_writer_index, decide_True by done. by destruct t. }
  destruct (RemoveStatements_batch_ops ar pattern _ _ q (batches_are_empty ar)) as (b0 & E & Hb0).
  rewrite E0 in E, Hb0. exists q, d', (write_stmts q b0). unfold RemoveStatements. rewrite E.
  assert (Eq : write_stmts q b0 ≡ q).
  { split; [|done]. intros t'. by rewrite (write_stmts_maps ar q b0 _ t' Hb0). }
  split_and!; try done. intros pattern' Hne A f a. rewrite Eq, Ei. unfold GetStatements.
  rewrite !for_each_while_elements. f_equal. apply (results_index ar pattern').
  rewrite run_writer_index, decide_False; [done|]. intros Hw. apply Hne. fold t.
  destruct (type_ (newPatternQuery pattern')), t; done.
Qed.
End Recovery.

Section CrashWitnesses.
Import Demo.
#[local] Existing Instances disk_keys disk_bytes disk_keys_laws disk_bytes_laws.

(** A disk with a store at /tmp/testdb that no process has open. *)
Definition left_behind (p : store) : disk_map :=
  mkDisk {["/tmp"%string; "/tmp/testdb"%string]} (store_files "/tmp/testdb" (image_of p)) ∅.

Lemma left_behind_ready p : ready "/tmp/testdb" (image_of p) (left_behind p).
Proof. apply (ready_stored _ _ ∅); [symmetry; apply (right_id_L ∅ (∪))|apply disjoint_empty_r]. Qed.

Definition dan : list Statement := [quad "dan" "knows" "bob" "g9"].

(** The batches of adding [dan], and of removing what is about alice. *)
Definition dan_batches : StmtBatches := AddStatement ar (quad "dan" "knows" "bob" "g9") empty_stmt_batches.

Definition alice_batches : StmtBatches :=
  match RemoveStatements_batch ar (by_subject "alice") empty_stmt_batches loaded with
  | Ok (b, _) => b
  | _ => empty_stmt_batches
  end.

(** The write to spoc fails when the one to pcos is done. *)
Definition spoc_lost (b : StmtBatches) : store := run_writer b empty_ns_batches W_pcos loaded.

Lemma spoc_lost_run b :
  rtc (write_step b empty_ns_batches) (Writing stmt_writers loaded) (Aborted (spoc_lost b)).
Proof.
  eapply rtc_l; [apply (write_ok b empty_ns_batches [] W_pcos)|]. apply rtc_once.
  apply (write_error b empty_ns_batches [W_opsc; W_cspo] W_spoc []). by left.
Qed.

Lemma crash_add_redo_witness :
  ∃ q d' q' p', openLevelDBPersistence "/tmp/testdb" 1000 (left_behind (spoc_lost dan_batches)) = (opened q, d') ∧
    AddStatements ar (newReaderIterator dan) q = Ok (1%Z, q') ∧
    AddStatements ar (newReaderIterator dan) loaded = Ok (1%Z, p') ∧ q' ≡ p'.
Proof.
  apply (crash_add_redo ar dan dan_batches 1 loaded (Aborted (spoc_lost dan_batches))).
  - reflexivity.
  - apply spoc_lost_run.
  - apply left_behind_ready.
Defined.

Lemma crash_remove_undo_witness :
  ∃ l q d' q', GetStatements ar (by_subject "alice") (λ l st, Ok (true, l ++ [st])) [] loaded = Ok l ∧
    openLevelDBPersistence "/tmp/testdb" 1000 (left_behind (spoc_lost alice_batches)) = (opened q, d') ∧
    AddStatements ar (newReaderIterator l) q = Ok (2%Z, q') ∧ q' ≡ loaded.
Proof.
  apply (crash_remove_undo ar (by_subject "alice") alice_batches 2 loaded (Aborted (spoc_lost alice_batches))).
  - exact loaded_inv.
  - vm_compute. reflexivity.
  - apply spoc_lost_run.
  - apply left_behind_ready.
Defined.

Lemma crash_remove_ghost_witness :
  ∃ s : store, rtc (write_step alice_batches empty_ns_batches) (Writing stmt_writers loaded) (Aborted s) ∧
    ∀ path cacheSize (d : disk_map), ready path (image_of s) d →
    ∃ q d' q', openLevelDBPersistence path cacheSize d = (opened q, d') ∧
      RemoveStatements ar (by_subject "alice") q = Ok (0%Z, q') ∧ q' ≡ q ∧
      ∀ pattern', type_ (newPatternQuery pattern') ≠ type_ (newPatternQuery (by_subject "alice")) →
        ∀ A (f : A → Statement → res (bool * A)) a,
        GetStatements ar pattern' f a q' = GetStatements ar pattern' f a loaded.
Proof.
  apply (crash_remove_ghost ar (by_subject "alice") alice_batches 2 loaded).
  - exact loaded_inv.
  - vm_compute. reflexivity.
Defined.
End CrashWitnesses.
