(* ===== verification/TripleSource.v ===== *)
(** * TripleSource: persistence/leveldb_sparql.cc

    The triple source a SPARQL query reads.  [WrapProtoStatementIterator] wraps
    the statement iterator of the persistence and hands out model objects: it
    moves the message out of the wrapped iterator, so the old content of its
    own object ends up in the buffer of the wrapped one.  Its constructor does
    not initialise the flag [parsed]; the value it happens to have is an
    argument here. *)

From Stdlib Require Import ZArith Lia.
From S2P Require Import Prelude Words Murmur3 Messages Iterators LevelDB Keys Wire RdfOperators RdfModel.
From S2P Require Import Persistence PersistenceSpec Refinement UpdateProofs Matching Service DemoStore.

Section TripleSource.
Context (ar : arch) `{PB : Protobuf}.
Context `{LK : !LevelDB key64} `{LB : !LevelDB bytes}.

Record WrapProtoStatementIterator := mkWrap {
  wp_it : StatementRangeIterator;
  current : rdf.Statement.t;
  wp_parsed : bool;
}.

Definition newWrap (garbage : bool) (it : StatementRangeIterator) : WrapProtoStatementIterator :=
  mkWrap it rdf.Statement.new garbage.

(** Assignment through the reference the wrapped iterator returned. *)
Definition set_proto (it : StatementRangeIterator) (m : Statement) : StatementRangeIterator :=
  mkStatementRangeIterator
    (mkLevelDBIterator (ldb_it (sri_base it)) m (ldb_parsed (sri_base it))) (loKey it) (hiKey it).

Definition wp_next (w : WrapProtoStatementIterator) : WrapProtoStatementIterator :=
  mkWrap (next (wp_it w)) (current w) false.

Definition wp_deref (w : WrapProtoStatementIterator) :
    res (rdf.Statement.t * WrapProtoStatementIterator) :=
  if negb (wp_parsed w) then
    '(m, it) ← deref (wp_it w);
    let '(cur, m) := rdf.Statement.assign_message_move (current w) m in
    Ok (cur, mkWrap (set_proto it m) cur true)
  else Ok (current w, w).

(** What the wrapper yields when the wrapped iterator yields [l]. *)
Definition wp_yield (w : WrapProtoStatementIterator) (l : list Statement) : list rdf.Statement.t :=
  match l with
  | [] => []
  | m :: l =>
      (if wp_parsed w then current w else rdf.Statement.of_message m)
        :: (rdf.Statement.of_message <$> l)
  end.

#[global] Instance wrap_iterator : CloseableIterator WrapProtoStatementIterator rdf.Statement.t := {
  next := wp_next;
  deref := wp_deref;
  hasNext w := hasNext (wp_it w);
  elements w := wp_yield w (elements (wp_it w));
}.

(** The pattern of the four optional terms. *)
Definition build_pattern (s : option rdf.Resource.t) (p : option rdf.URI.t)
    (o : option rdf.Value.t) (c : option rdf.Resource.t) : Statement :=
  let m := default_instance in
  let m := match s with Some s => mutable_subject (λ _, rdf.Resource.getMessage s) m | None => m end in
  let m := match p with Some p => mutable_predicate (λ _, rdf.URI.getMessage p) m | None => m end in
  let m := match o with Some o => mutable_object (λ _, rdf.Value.getMessage o) m | None => m end in
  match c with Some c => mutable_context (λ _, rdf.Resource.getMessage c) m | None => m end.

Definition HasStatement (s : option rdf.Resource.t) (p : option rdf.URI.t)
    (o : option rdf.Value.t) (c : option rdf.Resource.t) (st : LevelDBPersistence) : res bool :=
  GetStatements ar (build_pattern s p o c) (λ _ _, Ok (false, true)) false st.

Definition ts_GetStatements (garbage : bool) (s : option rdf.Resource.t) (p : option rdf.URI.t)
    (o : option rdf.Value.t) (c : option rdf.Resource.t) (st : LevelDBPersistence) :
    WrapProtoStatementIterator :=
  newWrap garbage (GetStatements_it ar (build_pattern s p o c) st).
End TripleSource.
Arguments WrapProtoStatementIterator {_}.

Section TripleSourceProofs.
Context (ar : arch) `{PBL : ProtobufLaws}.
Context `{LK : !LevelDB key64} `{LKL : !LevelDBLaws key64}.
Context `{CB : !Comparator bytes} `{LB : !LevelDB bytes} `{LBL : !LevelDBLaws bytes}.

(** A fresh or advanced database iterator has nothing parsed; the wrapped one
    never sets the flag, so moving out of its buffer does not change what it
    yields. *)
Definition unparsed (w : WrapProtoStatementIterator) : Prop :=
  ldb_parsed (sri_base (wp_it w)) = false.

Lemma elements_set_proto it m :
  ldb_parsed (sri_base it) = false → elements (set_proto it m) = elements it.
Proof.
  intros Hp. simpl. rewrite !ldb_yield_unparsed by done. done.
Qed.

Lemma deref_unparsed (it it' : StatementRangeIterator) m :
  ldb_parsed (sri_base it) = false → deref it = Ok (m, it') →
  ldb_parsed (sri_base it') = false ∧ elements it' = elements it.
Proof.
  destruct it as [[i m0 pa] lo hi]. simpl. intros ->.
  unfold ldb_deref. cbn -[ldb_yield]. destruct (it_value i) as [v|e|]; cbn -[ldb_yield]; intros ?; inv_ok.
  simpl. split; [done|].
  by rewrite !ldb_yield_unparsed.
Qed.

(** The iteration protocol of the wrapper, from the flag being clear. *)
Lemma wp_loop {S} (fuel : nat) (body : S → rdf.Statement.t → res S) (w : WrapProtoStatementIterator) s :
  unparsed w → wp_parsed w = false → length (elements (wp_it w)) < fuel →
  for_loop fuel body w s = foldM body s (rdf.Statement.of_message <$> elements (wp_it w)).
Proof.
  revert w s; induction fuel as [|fuel IH]; intros w s Hu Hp Hf; [lia|]. cbn [for_loop].
  change (hasNext w) with (hasNext (wp_it w)).
  destruct (elements (wp_it w)) as [|m l] eqn:E.
  - by rewrite (hasNext_nil _ E).
  - rewrite (hasNext_cons _ _ _ E). destruct (deref_elements _ _ _ E) as (it' & Hd & E').
    change (deref w) with (wp_deref w). unfold wp_deref. rewrite Hp. cbn [negb]. rewrite Hd.
    cbn [mbind res_bind]. destruct (deref_unparsed _ _ _ Hu Hd) as [Hu' _].
    cbn -[set_proto for_loop elements]. destruct (body s _) as [s'| |]; cbn -[set_proto for_loop elements]; [|done..].
    assert (El : elements (next (set_proto it' (rdf.Statement.internal_ (current w)))) = l).
    { apply (next_elements _ m). by rewrite elements_set_proto. }
    simpl in Hf. etrans.
    + apply IH; [done|done|]. change (length (elements (next (set_proto it'
        (rdf.Statement.internal_ (current w))))) < fuel). rewrite El. lia.
    + by rewrite <- El.
Qed.
End TripleSourceProofs.

Section TripleSourceTheorems.
Context (ar : arch) `{PBL : ProtobufLaws}.
Context `{LK : !LevelDB key64} `{LKL : !LevelDBLaws key64}.
Context `{CB : !Comparator bytes} `{LB : !LevelDB bytes} `{LBL : !LevelDBLaws bytes}.

(** HasStatement answers whether a stored statement is in the range of the
    pattern of its terms, after looking at one result at most. *)
Theorem has_statement_correct (s : option rdf.Resource.t) (p : option rdf.URI.t)
    (o : option rdf.Value.t) (c : option rdf.Resource.t) (st : LevelDBPersistence) :
  Inv ar st →
  HasStatement ar s p o c st =
  Ok (bool_decide (spec_get ar (build_pattern s p o c) (abs st) ≠ ∅)).
Proof.
  intros HI. unfold HasStatement, GetStatements. rewrite for_each_while_elements.
  fold (results ar (build_pattern s p o c) st).
  rewrite (fold_while_first (λ _ _, true)). f_equal.
  pose proof (elem_of_results ar (build_pattern s p o c) st) as Hin.
  destruct (results ar (build_pattern s p o c) st) as [|x l] eqn:E.
  - rewrite bool_decide_eq_false_2; [done|]. intros Hne. apply Hne.
    apply elem_of_equiv_empty_L. intros x Hx%(Hin x HI). by apply elem_of_nil in Hx.
  - rewrite bool_decide_eq_true_2; [done|]. intros He.
    assert (Hx : x ∈ x :: l) by (by left). apply (Hin x HI) in Hx. rewrite He in Hx.
    by apply not_elem_of_empty in Hx.
Qed.

(** When the flag [parsed] happens to be clear, a loop over the iterator of
    the triple source sees exactly the results of the pattern, as model
    objects, in order, although every access moves the message out of the
    buffer of the wrapped iterator. *)
Theorem triple_source_iterates (s : option rdf.Resource.t) (p : option rdf.URI.t)
    (o : option rdf.Value.t) (c : option rdf.Resource.t) (st : LevelDBPersistence) :
  Inv ar st →
  ∃ l, GetStatements ar (build_pattern s p o c) (λ l st, Ok (true, l ++ [st])) [] st = Ok l ∧
    for_each (λ l x, Ok (l ++ [x])) (ts_GetStatements ar false s p o c st) [] =
    Ok (rdf.Statement.of_message <$> l).
Proof.
  intros HI. exists (results ar (build_pattern s p o c) st).
  rewrite (GetStatements_collect ar (build_pattern s p o c)). split; [done|].
  unfold for_each. rewrite wp_loop.
  - change (elements (wp_it (ts_GetStatements ar false s p o c st))) with
      (results ar (build_pattern s p o c) st).
    by rewrite (foldM_pure (λ l x, l ++ [x])), foldl_snoc.
  - done.
  - done.
  - change (elements (wp_it (ts_GetStatements ar false s p o c st))) with
      (results ar (build_pattern s p o c) st).
    change (elements (ts_GetStatements ar false s p o c st)) with
      (wp_yield (ts_GetStatements ar false s p o c st) (results ar (build_pattern s p o c) st)).
    destruct (results ar (build_pattern s p o c) st); simpl; [lia|]. rewrite length_fmap. lia.
Qed.

(** When the uninitialised flag [parsed] happens to be set, the same loop
    sees an empty statement in place of the first result, and then the rest. *)
Theorem triple_source_uninitialised (s : option rdf.Resource.t) (p : option rdf.URI.t)
    (o : option rdf.Value.t) (c : option rdf.Resource.t) (st : LevelDBPersistence) :
  Inv ar st →
  ∃ l, GetStatements ar (build_pattern s p o c) (λ l st, Ok (true, l ++ [st])) [] st = Ok l ∧
    for_each (λ l x, Ok (l ++ [x])) (ts_GetStatements ar true s p o c st) [] =
    Ok (match l with [] => [] | _ :: l => rdf.Statement.new :: (rdf.Statement.of_message <$> l) end).
Proof.
  intros HI. exists (results ar (build_pattern s p o c) st).
  rewrite (GetStatements_collect ar (build_pattern s p o c)). split; [done|].
  set (w := ts_GetStatements ar true s p o c st).
  assert (Ew : elements w = wp_yield w (results ar (build_pattern s p o c) st)) by done.
  assert (Ei : elements (wp_it w) = results ar (build_pattern s p o c) st) by done.
  unfold for_each. rewrite Ew. cbn [for_loop Nat.add].
  change (hasNext w) with (hasNext (wp_it w)).
  destruct (results ar (build_pattern s p o c) st) as [|m l].
  - by rewrite (hasNext_nil _ Ei).
  - rewrite (hasNext_cons _ _ _ Ei). change (deref w) with (Ok (rdf.Statement.new, w)).
    cbn [mbind res_bind]. pose proof (next_elements _ _ _ Ei) as En.
    etrans; [apply (wp_loop _ _ (next w)); try done|].
    + change (elements (wp_it (next w))) with (elements (next (wp_it w))). rewrite En.
      simpl. rewrite length_fmap. lia.
    + change (elements (wp_it (next w))) with (elements (next (wp_it w))). rewrite En.
      by rewrite (foldM_pure (λ l x, l ++ [x])), foldl_snoc.
Qed.
End TripleSourceTheorems.

Section TripleSourceWitnesses.
Import Demo.

Lemma has_statement_correct_witness :
  HasStatement ar (Some (rdf.Resource.of_string "alice")) (Some (rdf.URI.of_string "knows"))
    None None loaded = Ok true.
Proof.
  rewrite (has_statement_correct ar (Some (rdf.Resource.of_string "alice"))
    (Some (rdf.URI.of_string "knows")) None None loaded loaded_inv).
  vm_compute. reflexivity.
Defined.

Lemma triple_source_iterates_witness :
  ∃ l, GetStatements ar (build_pattern None None None None) (λ l st, Ok (true, l ++ [st])) []
         loaded = Ok l ∧
    for_each (λ l x, Ok (l ++ [x])) (ts_GetStatements ar false None None None None loaded) [] =
    Ok (rdf.Statement.of_message <$> l).
Proof. apply (triple_source_iterates ar None None None None loaded loaded_inv). Defined.

Lemma triple_source_uninitialised_witness :
  ∃ l, GetStatements ar (build_pattern None None None None) (λ l st, Ok (true, l ++ [st])) []
         loaded = Ok l ∧
    for_each (λ l x, Ok (l ++ [x])) (ts_GetStatements ar true None None None None loaded) [] =
    Ok (match l with [] => [] | _ :: l => rdf.Statement.new :: (rdf.Statement.of_message <$> l) end).
Proof. apply (triple_source_uninitialised ar None None None None loaded loaded_inv). Defined.
End TripleSourceWitnesses.
