(* ===== verification/Sharding.v ===== *)
(** * Sharding: the proxy service of sharding/sharding.cc

    [SailBackend] is the SailService interface as a client stub sees it, for a
    backend in state [B]; streams are lists.  [ShardingService] keeps one
    backend per configured server and is written against that interface;
    LevelDBService implements it below.  The threads of a fan-out work on
    different backends, so each backend is called once; what the threads do to
    the shared counter is in [race_step], and a fan-out returns one of its
    outcomes.  How the writes to the result stream of a query interleave is in
    [interleave]. *)

From Stdlib Require Import ZArith Lia.
From S2P Require Import Prelude Words Murmur3 Messages Iterators LevelDB Keys RdfOperators.
From S2P Require Import Persistence Service.
Local Open Scope Z_scope.

(** ** The service interface *)

Class SailBackend (B : Type) := {
  be_AddNamespaces : list Namespace → B → res (Status * Z * B);
  be_GetNamespace : Namespace → B → res (Status * Namespace);
  be_GetNamespaces : B → res (Status * list Namespace);
  be_AddStatements : list Statement → B → res (Status * Z * B);
  be_GetStatements : Statement → B → res (Status * list Statement);
  be_RemoveStatements : Statement → B → res (Status * Z * B);
  be_Update : list UpdateRequest → B → res (Status * UpdateResponse * B);
  be_Clear : ContextRequest → B → res (Status * Z * B);
  be_Size : ContextRequest → B → res (Status * Z * B);
  be_GetContexts : B → res (Status * list Resource);
}.

(** LevelDBService behind a stub. *)
Section LevelDBBackend.
Context (ar : arch) `{PB : Protobuf} `{LK : !LevelDB key64} `{LB : !LevelDB bytes}.

Definition leveldb_backend : SailBackend LevelDBPersistence := {|
  be_AddNamespaces := svc_AddNamespaces;
  be_GetNamespace := svc_GetNamespace;
  be_GetNamespaces p := '(s, w) ← svc_GetNamespaces (newServerWriter None) p; Ok (s, written w);
  be_AddStatements := svc_AddStatements ar;
  be_GetStatements pattern p :=
    '(s, w) ← svc_GetStatements ar pattern (newServerWriter None) p; Ok (s, written w);
  be_RemoveStatements := svc_RemoveStatements ar;
  be_Update := svc_Update ar;
  be_Clear := svc_Clear ar;
  be_Size contexts p := '(s, n) ← svc_Size ar contexts p; Ok (s, n, p);
  be_GetContexts p := '(s, w) ← svc_GetContexts ar (newServerWriter None) p; Ok (s, written w);
|}.
End LevelDBBackend.

(** ** Running every backend *)

(** Call each backend with its own argument; the results in order. *)
Fixpoint run_each {B A R} (call : A → B → res (Status * R * B)) (args : list A) (bs : list B) :
    res (list (Status * R) * list B) :=
  match args, bs with
  | a :: args, b :: bs =>
      '(s, r, b) ← call a b;
      '(rs, bs) ← run_each call args bs;
      Ok ((s, r) :: rs, b :: bs)
  | _, _ => Ok ([], [])
  end.

(** [for (auto s : statuses) if (!s.ok()) return s;] *)
Definition first_error {R} (rs : list (Status * R)) : Status :=
  match filter (λ r, status_ok r.1 = false) rs with
  | [] => StatusOK
  | (s, _) :: _ => s
  end.

(** The loops of AddStatements over the responses, when all streams are finished. *)
Definition sum_values (rs : list (Status * Z)) : Z := foldl (λ r x, r + x.2) 0 rs.

(** ** The counter of a fan-out

    [r += response.value()] runs in every thread without a lock: a load, then
    a store. *)

Inductive counter_thread := Loading (v : Z) | Storing (v tmp : Z) | Finished.

Inductive race_step : list counter_thread * Z → list counter_thread * Z → Prop :=
  | race_load ts i v r :
      ts !! i = Some (Loading v) → race_step (ts, r) (<[i := Storing v r]> ts, r)
  | race_store ts i v tmp r :
      ts !! i = Some (Storing v tmp) → race_step (ts, r) (<[i := Finished]> ts, tmp + v).

(** What the counter may hold when all threads are joined. *)
Definition race_outcome (answers : list Z) (r : Z) : Prop :=
  ∃ ts, rtc race_step (Loading <$> answers, 0) (ts, r) ∧ Forall (λ t, t = Finished) ts.

Section ShardingService.
Context {B : Type} `{SB : SailBackend B} `{PB : Protobuf} (string_hash : bytes → Z).

(** The state: one backend per channel. *)
Abbreviation ShardingState := (list B).

(** The fan-out template: the same request to all backends, the answers added up
    by the threads, the first status that is not OK.  [tally] is what the
    schedule of the threads makes of the sum: any function into
    [race_outcome]. *)
Context (tally : list Z → Z).

Definition Fanout {Req} (ClientMethod : Req → B → res (Status * Z * B)) (request : Req)
    (backends : ShardingState) : res (Status * Z * ShardingState) :=
  '(rs, bs) ← run_each ClientMethod (replicate (length backends) request) backends;
  Ok (first_error rs, tally (snd <$> rs), bs).

(** [x % backends.size()] *)
Definition bucket_of (h : Z) (backends : ShardingState) : res nat :=
  if bool_decide (backends = []) then Throw (UndefinedBehaviour "modulo zero")
  else Ok (Z.to_nat (h mod Z.of_nat (length backends))).

Definition nth_backend (i : nat) (backends : ShardingState) : res B :=
  match backends !! i with
  | Some b => Ok b
  | None => Throw (UndefinedBehaviour "index out of range")
  end.

Definition sh_AddNamespaces (reader : list Namespace) (backends : ShardingState) :
    res (Status * Z * ShardingState) :=
  '(rs, bs) ← run_each be_AddNamespaces (replicate (length backends) reader) backends;
  match rs with
  | [] => Throw (UndefinedBehaviour "stats[0] of an empty vector")
  | (_, n) :: _ => Ok (StatusOK, n, bs)
  end.

(** [rnd] is the value of [rand()]. *)
Definition sh_GetNamespace (rnd : Z) (pattern : Namespace) (backends : ShardingState) :
    res (Status * Namespace) :=
  i ← bucket_of rnd backends;
  b ← nth_backend i backends;
  be_GetNamespace pattern b.

Definition sh_GetNamespaces (rnd : Z) (backends : ShardingState) :
    res (Status * list Namespace) :=
  i ← bucket_of rnd backends;
  b ← nth_backend i backends;
  be_GetNamespaces b.

(** The bucket of a statement: [stmt_hash(stmt) % backends.size()]. *)
Definition stmt_bucket (st : Statement) (backends : ShardingState) : res nat :=
  bucket_of (Statement_hash string_hash st) backends.

(** [writers[i]->Write(x)]: the streams to the backends. *)
Definition write_to {A} (i : nat) (x : A) (writers : list (list A)) : list (list A) :=
  alter (λ l, l ++ [x]) i writers.

Definition write_to_all {A} (x : A) (writers : list (list A)) : list (list A) :=
  (λ l, l ++ [x]) <$> writers.

Definition route_statement (backends : ShardingState) (writers : list (list Statement))
    (st : Statement) : res (list (list Statement)) :=
  i ← stmt_bucket st backends;
  Ok (write_to i st writers).

Definition sh_AddStatements (reader : list Statement) (backends : ShardingState) :
    res (Status * Z * ShardingState) :=
  writers ← foldM (route_statement backends) (replicate (length backends) []) reader;
  '(rs, bs) ← run_each be_AddStatements writers backends;
  Ok (StatusOK, sum_values rs, bs).

(** The answers of the backends, before the threads merge them. *)
Fixpoint shard_results (pattern : Statement) (backends : list B) : res (list (list Statement)) :=
  match backends with
  | [] => Ok []
  | b :: bs =>
      '(_, l) ← be_GetStatements pattern b;
      ls ← shard_results pattern bs;
      Ok (l :: ls)
  end.

Definition sh_RemoveStatements (pattern : Statement) (backends : ShardingState) :=
  Fanout be_RemoveStatements pattern backends.

Definition sh_Clear (contexts : ContextRequest) (backends : ShardingState) :=
  Fanout be_Clear contexts backends.

Definition sh_Size (contexts : ContextRequest) (backends : ShardingState) :=
  Fanout be_Size contexts backends.

Definition route_update (backends : ShardingState) (writers : list (list UpdateRequest))
    (req : UpdateRequest) : res (list (list UpdateRequest)) :=
  match req with
  | stmt_added st =>
      i ← stmt_bucket st backends;
      Ok (write_to i req writers)
  | _ => Ok (write_to_all req writers)
  end.

Definition add_response (r x : UpdateResponse) : UpdateResponse :=
  mkUpdateResponse (added_statements r + added_statements x)
    (removed_statements r + removed_statements x)
    (added_namespaces r + added_namespaces x)
    (removed_namespaces r + removed_namespaces x).

Definition sh_Update (reader : list UpdateRequest) (backends : ShardingState) :
    res (Status * UpdateResponse * ShardingState) :=
  writers ← foldM (route_update backends) (replicate (length backends) []) reader;
  '(rs, bs) ← run_each be_Update writers backends;
  Ok (StatusOK, foldl (λ r x, add_response r x.2) (mkUpdateResponse 0 0 0 0) rs, bs).

(** GetContexts starts a thread per backend and never joins it: destroying the
    vector of joinable threads terminates the process. *)
Definition sh_GetContexts (backends : ShardingState) : res (Status * list Resource) :=
  if bool_decide (backends = []) then Ok (StatusOK, [])
  else Throw (UndefinedBehaviour "std::terminate: joinable thread destroyed").
End ShardingService.

(** ** The result stream of GetStatements

    Each thread takes the lock for one write, so the client sees some
    interleaving of the answers. *)

Inductive interleave {A} : list (list A) → list A → Prop :=
  | interleave_done ls : Forall (λ l, l = []) ls → interleave ls []
  | interleave_write ls i x l out :
      ls !! i = Some (x :: l) → interleave (<[i := l]> ls) out → interleave ls (x :: out).
