(* ===== verification/ShardingProofs.v ===== *)
(** * ShardingProofs: the sharded store against the service interface

    [SailLaws] is what a backend promises, in terms of the abstract statement
    store; LevelDBService keeps it ([leveldb_backend_laws]).  The lemmas and
    theorems about ShardingService use only those laws: a statement lives on
    the backend its hash selects ([placed]), and the service behaves like one
    store that holds the union of the backends. *)

From Stdlib Require Import ZArith Lia.
From S2P Require Import Prelude Words Murmur3 Messages Iterators LevelDB Keys Wire RdfOperators.
From S2P Require Import Persistence PersistenceSpec Refinement UpdateProofs Matching.
From S2P Require Import Service Namespaces ServiceTheorems DemoStore Sharding.

(** ** What a backend promises *)

Class SailModel (B : Type) := {
  be_inv : B → Prop;
  be_abs : B → gset Statement;
}.

(** The answer of a backend to an update stream. *)
Definition stats_response (s : UpdateStatistics) : UpdateResponse :=
  mkUpdateResponse (added_stmts s) (removed_stmts s) (added_ns s) (removed_ns s).

(** What Clear leaves: the statements outside the contexts, or nothing. *)
Definition spec_clear (ar : arch) `{Protobuf} (contexts : list Resource) (A : gset Statement) : gset Statement :=
  match contexts with
  | [] => ∅
  | _ => filter (λ s, Forall (λ r, ¬ hash_matches ar (in_context r) s) contexts) A
  end.

Class SailLaws (ar : arch) (B : Type) `{Protobuf} `{SailBackend B} `{SailModel B} : Prop := {
  law_add l (b : B) :
    be_inv b → ∃ b', be_AddStatements l b = Ok (StatusOK, Z.of_nat (length l), b') ∧
      be_inv b' ∧ be_abs b' = foldl (λ A st, spec_add ar st A) (be_abs b) l;
  law_add_ns l (b : B) :
    be_inv b → ∃ b', be_AddNamespaces l b = Ok (StatusOK, Z.of_nat (length l), b') ∧
      be_inv b' ∧ be_abs b' = be_abs b;
  law_clear contexts (b : B) :
    be_inv b → ∃ b', be_Clear (mkContextRequest contexts) b =
        Ok (StatusOK, Z.of_nat (size (be_abs b) - size (be_abs b')), b') ∧
      be_inv b' ∧ be_abs b' = spec_clear ar contexts (be_abs b);
  law_get pattern (b : B) :
    be_inv b → ∃ l, be_GetStatements pattern b = Ok (StatusOK, l) ∧ NoDup l ∧
      ∀ st, st ∈ l ↔ st ∈ spec_get ar pattern (be_abs b);
  law_remove pattern (b : B) :
    be_inv b → ∃ b', be_RemoveStatements pattern b =
        Ok (StatusOK, Z.of_nat (size (spec_get ar pattern (be_abs b))), b') ∧
      be_inv b' ∧ be_abs b' = spec_remove ar pattern (be_abs b);
  law_size (b : B) :
    be_inv b → be_Size (mkContextRequest []) b = Ok (StatusOK, Z.of_nat (size (be_abs b)), b);
  law_update reqs (b : B) :
    be_inv b → ∃ b', be_Update reqs b =
        Ok (StatusOK, stats_response (foldl (spec_stats ar (be_abs b))
                                        (mkUpdateStatistics 0 0 0 0) reqs), b') ∧
      be_inv b' ∧ be_abs b' = foldl (spec_update ar (be_abs b)) (be_abs b) reqs;
}.

Lemma AddNamespaces_refines (ar : arch) `{PBL : ProtobufLaws}
    `{LK : !LevelDB key64} `{LKL : !LevelDBLaws key64}
    `{CB : !Comparator bytes} `{LB : !LevelDB bytes} `{LBL : !LevelDBLaws bytes}
    {It} `{IteratorLaws It Namespace} (it : It) (p : LevelDBPersistence) :
  Inv ar p →
  ∃ p', AddNamespaces it p = Ok (Z.of_nat (length (elements it)), p') ∧ Inv ar p' ∧ abs p' = abs p.
Proof.
  intros HI. destruct (AddNamespaces_contents it p) as (p' & E & _). exists p'. split; [done|].
  unfold AddNamespaces in E. destruct (for_each _ _ _) as [[b c]| |]; try done.
  simpl in E. inv_ok. by apply write_ns_refines.
Qed.

Section LevelDBBackendLaws.
Context (ar : arch) `{PBL : ProtobufLaws}.
Context `{LK : !LevelDB key64} `{LKL : !LevelDBLaws key64}.
Context `{CB : !Comparator bytes} `{LB : !LevelDB bytes} `{LBL : !LevelDBLaws bytes}.

Definition leveldb_model : SailModel LevelDBPersistence := {|
  be_inv := Inv ar;
  be_abs := abs;
|}.

Lemma leveldb_backend_laws :
  @SailLaws ar LevelDBPersistence _ (leveldb_backend ar) leveldb_model.
Proof.
  split.
  - intros l p HI.
    destruct (AddStatements_refines ar (newReaderIterator l) p HI) as (p' & E & HI' & Ha & _).
    rewrite elements_newReaderIterator in E, Ha.
    exists p'. simpl. unfold svc_AddStatements. by rewrite E.
  - intros l p HI. simpl. unfold svc_AddNamespaces.
    destruct (AddNamespaces_refines ar (newReaderIterator l) p HI) as (p' & E & HI' & Ha).
    rewrite elements_newReaderIterator in E. exists p'. by rewrite E.
  - intros contexts p HI.
    destruct (svc_Clear_refines ar contexts p HI) as (p' & E & HI' & _ & Ha). exists p'. simpl. by rewrite E.
  - intros pattern p HI. exists (results ar pattern p). simpl.
    destruct (write_stream (results ar pattern p) (newServerWriter None)) as [r E].
    unfold svc_GetStatements, GetStatements. rewrite for_each_while_elements.
    fold (results ar pattern p). rewrite E. split; [done|].
    split; [exact (results_nodup ar pattern p HI)|].
    intros st. exact (elem_of_results ar pattern p st HI).
  - intros pattern p HI.
    destruct (RemoveStatements_refines ar pattern p HI) as (p' & E & HI' & Ha & _).
    exists p'. simpl. unfold svc_RemoveStatements. by rewrite E.
  - intros p HI. simpl. by rewrite (svc_Size_refines ar [] p HI).
  - intros reqs p HI.
    destruct (Update_refines ar (newReaderIterator reqs) p HI) as (p' & E & HI' & Ha & _).
    rewrite elements_newReaderIterator in E, Ha.
    exists p'. simpl. unfold svc_Update. by rewrite E.
Qed.
End LevelDBBackendLaws.

(** ** Calling every backend *)

Section RunEach.
Context {B A R : Type} (call : A → B → res (Status * R * B)).
Context (Q : A → B → R → B → Prop).

(** Argument, backend, answer and new backend, pointwise. *)
Inductive each : list A → list B → list R → list B → Prop :=
  | each_nil : each [] [] [] []
  | each_cons a b r b' args bs rs bs' :
      Q a b r b' → each args bs rs bs' → each (a :: args) (b :: bs) (r :: rs) (b' :: bs').

(** The same for calls of any outcome, by position. *)
Lemma run_each_any (P : nat → Status * R → B → Prop) args bs :
  length args = length bs →
  (∀ i a b, args !! i = Some a → bs !! i = Some b → ∃ s r b', call a b = Ok (s, r, b') ∧ P i (s, r) b') →
  ∃ rs bs', run_each call args bs = Ok (rs, bs') ∧ length rs = length bs ∧ length bs' = length bs ∧
    ∀ i, i < length bs → ∃ r b', rs !! i = Some r ∧ bs' !! i = Some b' ∧ P i r b'.
Proof.
  revert P bs. induction args as [|a args IH]; intros P [|b bs] Hl HP; simpl in Hl; try done.
  - exists [], []. split_and!; [done..|]. simpl. lia.
  - destruct (HP 0 a b eq_refl eq_refl) as (s & r & b' & E & H0).
    destruct (IH (λ i, P (S i)) bs ltac:(lia) (λ i, HP (S i))) as (rs & bs' & Er & Hlr & Hlb & HE).
    exists ((s, r) :: rs), (b' :: bs'). simpl. rewrite E. simpl. rewrite Er. split_and!; [done|simpl; lia..|].
    intros [|i] Hi; simpl; [eauto|]. apply HE. lia.
Qed.

Lemma run_each_spec args bs :
  Forall2 (λ a b, ∃ r b', call a b = Ok (StatusOK, r, b') ∧ Q a b r b') args bs →
  ∃ rs bs', run_each call args bs = Ok ((λ r, (StatusOK, r)) <$> rs, bs') ∧
    each args bs rs bs'.
Proof.
  induction 1 as [|a b args bs (r & b' & E & HQ) _ (rs & bs' & Er & HE)]; simpl.
  - exists [], []. split; [done|constructor].
  - exists (r :: rs), (b' :: bs'). rewrite E. simpl. rewrite Er. split; [done|by constructor].
Qed.

Lemma each_length args bs rs bs' :
  each args bs rs bs' → length args = length bs ∧ length rs = length bs ∧ length bs' = length bs.
Proof. induction 1 as [|? ? ? ? ? ? ? ? _ _ (?&?&?)]; simpl; lia. Qed.

Lemma each_lookup args bs rs bs' i b' :
  each args bs rs bs' → bs' !! i = Some b' →
  ∃ a b r, args !! i = Some a ∧ bs !! i = Some b ∧ rs !! i = Some r ∧ Q a b r b'.
Proof.
  intros HE. revert i. induction HE as [|a b r c args bs rs bs' HQ HE IH]; intros [|i] E;
    simpl in *; try done.
  - injection E as ->. by exists a, b, r.
  - by apply IH.
Qed.

Lemma each_lookup_l args bs rs bs' i b :
  each args bs rs bs' → bs !! i = Some b →
  ∃ a r b', args !! i = Some a ∧ bs' !! i = Some b' ∧ rs !! i = Some r ∧ Q a b r b'.
Proof.
  intros HE. revert i. induction HE as [|a c r b' args bs rs bs' HQ HE IH]; intros [|i] E;
    simpl in *; try done.
  - injection E as ->. by exists a, r, b'.
  - by apply IH.
Qed.
End RunEach.

Lemma first_error_ok {R} (rs : list R) : first_error ((λ r, (StatusOK, r)) <$> rs) = StatusOK.
Proof. unfold first_error. induction rs as [|r rs IH]; [done|]. apply IH. Qed.

Definition sum_Z (l : list Z) : Z := foldr Z.add 0%Z l.

Lemma sum_values_acc (rs : list Z) n :
  foldl (λ r x, r + x.2)%Z n ((λ r, (StatusOK, r)) <$> rs) = (n + sum_Z rs)%Z.
Proof.
  revert n; induction rs as [|r rs IH]; intros n; simpl; [lia|]. rewrite IH. simpl. lia.
Qed.

Lemma sum_values_ok (rs : list Z) : sum_values ((λ r, (StatusOK, r)) <$> rs) = sum_Z rs.
Proof. unfold sum_values. rewrite sum_values_acc. lia. Qed.

(** ** Sums over the backends *)

Definition sum_to (n : nat) (f : nat → Z) : Z := sum_Z (f <$> seq 0 n).

Lemma sum_to_S n f : sum_to (S n) f = (sum_to n f + f n)%Z.
Proof.
  unfold sum_to. rewrite seq_S, fmap_app. simpl. unfold sum_Z.
  induction (f <$> seq 0 n) as [|x l IH]; simpl; lia.
Qed.

Lemma sum_to_add n f g : sum_to n (λ i, f i + g i)%Z = (sum_to n f + sum_to n g)%Z.
Proof. induction n as [|n IH]; [done|]. rewrite !sum_to_S, IH. lia. Qed.

Lemma sum_to_ext n f g : (∀ i, i < n → f i = g i) → sum_to n f = sum_to n g.
Proof. intros E. induction n as [|n IH]; [done|]. rewrite !sum_to_S, IH, E; auto with lia. Qed.

Lemma sum_to_const n c : sum_to n (λ _, c) = (Z.of_nat n * c)%Z.
Proof. induction n as [|n IH]; [done|]. rewrite sum_to_S, IH. lia. Qed.

(** One of the backends counts. *)
Lemma sum_to_one n j c :
  sum_to n (λ i, if decide (j = i) then c else 0)%Z = if decide (j < n) then c else 0%Z.
Proof. induction n as [|n IH]; [done|]. rewrite sum_to_S, IH. repeat case_decide; lia. Qed.

Lemma sum_Z_cons x l : sum_Z (x :: l) = (x + sum_Z l)%Z.
Proof. done. Qed.

(** A set is the sum of its parts. *)
Lemma size_parts {A} `{Countable A} (n : nat) (part : A → nat) (X : gset A) :
  (∀ x, part x < n) → sum_to n (λ i, Z.of_nat (size (filter (λ x, part x = i) X))) = Z.of_nat (size X).
Proof.
  intros Hp. induction X as [|x X Hx IH] using set_ind_L.
  - rewrite (sum_to_ext _ _ (λ _, 0%Z)); [by rewrite sum_to_const, Z.mul_0_r|].
    intros i _. by rewrite filter_empty_L, size_empty by apply _.
  - rewrite size_union, size_singleton, Nat2Z.inj_add, <- IH by set_solver.
    rewrite <- (decide_True (P:=part x < n) (Z.of_nat 1) 0%Z (Hp x)) at 1.
    rewrite <- sum_to_one, <- sum_to_add. apply sum_to_ext. intros i _.
    rewrite filter_union_L, size_union by (apply _ || set_solver). rewrite Nat2Z.inj_add. f_equal.
    case_decide as Hi.
    + by rewrite filter_singleton_True_L, size_singleton by (apply _ || done).
    + by rewrite filter_singleton_False_L, size_empty by (apply _ || done).
Qed.

(** ** Interleavings *)

Lemma interleave_permutation {A} (ls : list (list A)) out :
  interleave ls out → out ≡ₚ mjoin ls.
Proof.
  induction 1 as [ls Hn|ls i x l out E _ IH].
  - induction Hn as [|l ls -> _ IH]; [done|]. exact IH.
  - rewrite IH. destruct (list_elem_of_split_length ls i (x :: l) E) as (l1 & l2 & -> & ->).
    replace (length l1) with (length l1 + 0) by lia. rewrite insert_app_r. simpl.
    rewrite !join_app. simpl. by rewrite Permutation_middle.
Qed.

(** ** Routing *)

Section Routing.
Context `{PB : Protobuf} (string_hash : bytes → Z).

Definition shard (n : nat) (st : Statement) : nat :=
  Z.to_nat (Statement_hash string_hash st mod Z.of_nat n).

Lemma shard_lt n st : 0 < n → shard n st < n.
Proof.
  intros Hn. unfold shard.
  pose proof (Z.mod_pos_bound (Statement_hash string_hash st) (Z.of_nat n) ltac:(lia)). lia.
Qed.

Lemma stmt_bucket_shard {B} (bs : list B) st :
  bs ≠ [] → stmt_bucket string_hash st bs = Ok (shard (length bs) st).
Proof. intros Hn. unfold stmt_bucket, bucket_of. by rewrite bool_decide_eq_false_2. Qed.

Lemma sum_write_to {A} i (x : A) ws :
  i < length ws → sum_list_with length (write_to i x ws) = S (sum_list_with length ws).
Proof.
  unfold write_to. revert i; induction ws as [|w ws IH]; intros [|i] Hi; simpl in Hi; [lia..| |].
  - change (alter (λ l, l ++ [x]) 0 (w :: ws)) with ((w ++ [x]) :: ws). simpl.
    rewrite length_app. simpl. lia.
  - change (alter (λ l, l ++ [x]) (S i) (w :: ws)) with (w :: alter (λ l, l ++ [x]) i ws).
    cbn [sum_list_with]. rewrite IH by lia. lia.
Qed.

Lemma route_statement_shard {B} (bs : list B) ws st :
  bs ≠ [] →
  route_statement string_hash bs ws st = Ok (write_to (shard (length bs) st) st ws).
Proof. intros Hn. unfold route_statement. by rewrite stmt_bucket_shard. Qed.

(** What the writer of backend [i] holds after routing. *)
Lemma route_statements {B} (bs : list B) reader ws :
  bs ≠ [] → length ws = length bs →
  ∃ ws', foldM (route_statement string_hash bs) ws reader = Ok ws' ∧ length ws' = length bs ∧
    (∀ i, ws' !! i = (λ l, l ++ filter (λ st, shard (length bs) st = i) reader) <$> ws !! i) ∧
    sum_list_with length ws' = sum_list_with length ws + length reader.
Proof.
  intros Hn. revert ws. induction reader as [|st reader IH]; intros ws Hlen.
  - exists ws. simpl. split_and!; [done|done| |lia].
    intros i. destruct (ws !! i); simpl; [by rewrite app_nil_r|done].
  - assert (Hpos : 0 < length bs) by (destruct bs; [done|simpl; lia]).
    pose proof (shard_lt (length bs) st Hpos) as Hlt.
    cbn [foldM]. rewrite route_statement_shard by done. cbn [mbind res_bind].
    destruct (IH (write_to (shard (length bs) st) st ws)) as (ws' & E & Hl & Hw & Hs).
    { unfold write_to. by rewrite length_alter. }
    exists ws'. split_and!; [done|done| |].
    + intros i. rewrite Hw. unfold write_to. rewrite filter_cons.
      destruct (decide (shard (length bs) st = i)) as [<-|Hi].
      * rewrite list_lookup_alter_eq. destruct (ws !! shard (length bs) st); simpl; [|done].
        by rewrite <- app_assoc.
      * by rewrite list_lookup_alter_ne.
    + rewrite Hs, sum_write_to by lia. simpl. lia.
Qed.
End Routing.
