(* ===== verification/FanoutRace.v ===== *)
(** * FanoutRace: the counter the threads of a fan-out share

    [r += response.value()] runs in every thread of Fanout without a lock.  The
    value the service returns is never above the sum of the answers and never
    below all of them; it is the sum when no two threads overlap, and there are
    schedules that lose answers. *)

From Stdlib Require Import ZArith Lia.
From S2P Require Import Prelude Words Murmur3 Messages Iterators LevelDB Keys RdfOperators.
From S2P Require Import Persistence Service Sharding ShardingProofs.

(** ** The unsynchronised counter *)

Definition finished_sum (ts : list counter_thread) (vs : list Z) : Z :=
  sum_Z (zip_with (λ t v, match t with Finished => v | _ => 0%Z end) ts vs).

(** Thread [i] adds [v_i]; what it loaded and the counter never exceed what the
    finished threads added. *)
Definition race_inv (vs : list Z) (s : list counter_thread * Z) : Prop :=
  Forall2 (λ t v, match t with
                  | Loading v' => v' = v
                  | Storing v' tmp => v' = v ∧ (tmp ≤ finished_sum s.1 vs)%Z
                  | Finished => True
                  end) s.1 vs ∧ (s.2 ≤ finished_sum s.1 vs)%Z.

Lemma finished_sum_store ts vs i t v :
  ts !! i = Some t → vs !! i = Some v → t ≠ Finished →
  finished_sum (<[i := Finished]> ts) vs = (finished_sum ts vs + v)%Z.
Proof.
  unfold finished_sum. revert vs i. induction ts as [|t' ts IH]; intros [|v' vs] [|i] Ht Hv Hn;
    simpl in *; try done.
  - injection Ht as ->. injection Hv as ->. unfold sum_Z. simpl. destruct t; [lia..|done].
  - unfold sum_Z in *. simpl. rewrite (IH vs i) by done. lia.
Qed.

Lemma finished_sum_load ts vs i v tmp :
  ts !! i = Some (Loading v) →
  finished_sum (<[i := Storing v tmp]> ts) vs = finished_sum ts vs.
Proof.
  unfold finished_sum. revert vs i. induction ts as [|t' ts IH]; intros [|v' vs] [|i] Ht;
    simpl in *; try done.
  - injection Ht as ->. done.
  - unfold sum_Z in *. simpl. by rewrite (IH vs i).
Qed.

Lemma Forall2_insert_left {A C} (P : A → C → Prop) l k i x y :
  Forall2 P l k → k !! i = Some y → P x y → Forall2 P (<[i := x]> l) k.
Proof. intros HF Hk HP. rewrite <- (list_insert_id k i y Hk). by apply Forall2_insert. Qed.

Lemma race_inv_step vs s s' :
  Forall (λ v, 0 ≤ v)%Z vs → race_step s s' → race_inv vs s → race_inv vs s'.
Proof.
  intros Hpos Hs [HF Hr]. destruct Hs as [ts i v r Hi | ts i v tmp r Hi]; simpl in *.
  - destruct (Forall2_lookup_l _ _ _ _ _ HF Hi) as (v' & Hv & ->).
    unfold race_inv. cbn [fst snd]. rewrite finished_sum_load by done. split; [|done].
    by eapply Forall2_insert_left.
  - destruct (Forall2_lookup_l _ _ _ _ _ HF Hi) as (v' & Hv & -> & Ht).
    unfold race_inv. cbn [fst snd]. rewrite (finished_sum_store ts vs i _ v' Hi Hv) by done.
    rewrite Forall_lookup in Hpos. pose proof (Hpos i v' Hv) as Hp. simpl in Hp. split; [|lia].
    eapply Forall2_insert_left; [|exact Hv|done].
    eapply Forall2_impl; [exact HF|]. intros [] ?; simpl; [done|intros [-> ?]; split; [done|lia]|done].
Qed.

Lemma race_inv_init vs : race_inv vs (Loading <$> vs, 0%Z).
Proof.
  split; simpl.
  - apply Forall2_fmap_l, Forall_Forall2_diag, Forall_true. done.
  - unfold finished_sum, sum_Z. induction vs as [|v vs IH]; [done|]. exact IH.
Qed.

Lemma finished_sum_all ts vs :
  Forall (λ t, t = Finished) ts → length ts = length vs → finished_sum ts vs = sum_Z vs.
Proof.
  intros HF. revert vs. induction HF as [|t ts -> _ IH]; intros [|v vs] Hl; simpl in *; try done.
  unfold finished_sum, sum_Z in *. simpl. rewrite IH by lia. done.
Qed.

(** The counter never falls below zero, and never below every answer once a
    thread has stored its sum. *)
Definition race_low (vs : list Z) (s : list counter_thread * Z) : Prop :=
  (0 ≤ s.2)%Z ∧
  Forall (λ t, match t with
               | Loading v => v ∈ vs
               | Storing v tmp => v ∈ vs ∧ (0 ≤ tmp)%Z
               | Finished => True
               end) s.1 ∧
  (Finished ∈ s.1 → ∃ v, v ∈ vs ∧ (v ≤ s.2)%Z).

Lemma race_low_step vs s s' :
  Forall (λ v, 0 ≤ v)%Z vs → race_step s s' → race_low vs s → race_low vs s'.
Proof.
  intros Hpos Hs (Hr & HF & Hl). destruct Hs as [ts i v r Hi | ts i v tmp r Hi]; simpl in *.
  - pose proof (Forall_lookup_1 _ _ _ _ HF Hi) as Hv. simpl in Hv. split_and!; simpl; [done|by apply Forall_insert|].
    intros [j Hj]%list_elem_of_lookup. apply Hl. apply list_lookup_insert_Some in Hj as [(_ & ? & _)|[_ Hj]]; [done|].
    by eapply list_elem_of_lookup_2.
  - pose proof (Forall_lookup_1 _ _ _ _ HF Hi) as [Hv Ht]. rewrite Forall_forall in Hpos.
    pose proof (Hpos v Hv) as Hp. simpl in Hp. split_and!; simpl; [lia|by apply Forall_insert|].
    intros _. exists v. split; [done|lia].
Qed.

Lemma race_low_init vs : race_low vs (Loading <$> vs, 0%Z).
Proof.
  split_and!; simpl; [done|by apply Forall_fmap, Forall_forall|].
  intros (v & ? & _)%list_elem_of_fmap. done.
Qed.

(** One thread after the other. *)
Lemma race_one_by_one done_ vs r :
  Forall (λ t, t = Finished) done_ →
  ∃ ts, rtc race_step (done_ ++ (Loading <$> vs), r) (ts, (r + sum_Z vs)%Z) ∧ Forall (λ t, t = Finished) ts.
Proof.
  revert done_ r. induction vs as [|v vs IH]; intros l r Hl.
  - exists l. rewrite app_nil_r. unfold sum_Z. simpl. rewrite Z.add_0_r. done.
  - destruct (IH (l ++ [Finished]) (r + v)%Z) as (ts & Hts & HF); [by apply Forall_app; auto|].
    exists ts. split; [|done].
    replace (r + sum_Z (v :: vs))%Z with ((r + v) + sum_Z vs)%Z by (unfold sum_Z; simpl; lia).
    eapply rtc_l; [apply (race_load _ (length l) v); by apply list_lookup_middle|].
    eapply rtc_l; [apply (race_store _ (length l) v r)|].
    { rewrite list_lookup_insert_eq; [done|]. rewrite length_app. simpl. lia. }
    rewrite list_insert_insert_eq, fmap_cons.
    replace (length l) with (length l + 0) by lia. rewrite insert_app_r. simpl.
    by rewrite <- app_assoc in Hts.
Qed.

Lemma race_serial vs : race_outcome vs (sum_Z vs).
Proof. destruct (race_one_by_one [] vs 0%Z) as (ts & Hr & HF); [constructor|]. by exists ts. Qed.

Lemma race_length s s' : rtc race_step s s' → length s'.1 = length s.1.
Proof.
  induction 1 as [|s1 s2 s3 Hs _ IH]; [done|]. rewrite IH. by destruct Hs; simpl; rewrite length_insert.
Qed.

Lemma race_bounds vs r :
  Forall (λ v, 0 ≤ v)%Z vs → race_outcome vs r →
  (0 ≤ r ≤ sum_Z vs)%Z ∧ (vs ≠ [] → ∃ v, v ∈ vs ∧ (v ≤ r)%Z).
Proof.
  intros Hpos (ts & Hr & Hf).
  destruct (rtc_preserved _ (race_inv vs) _ _ (λ s s', race_inv_step vs s s' Hpos) Hr (race_inv_init vs)) as [HF Hle].
  destruct (rtc_preserved _ (race_low vs) _ _ (λ s s', race_low_step vs s s' Hpos) Hr (race_low_init vs))
    as (H0 & _ & Hlow). simpl in *.
  rewrite (finished_sum_all ts vs Hf (Forall2_length _ _ _ HF)) in Hle. split; [done|].
  intros Hne. apply Hlow. apply race_length in Hr. simpl in Hr. rewrite length_fmap in Hr.
  destruct Hf as [|t ts ->]; [by destruct vs|]. by left.
Qed.

Lemma race_nil r : race_outcome [] r → r = 0%Z.
Proof. intros Ho. destruct (race_bounds [] r) as [[? ?] _]; [constructor|done|]. unfold sum_Z in *. simpl in *. lia. Qed.

(** Two threads that both load before either stores: the first answer is lost. *)
Lemma race_lost a b : race_outcome [a; b] b.
Proof.
  exists [Finished; Finished]. split; [|by repeat constructor].
  eapply rtc_l; [apply (race_load _ 0 a); reflexivity|]. simpl.
  eapply rtc_l; [apply (race_load _ 1 b); reflexivity|]. simpl.
  eapply rtc_l; [apply (race_store _ 0 a 0); reflexivity|]. simpl.
  eapply rtc_l; [apply (race_store _ 1 b 0); reflexivity|]. simpl. done.
Qed.
