(* ===== verification/ShardingTheorems.v ===== *)
(** * ShardingTheorems: the sharded store is one store *)

From Stdlib Require Import ZArith Lia.
From S2P Require Import Prelude Words Murmur3 Messages Iterators LevelDB Keys Wire RdfOperators.
From S2P Require Import Persistence PersistenceSpec Refinement UpdateProofs Matching.
From S2P Require Import Service ServiceTheorems DemoStore Sharding ShardingProofs FanoutRace.

Section Sharded.
Context (ar : arch) {B : Type} `{SL : SailLaws ar B} (string_hash : bytes → Z).

(** The union of the backends. *)
Definition abs_all (bs : list B) : gset Statement := ⋃ (be_abs <$> bs).

(** Every statement is on the backend its hash selects. *)
Definition placed (bs : list B) : Prop :=
  ∀ i b st, bs !! i = Some b → st ∈ be_abs b → shard string_hash (length bs) st = i.

(** The invariant of the sharded store. *)
Definition sharded (bs : list B) : Prop := bs ≠ [] ∧ Forall be_inv bs ∧ placed bs.

Lemma elem_of_abs_all bs st :
  st ∈ abs_all bs ↔ ∃ i b, bs !! i = Some b ∧ st ∈ be_abs b.
Proof.
  unfold abs_all. rewrite elem_of_union_list. split.
  - intros (X & (b & -> & Hb)%list_elem_of_fmap & Hst).
    apply list_elem_of_lookup in Hb as [i Hi]. eauto.
  - intros (i & b & Hi & Hst). exists (be_abs b). split; [|done].
    apply list_elem_of_fmap_2. by eapply list_elem_of_lookup_2.
Qed.

(** ** AddStatements *)

(** Each backend of [bs'] is the one of [bs] with the statements of its shard. *)
Definition received (reader : list Statement) (bs bs' : list B) : Prop :=
  length bs' = length bs ∧
  ∀ i b', bs' !! i = Some b' → ∃ b, bs !! i = Some b ∧ be_inv b' ∧
    be_abs b' = be_abs b ∪ list_to_set (filter (λ st, shard string_hash (length bs) st = i) reader).

Lemma run_routed reader bs ws :
  Forall be_inv bs → length ws = length bs →
  (∀ i, ws !! i = (λ l, l ++ filter (λ st, shard string_hash (length bs) st = i) reader) <$>
                  replicate (length bs) [] !! i) →
  key_injective ar (abs_all bs ∪ list_to_set reader) →
  ∃ rs bs', run_each be_AddStatements ws bs = Ok ((λ r, (StatusOK, r)) <$> rs, bs') ∧
    sum_Z rs = Z.of_nat (sum_list_with length ws) ∧ received reader bs bs'.
Proof.
  intros Hinv Hlen Hw Hk.
  destruct (run_each_spec be_AddStatements
    (λ a b r b', r = Z.of_nat (length a) ∧ be_inv b' ∧
       be_abs b' = foldl (λ A st, spec_add ar st A) (be_abs b) a) ws bs) as (rs & bs' & -> & HE).
  { apply Forall2_same_length_lookup. split; [done|]. intros i a b Ha Hb.
    rewrite Forall_lookup in Hinv. destruct (law_add a b (Hinv i b Hb)) as (b' & E & ? & ?).
    eauto 10. }
  exists rs, bs'. split; [done|]. split.
  { clear -HE. induction HE as [|a b r b' args bs rs bs' [-> _] _ IH]; [done|].
    unfold sum_Z in *. simpl. lia. }
  split; [by destruct (each_length _ _ _ _ _ HE) as (_ & _ & ?)|].
  intros i b' Hi. destruct (each_lookup _ _ _ _ _ _ _ HE Hi) as (a & b & r & Ha & Hb & _ & _ & ? & Eb).
  exists b. split_and!; [done..|]. rewrite Hw in Ha.
  pose proof (lookup_lt_Some _ _ _ Hb) as Hlt.
  rewrite (lookup_replicate_2 (length bs) [] i Hlt) in Ha.
  simpl in Ha. injection Ha as <-. rewrite Eb. apply foldl_add_union.
  eapply key_injective_subseteq; [|exact Hk]. intros s Hs. rewrite elem_of_union in Hs |- *.
  rewrite elem_of_abs_all. destruct Hs as [Hs|Hs]; [left; eauto|right].
  rewrite elem_of_list_to_set, list_elem_of_filter in Hs. apply elem_of_list_to_set, Hs.
Qed.

Lemma received_sharded reader bs bs' :
  sharded bs → received reader bs bs' → sharded bs'.
Proof.
  intros (Hne & Hinv & Hpl) [Hl Hr]. split_and!.
  - intros ->. by destruct bs.
  - apply Forall_lookup. intros i b' Hi. by destruct (Hr i b' Hi) as (b & _ & ? & _).
  - intros i b' st Hi Hst. rewrite Hl. destruct (Hr i b' Hi) as (b & Hb & _ & E).
    rewrite E, elem_of_union, elem_of_list_to_set, list_elem_of_filter in Hst.
    destruct Hst as [Hst|[? _]]; [|done]. by apply (Hpl i b).
Qed.

Lemma received_at reader bs bs' i :
  received reader bs bs' → i < length bs → ∃ b b', bs !! i = Some b ∧ bs' !! i = Some b' ∧
    be_abs b' = be_abs b ∪ list_to_set (filter (λ st, shard string_hash (length bs) st = i) reader).
Proof.
  intros [Hl Hr] Hi. rewrite <- Hl in Hi. destruct (lookup_lt_is_Some_2 _ _ Hi) as [b' Hb'].
  destruct (Hr i b' Hb') as (b & ? & _ & ?). eauto.
Qed.

Lemma received_abs reader bs bs' :
  bs ≠ [] → received reader bs bs' → abs_all bs' = abs_all bs ∪ list_to_set reader.
Proof.
  intros Hne Hrec. apply set_eq. intros st. rewrite elem_of_union, !elem_of_abs_all. split.
  - intros (i & b' & Hi & Hst). destruct (proj2 Hrec i b' Hi) as (b & Hb & _ & E).
    rewrite E, elem_of_union, elem_of_list_to_set, list_elem_of_filter in Hst.
    destruct Hst as [Hst|[_ Hst]]; [left; eauto|right; by apply elem_of_list_to_set].
  - intros [(i & b & Hi & Hst)|Hst].
    + destruct (received_at _ _ _ i Hrec) as (b0 & b' & Hb0 & Hb' & E);
        [exact (lookup_lt_Some _ _ _ Hi)|].
      exists i, b'. split; [done|]. rewrite E. rewrite Hi in Hb0. injection Hb0 as <-. set_solver.
    + destruct (received_at _ _ _ (shard string_hash (length bs) st) Hrec) as (b & b' & Hb & Hb' & E).
      { apply shard_lt. destruct bs; [done|simpl; lia]. }
      exists (shard string_hash (length bs) st), b'. split; [done|]. rewrite E.
      apply elem_of_union_r, elem_of_list_to_set, list_elem_of_filter.
      split; [done|]. by apply elem_of_list_to_set in Hst.
Qed.

Lemma sum_empty_writers {A} n : sum_list_with length (replicate n (@nil A)) = 0.
Proof. induction n as [|n IH]; simpl; [done|]. exact IH. Qed.

Lemma sh_AddStatements_spec reader bs :
  sharded bs → key_injective ar (abs_all bs ∪ list_to_set reader) →
  ∃ bs', sh_AddStatements string_hash reader bs = Ok (StatusOK, Z.of_nat (length reader), bs') ∧
    sharded bs' ∧ abs_all bs' = abs_all bs ∪ list_to_set reader.
Proof.
  intros Hsh Hk. destruct Hsh as (Hne & Hinv & Hpl) eqn:Esh. unfold sh_AddStatements.
  destruct (route_statements string_hash bs reader (replicate (length bs) []) Hne
    (length_replicate _ _)) as (ws & -> & Hlen & Hw & Hsum). cbn [mbind res_bind].
  destruct (run_routed reader bs ws Hinv Hlen Hw Hk) as (rs & bs' & -> & Er & Hrec).
  cbn [mbind res_bind]. exists bs'. split_and!.
  - by rewrite sum_values_ok, Er, Hsum, sum_empty_writers.
  - by eapply received_sharded.
  - by apply received_abs.
Qed.

(** ** GetStatements *)

Lemma shard_results_spec pattern bs :
  Forall be_inv bs →
  ∃ ls, shard_results pattern bs = Ok ls ∧ 
    Forall2 (λ l b, NoDup l ∧ ∀ st, st ∈ l ↔ st ∈ spec_get ar pattern (be_abs b)) ls bs.
Proof.
  induction 1 as [|b bs Hb _ (ls & E & Hls)]; simpl.
  - exists []. split; [done|constructor].
  - destruct (law_get pattern b Hb) as (l & El & Hnd & Hl). exists (l :: ls).
    rewrite El. simpl. rewrite E. split; [done|by constructor].
Qed.

Lemma elem_of_shard_results pattern bs ls st :
  Forall2 (λ l b, NoDup l ∧ ∀ st, st ∈ l ↔ st ∈ spec_get ar pattern (be_abs b)) ls bs →
  st ∈ mjoin ls ↔ st ∈ spec_get ar pattern (abs_all bs).
Proof.
  induction 1 as [|l b ls bs [_ Hl] _ IH]; simpl.
  - unfold spec_get, abs_all. simpl. rewrite elem_of_filter. set_solver.
  - change (mjoin (l :: ls)) with (l ++ mjoin ls).
    change (abs_all (b :: bs)) with (be_abs b ∪ abs_all bs).
    rewrite elem_of_app, Hl, IH. unfold spec_get. rewrite !elem_of_filter, elem_of_union. tauto.
Qed.

(** Different backends hold different statements. *)
Lemma placed_disjoint bs i j b b' st :
  placed bs → bs !! i = Some b → bs !! j = Some b' → st ∈ be_abs b → st ∈ be_abs b' → i = j.
Proof. intros Hp Hi Hj Hb1 Hb2. by rewrite <- (Hp i b st Hi Hb1), <- (Hp j b' st Hj Hb2). Qed.

Lemma shard_results_nodup pattern bs ls :
  (∀ i j b b' st, bs !! i = Some b → bs !! j = Some b' →
     st ∈ be_abs b → st ∈ be_abs b' → i = j) →
  Forall2 (λ l b, NoDup l ∧ ∀ st, st ∈ l ↔ st ∈ spec_get ar pattern (be_abs b)) ls bs →
  NoDup (mjoin ls).
Proof.
  intros Hd HF. revert Hd. induction HF as [|l b ls bs [Hnd Hl] HF IH]; intros Hd; [constructor|].
  change (mjoin (l :: ls)) with (l ++ mjoin ls). apply NoDup_app. split_and!; [done| |].
  - intros st Hst Hst'. apply Hl in Hst. apply (elem_of_shard_results pattern bs) in Hst'; [|done].
    unfold spec_get in Hst, Hst'. apply elem_of_filter in Hst as [_ Hst].
    apply elem_of_filter in Hst' as [_ (i & b' & Hi & Hst')%elem_of_abs_all].
    by specialize (Hd 0 (S i) b b' st eq_refl Hi Hst Hst').
  - apply IH. intros i j c c' st Hi Hj Hc1 Hc2.
    by specialize (Hd (S i) (S j) c c' st Hi Hj Hc1 Hc2) as [= ->].
Qed.

(** ** Fan-out *)

Lemma size_spec_get_all pattern bs ls :
  sharded bs →
  Forall2 (λ l b, NoDup l ∧ ∀ st, st ∈ l ↔ st ∈ spec_get ar pattern (be_abs b)) ls bs →
  length (mjoin ls) = size (spec_get ar pattern (abs_all bs)).
Proof.
  intros (_ & _ & Hp) HF.
  assert (E : spec_get ar pattern (abs_all bs) = list_to_set (mjoin ls)).
  { apply set_eq. intros st. by rewrite elem_of_list_to_set, (elem_of_shard_results pattern bs). }
  rewrite E, size_list_to_set; [done|].
  eapply shard_results_nodup; [|exact HF]. intros i j b b' st. by apply placed_disjoint.
Qed.

Lemma sum_sizes pattern bs ls :
  Forall2 (λ l b, NoDup l ∧ ∀ st, st ∈ l ↔ st ∈ spec_get ar pattern (be_abs b)) ls bs →
  sum_list_with (λ b, size (spec_get ar pattern (be_abs b))) bs = length (mjoin ls).
Proof.
  induction 1 as [|l b ls bs [Hnd Hl] _ IH]; [done|]. cbn [sum_list_with].
  change (mjoin (l :: ls)) with (l ++ mjoin ls). rewrite length_app, IH. f_equal.
  replace (spec_get ar pattern (be_abs b)) with (list_to_set l : gset Statement).
  - by rewrite size_list_to_set.
  - apply set_eq. intros st. by rewrite elem_of_list_to_set.
Qed.

(** A pointwise fan-out whose answers are the values [f]. *)
Lemma Fanout_spec {Req} tally (method : Req → B → res (Status * Z * B)) req bs f g :
  (∀ b, be_inv b → ∃ b', method req b = Ok (StatusOK, Z.of_nat (f b), b') ∧ be_inv b' ∧
     be_abs b' = g (be_abs b)) →
  Forall be_inv bs →
  ∃ bs', Fanout tally method req bs = Ok (StatusOK, tally (Z.of_nat ∘ f <$> bs), bs') ∧
    length bs' = length bs ∧ Forall be_inv bs' ∧
    ∀ i b', bs' !! i = Some b' → ∃ b, bs !! i = Some b ∧ be_abs b' = g (be_abs b).
Proof.
  intros Hm Hinv. unfold Fanout.
  destruct (run_each_spec method
    (λ _ b r b', r = Z.of_nat (f b) ∧ be_inv b' ∧ be_abs b' = g (be_abs b))
    (replicate (length bs) req) bs) as (rs & bs' & -> & HE).
  { apply Forall2_same_length_lookup. split; [by rewrite length_replicate|].
    intros i a b [-> _]%lookup_replicate_1 Hb. rewrite Forall_lookup in Hinv.
    destruct (Hm b (Hinv i b Hb)) as (b' & E & ? & ?). eauto 10. }
  cbn [mbind res_bind]. rewrite first_error_ok, <- list_fmap_compose. unfold compose at 1. simpl.
  rewrite list_fmap_id. destruct (each_length _ _ _ _ _ HE) as (_ & _ & Hl). exists bs'. split_and!; [|done|..].
  - do 4 f_equal. clear -HE. induction HE as [|a b r b' args bs rs bs' [-> _] _ IH]; [done|].
    simpl. by rewrite IH.
  - apply Forall_lookup. intros i b' Hi.
    by destruct (each_lookup _ _ _ _ _ _ _ HE Hi) as (a & b & r & _ & _ & _ & _ & ? & _).
  - intros i b' Hi.
    destruct (each_lookup _ _ _ _ _ _ _ HE Hi) as (a & b & r & _ & Hb & _ & _ & _ & Eb). eauto.
Qed.

Lemma sum_Z_of_nat {X} (f : X → nat) l : sum_Z (Z.of_nat ∘ f <$> l) = Z.of_nat (sum_list_with f l).
Proof.
  induction l as [|x l IH]; [done|]. rewrite fmap_cons, sum_Z_cons, IH. simpl. lia.
Qed.

(** What the threads may make of the answers [f], which add up to [n]. *)
Definition counted (tally : list Z → Z) (n : nat) (c : Z) : Prop :=
  ((∀ vs, race_outcome vs (tally vs)) → (0 ≤ c ≤ Z.of_nat n)%Z) ∧
  ((∀ vs, tally vs = sum_Z vs) → c = Z.of_nat n).

Lemma tally_counted {X} tally (f : X → nat) l : counted tally (sum_list_with f l) (tally (Z.of_nat ∘ f <$> l)).
Proof.
  split.
  - intros Ht. rewrite <- sum_Z_of_nat. eapply race_bounds, Ht. apply Forall_fmap, Forall_true. intros x. apply Nat2Z.is_nonneg.
  - intros ->. apply sum_Z_of_nat.
Qed.

Lemma sh_RemoveStatements_spec tally pattern bs :
  sharded bs →
  ∃ n bs', sh_RemoveStatements tally pattern bs = Ok (StatusOK, n, bs') ∧
    counted tally (size (spec_get ar pattern (abs_all bs))) n ∧
    sharded bs' ∧ abs_all bs' = spec_remove ar pattern (abs_all bs).
Proof.
  intros Hsh. pose proof Hsh as (Hne & Hinv & Hpl).
  destruct (Fanout_spec tally be_RemoveStatements pattern bs
    (λ b, size (spec_get ar pattern (be_abs b))) (spec_remove ar pattern)
    (law_remove pattern) Hinv) as (bs' & E & Hl & Hinv' & Hb).
  destruct (shard_results_spec pattern bs Hinv) as (ls & _ & HF).
  eexists _, bs'. unfold sharded. split_and!.
  - exact E.
  - rewrite <- (size_spec_get_all pattern bs ls Hsh HF), <- (sum_sizes pattern bs ls HF). apply tally_counted.
  - intros ->. by destruct bs.
  - done.
  - intros i b' st Hi Hst. rewrite Hl. destruct (Hb i b' Hi) as (b & Hbi & Eb).
    rewrite Eb in Hst. apply (Hpl i b); [done|]. unfold spec_remove in Hst. set_solver.
  - apply set_eq. intros st. unfold spec_remove. rewrite elem_of_filter, !elem_of_abs_all. split.
    + intros (i & b' & Hi & Hst). destruct (Hb i b' Hi) as (b & Hbi & Eb).
      rewrite Eb in Hst. unfold spec_remove in Hst. apply elem_of_filter in Hst as [? ?]. eauto.
    + intros [Hm (i & b & Hi & Hst)]. pose proof (lookup_lt_Some _ _ _ Hi) as Hlt.
      rewrite <- Hl in Hlt. destruct (lookup_lt_is_Some_2 _ _ Hlt) as [b' Hb'].
      destruct (Hb i b' Hb') as (b0 & Hbi & Eb). exists i, b'. split; [done|].
      rewrite Hi in Hbi. injection Hbi as <-. rewrite Eb. unfold spec_remove.
      by apply elem_of_filter.
Qed.

(** The size of the union is the sum of the sizes. *)
Lemma size_abs_all bs : placed bs → size (abs_all bs) = sum_list_with (λ b, size (be_abs b)) bs.
Proof.
  intros Hp. assert (Hd : ∀ i j b b' st, bs !! i = Some b → bs !! j = Some b' →
    st ∈ be_abs b → st ∈ be_abs b' → i = j).
  { intros i j b b' st. by apply placed_disjoint. }
  clear Hp. induction bs as [|b bs IH]; [done|].
  change (abs_all (b :: bs)) with (be_abs b ∪ abs_all bs). cbn [sum_list_with].
  rewrite size_union, IH; [done| |].
  - intros i j c c' st Hi Hj Hc Hc'. by specialize (Hd (S i) (S j) c c' st Hi Hj Hc Hc') as [= ->].
  - intros st Hst (i & c & Hi & Hc)%elem_of_abs_all. by specialize (Hd 0 (S i) b c st eq_refl Hi Hst Hc).
Qed.

Lemma spec_clear_elem contexts A st :
  st ∈ spec_clear ar contexts A ↔ st ∈ A ∧ contexts ≠ [] ∧
    Forall (λ r, ¬ hash_matches ar (in_context r) st) contexts.
Proof.
  destruct contexts as [|r l]; [set_solver|]. unfold spec_clear. rewrite elem_of_filter. naive_solver.
Qed.

Lemma sum_list_sub {X} (f g : X → nat) l :
  Forall (λ x, g x ≤ f x) l →
  sum_list_with (λ x, f x - g x) l = sum_list_with f l - sum_list_with g l ∧
  sum_list_with g l ≤ sum_list_with f l.
Proof. induction 1 as [|x l Hx _ [IH1 IH2]]; simpl; lia. Qed.

Lemma sum_list_lookup {X Y} (f : X → nat) (g : Y → nat) l k :
  length l = length k → (∀ i y, k !! i = Some y → ∃ x, l !! i = Some x ∧ g y = f x) →
  sum_list_with g k = sum_list_with f l.
Proof.
  revert k; induction l as [|x l IH]; intros [|y k] Hlen Hk; simpl in *; try done.
  destruct (Hk 0 y eq_refl) as (x' & [= <-] & ->). rewrite (IH k); [done|lia|].
  intros i z Hz. exact (Hk (S i) z Hz).
Qed.

Lemma sh_Clear_spec tally contexts bs :
  sharded bs →
  ∃ n bs', sh_Clear tally (mkContextRequest contexts) bs = Ok (StatusOK, n, bs') ∧
    counted tally (size (abs_all bs) - size (abs_all bs')) n ∧
    sharded bs' ∧ abs_all bs' = spec_clear ar contexts (abs_all bs).
Proof.
  intros Hsh. pose proof Hsh as (Hne & Hinv & Hpl).
  destruct (Fanout_spec tally be_Clear (mkContextRequest contexts) bs
    (λ b, size (be_abs b) - size (spec_clear ar contexts (be_abs b))) (spec_clear ar contexts))
    as (bs' & E & Hl & Hinv' & Hb); [|done|].
  { intros b Hi. destruct (law_clear contexts b Hi) as (b' & Eb & Hb & Ea). exists b'. by rewrite <- Ea. }
  assert (Hpl' : placed bs').
  { intros i b' st Hi Hst. rewrite Hl. destruct (Hb i b' Hi) as (b & Hbi & Eb).
    rewrite Eb in Hst. apply (Hpl i b); [done|]. by apply spec_clear_elem in Hst as [? _]. }
  eexists _, bs'. split_and!.
  - exact E.
  - rewrite (size_abs_all bs), (size_abs_all bs') by done.
    destruct (sum_list_sub (λ b, size (be_abs b)) (λ b, size (spec_clear ar contexts (be_abs b))) bs) as [Es _].
    { apply Forall_forall. intros b _. apply subseteq_size. intros st [? _]%spec_clear_elem. done. }
    rewrite (sum_list_lookup (λ b, size (spec_clear ar contexts (be_abs b))) (λ b, size (be_abs b)) bs bs'), <- Es;
      [apply tally_counted|done|]. intros i b' (b & ? & Eb)%Hb. exists b. by rewrite Eb.
  - split_and!; [|done..]. intros ->. by destruct bs.
  - apply set_eq. intros st. rewrite spec_clear_elem, !elem_of_abs_all. split.
    + intros (i & b' & Hi & Hst). destruct (Hb i b' Hi) as (b & Hbi & Eb).
      rewrite Eb in Hst. apply spec_clear_elem in Hst as [? ?]. eauto.
    + intros [(i & b & Hi & Hst) Hm]. pose proof (lookup_lt_Some _ _ _ Hi) as Hlt.
      rewrite <- Hl in Hlt. destruct (lookup_lt_is_Some_2 _ _ Hlt) as [b' Hb'].
      destruct (Hb i b' Hb') as (b0 & Hbi & Eb). exists i, b'. split; [done|].
      rewrite Hi in Hbi. injection Hbi as <-. rewrite Eb. by apply spec_clear_elem.
Qed.

Lemma sh_Size_spec tally bs :
  sharded bs →
  ∃ n bs', sh_Size tally (mkContextRequest []) bs = Ok (StatusOK, n, bs') ∧
    counted tally (size (abs_all bs)) n.
Proof.
  intros Hsh. pose proof Hsh as (Hne & Hinv & Hpl).
  destruct (Fanout_spec tally be_Size (mkContextRequest []) bs (λ b, size (be_abs b)) (λ A, A))
    as (bs' & E & _).
  { intros b Hb. exists b. by rewrite (law_size b Hb). }
  { done. }
  eexists _, bs'. split; [exact E|]. rewrite size_abs_all by done. apply tally_counted.
Qed.
End Sharded.

(** ** Properties *)

Section ShardingTheorems.
Context (ar : arch) {B : Type} `{SL : SailLaws ar B} (string_hash : bytes → Z).

(** C18. AddStatements on the sharded store adds exactly the statements of the
    stream to the union of the backends and returns their number, and each
    statement is on the backend its hash selects; for any hash function and any
    backends that keep the service laws, when no two of the statements collide
    in their keys. *)
Theorem sharded_add_statements (reader : list Statement) (bs : list B) :
  sharded string_hash bs → key_injective ar (abs_all bs ∪ list_to_set reader) →
  ∃ bs', sh_AddStatements string_hash reader bs = Ok (StatusOK, Z.of_nat (length reader), bs') ∧
    sharded string_hash bs' ∧ abs_all bs' = abs_all bs ∪ list_to_set reader.
Proof. exact (sh_AddStatements_spec ar string_hash reader bs). Qed.

(** However the threads of GetStatements interleave their writes, the
    client receives exactly the statements the query selects from the union of
    the backends, each once. *)
Theorem sharded_get_statements (pattern : Statement) (bs : list B) :
  sharded string_hash bs →
  ∃ ls, shard_results pattern bs = Ok ls ∧
    ∀ out, interleave ls out →
      NoDup out ∧ ∀ st, st ∈ out ↔ st ∈ spec_get ar pattern (abs_all bs).
Proof.
  intros Hsh. pose proof Hsh as (_ & Hinv & Hpl).
  destruct (shard_results_spec ar pattern bs Hinv) as (ls & E & HF).
  exists ls. split; [done|]. intros out Hout%interleave_permutation. split.
  - rewrite Hout. eapply (shard_results_nodup ar); [|exact HF].
    intros i j b b' st. exact (placed_disjoint string_hash bs i j b b' st Hpl).
  - intros st. rewrite Hout. exact (elem_of_shard_results ar pattern bs ls st HF).
Qed.

(** C21. RemoveStatements and Size fan out to all backends, and the threads add
    the answers to one counter without a lock ([tally] gives an outcome of that
    race).  Whatever the threads do, the union of the backends loses exactly
    what the pattern selects from it, the sharding invariant is kept and the
    status is OK; the count of removed statements and the size that are returned
    never exceed the true ones.  They are the true ones when the answers are
    summed, which is an outcome of the race for any answers; it is not the only
    one, the answer of the first of two threads can be lost. *)
Theorem sharded_remove_and_size (tally : list Z → Z) (pattern : Statement) (bs : list B) :
  sharded string_hash bs → (∀ vs, race_outcome vs (tally vs)) →
  (∃ n bs', sh_RemoveStatements tally pattern bs = Ok (StatusOK, n, bs') ∧
    sharded string_hash bs' ∧ abs_all bs' = spec_remove ar pattern (abs_all bs) ∧
    (0 ≤ n ≤ Z.of_nat (size (spec_get ar pattern (abs_all bs))))%Z ∧
    ((∀ vs, tally vs = sum_Z vs) → n = Z.of_nat (size (spec_get ar pattern (abs_all bs))))) ∧
  (∃ n bs', sh_Size tally (mkContextRequest []) bs = Ok (StatusOK, n, bs') ∧
    (0 ≤ n ≤ Z.of_nat (size (abs_all bs)))%Z ∧
    ((∀ vs, tally vs = sum_Z vs) → n = Z.of_nat (size (abs_all bs)))) ∧
  (∀ vs, race_outcome vs (sum_Z vs)) ∧ (∀ a b, race_outcome [a; b] b).
Proof.
  intros Hsh Ht. split_and!; [| |exact race_serial|exact race_lost].
  - destruct (sh_RemoveStatements_spec ar string_hash tally pattern bs Hsh)
      as (n & bs' & E & [Hr Hs] & ? & ?). exists n, bs'. split_and!; [done..|apply Hr, Ht|apply Hr, Ht|exact Hs].
  - destruct (sh_Size_spec ar string_hash tally bs Hsh) as (n & bs' & E & [Hr Hs]). exists n, bs'.
    split_and!; [done|apply Hr, Ht|apply Hr, Ht|exact Hs].
Qed.

(** Clear fans out too: the union of the backends loses exactly the statements
    of the requested contexts (all of them when none is named), the invariant
    of the sharded store is kept, and the answer counts what was removed, less
    what the race on the counter loses. *)
Theorem sharded_clear (tally : list Z → Z) (contexts : list Resource) (bs : list B) :
  sharded string_hash bs →
  ∃ n bs', sh_Clear tally (mkContextRequest contexts) bs = Ok (StatusOK, n, bs') ∧
    counted tally (size (abs_all bs) - size (abs_all bs')) n ∧
    sharded string_hash bs' ∧ abs_all bs' = spec_clear ar contexts (abs_all bs).
Proof. exact (sh_Clear_spec ar string_hash tally contexts bs). Qed.
End ShardingTheorems.

Section ShardingWitnesses.
Import Demo.

#[local] Instance demo_backend : SailBackend store := leveldb_backend ar.
#[local] Instance demo_model : SailModel store := leveldb_model ar.
#[local] Instance demo_laws : SailLaws ar store := leveldb_backend_laws ar.

(** A simple string hash, and three empty backends. *)
Definition demo_hash (b : bytes) : Z :=
  (foldl (λ h x, h * 31 + byte_val x) 7 b mod 2 ^ 64)%Z.
Definition demo_backends : list store := [empty_store; empty_store; empty_store].

Lemma demo_sharded : sharded demo_hash demo_backends.
Proof.
  split_and!; [done|repeat constructor; apply empty_inv|].
  intros [|[|[|i]]] b st Hb Hst; simpl in Hb; simplify_eq; exfalso; cbn in Hst;
    rewrite empty_abs in Hst; by apply not_elem_of_empty in Hst.
Qed.

Lemma demo_abs_all : abs_all demo_backends = ∅.
Proof. unfold abs_all. cbn. rewrite empty_abs. set_solver. Qed.

Lemma sharded_add_statements_witness :
  ∃ bs', sh_AddStatements demo_hash quads demo_backends = Ok (StatusOK, 3%Z, bs') ∧
    sharded demo_hash bs' ∧ abs_all bs' = abs_all demo_backends ∪ list_to_set quads.
Proof.
  apply (sharded_add_statements ar demo_hash quads demo_backends); [apply demo_sharded|].
  rewrite demo_abs_all. apply (bool_decide_unpack _). vm_compute. exact I.
Defined.

(** The three backends after the quads were added. *)
Definition demo_shards : list store :=
  match sh_AddStatements demo_hash quads demo_backends with
  | Ok (_, _, bs) => bs
  | _ => demo_backends
  end.

Lemma demo_shards_sharded : sharded demo_hash demo_shards ∧ abs_all demo_shards = list_to_set quads.
Proof.
  assert (Hk : key_injective ar (abs_all demo_backends ∪ list_to_set quads)).
  { rewrite demo_abs_all. apply (bool_decide_unpack _). vm_compute. exact I. }
  unfold demo_shards.
  destruct (sh_AddStatements_spec ar demo_hash quads demo_backends demo_sharded Hk)
    as (bs & -> & Hs & Ha). split; [done|]. rewrite Ha, demo_abs_all. set_solver.
Qed.

Lemma sharded_get_statements_witness :
  ∃ ls, shard_results (by_subject "alice") demo_shards = Ok ls ∧
    ∀ out, interleave ls out →
      NoDup out ∧ ∀ st, st ∈ out ↔ st ∈ spec_get ar (by_subject "alice") (abs_all demo_shards).
Proof.
  apply (sharded_get_statements ar demo_hash (by_subject "alice") demo_shards
    (proj1 demo_shards_sharded)).
Defined.

(** A schedule in which the second thread overwrites the first. *)
Definition lossy_tally (vs : list Z) : Z := match vs with [_; b] => b | _ => sum_Z vs end.

Lemma lossy_outcome vs : race_outcome vs (lossy_tally vs).
Proof. destruct vs as [|a [|b [|c vs]]]; [apply race_serial..|apply race_lost|apply race_serial]. Qed.

Lemma sharded_remove_and_size_witness :
  (∃ n bs', sh_RemoveStatements lossy_tally (by_subject "alice") demo_shards = Ok (StatusOK, n, bs') ∧
    sharded demo_hash bs' ∧
    abs_all bs' = spec_remove ar (by_subject "alice") (abs_all demo_shards) ∧
    (0 ≤ n ≤ Z.of_nat (size (spec_get ar (by_subject "alice") (abs_all demo_shards))))%Z) ∧
  (∃ bs', sh_Size sum_Z (mkContextRequest []) demo_shards =
      Ok (StatusOK, Z.of_nat (size (abs_all demo_shards)), bs')).
Proof.
  split.
  - destruct (sharded_remove_and_size ar demo_hash lossy_tally (by_subject "alice") demo_shards
      (proj1 demo_shards_sharded) lossy_outcome) as [(n & bs' & E & Hs & Ha & Hn & _) _].
    exists n, bs'. exact (conj E (conj Hs (conj Ha Hn))).
  - destruct (sharded_remove_and_size ar demo_hash sum_Z (by_subject "alice") demo_shards
      (proj1 demo_shards_sharded) race_serial) as (_ & (n & bs' & E & _ & Hn) & _).
    exists bs'. rewrite (Hn (λ vs, eq_refl)) in E. exact E.
Defined.

Lemma sharded_clear_witness :
  ∃ n bs', sh_Clear sum_Z (mkContextRequest [res_ "g1"]) demo_shards = Ok (StatusOK, n, bs') ∧
    counted sum_Z (size (abs_all demo_shards) - size (abs_all bs')) n ∧
    sharded demo_hash bs' ∧ abs_all bs' = spec_clear ar [res_ "g1"] (abs_all demo_shards).
Proof. apply (sharded_clear ar demo_hash sum_Z [res_ "g1"] demo_shards (proj1 demo_shards_sharded)). Defined.
End ShardingWitnesses.
