(* ===== verification/ShardedUpdate.v ===== *)
(** * ShardedUpdate: an update stream on the sharded store

    ShardingService::Update sends a statement to add to the backend its hash
    selects and everything else to all backends.  Each backend applies what it
    receives to its part of the statements; together the parts are what one
    store makes of the whole stream, and the answers add up to that store's
    answer, except that every backend counts every namespace. *)

From Stdlib Require Import ZArith Lia.
From S2P Require Import Prelude Words Murmur3 Messages Iterators LevelDB Keys Wire RdfOperators.
From S2P Require Import Persistence PersistenceSpec Refinement UpdateProofs Matching.
From S2P Require Import Service ServiceTheorems DemoStore Sharding ShardingProofs ShardingTheorems.

Section ShardedUpdate.
Context (ar : arch) {B : Type} `{SL : SailLaws ar B} (string_hash : bytes → Z).

(** ** Routing *)

(** The backend [i] of [n] receives the request. *)
Definition reaches (n i : nat) (req : UpdateRequest) : Prop :=
  match req with stmt_added st => shard string_hash n st = i | _ => True end.

#[global] Instance reaches_dec n i req : Decision (reaches n i req).
Proof. destruct req; simpl; apply _. Defined.

Lemma route_updates (bs : list B) reqs ws :
  bs ≠ [] → length ws = length bs →
  ∃ ws', foldM (route_update string_hash bs) ws reqs = Ok ws' ∧ length ws' = length bs ∧
    ∀ i, ws' !! i = (λ l, l ++ filter (reaches (length bs) i) reqs) <$> ws !! i.
Proof.
  intros Hne. revert ws. induction reqs as [|req reqs IH]; intros ws Hlen.
  { exists ws. split_and!; [done|done|]. intros i. destruct (ws !! i); simpl; [by rewrite app_nil_r|done]. }
  assert (∃ ws1, route_update string_hash bs ws req = Ok ws1 ∧ length ws1 = length bs ∧
    ∀ i, ws1 !! i = (λ l, l ++ (if decide (reaches (length bs) i req) then [req] else [])) <$> ws !! i)
    as (ws1 & E1 & Hl1 & Hw1).
  { destruct req as [|st| | |]; cbn [route_update];
      try (eexists; split; [done|]; unfold write_to_all; rewrite length_fmap; split; [done|];
           intros i; by rewrite list_lookup_fmap).
    rewrite stmt_bucket_shard by done. eexists. split; [done|]. unfold write_to.
    rewrite length_alter. split; [done|]. intros i. simpl. case_decide as Hi.
    - rewrite <- Hi. apply list_lookup_alter_eq.
    - rewrite list_lookup_alter_ne by done. destruct (ws !! i); simpl; [by rewrite app_nil_r|done]. }
  cbn [foldM]. rewrite E1. cbn [mbind res_bind]. destruct (IH ws1 Hl1) as (ws' & E & Hl & Hw).
  exists ws'. split_and!; [done|done|]. intros i. rewrite Hw, Hw1, filter_cons.
  destruct (ws !! i); simpl; [|done]. by case_decide; rewrite <- app_assoc.
Qed.

(** ** The parts of the store *)

Definition part (n i : nat) (A : gset Statement) : gset Statement :=
  filter (λ st, shard string_hash n st = i) A.

(** Statements with the same key are on the same backend. *)
Definition key_local (n : nat) (U : gset Statement) : Prop :=
  ∀ a b, a ∈ U → b ∈ U → same_key ar a b → shard string_hash n a = shard string_hash n b.

(** The statements a stream adds. *)
Definition stmts_added (reqs : list UpdateRequest) : gset Statement :=
  list_to_set (omap (λ req, match req with stmt_added st => Some st | _ => None end) reqs).

Lemma key_injective_local n U : key_injective ar U → key_local n U.
Proof. intros Hk a b Ha Hb E. by rewrite (Hk a Ha b Hb E). Qed.

Lemma part_add_here n i st A :
  shard string_hash n st = i → spec_add ar st (part n i A) = part n i (spec_add ar st A).
Proof. intros Hi. apply set_eq. intros s. unfold spec_add, part. set_solver. Qed.

Lemma part_add_elsewhere n i st A U :
  key_local n U → A ⊆ U → st ∈ U → shard string_hash n st ≠ i →
  part n i A = part n i (spec_add ar st A).
Proof.
  intros Hk HA Hst Hi. apply set_eq. intros s. unfold spec_add, part.
  rewrite !elem_of_filter, elem_of_union, elem_of_singleton, elem_of_filter. split.
  - intros [Hs Hin]. split; [done|right]. split; [|done]. intros E. apply Hi.
    by rewrite <- (Hk s st (HA s Hin) Hst E).
  - intros [Hs [->|[_ ?]]]; done.
Qed.

Lemma part_get n i pattern A : spec_get ar pattern (part n i A) = part n i (spec_get ar pattern A).
Proof. apply set_eq. intros s. unfold spec_get, part. rewrite !elem_of_filter. tauto. Qed.

Lemma part_remove n i pattern A0 A U :
  key_local n U → A0 ⊆ U → A ⊆ U →
  spec_update ar (part n i A0) (part n i A) (stmt_removed pattern) =
  part n i (spec_update ar A0 A (stmt_removed pattern)).
Proof.
  intros Hk HA0 HA. apply set_eq. intros s. cbn [spec_update]. rewrite part_get. unfold part.
  rewrite !elem_of_filter. split.
  - intros (Hn & Hs & Hin). split_and!; [done| |done]. intros (s' & Hs' & E). apply Hn.
    exists s'. split; [|done]. apply elem_of_filter. split; [|done].
    apply elem_of_filter in Hs' as [_ Hs']. by rewrite <- (Hk s s' (HA s Hin) (HA0 s' Hs') E).
  - intros (Hs & Hn & Hin). split_and!; [|done|done]. intros (s' & [_ Hs']%elem_of_filter & E).
    apply Hn. by exists s'.
Qed.

Lemma spec_update_subseteq A0 A U req :
  A ⊆ U → stmts_added [req] ⊆ U → spec_update ar A0 A req ⊆ U.
Proof. destruct req; unfold stmts_added; simpl; unfold spec_add; set_solver. Qed.

(** A part evolves by the requests that reach it. *)
Lemma part_updates n i A0 A U reqs :
  key_local n U → A0 ⊆ U → A ⊆ U → stmts_added reqs ⊆ U →
  foldl (spec_update ar (part n i A0)) (part n i A) (filter (reaches n i) reqs) =
  part n i (foldl (spec_update ar A0) A reqs).
Proof.
  intros Hk HA0. revert A. induction reqs as [|req reqs IH]; intros A HA Hr; [done|].
  assert (Hreq : stmts_added [req] ⊆ U ∧ stmts_added reqs ⊆ U).
  { clear -Hr. unfold stmts_added in *. destruct req; simpl in *; set_solver. }
  destruct Hreq as [Hreq Hreqs]. cbn [foldl]. rewrite <- (IH (spec_update ar A0 A req)); [|by apply spec_update_subseteq|done].
  rewrite filter_cons. destruct req as [|st|pattern|ns|ns]; cbn [reaches]; try done.
  - case_decide as Hi.
    + cbn [foldl]. f_equal. by apply part_add_here.
    + f_equal. apply (part_add_elsewhere n i st A U); [done|done| |done].
      unfold stmts_added in Hreq. simpl in Hreq. set_solver.
  - rewrite decide_True by done. cbn [foldl]. f_equal. by apply (part_remove _ _ _ _ _ U).
Qed.

(** ** The counters *)

(** What one request adds to the counters. *)
Definition adds (_ : gset Statement) (req : UpdateRequest) : Z :=
  match req with stmt_added _ => 1 | _ => 0 end%Z.
Definition removes (A : gset Statement) (req : UpdateRequest) : Z :=
  match req with stmt_removed pattern => Z.of_nat (size (spec_get ar pattern A)) | _ => 0%Z end.
Definition adds_ns (_ : gset Statement) (req : UpdateRequest) : Z :=
  match req with ns_added _ => 1 | _ => 0 end%Z.

Lemma stats_sums A reqs s :
  foldl (spec_stats ar A) s reqs =
  mkUpdateStatistics (added_stmts s + sum_Z (adds A <$> reqs)) (removed_stmts s + sum_Z (removes A <$> reqs))
    (added_ns s + sum_Z (adds_ns A <$> reqs)) (removed_ns s).
Proof.
  revert s. induction reqs as [|req reqs IH]; intros s.
  - destruct s. simpl. f_equal; lia.
  - cbn [foldl]. rewrite IH, !fmap_cons, !sum_Z_cons. destruct req; simpl; f_equal; lia.
Qed.

(** The answers of the backends, summed over them or over the requests. *)
Lemma sum_routed n (w : nat → UpdateRequest → Z) (W : UpdateRequest → Z) reqs :
  (∀ req, sum_to n (λ i, if decide (reaches n i req) then w i req else 0%Z) = W req) →
  sum_to n (λ i, sum_Z (w i <$> filter (reaches n i) reqs)) = sum_Z (W <$> reqs).
Proof.
  intros Hw. induction reqs as [|req reqs IH].
  - simpl. rewrite sum_to_const. cbn. lia.
  - rewrite fmap_cons, sum_Z_cons, <- IH, <- Hw, <- sum_to_add. apply sum_to_ext. intros i _.
    rewrite filter_cons. case_decide; [by rewrite fmap_cons, sum_Z_cons|lia].
Qed.

Lemma sum_routed_adds n A reqs :
  0 < n → sum_to n (λ i, sum_Z (adds (part n i A) <$> filter (reaches n i) reqs)) = sum_Z (adds A <$> reqs).
Proof.
  intros Hn. apply (sum_routed n (λ i, adds (part n i A))). intros [|st| | |]; cbn [reaches adds].
  2: etrans; [|etrans; [apply (sum_to_one n (shard string_hash n st) 1)|]];
     [apply sum_to_ext; intros i _; by repeat case_decide|by rewrite decide_True by (by apply shard_lt)].
  all: rewrite (sum_to_ext _ _ (λ _, 0%Z)) by (intros; by case_decide); rewrite sum_to_const; lia.
Qed.

Lemma sum_routed_removes n A reqs :
  0 < n → sum_to n (λ i, sum_Z (removes (part n i A) <$> filter (reaches n i) reqs)) = sum_Z (removes A <$> reqs).
Proof.
  intros Hn. apply (sum_routed n (λ i, removes (part n i A))). intros [| |pattern| |]; cbn [reaches removes].
  3: rewrite <- (size_parts n (shard string_hash n)) by (intros; by apply shard_lt);
     apply sum_to_ext; intros i _; rewrite decide_True by done; by rewrite part_get.
  all: rewrite (sum_to_ext _ _ (λ _, 0%Z)) by (intros; by case_decide); rewrite sum_to_const; lia.
Qed.

Lemma sum_routed_ns n A reqs :
  sum_to n (λ i, sum_Z (adds_ns (part n i A) <$> filter (reaches n i) reqs)) =
  (Z.of_nat n * sum_Z (adds_ns A <$> reqs))%Z.
Proof.
  rewrite (sum_routed n (λ i, adds_ns (part n i A)) (λ req, Z.of_nat n * adds_ns A req)%Z).
  - induction reqs as [|req reqs IH]; [cbn; lia|]. rewrite !fmap_cons, !sum_Z_cons, IH. lia.
  - intros [| | |ns|]; cbn [reaches adds_ns]; rewrite <- sum_to_const; apply sum_to_ext;
      intros; by repeat case_decide.
Qed.

(** Adding up the responses of the backends. *)
Lemma sum_responses (rs : list UpdateResponse) r :
  foldl (λ r x, add_response r x.2) r ((λ r, (StatusOK, r)) <$> rs) =
  mkUpdateResponse (added_statements r + sum_Z (added_statements <$> rs))
    (removed_statements r + sum_Z (removed_statements <$> rs))
    (added_namespaces r + sum_Z (added_namespaces <$> rs))
    (removed_namespaces r + sum_Z (removed_namespaces <$> rs)).
Proof.
  revert r. induction rs as [|x rs IH]; intros r.
  - destruct r. simpl. f_equal; lia.
  - rewrite fmap_cons. cbn [foldl]. rewrite IH, !fmap_cons, !sum_Z_cons. destruct r, x. simpl. f_equal; lia.
Qed.

(** ** The backends *)

Lemma backend_part (bs : list B) i b :
  placed string_hash bs → bs !! i = Some b → be_abs b = part (length bs) i (abs_all bs).
Proof.
  intros Hp Hi. apply set_eq. intros st. unfold part. rewrite elem_of_filter, elem_of_abs_all. split.
  - intros Hst. split; [by apply (Hp i b)|eauto].
  - intros [Hs (j & b' & Hj & Hst)]. pose proof (Hp j b' st Hj Hst) as E. rewrite Hs in E. by simplify_eq.
Qed.

(** Backends that hold the parts of [A]. *)
Definition parts_of (A : gset Statement) (bs : list B) : Prop :=
  ∀ i b, bs !! i = Some b → be_inv b ∧ be_abs b = part (length bs) i A.

Lemma parts_of_sharded A bs : bs ≠ [] → parts_of A bs → sharded string_hash bs ∧ abs_all bs = A.
Proof.
  intros Hne Hp. split; [split_and!; [done|..]|].
  - apply Forall_lookup. intros i b Hi. by apply (Hp i b).
  - intros i b st Hi Hst. rewrite (proj2 (Hp i b Hi)) in Hst. by apply elem_of_filter in Hst as [? _].
  - apply set_eq. intros st. rewrite elem_of_abs_all. split.
    + intros (i & b & Hi & Hst). rewrite (proj2 (Hp i b Hi)) in Hst. by apply elem_of_filter in Hst as [_ ?].
    + intros Hst. destruct (lookup_lt_is_Some_2 bs (shard string_hash (length bs) st)) as [b Hb].
      { apply shard_lt. destruct bs; [done|simpl; lia]. }
      eexists _, b. split; [exact Hb|]. rewrite (proj2 (Hp _ b Hb)). by apply elem_of_filter.
Qed.

(** What the backend [i] answers. *)
Definition answer (n : nat) (A0 : gset Statement) (reqs : list UpdateRequest) (i : nat) : UpdateResponse :=
  stats_response (foldl (spec_stats ar (part n i A0)) (mkUpdateStatistics 0 0 0 0) (filter (reaches n i) reqs)).

Lemma run_updates reqs (bs : list B) ws :
  sharded string_hash bs → key_local (length bs) (abs_all bs ∪ stmts_added reqs) →
  length ws = length bs →
  (∀ i, ws !! i = (λ l, l ++ filter (reaches (length bs) i) reqs) <$> replicate (length bs) [] !! i) →
  ∃ bs', run_each be_Update ws bs =
      Ok ((λ r, (StatusOK, r)) <$> (answer (length bs) (abs_all bs) reqs <$> seq 0 (length bs)), bs') ∧
    length bs' = length bs ∧ parts_of (foldl (spec_update ar (abs_all bs)) (abs_all bs) reqs) bs'.
Proof.
  intros (Hne & Hinv & Hpl) Hk Hlen Hw.
  destruct (run_each_spec be_Update
    (λ a b r b', r = stats_response (foldl (spec_stats ar (be_abs b)) (mkUpdateStatistics 0 0 0 0) a) ∧
       be_inv b' ∧ be_abs b' = foldl (spec_update ar (be_abs b)) (be_abs b) a) ws bs) as (rs & bs' & E & HE).
  { apply Forall2_same_length_lookup. split; [done|]. intros i a b Ha Hb.
    rewrite Forall_lookup in Hinv. destruct (law_update a b (Hinv i b Hb)) as (b' & Eb & ? & ?). eauto 10. }
  destruct (each_length _ _ _ _ _ HE) as (_ & Hlr & Hlb).
  assert (Ha : ∀ i a, ws !! i = Some a → a = filter (reaches (length bs) i) reqs).
  { intros i a Hi. pose proof (lookup_lt_Some _ _ _ Hi) as Hlt. rewrite Hlen in Hlt.
    rewrite Hw, (lookup_replicate_2 (length bs) [] i Hlt) in Hi. by injection Hi as <-. }
  exists bs'. split_and!; [|done|].
  - rewrite E. do 3 f_equal. apply list_eq. intros i. rewrite list_lookup_fmap.
    destruct (decide (i < length bs)) as [Hi|Hi].
    + destruct (lookup_lt_is_Some_2 bs i Hi) as [b Hb].
      destruct (each_lookup_l _ _ _ _ _ _ _ HE Hb) as (a & r & b' & Hwi & _ & -> & -> & _).
      rewrite lookup_seq_lt by done. simpl. unfold answer.
      by rewrite (Ha i a Hwi), (backend_part bs i b Hpl Hb).
    + rewrite lookup_ge_None_2 by lia. by rewrite lookup_seq_ge by lia.
  - intros i b' Hi. destruct (each_lookup _ _ _ _ _ _ _ HE Hi) as (a & b & r & Hwi & Hb & _ & _ & ? & Eb).
    split; [done|]. rewrite Eb, (Ha i a Hwi), (backend_part bs i b Hpl Hb), Hlb.
    apply (part_updates _ _ _ _ (abs_all bs ∪ stmts_added reqs)); [done|set_solver..].
Qed.

(** C19. Update on the sharded store has the effect that it has on one store with
    the union of the statements, for every stream of additions and removals in
    which statements with the same key, stored or added, belong to the same
    backend ([key_local]; a statement with an unset and one with an empty
    context have the same key and may be on two backends, where the sharded
    store keeps both): each backend applies its share and the shares make up the
    result.  The counters of the answers add up to those of the one store, but
    for the namespaces, which every backend counts. *)
Theorem sharded_update (reqs : list UpdateRequest) (bs : list B) :
  sharded string_hash bs → key_local (length bs) (abs_all bs ∪ stmts_added reqs) →
  let stats := foldl (spec_stats ar (abs_all bs)) (mkUpdateStatistics 0 0 0 0) reqs in
  ∃ bs', sh_Update string_hash reqs bs =
      Ok (StatusOK, mkUpdateResponse (added_stmts stats) (removed_stmts stats)
                      (Z.of_nat (length bs) * added_ns stats) 0, bs') ∧
    length bs' = length bs ∧ sharded string_hash bs' ∧
    abs_all bs' = foldl (spec_update ar (abs_all bs)) (abs_all bs) reqs.
Proof.
  intros Hsh Hk stats. pose proof Hsh as (Hne & _). unfold sh_Update.
  destruct (route_updates bs reqs (replicate (length bs) []) Hne (length_replicate _ _))
    as (ws & -> & Hlen & Hw). cbn [mbind res_bind].
  destruct (run_updates reqs bs ws Hsh Hk Hlen Hw) as (bs' & -> & Hl & Hp).
  cbn [mbind res_bind]. exists bs'. split; [|split; [done|]].
  - do 3 f_equal. rewrite sum_responses. unfold stats. rewrite stats_sums.
    assert (Hpos : 0 < length bs) by (destruct bs; [done|simpl; lia]).
    rewrite <- !list_fmap_compose. cbn [added_stmts removed_stmts added_ns].
    cbn [added_statements removed_statements added_namespaces removed_namespaces]. rewrite !Z.add_0_l.
    rewrite <- (sum_routed_adds (length bs)), <- (sum_routed_removes (length bs)), <- sum_routed_ns by done.
    f_equal; try (apply sum_to_ext; intros i _; simpl; unfold answer; by rewrite stats_sums).
    rewrite <- (Z.mul_0_r (Z.of_nat (length bs))), <- sum_to_const. apply sum_to_ext.
    intros i _. simpl. unfold answer. by rewrite stats_sums.
  - apply parts_of_sharded; [|done]. intros ->. by destruct bs.
Qed.
End ShardedUpdate.

Section ShardedUpdateWitness.
Import Demo.
#[local] Existing Instances demo_backend demo_model demo_laws.

(** Three backends: what is about alice goes, a statement and a namespace come. *)
Definition demo_updates : list UpdateRequest :=
  [stmt_removed (by_subject "alice"); stmt_added (quad "dan" "knows" "bob" "g9");
   ns_added (mkNamespace "ex" "http://example.org/")].

Lemma sharded_update_witness :
  ∃ bs', sh_Update demo_hash demo_updates demo_shards = Ok (StatusOK, mkUpdateResponse 1 2 3 0, bs') ∧
    length bs' = 3 ∧ sharded demo_hash bs' ∧
    abs_all bs' = foldl (spec_update ar (abs_all demo_shards)) (abs_all demo_shards) demo_updates.
Proof.
  assert (Hk : key_injective ar (abs_all demo_shards ∪ stmts_added demo_updates)).
  { rewrite (proj2 demo_shards_sharded). apply (bool_decide_unpack _). vm_compute. exact I. }
  destruct (sharded_update ar demo_hash demo_updates demo_shards (proj1 demo_shards_sharded)
    (key_injective_local ar demo_hash _ _ Hk)) as (bs' & E & Hl & Hsh & Ha).
  assert (Es : foldl (spec_stats ar (abs_all demo_shards)) (mkUpdateStatistics 0 0 0 0) demo_updates =
               mkUpdateStatistics 1 2 1 0).
  { rewrite (proj2 demo_shards_sharded). vm_compute. reflexivity. }
  rewrite Es in E. exists bs'. exact (conj E (conj Hl (conj Hsh Ha))).
Defined.
End ShardedUpdateWitness.
