(* ===== verification/Multiplex.v ===== *)
(** * Multiplex: the threads of GetStatements in sharding/sharding.cc

    One thread per backend reads the answer of its backend and writes it to the
    stream of the client, taking a lock for each write and stopping when a
    write fails.  A state is the program point of every thread, the holder of
    the lock and the stream; [mux_step] lets any thread take its next step.
    Every run ends, it ends only when all threads have returned (so the joins
    succeed), and the client has received a prefix of an interleaving of the
    answers: all of it unless the client stopped reading. *)

From Stdlib Require Import ZArith Lia.
From stdpp Require Import relations.
From S2P Require Import Prelude Words Murmur3 Messages Iterators LevelDB Keys Wire RdfOperators.
From S2P Require Import Persistence PersistenceSpec Refinement UpdateProofs Matching.
From S2P Require Import Service ServiceTheorems DemoStore Sharding ShardingProofs ShardingTheorems.

(** ** Threads *)

Section Threads.
Context {A : Type}.

Inductive mux_thread :=
  | Reading (run : bool) (l : list A)  (* at the head of the loop; [l] is still to be read *)
  | Waiting (x : A) (l : list A)       (* has read [x], wants the lock *)
  | Holding (x : A) (l : list A)       (* holds the lock, is about to write [x] *)
  | Leaving (run : bool) (l : list A)  (* has written, still holds the lock *)
  | Returned.

Record mux := mkMux {
  mx_threads : list mux_thread;
  mx_lock : option nat;
  mx_result : ServerWriter A;
}.

Inductive mux_step : mux → mux → Prop :=
  | mux_read ts i x l k w :
      ts !! i = Some (Reading true (x :: l)) →
      mux_step (mkMux ts k w) (mkMux (<[i := Waiting x l]> ts) k w)
  | mux_end ts i k w :
      ts !! i = Some (Reading true []) →
      mux_step (mkMux ts k w) (mkMux (<[i := Returned]> ts) k w)
  | mux_stop ts i l k w :
      ts !! i = Some (Reading false l) →
      mux_step (mkMux ts k w) (mkMux (<[i := Returned]> ts) k w)
  | mux_lock_taken ts i x l w :
      ts !! i = Some (Waiting x l) →
      mux_step (mkMux ts None w) (mkMux (<[i := Holding x l]> ts) (Some i) w)
  | mux_write ts i x l k w run w' :
      ts !! i = Some (Holding x l) → WriteMsg w x = (run, w') →
      mux_step (mkMux ts k w) (mkMux (<[i := Leaving run l]> ts) k w')
  | mux_unlock ts i run l k w :
      ts !! i = Some (Leaving run l) →
      mux_step (mkMux ts k w) (mkMux (<[i := Reading run l]> ts) None w).

Definition mux_start (answers : list (list A)) (w : ServerWriter A) : mux :=
  mkMux (Reading true <$> answers) None w.

(** ** The lock *)

Definition holds_lock (t : mux_thread) : bool :=
  match t with Holding _ _ | Leaving _ _ => true | _ => false end.

Definition holder (s : mux) (i : nat) : bool := default false (holds_lock <$> mx_threads s !! i).

(** The thread in the critical section is the one the lock records. *)
Definition lock_inv (s : mux) : Prop := ∀ i, mx_lock s = Some i ↔ holder s i = true.

Lemma holder_insert ts i t k w j :
  i < length ts →
  holder (mkMux (<[i := t]> ts) k w) j = if decide (i = j) then holds_lock t else holder (mkMux ts k w) j.
Proof.
  intros Hi. unfold holder. simpl. destruct (decide (i = j)) as [<-|Hne].
  - by rewrite list_lookup_insert_eq.
  - by rewrite list_lookup_insert_ne.
Qed.

Lemma holder_lookup ts i t k w : ts !! i = Some t → holder (mkMux ts k w) i = holds_lock t.
Proof. intros E. unfold holder. simpl. by rewrite E. Qed.

Lemma lock_inv_step s s' : mux_step s s' → lock_inv s → lock_inv s'.
Proof.
  intros Hs HI j. destruct Hs as [ts i x l k w Ht|ts i k w Ht|ts i l k w Ht|ts i x l w Ht
    |ts i x l k w run w' Ht E|ts i run l k w Ht];
    pose proof (lookup_lt_Some _ _ _ Ht) as Hlt; rewrite holder_insert by done;
    pose proof (HI i) as Hi; rewrite (holder_lookup _ _ _ _ _ Ht) in Hi; pose proof (HI j) as Hj;
    unfold holder in *; simpl in *; destruct (decide (i = j)) as [<-|Hne]; naive_solver.
Qed.

Lemma lock_inv_start answers w : lock_inv (mux_start answers w).
Proof.
  intros i. unfold holder. simpl. rewrite list_lookup_fmap.
  by destruct (answers !! i).
Qed.

Lemma lock_inv_rtc s s' : rtc mux_step s s' → lock_inv s → lock_inv s'.
Proof. induction 1; eauto using lock_inv_step. Qed.

(** ** Progress and termination *)

Lemma mux_progress_holder ts k w i :
  holder (mkMux ts k w) i = true → red mux_step (mkMux ts k w).
Proof.
  unfold holder. simpl. destruct (ts !! i) as [t|] eqn:Ht; [|done]. simpl.
  destruct t as [ | |x l|run l|]; try done; intros _.
  - destruct (WriteMsg w x) as [run w'] eqn:E. eexists. by eapply mux_write.
  - eexists. by eapply mux_unlock.
Qed.

Lemma mux_progress s i t :
  lock_inv s → mx_threads s !! i = Some t → t ≠ Returned → red mux_step s.
Proof.
  destruct s as [ts k w]; simpl. intros HI Ht Hn.
  destruct t as [[] [|x l]|x l|x l|run l|]; [by eexists; econstructor..| | | |done].
  - destruct k as [j|]; [|by eexists; econstructor].
    apply (mux_progress_holder _ _ _ j). by apply HI.
  - apply (mux_progress_holder _ _ _ i). by rewrite (holder_lookup _ _ _ _ _ Ht).
  - apply (mux_progress_holder _ _ _ i). by rewrite (holder_lookup _ _ _ _ _ Ht).
Qed.

(** Steps a thread has left. *)
Definition thread_measure (t : mux_thread) : nat :=
  match t with
  | Reading _ l => 4 * length l + 1
  | Waiting _ l => 4 * length l + 4
  | Holding _ l => 4 * length l + 3
  | Leaving _ l => 4 * length l + 2
  | Returned => 0
  end.

Definition mux_measure (s : mux) : nat := sum_list_with thread_measure (mx_threads s).

Lemma mux_step_measure s s' : mux_step s s' → mux_measure s' < mux_measure s.
Proof.
  intros Hs. unfold mux_measure. destruct Hs as [ts i x l k w Ht|ts i k w Ht|ts i l k w Ht|ts i x l w Ht
    |ts i x l k w run w' Ht E|ts i run l k w Ht]; simpl;
    match goal with |- context [<[i := ?t']> ts] => pose proof (sum_list_with_insert thread_measure ts i _ t' Ht) as Hm end;
    simpl in Hm; lia.
Qed.

Lemma mux_sn s : sn mux_step s.
Proof. apply (sn_measure mux_step mux_measure), mux_step_measure. Qed.

Lemma mux_nf_returned s : lock_inv s → nf mux_step s → Forall (λ t, t = Returned) (mx_threads s).
Proof.
  intros HI Hnf. apply Forall_lookup. intros i t Ht.
  destruct t; try done; destruct Hnf; by eapply mux_progress.
Qed.

Lemma returned_dec (t : mux_thread) : {t = Returned} + {t ≠ Returned}.
Proof. destruct t; first [by left|by right]. Qed.

(** A run in which every thread returns. *)
Lemma mux_joined s :
  lock_inv s → ∃ s', rtc mux_step s s' ∧ Forall (λ t, t = Returned) (mx_threads s').
Proof.
  induction (mux_sn s) as [s _ IH]. intros HI.
  destruct (Forall_Exists_dec (λ t, t = Returned) (λ t, t ≠ Returned) returned_dec (mx_threads s)) as [Hd|Hn].
  - by exists s.
  - apply Exists_exists in Hn as (t & [i Ht]%list_elem_of_lookup & Hn).
    destruct (mux_progress s i t HI Ht Hn) as [s1 Hs].
    destruct (IH s1 Hs (lock_inv_step _ _ Hs HI)) as (s' & Hr & Hd). exists s'. split; [by eapply rtc_l|done].
Qed.
End Threads.
Arguments mux_thread : clear implicits.
Arguments mux : clear implicits.

(** ** What the client receives *)

Lemma interleave_total {A} (ls : list (list A)) : ∃ out, interleave ls out.
Proof.
  remember (length (mjoin ls)) as n eqn:Hn. revert ls Hn. induction n as [|n IH]; intros ls Hn.
  - exists []. constructor. induction ls as [|l ls IHl]; [constructor|].
    change (mjoin (l :: ls)) with (l ++ mjoin ls) in Hn. rewrite length_app in Hn.
    constructor; [apply length_zero_iff_nil; lia|apply IHl; lia].
  - assert (∃ i x l, ls !! i = Some (x :: l)) as (i & x & l & Hi).
    { clear IH. induction ls as [|[|x l] ls IHl]; [done| |by exists 0, x, l].
      destruct IHl as (i & x & l & Hi); [done|]. by exists (S i), x, l. }
    destruct (IH (<[i := l]> ls)) as [out Hout]; [|exists (x :: out); by econstructor].
    destruct (list_elem_of_split_length ls i (x :: l) Hi) as (l1 & l2 & -> & ->).
    replace (length l1) with (length l1 + 0) by lia. rewrite insert_app_r. simpl.
    rewrite !join_app in *. rewrite length_app in *. simpl in *. rewrite length_app in *. lia.
Qed.

Section Delivery.
Context {A : Type}.

(** What a thread has not written yet. *)
Definition unwritten (t : mux_thread A) : list A :=
  match t with
  | Reading _ l | Leaving _ l => l
  | Waiting x l | Holding x l => x :: l
  | Returned => []
  end.

Definition stopped (t : mux_thread A) : bool :=
  match t with Reading run _ | Leaving run _ => negb run | _ => false end.

(** A thread only stops when the client has stopped. *)
Definition run_inv (s : mux A) : Prop :=
  ∀ i t, mx_threads s !! i = Some t → stopped t = true → w_room (mx_result s) = Some 0.

Lemma WriteMsg_cases (w : ServerWriter A) x :
  (w_room w = Some 0 ∧ WriteMsg w x = (false, w)) ∨
  (w_room w ≠ Some 0 ∧ WriteMsg w x = (true, mkServerWriter (written w ++ [x]) (pred <$> w_room w))).
Proof. unfold WriteMsg. destruct (w_room w) as [[|n]|] eqn:E; eauto. Qed.

Lemma run_inv_step (s s' : mux A) : mux_step s s' → run_inv s → run_inv s'.
Proof.
  intros Hs HI j t. destruct Hs as [ts i x l k w Ht|ts i k w Ht|ts i l k w Ht|ts i x l w Ht
    |ts i x l k w run w' Ht E|ts i run l k w Ht]; simpl;
    intros [(-> & <- & _)|[Hne Hj]]%list_lookup_insert_Some Hst; try done; try (by eapply HI).
  - simpl in Hst. destruct (WriteMsg_cases w x) as [[? E']|[? E']]; rewrite E in E'; by simplify_eq.
  - pose proof (HI _ _ Hj Hst) as Hw. simpl in Hw. unfold WriteMsg in E. rewrite Hw in E. by simplify_eq.
Qed.

(** Once the client has stopped nothing more is written. *)
Lemma mux_step_stopped (s s' : mux A) :
  mux_step s s' → w_room (mx_result s) = Some 0 → mx_result s' = mx_result s.
Proof.
  intros Hs Hw. destruct Hs as [| | | |ts i x l k w run w' Ht E|]; try done. simpl in *.
  unfold WriteMsg in E. rewrite Hw in E. by simplify_eq.
Qed.

Lemma mux_rtc_stopped (s s' : mux A) :
  rtc mux_step s s' → w_room (mx_result s) = Some 0 → mx_result s' = mx_result s.
Proof.
  induction 1 as [|s s1 s' Hs _ IH]; [done|]. intros Hw.
  pose proof (mux_step_stopped _ _ Hs Hw) as E. rewrite IH; [done|by rewrite E].
Qed.

(** Steps other than a write keep what is unwritten. *)
Lemma unwritten_insert (ts : list (mux_thread A)) i t t' :
  ts !! i = Some t → unwritten t' = unwritten t → unwritten <$> <[i := t']> ts = unwritten <$> ts.
Proof.
  intros Ht E. rewrite list_fmap_insert, E. apply list_insert_id. by rewrite list_lookup_fmap, Ht.
Qed.

Lemma mux_step_unwritten (s s' : mux A) :
  mux_step s s' → run_inv s → w_room (mx_result s) ≠ Some 0 →
  (mx_result s' = mx_result s ∧ unwritten <$> mx_threads s' = unwritten <$> mx_threads s) ∨
  (∃ i x l, (unwritten <$> mx_threads s) !! i = Some (x :: l) ∧
     unwritten <$> mx_threads s' = <[i := l]> (unwritten <$> mx_threads s) ∧
     mx_result s' = mkServerWriter (written (mx_result s) ++ [x]) (pred <$> w_room (mx_result s))).
Proof.
  intros Hs HI Hw. destruct Hs as [ts i x l k w Ht|ts i k w Ht|ts i l k w Ht|ts i x l w Ht
    |ts i x l k w run w' Ht E|ts i run l k w Ht]; simpl in *.
  1, 2, 4, 6: left; split; [done|]; by eapply unwritten_insert.
  - by pose proof (HI i _ Ht eq_refl).
  - right. exists i, x, l. destruct (WriteMsg_cases w x) as [[? _]|[_ E']]; [done|].
    rewrite E in E'. simplify_eq. split_and!; [by rewrite list_lookup_fmap, Ht| |done].
    by rewrite list_fmap_insert.
Qed.

Lemma accepted_cons (room : option nat) (x : A) l :
  room ≠ Some 0 → accepted room (x :: l) = x :: accepted (pred <$> room) l.
Proof. by destruct room as [[|n]|]. Qed.

Lemma mux_delivers (s s' : mux A) :
  rtc mux_step s s' → Forall (λ t, t = Returned) (mx_threads s') → run_inv s →
  ∃ full, interleave (unwritten <$> mx_threads s) full ∧
    written (mx_result s') = written (mx_result s) ++ accepted (w_room (mx_result s)) full.
Proof.
  intros Hr Hd. induction Hr as [s|s s1 s' Hs Hr IH]; intros HI.
  - exists []. split; [|by destruct (w_room _) as [[]|]; simpl; rewrite app_nil_r].
    constructor. apply Forall_fmap. by eapply Forall_impl; [exact Hd|intros t ->].
  - destruct (decide (w_room (mx_result s) = Some 0)) as [Hw|Hw].
    + destruct (interleave_total (unwritten <$> mx_threads s)) as [full Hf]. exists full.
      split; [done|]. rewrite (mux_rtc_stopped s s'), Hw by eauto using rtc_l.
      by rewrite app_nil_r.
    + destruct (IH Hd (run_inv_step _ _ Hs HI)) as (full & Hf & E).
      destruct (mux_step_unwritten _ _ Hs HI Hw) as [[Er Eu]|(i & x & l & Hi & Eu & Er)].
      * exists full. by rewrite <- Eu, <- Er.
      * exists (x :: full). rewrite Eu in Hf. split; [by econstructor|].
        rewrite E, Er, accepted_cons by done. simpl. by rewrite <- app_assoc.
Qed.

Lemma run_inv_start answers (w : ServerWriter A) : run_inv (mux_start answers w).
Proof.
  intros i t Hi. simpl in Hi. rewrite list_lookup_fmap in Hi.
  apply fmap_Some in Hi as (l & _ & ->). done.
Qed.

Lemma unwritten_start answers (w : ServerWriter A) :
  unwritten <$> mx_threads (mux_start answers w) = answers.
Proof. simpl. rewrite <- list_fmap_compose. apply list_fmap_id. Qed.
End Delivery.

Lemma mux_final {A} (answers : list (list A)) room s :
  rtc mux_step (mux_start answers (newServerWriter room)) s → nf mux_step s →
  Forall (λ t, t = Returned) (mx_threads s) ∧ mx_lock s = None ∧
  ∃ full, interleave answers full ∧ written (mx_result s) = accepted room full.
Proof.
  intros Hr Hnf.
  pose proof (lock_inv_rtc _ _ Hr (lock_inv_start _ _)) as HI.
  pose proof (mux_nf_returned s HI Hnf) as Hd. split; [done|]. split.
  - destruct (mx_lock s) as [i|] eqn:E; [|done]. apply HI in E. unfold holder in E.
    destruct (mx_threads s !! i) as [t|] eqn:Ht; [|done].
    rewrite Forall_lookup in Hd. by rewrite (Hd i t Ht) in E.
  - destruct (mux_delivers _ s Hr Hd (run_inv_start _ _)) as (full & Hf & E).
    exists full. rewrite unwritten_start in Hf. by split.
Qed.

(** ** GetStatements of ShardingService

    The call: the answers of the backends, a run of the threads that write them
    to the stream of the client until all are joined, and the status.  The
    readers are never asked for the statuses of the backends. *)

Section ShardedGet.
Context {B : Type} `{SB : SailBackend B} `{PB : Protobuf}.

Inductive sh_GetStatements (pattern : Statement) (backends : list B) (result : ServerWriter Statement) :
    Status → ServerWriter Statement → Prop :=
  | sh_GetStatements_joined answers s :
      shard_results pattern backends = Ok answers →
      rtc mux_step (mux_start answers result) s → Forall (λ t, t = Returned) (mx_threads s) →
      sh_GetStatements pattern backends result StatusOK (mx_result s).

(** The threads always come to be joined. *)
Lemma sh_GetStatements_total pattern backends answers result :
  shard_results pattern backends = Ok answers →
  ∃ result', sh_GetStatements pattern backends result StatusOK result'.
Proof.
  intros E. destruct (mux_joined (mux_start answers result) (lock_inv_start _ _)) as (s & Hr & Hd).
  exists (mx_result s). by eapply sh_GetStatements_joined.
Qed.

(** What the client has received is a prefix of an interleaving of the answers. *)
Lemma sh_GetStatements_delivers pattern backends answers room st result' :
  shard_results pattern backends = Ok answers →
  sh_GetStatements pattern backends (newServerWriter room) st result' →
  st = StatusOK ∧ ∃ full, full ≡ₚ mjoin answers ∧ written result' = accepted room full.
Proof.
  intros E [answers' s E' Hr Hd]. rewrite E in E'. injection E' as <-. split; [done|].
  destruct (mux_delivers _ s Hr Hd (run_inv_start _ _)) as (full & Hf & Ew).
  rewrite unwritten_start in Hf. exists full. split; [by apply interleave_permutation|exact Ew].
Qed.
End ShardedGet.

(** ** Properties *)

(** However the threads are scheduled and whenever the client stops reading:
    no run is infinite and none gets stuck before every thread has returned and
    the lock is free, so the joins of GetStatements always succeed; the client
    has then received an interleaving of the answers, cut off where it stopped. *)
Theorem multiplex_live {A} (answers : list (list A)) (room : option nat) :
  let s0 := mux_start answers (newServerWriter room) in
  sn mux_step s0 ∧
  ∀ s, rtc mux_step s0 s → nf mux_step s →
    Forall (λ t, t = Returned) (mx_threads s) ∧ mx_lock s = None ∧
    ∃ full, interleave answers full ∧ written (mx_result s) = accepted room full.
Proof.
  split; [apply mux_sn|]. intros s. apply mux_final.
Qed.

(** The writes to the stream of the client exclude each other: in every
    reachable state at most one thread is between taking and releasing the
    lock. *)
Theorem multiplex_exclusive {A} (answers : list (list A)) (room : option nat) (s : mux A) (i j : nat) :
  rtc mux_step (mux_start answers (newServerWriter room)) s →
  holder s i = true → holder s j = true → i = j.
Proof.
  intros Hr Hi Hj. pose proof (lock_inv_rtc _ _ Hr (lock_inv_start _ _)) as HI.
  apply HI in Hi, Hj. congruence.
Qed.

Section ShardedQuery.
Context (ar : arch) {B : Type} `{SL : SailLaws ar B} (string_hash : bytes → Z).

Lemma shard_answers pattern (bs : list B) :
  sharded string_hash bs →
  ∃ ls, shard_results pattern bs = Ok ls ∧ NoDup (mjoin ls) ∧
    list_to_set (mjoin ls) = spec_get ar pattern (abs_all bs).
Proof.
  intros Hsh. pose proof Hsh as (_ & Hinv & Hpl).
  destruct (shard_results_spec ar pattern bs Hinv) as (ls & E & HF). exists ls. split_and!; [done| |].
  - eapply (shard_results_nodup ar); [|exact HF].
    intros i j b b' st. exact (placed_disjoint string_hash bs i j b b' st Hpl).
  - apply set_eq. intros st. by rewrite elem_of_list_to_set, (elem_of_shard_results ar pattern bs ls st HF).
Qed.

(** C20. A query to the sharded store, threads included: every run of the threads
    ends, and the client then holds statements that the query selects from the
    union of the backends, each at most once, and as many of them as it was
    willing to read; all of them when it did not stop. *)
Theorem sharded_query (pattern : Statement) (room : option nat) (bs : list B) :
  sharded string_hash bs →
  ∃ ls, shard_results pattern bs = Ok ls ∧
    let s0 := mux_start ls (newServerWriter room) in
    let selected := spec_get ar pattern (abs_all bs) in
    sn mux_step s0 ∧
    ∀ s, rtc mux_step s0 s → nf mux_step s →
      let received := written (mx_result s) in
      NoDup received ∧ list_to_set received ⊆ selected ∧
      length received = default (size selected) (Nat.min (size selected) <$> room) ∧
      (room = None → list_to_set received = selected).
Proof.
  intros Hsh. destruct (shard_answers pattern bs Hsh) as (ls & E & Hnd & Es).
  exists ls. split; [done|]. intros s0 selected. unfold selected. rewrite <- Es.
  split; [apply mux_sn|]. intros s Hr Hnf.
  destruct (mux_final ls room s Hr Hnf) as (_ & _ & full & Hf%interleave_permutation & Ew). rewrite Ew.
  rewrite <- Hf in Hnd. assert (Eset : list_to_set (mjoin ls) = list_to_set (C:=gset Statement) full).
  { apply set_eq. intros st. by rewrite !elem_of_list_to_set, Hf. }
  rewrite Eset, size_list_to_set by done.
  destruct room as [n|]; simpl; [|by split_and!]. split_and!.
  - eapply sublist_NoDup; [done|apply sublist_take].
  - intros st. rewrite !elem_of_list_to_set. apply subseteq_take.
  - rewrite length_take. lia.
  - done.
Qed.
End ShardedQuery.

Section MultiplexWitnesses.
Import Demo.

#[local] Existing Instances demo_backend demo_model demo_laws.

Lemma multiplex_exclusive_witness :
  ∃ s, rtc mux_step (mux_start [[1; 2]; [3]] (newServerWriter None)) s ∧
    holder s 1 = true ∧ (∀ j, holder s j = true → 1 = j).
Proof.
  exists (mkMux [Reading true [1; 2]; Holding 3 []] (Some 1) (newServerWriter None)).
  assert (Hr : rtc mux_step (mux_start [[1; 2]; [3]] (newServerWriter None))
    (mkMux [Reading true [1; 2]; Holding 3 []] (Some 1) (newServerWriter None))).
  { eapply rtc_l; [apply (mux_read [Reading true [1; 2]; Reading true [3]] 1 3 [] None _ eq_refl)|].
    eapply rtc_l; [apply (mux_lock_taken [Reading true [1; 2]; Waiting 3 []] 1 3 [] _ eq_refl)|].
    apply rtc_refl. }
  split_and!; [exact Hr|reflexivity|]. intros j Hj.
  exact (multiplex_exclusive [[1; 2]; [3]] None _ 1 j Hr eq_refl Hj).
Defined.

Lemma sharded_query_witness :
  ∃ ls, shard_results (by_subject "alice") demo_shards = Ok ls ∧
    let s0 := mux_start ls (newServerWriter (Some 1)) in
    let selected := spec_get ar (by_subject "alice") (abs_all demo_shards) in
    sn mux_step s0 ∧
    ∀ s, rtc mux_step s0 s → nf mux_step s →
      let received := written (mx_result s) in
      NoDup received ∧ list_to_set received ⊆ selected ∧
      length received = default (size selected) (Nat.min (size selected) <$> Some 1) ∧
      (Some 1 = None → list_to_set received = selected).
Proof.
  apply (sharded_query ar demo_hash (by_subject "alice") (Some 1) demo_shards
    (proj1 demo_shards_sharded)).
Defined.
End MultiplexWitnesses.
