(* ===== verification/ShardingOutage.v ===== *)
(** * ShardingOutage: what the proxy does when backends cannot be reached

    A stub of a backend that is down answers every call with an error status
    and leaves the response message at its defaults.  AddStatements and Update
    of ShardingService drop the statuses of their streams, GetStatements never
    asks for them, and only the fan-out looks at what it gets. *)

From Stdlib Require Import ZArith Lia.
From S2P Require Import Prelude Words Murmur3 Messages Iterators LevelDB Keys Wire RdfOperators.
From S2P Require Import Persistence PersistenceSpec Refinement UpdateProofs Matching.
From S2P Require Import Service ServiceTheorems DemoStore Sharding ShardingProofs ShardingTheorems.
From S2P Require Import ShardedUpdate Multiplex.

(** ** Answers by position *)

Lemma sum_values_seq n (f : nat → Status * Z) : sum_values (f <$> seq 0 n) = sum_to n (λ i, (f i).2).
Proof.
  unfold sum_values. induction n as [|n IH]; [done|].
  rewrite sum_to_S, <- IH, seq_S, fmap_app, foldl_app. done.
Qed.

Lemma first_error_down {R} (e : nat → Status) (D : gset nat) (d : R) (g : nat → R) l :
  Forall (λ i, i ∈ D → status_ok (e i) = false) l →
  first_error ((λ i, if decide (i ∈ D) then (e i, d) else (StatusOK, g i)) <$> l) =
  match filter (λ i, i ∈ D) l with [] => StatusOK | i :: _ => e i end.
Proof.
  unfold first_error. induction 1 as [|i l Hi _ IH]; [done|]. rewrite fmap_cons, !filter_cons.
  destruct (decide (i ∈ D)) as [HD|HD]; simpl; [by rewrite Hi|done].
Qed.

Lemma list_seq {A} n (l : list A) (f : nat → A) :
  length l = n → (∀ i, i < n → l !! i = Some (f i)) → l = f <$> seq 0 n.
Proof.
  intros Hl Hf. apply list_eq. intros i. rewrite list_lookup_fmap.
  destruct (decide (i < n)) as [Hi|Hi].
  - by rewrite Hf, lookup_seq_lt.
  - by rewrite lookup_ge_None_2, lookup_seq_ge by lia.
Qed.

Section Outage.
Context (ar : arch) {B : Type} `{SL : SailLaws ar B} (string_hash : bytes → Z).

(** A backend that cannot be reached. *)
Record down (e : Status) (b : B) : Prop := {
  down_error : status_ok e = false;
  down_add l : be_AddStatements l b = Ok (e, 0%Z, b);
  down_get pattern : be_GetStatements pattern b = Ok (e, []);
  down_remove pattern : be_RemoveStatements pattern b = Ok (e, 0%Z, b);
  down_update reqs : be_Update reqs b = Ok (e, mkUpdateResponse 0 0 0 0, b);
}.

(** The backends in [D] are down, backend [i] with the status [e i]. *)
Definition outage (e : nat → Status) (D : gset nat) (bs : list B) : Prop :=
  ∀ i b, bs !! i = Some b → if decide (i ∈ D) then down (e i) b else be_inv b.

(** Backends that are up have done [f], the others nothing. *)
Definition served (f : nat → gset Statement → gset Statement) (D : gset nat) (bs bs' : list B) : Prop :=
  length bs' = length bs ∧
  ∀ i b, bs !! i = Some b → ∃ b', bs' !! i = Some b' ∧
    if decide (i ∈ D) then b' = b else be_inv b' ∧ be_abs b' = f i (be_abs b).

(** Every backend is called: its answer and what it holds then. *)
Lemma run_outage {A R} (call : A → B → res (Status * R * B)) e D bs args dflt
    (g : nat → R) (f : nat → gset Statement → gset Statement) :
  outage e D bs → length args = length bs →
  (∀ a b s, down s b → call a b = Ok (s, dflt, b)) →
  (∀ i a b, args !! i = Some a → bs !! i = Some b → be_inv b →
     ∃ b', call a b = Ok (StatusOK, g i, b') ∧ be_inv b' ∧ be_abs b' = f i (be_abs b)) →
  ∃ bs', run_each call args bs =
      Ok ((λ i, if decide (i ∈ D) then (e i, dflt) else (StatusOK, g i)) <$> seq 0 (length bs), bs') ∧
    served f D bs bs'.
Proof.
  intros Ho Hl Hdown Hup.
  destruct (run_each_any call (λ i r b', ∃ b, bs !! i = Some b ∧
     r = (if decide (i ∈ D) then (e i, dflt) else (StatusOK, g i)) ∧
     if decide (i ∈ D) then b' = b else be_inv b' ∧ be_abs b' = f i (be_abs b)) args bs Hl)
    as (rs & bs' & -> & Hlr & Hlb & HE).
  { intros i a b Ha Hb. pose proof (Ho i b Hb) as Hi. case_decide.
    - rewrite (Hdown a b _ Hi). eauto 10.
    - destruct (Hup i a b Ha Hb Hi) as (b' & -> & ? & ?). eauto 10. }
  exists bs'. split; [|split; [done|]].
  - do 2 f_equal. apply list_seq; [done|]. intros i Hi. by destruct (HE i Hi) as (r & b' & -> & _ & b & _ & -> & _).
  - intros i b Hb. destruct (HE i (lookup_lt_Some _ _ _ Hb)) as (r & b' & _ & Hb' & b0 & Hb0 & _ & HP).
    rewrite Hb in Hb0. injection Hb0 as <-. eauto.
Qed.

(** ** Streams *)

(** The statements for backends that are up. *)
Definition reached (D : gset nat) (n : nat) (reader : list Statement) : list Statement :=
  filter (λ st, shard string_hash n st ∉ D) reader.

Lemma sum_reached D n reader :
  0 < n →
  sum_to n (λ i, if decide (i ∈ D) then 0%Z
                 else Z.of_nat (length (filter (λ st, shard string_hash n st = i) reader))) =
  Z.of_nat (length (reached D n reader)).
Proof.
  intros Hn. unfold reached. induction reader as [|st reader IH].
  - simpl. rewrite (sum_to_ext _ _ (λ _, 0%Z)) by (intros; by case_decide). rewrite sum_to_const. lia.
  - pose proof (shard_lt string_hash n st Hn) as Hlt. set (j := shard string_hash n st) in *.
    assert (E : (Z.of_nat (length (filter (λ st, shard string_hash n st ∉ D) (st :: reader))) =
      Z.of_nat (length (filter (λ st, shard string_hash n st ∉ D) reader)) +
      (if decide (j < n)%nat then if decide (j ∈ D) then 0 else 1 else 0))%Z).
    { rewrite filter_cons, (decide_True (P:=j < n)) by done. fold j.
      destruct (decide (j ∈ D)); [rewrite decide_False|rewrite decide_True]; [lia|tauto|simpl; lia|done]. }
    rewrite E, <- IH, <- sum_to_one, <- sum_to_add. apply sum_to_ext. intros i _. rewrite filter_cons. fold j.
    clearbody j.
    repeat case_decide; subst; simpl; first [lia|done].
Qed.

(** C22. Writes to backends that are down are lost without an error: AddStatements
    and Update answer OK, the backends that are up have what was routed to
    them, and AddStatements reports the number of those statements only. *)
Theorem outage_writes_silent (e : nat → Status) (D : gset nat) (bs : list B) :
  bs ≠ [] → outage e D bs →
  (∀ reader, ∃ bs', sh_AddStatements string_hash reader bs =
       Ok (StatusOK, Z.of_nat (length (reached D (length bs) reader)), bs') ∧
     served (λ i A, foldl (λ A st, spec_add ar st A) A
               (filter (λ st, shard string_hash (length bs) st = i) reader)) D bs bs') ∧
  (∀ reqs, ∃ resp bs', sh_Update string_hash reqs bs = Ok (StatusOK, resp, bs') ∧
     served (λ i A, foldl (spec_update ar A) A (filter (reaches string_hash (length bs) i) reqs)) D bs bs').
Proof.
  intros Hne Ho. split.
  - intros reader. unfold sh_AddStatements.
    destruct (route_statements string_hash bs reader (replicate (length bs) []) Hne
      (length_replicate _ _)) as (ws & -> & Hlen & Hw & _). cbn [mbind res_bind].
    destruct (run_outage be_AddStatements e D bs ws 0%Z
      (λ i, Z.of_nat (length (filter (λ st, shard string_hash (length bs) st = i) reader)))
      (λ i A, foldl (λ A st, spec_add ar st A) A (filter (λ st, shard string_hash (length bs) st = i) reader))
      Ho Hlen) as (bs' & -> & Hs).
    { intros a b s Hd. apply Hd. }
    { intros i a b Ha Hb HI. rewrite Hw, (lookup_replicate_2 (length bs) [] i (lookup_lt_Some _ _ _ Hb)) in Ha.
      injection Ha as <-. exact (law_add _ b HI). }
    cbn [mbind res_bind]. exists bs'. split; [|done]. rewrite sum_values_seq. do 3 f_equal.
    rewrite <- sum_reached by (destruct bs; [done|simpl; lia]). apply sum_to_ext. intros i _. by case_decide.
  - intros reqs. unfold sh_Update.
    destruct (route_updates string_hash bs reqs (replicate (length bs) []) Hne (length_replicate _ _))
      as (ws & -> & Hlen & Hw). cbn [mbind res_bind].
    destruct (run_outage be_Update e D bs ws (mkUpdateResponse 0 0 0 0)
      (λ i, stats_response (foldl (spec_stats ar (default ∅ (be_abs <$> bs !! i))) (mkUpdateStatistics 0 0 0 0)
              (filter (reaches string_hash (length bs) i) reqs)))
      (λ i A, foldl (spec_update ar A) A (filter (reaches string_hash (length bs) i) reqs)) Ho Hlen)
      as (bs' & -> & Hs).
    { intros a b s Hd. apply Hd. }
    { intros i a b Ha Hb HI. rewrite Hw, (lookup_replicate_2 (length bs) [] i (lookup_lt_Some _ _ _ Hb)) in Ha.
      injection Ha as <-. rewrite Hb. exact (law_update _ b HI). }
    cbn [mbind res_bind]. eauto.
Qed.

(** ** Queries and fan-outs *)

Definition first_down (e : nat → Status) (D : gset nat) (n : nat) : Status :=
  match filter (λ i, i ∈ D) (seq 0 n) with [] => StatusOK | i :: _ => e i end.

Lemma shard_results_outage (e : nat → Status) (D : gset nat) (pattern : Statement) (k : nat) (bs : list B) :
  (∀ i b, bs !! i = Some b → if decide (k + i ∈ D) then down (e (k + i)) b else be_inv b) →
  ∃ ls, shard_results pattern bs = Ok ls ∧ length ls = length bs ∧
    ∀ i b l, bs !! i = Some b → ls !! i = Some l →
      if decide (k + i ∈ D) then l = [] else NoDup l ∧ ∀ st, st ∈ l ↔ st ∈ spec_get ar pattern (be_abs b).
Proof.
  revert k. induction bs as [|b bs IH]; intros k Ho; [by exists []|].
  destruct (IH (S k)) as (ls & E & Hl & Hls).
  { intros i c Hc. pose proof (Ho (S i) c Hc) as Hi. by rewrite Nat.add_succ_r in Hi. }
  assert (∃ s l, be_GetStatements pattern b = Ok (s, l) ∧
    if decide (k ∈ D) then l = [] else NoDup l ∧ ∀ st, st ∈ l ↔ st ∈ spec_get ar pattern (be_abs b))
    as (s & l & El & Hp).
  { pose proof (Ho 0 b eq_refl) as Hi. rewrite Nat.add_0_r in Hi. case_decide.
    - rewrite (down_get _ _ Hi). eauto.
    - destruct (law_get pattern b Hi) as (l & -> & ? & ?). eauto. }
  exists (l :: ls). simpl. rewrite El. simpl. rewrite E. split_and!; [done|simpl; lia|].
  intros [|i] c l' Hc Hl'; simpl in *; [simplify_eq; by rewrite Nat.add_0_r|].
  rewrite Nat.add_succ_r. by apply Hls.
Qed.

(** The statements the backends that are up have for a query. *)
Definition live (D : gset nat) (pattern : Statement) (bs : list B) (st : Statement) : Prop :=
  ∃ i b, bs !! i = Some b ∧ (i ∉ D) ∧ st ∈ spec_get ar pattern (be_abs b).

Lemma elem_of_live e D pattern bs ls st :
  outage e D bs → length ls = length bs →
  (∀ i b l, bs !! i = Some b → ls !! i = Some l →
    if decide (i ∈ D) then l = [] else NoDup l ∧ ∀ st, st ∈ l ↔ st ∈ spec_get ar pattern (be_abs b)) →
  st ∈ mjoin ls ↔ live D pattern bs st.
Proof.
  intros Ho Hl Hls. rewrite list_elem_of_join. split.
  - intros (l & Hst & [i Hi]%list_elem_of_lookup). pose proof (lookup_lt_Some _ _ _ Hi) as Hlt.
    rewrite Hl in Hlt. destruct (lookup_lt_is_Some_2 bs i Hlt) as [b Hb].
    pose proof (Hls i b l Hb Hi) as Hi'. case_decide; [subst; by apply not_elem_of_nil in Hst|].
    exists i, b. split_and!; [done..|by apply Hi'].
  - intros (i & b & Hb & HD & Hst). pose proof (lookup_lt_Some _ _ _ Hb) as Hlt. rewrite <- Hl in Hlt.
    destruct (lookup_lt_is_Some_2 ls i Hlt) as [l Hi]. exists l. split; [|by eapply list_elem_of_lookup_2].
    pose proof (Hls i b l Hb Hi) as Hi'. rewrite decide_False in Hi' by done. by apply Hi'.
Qed.

(** C23. When backends are down, a GetStatements call still returns, whenever the
    client stops reading and however the threads run: the status is OK, what
    the client received are matching statements of the backends that are up,
    and all of them when it read to the end; nothing tells it that others are
    missing.  RemoveStatements removes from the backends that are up and returns
    the error of the first backend that is down, OK when there is none. *)
Theorem outage_reads_and_fanout (tally : list Z → Z) (e : nat → Status) (D : gset nat)
    (pattern : Statement) (bs : list B) :
  outage e D bs →
  (∀ room,
     (∃ w, sh_GetStatements pattern bs (newServerWriter room) StatusOK w) ∧
     ∀ s w, sh_GetStatements pattern bs (newServerWriter room) s w →
       s = StatusOK ∧ (∀ st, st ∈ written w → live D pattern bs st) ∧
       (room = None → ∀ st, live D pattern bs st → st ∈ written w)) ∧
  (∃ n bs', sh_RemoveStatements tally pattern bs = Ok (first_down e D (length bs), n, bs') ∧
     served (λ _, spec_remove ar pattern) D bs bs').
Proof.
  intros Ho. split.
  { intros room. destruct (shard_results_outage e D pattern 0 bs Ho) as (ls & E & Hl & Hls).
    split; [by eapply sh_GetStatements_total|]. intros s w Hg.
    destruct (sh_GetStatements_delivers _ _ _ _ _ _ E Hg) as (-> & full & Hp & ->). split; [done|].
    split; [intros st Hst|intros -> st Hst].
    - apply (elem_of_live e D pattern bs ls st Ho Hl Hls). rewrite <- Hp.
      destruct room; [by eapply subseteq_take|done].
    - simpl. rewrite Hp. by apply (elem_of_live e D pattern bs ls st Ho Hl Hls). }
  unfold sh_RemoveStatements, Fanout.
  destruct (run_outage be_RemoveStatements e D bs (replicate (length bs) pattern) 0%Z
    (λ i, Z.of_nat (size (spec_get ar pattern (default ∅ (be_abs <$> bs !! i)))))
    (λ _, spec_remove ar pattern) Ho (length_replicate _ _)) as (bs' & -> & Hs).
  { intros a b s Hd. apply Hd. }
  { intros i a b [-> _]%lookup_replicate_1 Hb HI. rewrite Hb. exact (law_remove pattern b HI). }
  cbn [mbind res_bind]. eexists _, bs'. split; [|exact Hs]. do 3 f_equal.
  apply first_error_down, Forall_forall. intros i Hi HD.
  apply elem_of_seq in Hi. destruct (lookup_lt_is_Some_2 bs i ltac:(lia)) as [b Hb].
  pose proof (Ho i b Hb) as Hd. rewrite decide_True in Hd by done. exact (down_error _ _ Hd).
Qed.
End Outage.

(** ** A backend behind a channel that may be down *)

Inductive channel (B : Type) := Up (b : B) | Down (e : string).
Arguments Up {B} _.
Arguments Down {B} _.

Section Channel.
Context (ar : arch) {B : Type} `{SL : SailLaws ar B}.

(** A call that returns a value and one that changes the backend. *)
Definition ask {R} (call : B → res (Status * R)) (d : R) (c : channel B) : res (Status * R) :=
  match c with Up b => call b | Down e => Ok (Unavailable e, d) end.

Definition change {R} (call : B → res (Status * R * B)) (d : R) (c : channel B) : res (Status * R * channel B) :=
  match c with
  | Up b => '(s, r, b) ← call b; Ok (s, r, Up b)
  | Down e => Ok (Unavailable e, d, Down e)
  end.

Definition channel_backend : SailBackend (channel B) := {|
  be_AddNamespaces l := change (be_AddNamespaces l) 0%Z;
  be_GetNamespace pattern := ask (be_GetNamespace pattern) (mkNamespace "" "");
  be_GetNamespaces := ask be_GetNamespaces [];
  be_AddStatements l := change (be_AddStatements l) 0%Z;
  be_GetStatements pattern := ask (be_GetStatements pattern) [];
  be_RemoveStatements pattern := change (be_RemoveStatements pattern) 0%Z;
  be_Update reqs := change (be_Update reqs) (mkUpdateResponse 0 0 0 0);
  be_Clear contexts := change (be_Clear contexts) 0%Z;
  be_Size contexts := change (be_Size contexts) 0%Z;
  be_GetContexts := ask be_GetContexts [];
|}.

Definition channel_model : SailModel (channel B) := {|
  be_inv c := match c with Up b => be_inv b | Down _ => False end;
  be_abs c := match c with Up b => be_abs b | Down _ => ∅ end;
|}.

Lemma change_up {R} (call : B → res (Status * R * B)) d b s r (P : channel B → Prop) :
  (∃ b', call b = Ok (s, r, b') ∧ P (Up b')) →
  ∃ c, change call d (Up b) = Ok (s, r, c) ∧ P c.
Proof. intros (b' & E & HP). exists (Up b'). simpl. by rewrite E. Qed.

Lemma channel_laws : @SailLaws ar (channel B) _ channel_backend channel_model.
Proof.
  split; simpl.
  - intros l [b|] HI; [|done]. apply (change_up _ _ _ _ _ _ (law_add l b HI)).
  - intros l [b|] HI; [|done]. apply (change_up _ _ _ _ _ _ (law_add_ns l b HI)).
  - intros contexts [b|] HI; [|done]. destruct (law_clear contexts b HI) as (b' & E & ? & ?).
    exists (Up b'). simpl. by rewrite E.
  - intros pattern [b|] HI; [|done]. exact (law_get pattern b HI).
  - intros pattern [b|] HI; [|done]. apply (change_up _ _ _ _ _ _ (law_remove pattern b HI)).
  - intros [b|] HI; [|done]. simpl. by rewrite (law_size b HI).
  - intros reqs [b|] HI; [|done]. apply (change_up _ _ _ _ _ _ (law_update reqs b HI)).
Qed.

Lemma channel_down e : @down (channel B) channel_backend (Unavailable e) (Down e).
Proof. by split. Qed.
End Channel.

Section OutageWitnesses.
Import Demo.
#[local] Existing Instances demo_backend demo_model demo_laws.
#[local] Instance demo_channel : SailBackend (channel store) := channel_backend.
#[local] Instance demo_channel_model : SailModel (channel store) := channel_model.
#[local] Instance demo_channel_laws : SailLaws ar (channel store) := channel_laws ar.

(** Three servers, the second one is down. *)
Definition demo_channels : list (channel store) :=
  match demo_shards with [a; _; c] => [Up a; Down "refused"; Up c] | _ => [] end.

Definition refused (_ : nat) : Status := Unavailable "refused".

Lemma demo_outage : demo_channels ≠ [] ∧ outage refused {[1]} demo_channels.
Proof.
  unfold demo_channels. destruct demo_shards_sharded as [(_ & HI & _) _].
  assert (Hl : length demo_shards = 3) by (vm_compute; reflexivity).
  destruct demo_shards as [|a [|b [|c [|]]]]; try discriminate Hl. split; [done|].
  rewrite !Forall_cons in HI. destruct HI as (Ha & _ & Hc & _).
  intros [|[|[|i]]] x Hx; simpl in Hx; simplify_eq.
  - rewrite decide_False by set_solver. exact Ha.
  - rewrite decide_True by set_solver. apply channel_down.
  - rewrite decide_False by set_solver. exact Hc.
Qed.

Lemma outage_writes_silent_witness :
  (∀ reader, ∃ bs', sh_AddStatements demo_hash reader demo_channels =
       Ok (StatusOK, Z.of_nat (length (reached demo_hash {[1]} (length demo_channels) reader)), bs') ∧
     served (λ i A, foldl (λ A st, spec_add ar st A) A
               (filter (λ st, shard demo_hash (length demo_channels) st = i) reader)) {[1]} demo_channels bs') ∧
  (∀ reqs, ∃ resp bs', sh_Update demo_hash reqs demo_channels = Ok (StatusOK, resp, bs') ∧
     served (λ i A, foldl (spec_update ar A) A (filter (reaches demo_hash (length demo_channels) i) reqs))
       {[1]} demo_channels bs').
Proof.
  exact (outage_writes_silent ar demo_hash refused {[1]} demo_channels (proj1 demo_outage) (proj2 demo_outage)).
Defined.

(** One of the three quads is for the server that is down. *)
Example outage_loses_a_quad :
  (λ '(s, n, _), (s, n)) <$> sh_AddStatements demo_hash quads demo_channels = Ok (StatusOK, 2%Z).
Proof. vm_compute. reflexivity. Qed.

Lemma outage_reads_and_fanout_witness :
  (∀ room,
     (∃ w, sh_GetStatements any demo_channels (newServerWriter room) StatusOK w) ∧
     ∀ s w, sh_GetStatements any demo_channels (newServerWriter room) s w →
       s = StatusOK ∧ (∀ st, st ∈ written w → live ar {[1]} any demo_channels st) ∧
       (room = None → ∀ st, live ar {[1]} any demo_channels st → st ∈ written w)) ∧
  (∃ n bs', sh_RemoveStatements lossy_tally any demo_channels =
       Ok (first_down refused {[1]} (length demo_channels), n, bs') ∧
     served (λ _, spec_remove ar any) {[1]} demo_channels bs').
Proof. exact (outage_reads_and_fanout ar lossy_tally refused {[1]} any demo_channels (proj2 demo_outage)). Defined.
End OutageWitnesses.
