(* ===== verification/ShardedNamespaces.v ===== *)
(** * ShardedNamespaces: namespaces behind the sharding proxy

    Namespaces are not partitioned: AddNamespaces of ShardingService writes
    every namespace to every backend, and the lookups ask a backend chosen at
    random.  [NsLaws] is what a backend promises about its namespaces, in terms
    of its two lookup functions; LevelDBService keeps it.  The theorem shows
    that the backends stay replicas, so that the choice does not matter. *)

From Stdlib Require Import ZArith Lia.
From S2P Require Import Prelude Words Murmur3 Messages Iterators LevelDB Keys Wire RdfOperators.
From S2P Require Import Persistence PersistenceSpec Refinement Service DemoStore Namespaces.
From S2P Require Import Sharding ShardingProofs ShardingTheorems.

(** What a namespace lookup finds: by prefix and by URI. *)
Class NsModel (B : Type) := {
  by_prefix : B → string → option Namespace;
  by_uri : B → string → option Namespace;
}.

(** A lookup after the namespaces [l] were added. *)
Definition after_add (key : Namespace → string) (l : list Namespace) (old : string → option Namespace)
    (s : string) : option Namespace :=
  match last_with key s l with Some ns => Some ns | None => old s end.

Class NsLaws (B : Type) `{SailBackend B} `{NsModel B} : Prop := {
  law_ns_add l (b : B) :
    ∃ b', be_AddNamespaces l b = Ok (StatusOK, Z.of_nat (length l), b') ∧
      (∀ s, by_prefix b' s = after_add prefix l (by_prefix b) s) ∧
      (∀ u, by_uri b' u = after_add ns_uri l (by_uri b) u);
  law_ns_prefix s u (b : B) :
    s ≠ ""%string → be_GetNamespace (mkNamespace s u) b = Ok (ns_answer (by_prefix b s));
  law_ns_uri u (b : B) :
    u ≠ ""%string → be_GetNamespace (mkNamespace "" u) b = Ok (ns_answer (by_uri b u));
}.

Section LevelDBNamespaces.
Context (ar : arch) `{PBL : ProtobufLaws}.
Context `{LK : !LevelDB key64} `{LKL : !LevelDBLaws key64}.
Context `{CB : !Comparator bytes} `{LB : !LevelDB bytes} `{LBL : !LevelDBLaws bytes}.

Definition leveldb_ns_model : NsModel LevelDBPersistence := {|
  by_prefix p := ns_lookup (contents (db_ns_prefix p));
  by_uri p := ns_lookup (contents (db_ns_url p));
|}.

Lemma leveldb_ns_laws : @NsLaws LevelDBPersistence (leveldb_backend ar) leveldb_ns_model.
Proof.
  split.
  - intros l p. destruct (AddNamespaces_contents (newReaderIterator l) p) as (p' & E & Hp & Hu & _).
    rewrite elements_newReaderIterator in E, Hp, Hu. exists p'. simpl. unfold svc_AddNamespaces. rewrite E.
    split; [done|]. unfold after_add. split; intros s; rewrite ?Hp, ?Hu; apply ns_lookup_add.
  - intros s u p Hs. simpl. rewrite svc_GetNamespace_results, ns_results_prefix by done.
    by rewrite ns_answer_list.
  - intros u p Hu. simpl. rewrite svc_GetNamespace_results, ns_results_uri by done.
    by rewrite ns_answer_list.
Qed.
End LevelDBNamespaces.

Section Replicas.
Context {B : Type} `{NL : NsLaws B}.

(** All backends find the same namespaces, given by the two functions. *)
Definition replicas (f g : string → option Namespace) (bs : list B) : Prop :=
  Forall (λ b, (∀ s, by_prefix b s = f s) ∧ (∀ u, by_uri b u = g u)) bs.

Lemma add_ns_each l f g bs :
  replicas f g bs →
  ∃ rs bs', run_each be_AddNamespaces (replicate (length bs) l) bs = Ok (rs, bs') ∧
    rs = replicate (length bs) (StatusOK, Z.of_nat (length l)) ∧
    length bs' = length bs ∧ replicas (after_add prefix l f) (after_add ns_uri l g) bs'.
Proof.
  induction 1 as [|b bs [Hf Hg] _ (rs & bs' & E & -> & Hl & Hr)];
    [exists [], []; split_and!; try done; constructor|].
  destruct (law_ns_add l b) as (b' & Eb & Hp & Hu).
  eexists _, (b' :: bs'). cbn [length replicate run_each]. rewrite Eb. cbn [mbind res_bind]. rewrite E.
  split_and!; [done|done|simpl; lia|]. constructor; [|done].
  split; intros s; rewrite ?Hp, ?Hu; unfold after_add; by rewrite ?Hf, ?Hg.
Qed.

Lemma sh_GetNamespace_replicas rnd pattern f g bs :
  bs ≠ [] → replicas f g bs →
  ∃ b, b ∈ bs ∧ sh_GetNamespace rnd pattern bs = be_GetNamespace pattern b ∧
    (∀ s, by_prefix b s = f s) ∧ (∀ u, by_uri b u = g u).
Proof.
  intros Hne Hr. unfold sh_GetNamespace, bucket_of. rewrite bool_decide_eq_false_2 by done.
  assert (Hlt : Z.to_nat (rnd mod Z.of_nat (length bs)) < length bs).
  { assert (0 < length bs) by (by destruct bs; simpl; [|lia]).
    pose proof (Z.mod_pos_bound rnd (Z.of_nat (length bs)) ltac:(lia)). lia. }
  destruct (lookup_lt_is_Some_2 bs _ Hlt) as [b Hb]. unfold nth_backend. cbn [mbind res_bind]. rewrite Hb.
  exists b. pose proof (list_elem_of_lookup_2 _ _ _ Hb) as Hin. split; [done|]. split; [done|].
  unfold replicas in Hr. rewrite Forall_forall in Hr. by apply Hr.
Qed.

(** C24. Namespaces through the sharding proxy: after AddNamespaces every lookup, by
    prefix or by URI and whatever backend the random number selects, answers with
    the last namespace of the stream that has the key, and as before for other
    keys; the reported count is the length of the stream, and the backends are
    replicas again. *)
Theorem sharded_namespaces (l : list Namespace) (f g : string → option Namespace) (bs : list B) :
  bs ≠ [] → replicas f g bs →
  ∃ bs', sh_AddNamespaces l bs = Ok (StatusOK, Z.of_nat (length l), bs') ∧
    replicas (after_add prefix l f) (after_add ns_uri l g) bs' ∧
    (∀ rnd s u, s ≠ ""%string →
       sh_GetNamespace rnd (mkNamespace s u) bs' = Ok (ns_answer (after_add prefix l f s))) ∧
    (∀ rnd u, u ≠ ""%string →
       sh_GetNamespace rnd (mkNamespace "" u) bs' = Ok (ns_answer (after_add ns_uri l g u))).
Proof.
  intros Hne Hr. destruct (add_ns_each l f g bs Hr) as (rs & bs' & E & -> & Hl & Hr').
  assert (Hne' : bs' ≠ []) by (destruct bs; [done|]; by destruct bs').
  exists bs'. split_and!; [|done| |].
  - unfold sh_AddNamespaces. rewrite E. by destruct bs.
  - intros rnd s u Hs. destruct (sh_GetNamespace_replicas rnd (mkNamespace s u) _ _ bs' Hne' Hr')
      as (b & _ & -> & Hp & _). by rewrite law_ns_prefix, Hp.
  - intros rnd u Hu. destruct (sh_GetNamespace_replicas rnd (mkNamespace "" u) _ _ bs' Hne' Hr')
      as (b & _ & -> & _ & Hg). by rewrite law_ns_uri, Hg.
Qed.
End Replicas.

Section ReplicaWitnesses.
Import Demo.
#[local] Existing Instances demo_backend.
#[local] Instance demo_ns_model : NsModel store := leveldb_ns_model.
#[local] Instance demo_ns_laws : NsLaws store := leveldb_ns_laws ar.

Lemma sharded_namespaces_witness :
  ∃ bs', sh_AddNamespaces [foaf] demo_backends = Ok (StatusOK, 1%Z, bs') ∧
    sh_GetNamespace 17 (mkNamespace "foaf" "") bs' = Ok (StatusOK, foaf) ∧
    sh_GetNamespace 4 (mkNamespace "" (ns_uri foaf)) bs' = Ok (StatusOK, foaf).
Proof.
  destruct (sharded_namespaces [foaf] (λ _, None) (λ _, None) demo_backends) as (bs' & E & _ & Hp & Hu).
  - discriminate.
  - repeat constructor.
  - exists bs'. split; [exact E|]. split.
    + rewrite (Hp 17%Z "foaf" "")%string by discriminate. reflexivity.
    + rewrite (Hu 4%Z) by discriminate. reflexivity.
Defined.
End ReplicaWitnesses.
