(* ===== verification/Servers.v ===== *)
(** * Servers: the configuration of the sharding server, sharding/server.cc

    What [main] computes before it waits for requests: the address it listens
    on and the channels of the service, from the flags.  A channel is the
    address it leads to: two channels with the same address lead to the same
    server.  [connect] gives the state of the server at an address; the
    backends of the service are the states behind its channels, which are
    separate stores when the addresses are those of different servers. *)

From Stdlib Require Import ZArith Ascii Lia.
From Stdlib Require Strings.String.
From S2P Require Import Prelude Words Murmur3 Messages Iterators LevelDB Keys Wire RdfOperators.
From S2P Require Import Persistence PersistenceSpec Refinement UpdateProofs Service DemoStore Split.
From S2P Require Import Namespaces ServiceTheorems Sharding ShardingProofs FanoutRace ShardingTheorems Multiplex.

Module sharding_server.

Record Flags := mkFlags { FLAGS_host : string; FLAGS_port : string; FLAGS_backends : string }.

Definition default_flags : Flags := mkFlags "0.0.0.0" "10000" "".

(** The constructor of ShardingService: a channel for every backend. *)
Definition newShardingService (backends : list string) : list string :=
  foldl (λ channels server, channels ++ [server]) [] backends.

Definition main (flags : Flags) : res (string * list string) :=
  backends ← split (String.list_ascii_of_string (FLAGS_backends flags)) ",";
  let service := newShardingService (String.string_of_list_ascii <$> backends) in
  Ok ((FLAGS_host flags +:+ ":" +:+ FLAGS_port flags)%string, service).
End sharding_server.

(** ** Proofs *)

Lemma newShardingService_channels l : sharding_server.newShardingService l = l.
Proof.
  unfold sharding_server.newShardingService.
  assert (Hacc : ∀ acc, foldl (λ channels server, channels ++ [server]) acc l = acc ++ l); [|apply Hacc].
  induction l as [|a l IH]; intros acc; simpl; [by rewrite app_nil_r|]. by rewrite IH, <- app_assoc.
Qed.

Lemma list_ascii_app s1 s2 :
  String.list_ascii_of_string (s1 +:+ s2) = String.list_ascii_of_string s1 ++ String.list_ascii_of_string s2.
Proof. induction s1 as [|c s1 IH]; [done|]. simpl. by rewrite <- IH. Qed.

Lemma list_ascii_concat l :
  String.list_ascii_of_string (String.concat "," l) = join "," (String.list_ascii_of_string <$> l).
Proof.
  induction l as [|a [|b l] IH]; [done|done|].
  change (String.concat "," (a :: b :: l)) with (a +:+ ("," +:+ (String.concat "," (b :: l))))%string.
  rewrite !list_ascii_app, IH. done.
Qed.

Definition address_ok (a : string) : Prop :=
  free_of "," (String.list_ascii_of_string a) ∧ a ≠ ""%string.

Lemma main_backends host port addresses :
  Forall address_ok addresses →
  sharding_server.main (sharding_server.mkFlags host port (String.concat "," addresses)) =
  Ok ((host +:+ ":" +:+ port)%string, addresses).
Proof.
  intros Hok. unfold sharding_server.main. cbn [sharding_server.FLAGS_backends].
  assert (E : split (String.list_ascii_of_string (String.concat "," addresses)) "," =
    Ok (String.list_ascii_of_string <$> addresses)).
  { destruct addresses as [|p ps _] using rev_ind; [done|].
    apply Forall_app in Hok as [Hps [[Hp Hne] _]%Forall_cons].
    rewrite list_ascii_concat, fmap_app. cbn [fmap list_fmap]. rewrite join_snoc, split_terminated.
    - unfold parts. by destruct p.
    - apply Forall_fmap. eapply Forall_impl; [exact Hps|]. by intros a [? _].
    - done. }
  rewrite E. cbn [mbind res_bind]. rewrite newShardingService_channels. do 3 f_equal.
  rewrite <- list_fmap_compose. rewrite <- (list_fmap_id addresses) at 2.
  apply list_fmap_ext. intros i a _. apply String.string_of_list_ascii_of_string.
Qed.

(** ** Properties *)

Section ServerTheorems.
Context (ar : arch) {B : Type} `{SL : SailLaws ar B} (string_hash : bytes → Z).

(** Empty stores make an empty sharded store. *)
Lemma empty_backends (connect : string → B) addresses :
  addresses ≠ [] → (∀ a, a ∈ addresses → be_inv (connect a) ∧ be_abs (connect a) = ∅) →
  sharded string_hash (connect <$> addresses) ∧ abs_all (connect <$> addresses) = ∅.
Proof.
  intros Hne Hempty. split; [split_and!|].
  - by destruct addresses.
  - apply Forall_fmap, Forall_forall. intros a Ha. by apply Hempty.
  - intros i b st Hb Hst. apply list_lookup_fmap_Some in Hb as (a & -> & Ha).
    destruct (Hempty a) as [_ E]; [by eapply list_elem_of_lookup_2|]. rewrite E in Hst. set_solver.
  - apply set_eq. intros st. rewrite elem_of_abs_all. split; [|set_solver].
    intros (i & b & (a & -> & Ha)%list_lookup_fmap_Some & Hst).
    destruct (Hempty a) as [_ E]; [by eapply list_elem_of_lookup_2|]. by rewrite E in Hst.
Qed.

(** The sharding server started over empty stores on different servers: the flag
    lists the addresses with commas, the service has one channel per address in
    this order, and behind them is an empty sharded store, in the invariant the
    operations keep. *)
Theorem sharding_server_starts (connect : string → B) (host port : string) (addresses : list string) :
  addresses ≠ [] → NoDup addresses → Forall address_ok addresses →
  (∀ a, a ∈ addresses → be_inv (connect a) ∧ be_abs (connect a) = ∅) →
  ∃ channels, sharding_server.main
      (sharding_server.mkFlags host port (String.concat "," addresses)) =
      Ok ((host +:+ ":" +:+ port)%string, channels) ∧
    NoDup channels ∧ channels = addresses ∧
    sharded string_hash (connect <$> channels) ∧ abs_all (connect <$> channels) = ∅.
Proof.
  intros Hne Hnd Hok Hempty. exists addresses. split; [by apply main_backends|].
  split_and!; [done..| |]; by apply empty_backends.
Qed.

(** A server whose address is listed twice is asked twice: the client receives
    every statement the query selects two times. *)
Theorem repeated_address_duplicates (connect : string → B) (host port a : string) (pattern : Statement) :
  address_ok a → be_inv (connect a) →
  ∃ channels l, sharding_server.main
      (sharding_server.mkFlags host port (String.concat "," [a; a])) =
      Ok ((host +:+ ":" +:+ port)%string, channels) ∧
    NoDup l ∧ (∀ st, st ∈ l ↔ st ∈ spec_get ar pattern (be_abs (connect a))) ∧
    ∀ s w, sh_GetStatements pattern (connect <$> channels) (newServerWriter None) s w →
      s = StatusOK ∧ written w ≡ₚ l ++ l.
Proof.
  intros Hok Hinv. destruct (law_get pattern _ Hinv) as (l & El & Hnd & Hl). exists [a; a], l.
  split_and!; [by apply main_backends; repeat constructor; apply Hok|done|done|]. intros s w Hg.
  assert (E : shard_results pattern (connect <$> [a; a]) = Ok [l; l]).
  { cbn [fmap list_fmap shard_results]. rewrite El. done. }
  destruct (sh_GetStatements_delivers _ _ _ _ _ _ E Hg) as (-> & full & Hp & ->). split; [done|].
  simpl. rewrite Hp. change (mjoin [l; l]) with (l ++ l ++ []). by rewrite app_nil_r.
Qed.

(** Started without the flag, the server has no backends: it accepts requests
    all the same, reports size 0 and finds nothing, but the first statement it
    is given, and every lookup of a namespace, is a division by zero. *)
Theorem sharding_server_no_backends (tally : list Z → Z) (connect : string → B) (rnd : Z) (st : Statement)
    (stmts : list Statement) (ns : Namespace) (contexts : list Resource) :
  (∀ vs, race_outcome vs (tally vs)) →
  ∃ address, sharding_server.main sharding_server.default_flags = Ok (address, []) ∧
    sh_Size (B:=B) tally (mkContextRequest contexts) [] = Ok (StatusOK, 0%Z, []) ∧
    shard_results (B:=B) st [] = Ok [] ∧
    sh_AddStatements (B:=B) string_hash (st :: stmts) [] = Throw (UndefinedBehaviour "modulo zero") ∧
    sh_GetNamespace (B:=B) rnd ns [] = Throw (UndefinedBehaviour "modulo zero").
Proof.
  intros Ht. eexists. split_and!; [done| |done..]. unfold sh_Size, Fanout. simpl.
  by rewrite (race_nil _ (Ht [])).
Qed.
End ServerTheorems.

Section ServerWitnesses.
Import Demo.
#[local] Existing Instances demo_backend demo_model demo_laws.

Lemma sharding_server_starts_witness :
  ∃ channels, sharding_server.main
      (sharding_server.mkFlags "0.0.0.0" "10000" "a:1,b:2") = Ok ("0.0.0.0:10000"%string, channels) ∧
    NoDup channels ∧ channels = ["a:1"; "b:2"]%string ∧
    sharded demo_hash ((λ _, empty_store) <$> channels) ∧ abs_all ((λ _, empty_store) <$> channels) = ∅.
Proof.
  apply (sharding_server_starts demo_hash (λ _, empty_store) "0.0.0.0" "10000" ["a:1"; "b:2"]%string).
  - discriminate.
  - apply (bool_decide_unpack _). vm_compute. exact I.
  - repeat constructor; try discriminate; apply (bool_decide_unpack _); vm_compute; exact I.
  - intros a _. split; [exact empty_inv|exact empty_abs].
Defined.
End ServerWitnesses.
