(* ===== verification/Parser.v ===== *)
(** * Parser: parser/rdf_parser.cc

    The parser drives the raptor library: it feeds the input in chunks, and
    raptor calls back with its own statements and namespaces, which the
    handlers turn into model objects.  The raptor data the callbacks read
    (terms, statements, namespaces) are data types; what raptor makes of the
    chunks is a function argument. *)

From Stdlib Require Import ZArith Lia.
From S2P Require Import Prelude Messages RdfOperators RdfModel RdfModelTheorems.

(** ** Raptor data *)

Inductive raptor_term :=
  | RT_URI (u : string)
  | RT_BLANK (s : string)
  | RT_LITERAL (s : string) (language : option string) (datatype : option string)
  | RT_UNKNOWN.

Record raptor_statement := mkRaptorStatement {
  rs_subject : raptor_term;
  rs_predicate : raptor_term;
  rs_object : raptor_term;
  rs_graph : option raptor_term;
}.

Inductive raptor_event :=
  | RE_statement (st : raptor_statement)
  | RE_namespace (prefix : option string) (uri : string).

Module parser.

Inductive Format := RDFXML | TURTLE | NTRIPLES | NQUADS | RDFJSON | RDFA | TRIG | GUESS.

Definition FormatFromString (name : string) : Format :=
  if string_eqb name "rdfxml" || string_eqb name "rdf/xml" || string_eqb name "xml" then RDFXML
  else if string_eqb name "n3" || string_eqb name "ntriples" || string_eqb name "text/n3" then NTRIPLES
  else if string_eqb name "turtle" || string_eqb name "text/turtle" then TURTLE
  else if string_eqb name "json" || string_eqb name "application/json" ||
          string_eqb name "application/rdf+json" then RDFJSON
  else if string_eqb name "auto" || string_eqb name "guess" then GUESS
  else RDFXML.

(** The name of the raptor parser the constructor creates; for a format without
    a case in its switch the parser pointer is left uninitialised. *)
Definition raptor_parser_name (format : Format) : res string :=
  match format with
  | RDFXML => Ok "rdfxml"%string
  | TURTLE => Ok "turtle"%string
  | NTRIPLES => Ok "ntriples"%string
  | RDFA => Ok "rdfa"%string
  | RDFJSON => Ok "json"%string
  | GUESS => Ok "guess"%string
  | NQUADS | TRIG => Throw (UndefinedBehaviour "parser is not initialised")
  end.

(** ** The statement handler *)

Definition subject_of (t : raptor_term) : res rdf.Resource.t :=
  match t with
  | RT_URI u => Ok (rdf.Resource.assign_URI_move rdf.Resource.new (rdf.URI.of_string u)).1
  | RT_BLANK b => Ok (rdf.Resource.assign_BNode_move rdf.Resource.new (rdf.BNode.of_string b)).1
  | _ => Throw (ParseError "invalid subject term type")
  end.

Definition predicate_of (t : raptor_term) : res rdf.URI.t :=
  match t with
  | RT_URI u => Ok (rdf.URI.assign_move rdf.URI.new (rdf.URI.of_string u)).1
  | _ => Throw (ParseError "invalid predicate term type")
  end.

Definition object_of (t : raptor_term) : res rdf.Value.t :=
  match t with
  | RT_URI u => Ok (rdf.Value.assign_URI_move rdf.Value.new (rdf.URI.of_string u)).1
  | RT_BLANK b => Ok (rdf.Value.assign_BNode_move rdf.Value.new (rdf.BNode.of_string b)).1
  | RT_LITERAL s (Some l) _ =>
      Ok (rdf.Value.assign_StringLiteral_move rdf.Value.new (rdf.StringLiteral.of_strings s l)).1
  | RT_LITERAL s None (Some d) =>
      Ok (rdf.Value.assign_DatatypeLiteral_move rdf.Value.new
            (rdf.DatatypeLiteral.of_content s (rdf.URI.of_string d))).1
  | RT_LITERAL s None None =>
      Ok (rdf.Value.assign_StringLiteral_move rdf.Value.new (rdf.StringLiteral.of_string s)).1
  | RT_UNKNOWN => Throw (ParseError "invalid object term type")
  end.

Definition context_of (g : option raptor_term) : res rdf.Resource.t :=
  match g with
  | Some (RT_URI u) => Ok (rdf.Resource.assign_URI_move rdf.Resource.new (rdf.URI.of_string u)).1
  | Some (RT_BLANK b) => Ok (rdf.Resource.assign_BNode_move rdf.Resource.new (rdf.BNode.of_string b)).1
  | Some _ => Throw (ParseError "invalid graph term type")
  | None => Ok (rdf.Resource.assign_URI_move rdf.Resource.new rdf.URI.new).1
  end.

(** The statement [raptor_stmt_handler] passes to the handler. *)
Definition convert_statement (st : raptor_statement) : res rdf.Statement.t :=
  subject ← subject_of (rs_subject st);
  predicate ← predicate_of (rs_predicate st);
  object ← object_of (rs_object st);
  context ← context_of (rs_graph st);
  Ok (rdf.Statement.of_quad subject predicate object context).

Section Handlers.
Context {S : Type}.
Context (stmt_handler : S → rdf.Statement.t → res S) (ns_handler : S → rdf.Namespace.t → res S).

Definition raptor_stmt_handler (s : S) (st : raptor_statement) : res S :=
  x ← convert_statement st;
  stmt_handler s x.

Definition raptor_ns_handler (s : S) (prefix : option string) (uri : string) : res S :=
  ns_handler s (rdf.Namespace.of_c_strings prefix uri).

Definition handle_event (s : S) (e : raptor_event) : res S :=
  match e with
  | RE_statement st => raptor_stmt_handler s st
  | RE_namespace p u => raptor_ns_handler s p u
  end.

(** ** The input loop *)

Definition BUFFER_SIZE : nat := N.to_nat 8192.

(** [while (in.read(buffer, 8192)) chunk(..., 0); chunk(..., gcount, 1)]:
    the calls of [raptor_parser_parse_chunk], data and end flag. *)
Fixpoint read_chunks (fuel : nat) (input : bytes) : res (list (bytes * bool)) :=
  match fuel with
  | O => OutOfFuel
  | Datatypes.S fuel =>
      if bool_decide (BUFFER_SIZE ≤ length input) then
        cs ← read_chunks fuel (drop BUFFER_SIZE input);
        Ok ((take BUFFER_SIZE input, false) :: cs)
      else Ok [(input, true)]
  end.

(** [good] is the state of the stream when [parse] is called. *)
Definition chunks_of (good : bool) (input : bytes) : res (list (bytes * bool)) :=
  if good then read_chunks (1 + length input) input else Ok [].

Definition parse (raptor : list (bytes * bool) → list raptor_event) (good : bool) (input : bytes)
    (s : S) : res S :=
  cs ← chunks_of good input;
  foldM handle_event s (raptor cs).
End Handlers.

(** ** The class

    The raptor parser, by name, and the two handlers; [S] is what the handlers
    write to.  The base URI only goes to raptor. *)

Record Parser (S : Type) := mkParser {
  raptor_parser : string;
  stmt_handler : S → rdf.Statement.t → res S;
  ns_handler : S → rdf.Namespace.t → res S;
}.
Arguments mkParser {S} _ _ _.
Arguments raptor_parser {S} _.
Arguments stmt_handler {S} _ _ _.
Arguments ns_handler {S} _ _ _.

(** The handlers of a new parser ignore what they get. *)
Definition newParser {S} (format : Format) : res (Parser S) :=
  name ← raptor_parser_name format;
  Ok (mkParser name (λ s _, Ok s) (λ s _, Ok s)).

Definition newParser_guess {S} : res (Parser S) := newParser GUESS.

Definition setStatementHandler {S} (handler : S → rdf.Statement.t → res S) (p : Parser S) : Parser S :=
  mkParser (raptor_parser p) handler (ns_handler p).

Definition setNamespaceHandler {S} (handler : S → rdf.Namespace.t → res S) (p : Parser S) : Parser S :=
  mkParser (raptor_parser p) (stmt_handler p) handler.

Definition Parser_parse {S} (raptor : string → list (bytes * bool) → list raptor_event) (p : Parser S)
    (good : bool) (input : bytes) (s : S) : res S :=
  parse (stmt_handler p) (ns_handler p) (raptor (raptor_parser p)) good input s.
End parser.

(** ** Lemmas *)

Lemma buffer_size_pos : 0 < parser.BUFFER_SIZE.
Proof. apply (bool_decide_unpack _); vm_compute; exact I. Qed.

Lemma read_chunks_spec fuel input :
  length input < fuel →
  ∃ full last, parser.read_chunks fuel input = Ok (((λ c, (c, false)) <$> full) ++ [(last, true)]) ∧
    mjoin full ++ last = input ∧ Forall (λ c, length c = parser.BUFFER_SIZE) full ∧
    length last < parser.BUFFER_SIZE.
Proof.
  pose proof buffer_size_pos as Hpos.
  revert input; induction fuel as [|fuel IH]; intros input Hf; [lia|].
  cbn [parser.read_chunks]. case_bool_decide as Hb.
  - destruct (IH (drop parser.BUFFER_SIZE input)) as (full & last & E & Ej & Hl & Hlast);
      [rewrite length_drop; lia|].
    exists (take parser.BUFFER_SIZE input :: full), last. rewrite E. split_and!; [done| | |done].
    + change (mjoin (take parser.BUFFER_SIZE input :: full)) with
        (take parser.BUFFER_SIZE input ++ mjoin full).
      by rewrite <- app_assoc, Ej, take_drop.
    + constructor; [|done]. rewrite length_take. lia.
  - exists [], input. split_and!; [done..|lia].
Qed.

(** The terms a raptor term stands for. *)
Definition term_resource (t : raptor_term) : option Resource :=
  match t with
  | RT_URI u => Some (Resource_uri (mkURI u))
  | RT_BLANK b => Some (Resource_bnode (mkBNode b))
  | _ => None
  end.

Definition term_value (t : raptor_term) : option Value :=
  match t with
  | RT_LITERAL s (Some l) _ => Some (Value_literal (Literal_string (mkStringLiteral s l)))
  | RT_LITERAL s None (Some d) => Some (Value_literal (Literal_data (mkDatatypeLiteral s (Some (mkURI d)))))
  | RT_LITERAL s None None => Some (Value_literal (Literal_string (mkStringLiteral s "")))
  | RT_UNKNOWN => None
  | _ => Value_resource <$> term_resource t
  end.

Definition term_uri (t : raptor_term) : option URI :=
  match t with RT_URI u => Some (mkURI u) | _ => None end.

(** A statement outside a graph gets the empty URI as its context. *)
Definition graph_resource (g : option raptor_term) : option Resource :=
  match g with
  | None => Some (Resource_uri (mkURI ""))
  | Some t => term_resource t
  end.

(** The message of a raptor statement, when all its terms have the right type. *)
Definition statement_message (st : raptor_statement) : option Statement :=
  s ← term_resource (rs_subject st);
  p ← term_uri (rs_predicate st);
  o ← term_value (rs_object st);
  c ← graph_resource (rs_graph st);
  Some (mkStatement (Some s) (Some p) (Some o) (Some c)).

Lemma datatype_merge d :
  mkURI (merge_string "" d) = mkURI d.
Proof. by rewrite merge_string_l. Qed.

Lemma convert_statement_spec st :
  match statement_message st with
  | Some m => ∃ x, parser.convert_statement st = Ok x ∧ rdf.Statement.getMessage x = m
  | None => ∃ msg, parser.convert_statement st = Throw (ParseError msg)
  end.
Proof.
  destruct st as [s p o g]. unfold statement_message, parser.convert_statement. simpl.
  destruct s as [u|b|? ? ?|]; simpl; try (eexists; reflexivity);
  destruct p as [pu|? |? ? ?|]; simpl; try (eexists; reflexivity);
  destruct o as [ou|ob|os [ol|] [od|]|]; simpl; try (eexists; reflexivity);
  destruct g as [[gu|gb|? ? ?|]|]; simpl; try (eexists; reflexivity);
  eexists; (split; [reflexivity|]); rewrite of_quad_message;
  cbn -[merge_string]; unfold rdf.DatatypeLiteral.internal_, mutable_datatype; cbn -[merge_string];
  rewrite ?datatype_merge; reflexivity.
Qed.

(** ** Properties *)

(** C36. The input loop hands raptor the whole input: the chunks joined are the
    input, all but the last are full buffers that are not flagged as the end,
    and the last, shorter than a buffer, is the only one that is. *)
Theorem parser_chunks (input : bytes) :
  ∃ full last, parser.chunks_of true input = Ok (((λ c, (c, false)) <$> full) ++ [(last, true)]) ∧
    mjoin full ++ last = input ∧ Forall (λ c, length c = parser.BUFFER_SIZE) full ∧
    length last < parser.BUFFER_SIZE.
Proof. apply read_chunks_spec. lia. Qed.

(** The statement handler converts every raptor statement whose terms have
    the right type into the quad with the same terms (a statement outside a
    graph gets the empty URI as context, so it always has one), and throws a
    ParseError for every other. *)
Theorem parser_statement (st : raptor_statement) :
  match statement_message st with
  | Some m => ∃ x, parser.convert_statement st = Ok x ∧ rdf.Statement.getMessage x = m ∧
                   rdf.Statement.hasContext x = true
  | None => ∃ msg, parser.convert_statement st = Throw (ParseError msg)
  end.
Proof.
  pose proof (convert_statement_spec st) as Hc. destruct (statement_message st) as [m|] eqn:E; [|done].
  destruct Hc as (x & Ex & <-). exists x. split_and!; [done..|].
  unfold statement_message in E. unfold rdf.Statement.hasContext, has_context.
  change (rdf.Statement.internal_ x) with (rdf.Statement.getMessage x).
  destruct (term_resource _); simpl in E; [|done]. destruct (term_uri _); simpl in E; [|done].
  destruct (term_value _); simpl in E; [|done]. destruct (graph_resource _); simpl in E; [|done].
  injection E as <-. done.
Qed.

(** What the events deliver to handlers that do not fail, in their order. *)
Definition deliver {S} (fs : S → Statement → S) (fn : S → Namespace → S) (s : S) (e : raptor_event) : S :=
  match e with
  | RE_statement st => from_option (fs s) s (statement_message st)
  | RE_namespace p u => fn s (rdf.Namespace.getMessage (rdf.Namespace.of_c_strings p u))
  end.

(** All terms of an event have a type the handlers accept. *)
Definition event_ok (e : raptor_event) : bool :=
  match e with RE_statement st => bool_decide (is_Some (statement_message st)) | _ => true end.

Lemma handle_events {S} (fs : S → Statement → S) (fn : S → Namespace → S) events s :
  let run := foldM (parser.handle_event (λ s x, Ok (fs s (rdf.Statement.getMessage x)))
                      (λ s x, Ok (fn s (rdf.Namespace.getMessage x)))) s events in
  if forallb event_ok events then run = Ok (foldl (deliver fs fn) s events)
  else ∃ msg, run = Throw (ParseError msg).
Proof.
  cbv zeta. revert s. induction events as [|e events IH]; intros s; [done|]. cbn [forallb foldM foldl].
  destruct e as [st|p u]; cbn [parser.handle_event event_ok deliver andb]; [|apply IH].
  unfold parser.raptor_stmt_handler. pose proof (convert_statement_spec st) as Hc.
  destruct (statement_message st) as [m|]; [|destruct Hc as (msg & ->); simpl; eauto].
  destruct Hc as (x & -> & Em). cbn -[forallb foldM foldl]. rewrite Em. apply IH.
Qed.

(** C35. A parser delivers to the handlers set last, in either order of setting
    them, the statements and namespaces raptor finds in the input, in raptor's
    order, when all of them have terms of the right types; otherwise parse
    throws a ParseError.  Without handlers the same input is read and ignored. *)
Theorem parser_delivers {S} (raptor : string → list (bytes * bool) → list raptor_event)
    (fs : S → Statement → S) (fn : S → Namespace → S) (format : parser.Format) (p : parser.Parser S)
    (input : bytes) (s : S) :
  parser.newParser format = Ok p →
  let hs := λ s x, Ok (fs s (rdf.Statement.getMessage x)) in
  let hn := λ s x, Ok (fn s (rdf.Namespace.getMessage x)) in
  let q := parser.setNamespaceHandler hn (parser.setStatementHandler hs p) in
  q = parser.setStatementHandler hs (parser.setNamespaceHandler hn p) ∧
  ∃ chunks, parser.chunks_of true input = Ok chunks ∧ mjoin (fst <$> chunks) = input ∧
    let events := raptor (parser.raptor_parser p) chunks in
    if forallb event_ok events
    then parser.Parser_parse raptor q true input s = Ok (foldl (deliver fs fn) s events) ∧
         parser.Parser_parse raptor p true input s = Ok s
    else (∃ msg, parser.Parser_parse raptor q true input s = Throw (ParseError msg)) ∧
         (∃ msg, parser.Parser_parse raptor p true input s = Throw (ParseError msg)).
Proof.
  intros Ep hs hn q. split; [done|].
  assert (Hp : parser.stmt_handler p = (λ s _, Ok s) ∧ parser.ns_handler p = (λ s _, Ok s)).
  { unfold parser.newParser in Ep. destruct (parser.raptor_parser_name format); simpl in Ep; by simplify_eq. }
  destruct Hp as [Hps Hpn].
  destruct (read_chunks_spec (1 + length input) input ltac:(lia)) as (full & last & E & Ej & _).
  eexists. split; [exact E|]. split.
  { rewrite fmap_app, join_app, <- list_fmap_compose. simpl. rewrite app_nil_r.
    unfold compose. simpl. by rewrite list_fmap_id. }
  set (chunks := _ ++ _) in *. intros events. unfold parser.Parser_parse, parser.parse, parser.chunks_of.
  rewrite E. cbn [mbind res_bind]. rewrite Hps, Hpn. change (parser.raptor_parser q) with (parser.raptor_parser p).
  fold events.
  pose proof (handle_events fs fn events s) as H1.
  pose proof (handle_events (λ s _, s) (λ s _, s) events s) as H2. cbv zeta in H1, H2.
  destruct (forallb event_ok events); [|done]. split; [exact H1|]. rewrite H2. f_equal.
  clear. induction events as [|e events IH]; [done|]. cbn [foldl]. destruct e as [st|]; simpl; [|done].
  by destruct (statement_message st).
Qed.

(** A document in which raptor finds a namespace and a triple. *)
Lemma parser_delivers_witness :
  let raptor := λ (_ : string) (_ : list (bytes * bool)),
    [RE_namespace (Some "ex") "http://example.org/";
     RE_statement (mkRaptorStatement (RT_URI "http://example.org/a") (RT_URI "http://example.org/p")
       (RT_LITERAL "x" None None) None)] in
  let fs := λ (s : list Namespace * list Statement) m, (s.1, s.2 ++ [m]) in
  let fn := λ (s : list Namespace * list Statement) m, (s.1 ++ [m], s.2) in
  ∃ p, parser.newParser parser.TURTLE = Ok p ∧
    parser.Parser_parse raptor
      (parser.setNamespaceHandler (λ s x, Ok (fn s (rdf.Namespace.getMessage x)))
        (parser.setStatementHandler (λ s x, Ok (fs s (rdf.Statement.getMessage x))) p)) true [x40] ([], []) =
    Ok ([mkNamespace "ex" "http://example.org/"],
        [mkStatement (Some (Resource_uri (mkURI "http://example.org/a"))) (Some (mkURI "http://example.org/p"))
           (Some (Value_literal (Literal_string (mkStringLiteral "x" ""))))
           (Some (Resource_uri (mkURI "")))]).
Proof.
  cbv zeta. eexists. split; [reflexivity|].
  match goal with |- parser.Parser_parse ?raptor _ _ _ _ = _ =>
    destruct (parser_delivers raptor (λ (s : list Namespace * list Statement) m, (s.1, s.2 ++ [m]))
      (λ (s : list Namespace * list Statement) m, (s.1 ++ [m], s.2)) parser.TURTLE _ [x40] ([], []) eq_refl)
      as (_ & chunks & _ & _ & Hd) end.
  exact (proj1 Hd).
Defined.
