(* ===== verification/Serializer.v ===== *)
(** * Serializer: the files of serializer/

    [SerializerBase] is a class: [prepare], [serialize] of one statement and
    [close] are what its subclasses override, and the public serialize method
    runs them around the loop over a statement iterator.  [RaptorSerializer]
    builds raptor statements; the functions of raptor that create terms are an
    interface ([RaptorTerms]) with their documented behaviour.
    [ProtoSerializer] collects the messages and writes them when closed; the
    codec of the collection and the text printer are arguments. *)

From Stdlib Require Import ZArith Ascii Lia.
From S2P Require Import Prelude Words Messages Iterators Wire RdfOperators RdfModel RdfModelTheorems Parser.

Module serializer.

Inductive Format :=
  | RDFXML | RDFXML_ABBREV | TURTLE | NTRIPLES | NQUADS | RDFJSON | SPARQL_JSON | GRAPHVIZ
  | PROTO | PROTO_TEXT.

Definition FormatFromString (name : string) : Format :=
  if string_eqb name "rdfxml" || string_eqb name "rdf/xml" || string_eqb name "xml" then RDFXML
  else if string_eqb name "n3" || string_eqb name "ntriples" || string_eqb name "text/n3" then NTRIPLES
  else if string_eqb name "turtle" || string_eqb name "text/turtle" then TURTLE
  else if string_eqb name "textproto" || string_eqb name "text/proto" then PROTO_TEXT
  else if string_eqb name "proto" || string_eqb name "application/proto" then PROTO
  else if string_eqb name "json" || string_eqb name "application/json" ||
          string_eqb name "application/rdf+json" then RDFJSON
  else RDFXML.

Definition raptorFormat (format : Format) : string :=
  match format with
  | RDFXML => "rdfxml"
  | RDFXML_ABBREV => "rdfxml-abbrev"
  | GRAPHVIZ => "dot"
  | NQUADS => "nquads"
  | NTRIPLES => "ntriples"
  | TURTLE => "turtle"
  | RDFJSON => "json"
  | SPARQL_JSON => "json-triples"
  | _ => "rdfxml"
  end.

(** [result[it->getPrefix()] = it->getUri()]: a later namespace replaces an
    earlier one with the same prefix. *)
Definition namespacesMap (l : list rdf.Namespace.t) : gmap string rdf.URI.t :=
  foldl (λ result ns,
    let slot := default rdf.URI.new (result !! rdf.Namespace.getPrefix ns) in
    <[rdf.Namespace.getPrefix ns :=
        (rdf.URI.assign_move slot (rdf.URI.of_string (rdf.Namespace.getUri ns))).1]> result) ∅ l.

(** ** The base class *)

Class SerializerBase (S : Type) := {
  prepare : S → res S;
  serialize_one : S → rdf.Statement.t → res S;
  close : S → res S;
}.

Definition serialize_stmt {S} `{SerializerBase S} (stmt : rdf.Statement.t) (s : S) : res S :=
  s ← prepare s;
  s ← serialize_one s stmt;
  close s.

Definition serialize_all {S It} `{SerializerBase S} `{CloseableIterator It rdf.Statement.t}
    (it : It) (s : S) : res S :=
  s ← prepare s;
  s ← for_each serialize_one it s;
  close s.

(** ** RaptorSerializer *)

(** A counted literal takes the string, the datatype, the language and the
    length of the language, an [unsigned char]. *)
Class RaptorTerms := {
  raptor_new_term_from_uri_string : string → raptor_term;
  raptor_new_term_from_blank : string → raptor_term;
  raptor_new_term_from_counted_literal : string → option string → string → Z → raptor_term;
}.

(** [c_str()] passed to a function that reads up to the terminating zero. *)
Fixpoint c_str (s : string) : string :=
  match s with
  | EmptyString => EmptyString
  | String c s => if Ascii.eqb c "000" then EmptyString else String c (c_str s)
  end.

Section Raptor.
Context `{RaptorTerms}.

Definition raptor_resource (err : string) (r : Resource) : res raptor_term :=
  if has_uri r then Ok (raptor_new_term_from_uri_string (c_str (uri (res_uri r))))
  else if has_bnode r then Ok (raptor_new_term_from_blank (c_str (id (res_bnode r))))
  else Throw (SerializationError err).

Definition raptor_object (v : Value) : res raptor_term :=
  if has_resource v then raptor_resource "invalid object resource type" (val_resource v)
  else if has_literal v then
    let l := val_literal v in
    if has_stringliteral l then
      (* [language().size()] is narrowed to the width of the parameter *)
      Ok (raptor_new_term_from_counted_literal (sl_content (stringliteral l)) None
            (language (stringliteral l)) (wrap 8 (Z.of_nat (String.length (language (stringliteral l))))))
    else if has_dataliteral l then
      Ok (raptor_new_term_from_counted_literal (dl_content (dataliteral l))
            (Some (c_str (uri (datatype (dataliteral l))))) "" 0%Z)
    else Throw (SerializationError "invalid object literal type")
  else Throw (SerializationError "invalid object type").

(** The raptor statement [RaptorSerializer::serialize] builds. *)
Definition raptor_triple (stmt : rdf.Statement.t) : res raptor_statement :=
  let m := rdf.Statement.getMessage stmt in
  subject ← raptor_resource "invalid subject type" (subject m);
  let predicate := raptor_new_term_from_uri_string (c_str (uri (predicate m))) in
  object ← raptor_object (object m);
  graph ← raptor_resource "invalid context type" (context m);
  Ok (mkRaptorStatement subject predicate object (Some graph)).

(** The raptor serializer behind the object: its name and the namespaces set on
    it, the statements it was given since [prepare], and whether it was ended. *)
Record RaptorSerializer := mkRaptorSerializer {
  rz_name : string;
  rz_namespaces : gmap string string;
  rz_sent : list raptor_statement;
  rz_ended : bool;
}.

(** [initRaptor]: the format selects the raptor serializer, then every entry of
    the namespaces is set on it. *)
Definition initRaptor (format : Format) (namespaces : gmap string rdf.URI.t) : RaptorSerializer :=
  mkRaptorSerializer (raptorFormat format) 
    (list_to_map ((λ e, (c_str e.1, c_str (rdf.URI.getUri e.2))) <$> map_to_list namespaces)) [] false.

#[global] Instance raptor_serializer : SerializerBase RaptorSerializer := {
  prepare z := Ok (mkRaptorSerializer (rz_name z) (rz_namespaces z) [] false);
  serialize_one z stmt :=
    triple ← raptor_triple stmt;
    Ok (mkRaptorSerializer (rz_name z) (rz_namespaces z) (rz_sent z ++ [triple]) false);
  close z := Ok (mkRaptorSerializer (rz_name z) (rz_namespaces z) (rz_sent z) true);
}.
End Raptor.

(** ** ProtoSerializer *)

Section Proto.
Context `{Codec (list Statement)} (text_format : list Statement → bytes).

Record ProtoSerializer := mkProtoSerializer {
  pz_format : Format;
  stmts_ : list Statement;
  pz_out : bytes;  (* the stream behind [out_] *)
}.

Definition proto_close (z : ProtoSerializer) : ProtoSerializer :=
  mkProtoSerializer (pz_format z) []
    (match pz_format z with
     | PROTO => pz_out z ++ SerializeToString (stmts_ z)
     | PROTO_TEXT => pz_out z ++ text_format (stmts_ z)
     | _ => pz_out z
     end).

Definition proto_serialize (z : ProtoSerializer) (stmt : rdf.Statement.t) : ProtoSerializer :=
  mkProtoSerializer (pz_format z)
    (stmts_ z ++ [MergeFrom default_instance (rdf.Statement.getMessage stmt)]) (pz_out z).

Definition proto_serializer : SerializerBase ProtoSerializer := {|
  prepare z := Ok z;
  serialize_one z stmt := Ok (proto_serialize z stmt);
  close z := Ok (proto_close z);
|}.
End Proto.

(** ** The facade *)

(** [Serializer]: the implementation its constructor creates, and its two
    methods, which call that implementation.  The iterator is declared as a
    parameter of abstract class type; it is read here as the reference the base
    class takes. *)
Section Facade.
Context `{RaptorTerms} `{Codec (list Statement)} (text_format : list Statement → bytes).

Inductive Serializer :=
  | impl_proto (z : ProtoSerializer)
  | impl_raptor (z : RaptorSerializer).

Definition newSerializer (format : Format) (namespaces : gmap string rdf.URI.t) (out : bytes) : Serializer :=
  match format with
  | PROTO | PROTO_TEXT => impl_proto (mkProtoSerializer format [] out)
  | _ => impl_raptor (initRaptor format namespaces)
  end.

(** The constructor that takes a list of namespaces, and the one that takes none. *)
Definition newSerializer_list (format : Format) (namespaces : list rdf.Namespace.t) (out : bytes) : Serializer :=
  match format with
  | PROTO | PROTO_TEXT => impl_proto (mkProtoSerializer format [] out)
  | _ => impl_raptor (initRaptor format (namespacesMap namespaces))
  end.

Definition newSerializer_default (format : Format) (out : bytes) : Serializer := newSerializer format ∅ out.

Definition Serializer_serialize_stmt (stmt : rdf.Statement.t) (z : Serializer) : res Serializer :=
  match z with
  | impl_proto z => impl_proto <$> serialize_stmt (H:=proto_serializer text_format) stmt z
  | impl_raptor z => impl_raptor <$> serialize_stmt stmt z
  end.

Definition Serializer_serialize {It} `{CloseableIterator It rdf.Statement.t} (it : It) (z : Serializer)
    : res Serializer :=
  match z with
  | impl_proto z => impl_proto <$> serialize_all (H:=proto_serializer text_format) it z
  | impl_raptor z => impl_raptor <$> serialize_all it z
  end.
End Facade.
End serializer.

Lemma newSerializer_list_map `{serializer.RaptorTerms} format namespaces out :
  serializer.newSerializer_list format namespaces out =
  serializer.newSerializer format (serializer.namespacesMap namespaces) out.
Proof. by destruct format. Qed.

(** ** Raptor terms *)

(** What raptor documents of its term constructors: the string is kept, and so is
    a language given with its length; an empty language means none. *)
Class RaptorTermsLaws `{serializer.RaptorTerms} : Prop := {
  uri_term u : u ≠ ""%string → serializer.raptor_new_term_from_uri_string u = RT_URI u;
  blank_term b : b ≠ ""%string → serializer.raptor_new_term_from_blank b = RT_BLANK b;
  plain_literal_term s l :
    no_char "000" l = true →
    serializer.raptor_new_term_from_counted_literal s None l (Z.of_nat (String.length l)) =
    RT_LITERAL s (if string_eqb l "" then None else Some l) None;
  typed_literal_term s d :
    d ≠ ""%string →
    serializer.raptor_new_term_from_counted_literal s (Some d) "" 0%Z = RT_LITERAL s None (Some d);
}.

(** Strings raptor keeps: not empty and without a zero character. *)
Definition raptor_string (s : string) : bool := negb (string_eqb s "") && no_char "000" s.

Definition raptor_resource_ok (r : Resource) : bool :=
  match r with
  | Resource_none => false
  | Resource_uri u => raptor_string (uri u)
  | Resource_bnode b => raptor_string (id b)
  end.

Definition raptor_value_ok (v : Value) : bool :=
  match v with
  | Value_resource r => raptor_resource_ok r
  | Value_literal (Literal_string l) =>
      no_char "000" (language l) && (String.length (language l) <? 256)
  | Value_literal (Literal_data l) =>
      match datatype_ l with Some d => raptor_string (uri d) | None => false end
  | _ => false
  end.

(** Quads the raptor formats can express: four terms, IRIs, datatypes and names
    of blank nodes as above, languages of less than 256 characters. *)
Definition raptor_quad (m : Statement) : bool :=
  match m with
  | mkStatement (Some s) (Some p) (Some o) (Some c) =>
      raptor_resource_ok s && raptor_string (uri p) && raptor_value_ok o && raptor_resource_ok c
  | _ => false
  end.

Section RaptorProofs.
Context `{RTL : RaptorTermsLaws}.

Lemma c_str_id s : no_char "000" s = true → serializer.c_str s = s.
Proof.
  induction s as [|c s IH]; [done|]. simpl. intros E. split_andb.
  destruct (Ascii.eqb c "000"); [done|]. by rewrite IH.
Qed.

Lemma raptor_string_spec s :
  raptor_string s = true → s ≠ ""%string ∧ serializer.c_str s = s.
Proof.
  unfold raptor_string. intros E. split_andb. split; [|by apply c_str_id].
  intros ->. done.
Qed.

Lemma raptor_resource_spec err r :
  raptor_resource_ok r = true →
  ∃ t, serializer.raptor_resource err r = Ok t ∧ term_resource t = Some r.
Proof.
  destruct r as [|[u]|[b]]; simpl; [done|..]; intros [Hne Hc]%raptor_string_spec;
    unfold serializer.raptor_resource; simpl; rewrite Hc, ?uri_term, ?blank_term by done; eauto.
Qed.

Lemma term_value_resource t r : term_resource t = Some r → term_value t = Some (Value_resource r).
Proof. by destruct t; simpl; intros ?; simplify_eq. Qed.

Lemma language_length l :
  String.length l < 256 → wrap 8 (Z.of_nat (String.length l)) = Z.of_nat (String.length l).
Proof. intros Hl. apply wrap_small. unfold in_width. lia. Qed.

Lemma raptor_object_spec v :
  raptor_value_ok v = true →
  ∃ t, serializer.raptor_object v = Ok t ∧ term_value t = Some v.
Proof.
  destruct v as [|r|[|[c l]|[c [[d]|]]]]; simpl; try done.
  - intros Hr. destruct (raptor_resource_spec "invalid object resource type" r Hr) as (t & E & Ht).
    exists t. split; [exact E|by apply term_value_resource].
  - intros Hl. split_andb. unfold serializer.raptor_object. cbn -[wrap String.length].
    rewrite language_length, plain_literal_term by (done || by apply Nat.ltb_lt).
    eexists. split; [done|]. simpl. unfold string_eqb. case_bool_decide; by subst.
  - intros [Hne Hc]%raptor_string_spec. unfold serializer.raptor_object, datatype. simpl.
    rewrite Hc, typed_literal_term by done. eauto.
Qed.

Lemma raptor_triple_spec m :
  raptor_quad m = true →
  ∃ st, serializer.raptor_triple (rdf.Statement.of_message m) = Ok st ∧
    statement_message st = Some m.
Proof.
  destruct m as [[s|] [[p]|] [o|] [c|]]; simpl; try done. intros E. split_andb.
  destruct (raptor_resource_spec "invalid subject type" s) as (ts & Es & Hs); [done|].
  destruct (raptor_object_spec o) as (to & Eo & Ho); [done|].
  destruct (raptor_resource_spec "invalid context type" c) as (tc & Ec & Hc); [done|].
  destruct (raptor_string_spec p) as [Hne Hp]; [done|].
  unfold serializer.raptor_triple. cbn -[serializer.raptor_resource serializer.raptor_object].
  rewrite Es. cbn -[serializer.raptor_resource serializer.raptor_object]. rewrite Eo.
  cbn -[serializer.raptor_resource serializer.raptor_object]. rewrite Ec. cbn.
  rewrite Hp, uri_term by done. eexists. split; [done|]. unfold statement_message. simpl.
  rewrite Hs. simpl. rewrite Ho. simpl. by rewrite Hc.
Qed.
End RaptorProofs.

(** ** What can be written *)

Definition resource_set (r : Resource) : bool := has_uri r || has_bnode r.

Definition value_set (v : Value) : bool :=
  match v with
  | Value_none => false
  | Value_resource r => resource_set r
  | Value_literal l => has_stringliteral l || has_dataliteral l
  end.

Section RaptorErrors.
Context `{serializer.RaptorTerms}.

Lemma raptor_resource_error err r :
  if resource_set r then ∃ t, serializer.raptor_resource err r = Ok t
  else serializer.raptor_resource err r = Throw (SerializationError err).
Proof. destruct r; simpl; eauto. Qed.

Lemma raptor_object_error v :
  if value_set v then ∃ t, serializer.raptor_object v = Ok t
  else ∃ err, serializer.raptor_object v = Throw (SerializationError err).
Proof.
  destruct v as [|r|[]]; simpl; unfold serializer.raptor_object; simpl; eauto.
  pose proof (raptor_resource_error "invalid object resource type" r) as Hr.
  destruct (resource_set r); eauto.
Qed.
End RaptorErrors.

(** ** The loop of the message format *)

Lemma merge_into_default (x : rdf.Statement.t) :
  MergeFrom default_instance (rdf.Statement.getMessage x) = rdf.Statement.getMessage x.
Proof. apply merge_default_l. Qed.

Lemma proto_loop l (z : serializer.ProtoSerializer) :
  foldM (λ z x, Ok (serializer.proto_serialize z x)) z l =
  Ok (serializer.mkProtoSerializer (serializer.pz_format z)
        (serializer.stmts_ z ++ (rdf.Statement.getMessage <$> l)) (serializer.pz_out z)).
Proof.
  revert z; induction l as [|x l IH]; intros z.
  - simpl. rewrite app_nil_r. by destruct z.
  - simpl. rewrite IH. unfold serializer.proto_serialize.
    rewrite merge_into_default. cbn [serializer.stmts_ serializer.pz_format serializer.pz_out].
    by rewrite <- app_assoc.
Qed.

Lemma proto_serialize_all `{Codec (list Statement)} (text_format : list Statement → bytes)
    {It} `{CloseableIterator It rdf.Statement.t} `{!IteratorLaws It rdf.Statement.t}
    `{serializer.RaptorTerms} (it : It) namespaces out :
  serializer.Serializer_serialize text_format it
    (serializer.newSerializer serializer.PROTO namespaces out) =
  Ok (serializer.newSerializer serializer.PROTO namespaces
        (out ++ SerializeToString (rdf.Statement.getMessage <$> elements it))).
Proof.
  unfold serializer.Serializer_serialize, serializer.serialize_all. simpl.
  by rewrite for_each_elements, proto_loop.
Qed.

(** ** The loop of the raptor formats *)

Lemma raptor_loop `{serializer.RaptorTerms} l (z : serializer.RaptorSerializer) sts :
  Forall2 (λ x st, serializer.raptor_triple x = Ok st) l sts →
  ∃ e, foldM serializer.serialize_one z l =
  Ok (serializer.mkRaptorSerializer (serializer.rz_name z) (serializer.rz_namespaces z)
        (serializer.rz_sent z ++ sts) e).
Proof.
  intros Hl. revert z; induction Hl as [|x st l sts Hx Hl IH]; intros z.
  - simpl. rewrite app_nil_r. destruct z. eauto.
  - cbn [foldM]. simpl serializer.serialize_one at 2. rewrite Hx. simpl.
    edestruct IH as [e ->]. simpl. rewrite <- app_assoc. eauto.
Qed.

(** ** The stream of the message format *)

#[global] Instance Statements_fields : FieldCodec (list Statement) := {
  to_fields l := (λ m, (1, SerializeToString m)) <$> l;
  of_fields l := (λ f, ParseFromString f.2) <$> l;
}.
#[global] Instance Statements_fields_laws : FieldCodecLaws (list Statement).
Proof.
  split; intros l; induction l as [|x l IH]; [done| |done|].
  - change (ParseFromString (SerializeToString x) :: of_fields (to_fields l) = x :: l).
    by rewrite IH, parse_serialize.
  - constructor; [simpl; lia|exact IH].
Qed.

(** ** Properties *)

(** C34. Serializing with a raptor format and parsing what was handed to raptor
    gives the quads back: for every iterator of quads that raptor can express
    ([raptor_quad]: all four terms set, IRIs, datatypes and names of blank nodes
    non-empty and without zero characters, languages of at most 255 characters,
    since their length is passed as an unsigned char) the serializer passes one raptor statement per quad, in order, between
    [prepare] and [close], and the statement handler of the parser turns each
    into a statement with the message it came from. *)
Theorem serializer_parser_roundtrip `{RTL : RaptorTermsLaws}
    {It} `{CloseableIterator It rdf.Statement.t} `{!IteratorLaws It rdf.Statement.t}
    (it : It) (msgs : list Statement) (z : serializer.RaptorSerializer) :
  elements it = rdf.Statement.of_message <$> msgs →
  Forall (λ m, raptor_quad m = true) msgs →
  ∃ sts, serializer.serialize_all it z =
      Ok (serializer.mkRaptorSerializer (serializer.rz_name z) (serializer.rz_namespaces z) sts true) ∧
    Forall2 (λ st m, ∃ x, parser.convert_statement st = Ok x ∧ rdf.Statement.getMessage x = m) sts msgs.
Proof.
  intros Hel Hm.
  assert (∃ sts, Forall2 (λ x st, serializer.raptor_triple x = Ok st) (elements it) sts ∧
    Forall2 (λ st m, statement_message st = Some m) sts msgs) as (sts & Hs & Hd).
  { rewrite Hel. clear Hel. induction Hm as [|m msgs Hm Hms (sts & IH1 & IH2)]; [exists []; by split|].
    destruct (raptor_triple_spec m Hm) as (st & E1 & E2). exists (st :: sts). split; by constructor. }
  exists sts. split.
  - unfold serializer.serialize_all. simpl. rewrite for_each_elements.
    edestruct (raptor_loop (elements it)) as [e ->]; [exact Hs|done].
  - eapply Forall2_impl; [exact Hd|]. intros st m E.
    pose proof (convert_statement_spec st) as Hc. by rewrite E in Hc.
Qed.

(** The raptor serializer accepts exactly the statements whose subject, object
    and context are set, and throws a SerializationError for every other; so
    every statement without a context is refused. *)
Theorem raptor_serializer_errors `{serializer.RaptorTerms} (x : rdf.Statement.t) :
  let m := rdf.Statement.getMessage x in
  if resource_set (subject m) && value_set (object m) && resource_set (context m)
  then ∃ st, serializer.raptor_triple x = Ok st
  else ∃ err, serializer.raptor_triple x = Throw (SerializationError err).
Proof.
  simpl. unfold serializer.raptor_triple. set (m := rdf.Statement.getMessage x).
  pose proof (raptor_resource_error "invalid subject type" (subject m)) as Hs.
  pose proof (raptor_object_error (object m)) as Ho.
  pose proof (raptor_resource_error "invalid context type" (context m)) as Hc.
  destruct (resource_set (subject m)); [destruct Hs as [ts ->]|rewrite Hs; simpl; eauto].
  destruct (value_set (object m)); destruct Ho as [to ->]; simpl; [|eauto].
  destruct (resource_set (context m)); [destruct Hc as [tc ->]|rewrite Hc]; simpl; eauto.
Qed.

(** Serializing in the message format, from any iterator and whatever the
    stream holds already: exactly one encoding is appended, decoding it gives
    the messages of the statements in order, and the serializer is left empty,
    so that it can be used again. *)
Theorem proto_serializer_roundtrip `{CodecLaws (list Statement)} (text_format : list Statement → bytes)
    {It} `{CloseableIterator It rdf.Statement.t} `{!IteratorLaws It rdf.Statement.t}
    `{serializer.RaptorTerms} (it : It) (namespaces : gmap string rdf.URI.t) (out : bytes) :
  ∃ encoded, serializer.Serializer_serialize text_format it
      (serializer.newSerializer serializer.PROTO namespaces out) =
      Ok (serializer.newSerializer serializer.PROTO namespaces (out ++ encoded)) ∧
    ParseFromString encoded = rdf.Statement.getMessage <$> elements it.
Proof.
  exists (SerializeToString (rdf.Statement.getMessage <$> elements it)).
  split; [exact (proto_serialize_all text_format it namespaces out)|apply parse_serialize].
Qed.

(** ** Witnesses *)

(** Terms that keep their arguments: as much of the language as its length says,
    an empty one as none. *)
Definition plain_terms : serializer.RaptorTerms := {|
  serializer.raptor_new_term_from_uri_string := RT_URI;
  serializer.raptor_new_term_from_blank := RT_BLANK;
  serializer.raptor_new_term_from_counted_literal s d l n :=
    let l := String.substring 0 (Z.to_nat n) l in
    RT_LITERAL s (if string_eqb l "" then None else Some l) d;
|}.

Lemma substring_all l : String.substring 0 (String.length l) l = l.
Proof. induction l as [|c l IH]; [done|]. simpl. by rewrite IH. Qed.

Lemma plain_terms_laws : @RaptorTermsLaws plain_terms.
Proof. split; try done. intros s l _. simpl. by rewrite Nat2Z.id, substring_all. Qed.

(** A language of 256 characters and more is cut off: its length modulo 256 is
    what raptor reads. *)
Lemma language_truncated (c l : string) :
  serializer.raptor_object (H:=plain_terms) (Value_literal (Literal_string (mkStringLiteral c l))) =
  Ok (let l' := String.substring 0 (String.length l mod 256) l in
      RT_LITERAL c (if string_eqb l' "" then None else Some l') None).
Proof.
  unfold serializer.raptor_object. cbn -[wrap String.length String.substring].
  unfold wrap. change (2 ^ 8)%Z with (Z.of_nat 256). by rewrite <- Nat2Z.inj_mod, Nat2Z.id.
Qed.

Definition demo_quad : Statement :=
  mkStatement (Some (Resource_uri (mkURI "http://a"))) (Some (mkURI "http://p"))
    (Some (Value_literal (Literal_string (mkStringLiteral "hello" "en"))))
    (Some (Resource_bnode (mkBNode "g"))).

Lemma serializer_parser_roundtrip_witness :
  ∃ sts, serializer.serialize_all (H:=@serializer.raptor_serializer plain_terms)
      (newSingletonIterator (rdf.Statement.of_message demo_quad))
      (serializer.mkRaptorSerializer "nquads" ∅ [] false) =
      Ok (serializer.mkRaptorSerializer "nquads" ∅ sts true) ∧
    Forall2 (λ st m, ∃ x, parser.convert_statement st = Ok x ∧ rdf.Statement.getMessage x = m)
      sts [demo_quad].
Proof.
  apply (@serializer_parser_roundtrip plain_terms plain_terms_laws _ _ _
           (newSingletonIterator (rdf.Statement.of_message demo_quad)) [demo_quad]
           (serializer.mkRaptorSerializer "nquads" ∅ [] false)); [reflexivity|].
  repeat constructor.
Defined.

Lemma proto_serializer_roundtrip_witness :
  ∃ encoded, serializer.Serializer_serialize (H:=plain_terms) (λ _, [])
      (newSingletonIterator (rdf.Statement.of_message demo_quad))
      (serializer.newSerializer serializer.PROTO ∅ [x00]) =
      Ok (serializer.newSerializer serializer.PROTO ∅ ([x00] ++ encoded)) ∧
    ParseFromString encoded = [demo_quad].
Proof.
  exact (@proto_serializer_roundtrip _ (field_codec_laws (A:=list Statement)) (λ _, []) _ _ _ plain_terms
           (newSingletonIterator (rdf.Statement.of_message demo_quad)) ∅ [x00]).
Defined.
