(* ===== verification/RaptorObjects.v ===== *)
(** * RaptorObjects: lifetimes of the raptor objects and the stream callbacks

    The parser and the raptor serializer hold pointers to objects of the raptor
    library.  The heap here is a ledger of what the program owns: a cell is one
    reference the program was given and has to release, with the kind of the
    object and, but for a world itself, the world it was created in.  raptor
    shares equal URIs and counts the references to them; two cells of the ledger
    may stand for one object of raptor, which is gone when both are released.
    Releasing a reference that is not live, or whose world is gone, is undefined
    behaviour.  As its documentation says, raptor_new_uri may return NULL, for
    which strings is an argument ([RaptorUris]); raptor takes its own reference
    to a URI it is given, the caller keeps the iostream it starts a serializer
    with, and the terms of a statement are freed with it.  Allocation does not
    fail otherwise.

    The second part has the callbacks through which raptor writes to a
    [std::ostream] and reads from a [std::istream]. *)

From Stdlib Require Import ZArith Lia.
From S2P Require Import Prelude Words Messages Service ServiceTheorems RdfOperators RdfModel Parser Serializer.

(** ** The heap *)

Inductive kind := KWorld | KUri | KParser | KSerializer | KIostream | KStatement | KQuery | KResults.
#[global] Instance kind_eq_dec : EqDecision kind.
Proof. solve_decision. Defined.

(** A reference is the number of a cell. *)
Abbreviation ptr := nat.

Record heap := mkHeap { live : gmap ptr (kind * option ptr); fresh : ptr }.

(** Computations on the heap that can throw and keep what they did before. *)
Definition HM (A : Type) : Type := heap → res A * heap.

#[global] Instance HM_ret : MRet HM := λ A a h, (Ok a, h).
#[global] Instance HM_bind : MBind HM := λ A B k x h,
  match x h with
  | (Ok a, h) => k a h
  | (Throw e, h) => (Throw e, h)
  | (OutOfFuel, h) => (OutOfFuel, h)
  end.

Definition fail {A} (e : exn) : HM A := λ h, (Throw e, h).
Definition lift {A} (x : res A) : HM A := λ h, (x, h).

Definition alloc (k : kind) (world : option ptr) : HM ptr := λ h,
  (Ok (fresh h), mkHeap (<[fresh h := (k, world)]> (live h)) (S (fresh h))).

Definition is_world (h : heap) (w : ptr) : bool := bool_decide (live h !! w = Some (KWorld, None)).

Definition raptor_new_world : HM ptr := alloc KWorld None.

Definition raptor_new (k : kind) (w : ptr) : HM ptr := λ h,
  if is_world h w then alloc k (Some w) h
  else (Throw (UndefinedBehaviour "world was freed"), h).

Definition raptor_free (k : kind) (p : ptr) : HM unit := λ h,
  match live h !! p with
  | Some (k', Some w) =>
      if bool_decide (k = k') && is_world h w then (Ok tt, mkHeap (delete p (live h)) (fresh h))
      else (Throw (UndefinedBehaviour "free of a bad pointer"), h)
  | _ => (Throw (UndefinedBehaviour "free of a bad pointer"), h)
  end.

Definition raptor_free_world (p : ptr) : HM unit := λ h,
  if is_world h p then (Ok tt, mkHeap (delete p (live h)) (fresh h))
  else (Throw (UndefinedBehaviour "free of a bad pointer"), h).

(** Use of a live object. *)
Definition use (k : kind) (p : ptr) : HM unit := λ h,
  match live h !! p with
  | Some (k', Some w) =>
      if bool_decide (k = k') && is_world h w then (Ok tt, h)
      else (Throw (UndefinedBehaviour "use of a bad pointer"), h)
  | _ => (Throw (UndefinedBehaviour "use of a bad pointer"), h)
  end.

(** The strings raptor makes a URI of. *)
Class RaptorUris := { raptor_uri_accepted : string → bool }.

(** A new reference to the URI of a string, or NULL. *)
Definition raptor_new_uri `{RaptorUris} (w : ptr) (s : string) : HM (option ptr) := λ h,
  if is_world h w then
    if raptor_uri_accepted s then
      (Ok (Some (fresh h)), mkHeap (<[fresh h := (KUri, Some w)]> (live h)) (S (fresh h)))
    else (Ok None, h)
  else (Throw (UndefinedBehaviour "world was freed"), h).

(** [raptor_free_uri], which ignores NULL. *)
Definition raptor_free_uri (p : option ptr) : HM unit :=
  match p with Some p => raptor_free KUri p | None => mret tt end.

(** A URI passed to raptor where NULL is allowed. *)
Definition use_uri (p : option ptr) : HM unit :=
  match p with Some p => use KUri p | None => mret tt end.

(** A scope that owns an object: the destructor runs on the way out, also when
    the body throws. *)
Definition scoped {O A} (construct : HM O) (body : O → HM A) (destruct : O → HM unit) : HM A :=
  o ← construct;
  λ h, let '(r, h) := body o h in
       let '(d, h) := destruct o h in
       (match d with Ok _ => r | Throw e => Throw e | OutOfFuel => OutOfFuel end, h).

(** ** Parser *)

Module parser_object.
Record t := mk { parser : ptr; world : ptr; base : option ptr }.

(** The constructor; an uninitialised parser pointer is used at once. *)
Definition construct `{RaptorUris} (baseUri : rdf.URI.t) (format : parser.Format) : HM t :=
  world ← raptor_new_world;
  base ← raptor_new_uri world (serializer.c_str (rdf.URI.getUri baseUri));
  name ← lift (parser.raptor_parser_name format);
  p ← raptor_new KParser world;
  _ ← use KParser p;
  mret (mk p world base).

Definition destruct (o : t) : HM unit :=
  _ ← raptor_free KParser (parser o);
  _ ← raptor_free_uri (base o);
  raptor_free_world (world o).
End parser_object.

(** ** RaptorSerializer *)

Module serializer_object.
Record t := mk { serializer : option ptr; world : option ptr; base : option ptr; stream : option ptr }.

(** A pointer that must not be null or uninitialised. *)
Definition get (p : option ptr) : HM ptr :=
  match p with Some p => mret p | None => fail (UndefinedBehaviour "null pointer") end.

(** The loop of [initRaptor] over the namespaces; the URIs stay allocated. *)
Fixpoint set_namespaces `{RaptorUris} (world serializer : ptr) (namespaces : list (string * rdf.URI.t)) : HM unit :=
  match namespaces with
  | [] => mret tt
  | e :: namespaces =>
      uri ← raptor_new_uri world (serializer.c_str (rdf.URI.getUri e.2));
      _ ← use_uri uri;
      _ ← use KSerializer serializer;
      set_namespaces world serializer namespaces
  end.

Definition initRaptor `{RaptorUris} (world : ptr) (namespaces : gmap string rdf.URI.t) : HM ptr :=
  serializer ← raptor_new KSerializer world;
  _ ← set_namespaces world serializer (map_to_list namespaces);
  mret serializer.

Definition construct `{RaptorUris} (baseUri : rdf.URI.t) (namespaces : gmap string rdf.URI.t) : HM t :=
  world ← raptor_new_world;
  base ← raptor_new_uri world (serializer.c_str (rdf.URI.getUri baseUri));
  serializer ← initRaptor world namespaces;
  mret (mk (Some serializer) (Some world) base None).

(** The constructors that take a list of namespaces or none. *)
Definition construct_list `{RaptorUris} (baseUri : rdf.URI.t) (namespaces : list rdf.Namespace.t) : HM t :=
  construct baseUri (serializer.namespacesMap namespaces).

Definition construct_default `{RaptorUris} (baseUri : rdf.URI.t) : HM t := construct baseUri ∅.

Definition destruct (o : t) : HM unit :=
  _ ← match serializer o with Some p => raptor_free KSerializer p | None => mret tt end;
  _ ← match base o with Some p => raptor_free KUri p | None => mret tt end;
  match world o with Some p => raptor_free_world p | None => mret tt end.

Definition prepare (o : t) : HM t :=
  world' ← get (world o);
  stream ← raptor_new KIostream world';
  serializer' ← get (serializer o);
  _ ← use KSerializer serializer';
  _ ← use_uri (base o);
  mret (mk (serializer o) (world o) (base o) (Some stream)).

(** The URI made for the datatype of a literal, when the code gets there. *)
Definition datatype_uri `{RaptorUris} (world : ptr) (stmt : rdf.Statement.t) : HM unit :=
  let m := rdf.Statement.getMessage stmt in
  if (has_uri (subject m) || has_bnode (subject m)) && negb (has_resource (object m)) &&
     has_literal (object m) && negb (has_stringliteral (val_literal (object m))) &&
     has_dataliteral (val_literal (object m))
  then
    uri ← raptor_new_uri world (serializer.c_str (uri (datatype (dataliteral (val_literal (object m))))));
    use_uri uri
  else mret tt.

Definition serialize `{RaptorUris} `{serializer.RaptorTerms} (o : t) (stmt : rdf.Statement.t) : HM unit :=
  world ← get (world o);
  triple ← raptor_new KStatement world;
  _ ← datatype_uri world stmt;
  _ ← lift (serializer.raptor_triple stmt);
  serializer ← get (serializer o);
  _ ← use KSerializer serializer;
  raptor_free KStatement triple.

Definition close (o : t) : HM unit :=
  serializer ← get (serializer o);
  _ ← use KSerializer serializer;
  stream ← get (stream o);
  raptor_free KIostream stream.

Fixpoint serialize_each `{RaptorUris} `{serializer.RaptorTerms} (o : t) (stmts : list rdf.Statement.t) : HM unit :=
  match stmts with
  | [] => mret tt
  | stmt :: stmts => _ ← serialize o stmt; serialize_each o stmts
  end.

(** [SerializerBase::serialize] over the elements of an iterator. *)
Definition serialize_all `{RaptorUris} `{serializer.RaptorTerms} (stmts : list rdf.Statement.t) (o : t) : HM unit :=
  o ← prepare o;
  _ ← serialize_each o stmts;
  close o.
End serializer_object.

(** ** The stream callbacks *)

(** A [std::ostream]: what was written, how much its device still takes, and
    whether [*out] is true. *)
Record ostream := mkOstream { os_data : bytes; os_room : option nat; os_good : bool }.

(** [write]: nothing happens on a stream that is not good; a device that does not
    take all the bytes sets the bad bit. *)
Definition os_write (s : bytes) (out : ostream) : ostream :=
  if os_good out then
    match os_room out with
    | None => mkOstream (os_data out ++ s) None true
    | Some n => mkOstream (os_data out ++ take n s) (Some (n - length s)) (length s <=? n)
    end
  else out.

Inductive byte_order := little_endian | big_endian.

(** The bytes of an [int] in memory. *)
Definition int_bytes (order : byte_order) (z : Z) : bytes :=
  match order with little_endian => le_bytes 4 z | big_endian => rev (le_bytes 4 z) end.

Definition std_iostream_write_byte (order : byte_order) (byte : Z) (out : ostream) : Z * ostream :=
  let out := os_write (take 1 (int_bytes order byte)) out in
  (if os_good out then 0%Z else 1%Z, out).

(** [ptr] is the buffer; reading beyond it is undefined. *)
Definition std_iostream_write_bytes (ptr : bytes) (size nmemb : Z) (out : ostream) : res (Z * ostream) :=
  let n := Z.to_nat (wrap 64 (size * nmemb)) in
  if length ptr <? n then Throw (UndefinedBehaviour "read beyond a buffer")
  else
    let out := os_write (take n ptr) out in
    Ok (if os_good out then 0%Z else 1%Z, out).

(** A [std::istream]: what is left, the fail and the end-of-file bit, and [gcount]. *)
Record istream := mkIstream { is_rest : bytes; is_fail : bool; is_eof : bool; gcount : nat }.

Definition is_read (n : nat) (i : istream) : bytes * istream :=
  if is_fail i || is_eof i then ([], mkIstream (is_rest i) true (is_eof i) 0)
  else
    let s := take n (is_rest i) in
    let short := length s <? n in
    (s, mkIstream (drop n (is_rest i)) short short (length s)).

(** The conversion of a [std::streamsize] to [int]. *)
Definition to_int (z : Z) : Z := (if wrap 32 z <? 2 ^ 31 then wrap 32 z else wrap 32 z - 2 ^ 32)%Z.

(** The result, and what was stored in the buffer. *)
Definition std_iostream_read_bytes (size nmemb : Z) (i : istream) : Z * bytes * istream :=
  if is_fail i then ((-1)%Z, [], i)
  else
    let '(s, i) := is_read (Z.to_nat (wrap 64 (size * nmemb))) i in
    (to_int (Z.of_nat (gcount i)), s, i).

Definition std_iostream_read_eof (i : istream) : Z := if is_eof i then 1%Z else 0%Z.

(** What raptor does with an output stream. *)
Inductive write_call :=
  | WriteByte (byte : Z)
  | WriteBytes (ptr : bytes) (size nmemb : Z).

(** The calls raptor makes, with their results. *)
Definition do_write (order : byte_order) (s : list Z * ostream) (c : write_call) : res (list Z * ostream) :=
  '(r, out) ← match c with
              | WriteByte byte => Ok (std_iostream_write_byte order byte s.2)
              | WriteBytes ptr size nmemb => std_iostream_write_bytes ptr size nmemb s.2
              end;
  Ok (s.1 ++ [r], out).

Fixpoint do_reads (sizes : list nat) (i : istream) : list (Z * bytes) * istream :=
  match sizes with
  | [] => ([], i)
  | n :: sizes =>
      let '(r, s, i) := std_iostream_read_bytes 1 (Z.of_nat n) i in
      let '(l, i) := do_reads sizes i in
      ((r, s) :: l, i)
  end.

(** ** Growth of the heap *)

Definition heap_wf (h : heap) : Prop := map_Forall (λ p _, p < fresh h) (live h).

(** What was live stays live, and [n] new cells are live. *)
Definition grows (h h' : heap) (n : nat) : Prop :=
  fresh h ≤ fresh h' ∧
  ∃ m, live h' = m ∪ live h ∧ map_Forall (λ p _, fresh h ≤ p < fresh h') m ∧ size m = n.

Lemma grows_refl h : grows h h 0.
Proof.
  split; [done|]. exists ∅. split_and!; [by rewrite map_empty_union|done|done].
Qed.

Lemma grows_wf h h' n : heap_wf h → grows h h' n → heap_wf h'.
Proof.
  intros Hwf (Hf & m & El & Hm & _) p x Hp. rewrite El in Hp.
  apply lookup_union_Some_raw in Hp as [Hp|[_ Hp]].
  - specialize (Hm p x Hp). cbv beta in Hm. lia.
  - specialize (Hwf p x Hp). cbv beta in Hwf. lia.
Qed.

Lemma fresh_disjoint h (m : gmap ptr (kind * option ptr)) k :
  heap_wf h → map_Forall (λ p _, fresh h ≤ p < k) m → m ##ₘ live h.
Proof.
  intros Hwf Hm. apply map_disjoint_spec. intros p x y Hx Hy.
  specialize (Hm p x Hx). specialize (Hwf p y Hy). cbv beta in *. lia.
Qed.

Lemma grows_trans h h1 h2 n1 n2 :
  heap_wf h → grows h h1 n1 → grows h1 h2 n2 → grows h h2 (n1 + n2).
Proof.
  intros Hwf G1 G2. pose proof (grows_wf _ _ _ Hwf G1) as Hwf1.
  destruct G1 as (F1 & m1 & E1 & M1 & S1), G2 as (F2 & m2 & E2 & M2 & S2).
  split; [lia|]. exists (m2 ∪ m1). split_and!.
  - by rewrite E2, E1, (assoc_L (∪)).
  - intros p x [Hp|[_ Hp]]%lookup_union_Some_raw;
      [specialize (M2 p x Hp)|specialize (M1 p x Hp)]; cbv beta in *; lia.
  - rewrite map_size_disj_union; [lia|].
    pose proof (fresh_disjoint h1 m2 _ Hwf1 M2) as Hd. rewrite E1 in Hd.
    by apply map_disjoint_union_r in Hd as [? _].
Qed.

Lemma grows_keep h h' n p x : heap_wf h → grows h h' n → live h !! p = Some x → live h' !! p = Some x.
Proof.
  intros Hwf (_ & m & -> & Hm & _) Hp.
  by rewrite (lookup_union_Some_r m _ p x (fresh_disjoint h m _ Hwf Hm) Hp).
Qed.

Lemma grows_free h h' n p :
  heap_wf h → grows h h' (S n) → fresh h ≤ p → is_Some (live h' !! p) →
  grows h (mkHeap (delete p (live h')) (fresh h')) n.
Proof.
  intros Hwf (Hf & m & El & Hm & Hs) Hp [x Hx]. split; [done|].
  assert (Hnone : live h !! p = None).
  { destruct (live h !! p) as [y|] eqn:E; [|done]. specialize (Hwf p y E). cbv beta in Hwf. lia. }
  assert (Hmp : m !! p = Some x).
  { rewrite El in Hx. apply lookup_union_Some_raw in Hx as [?|[_ ?]]; [done|congruence]. }
  exists (delete p m). split_and!.
  - cbn. by rewrite El, delete_union, (delete_id (live h)) by done.
  - intros q y [_ Hq]%lookup_delete_Some. by apply (Hm q y).
  - rewrite map_size_delete_Some by eauto. lia.
Qed.

Lemma alloc_grows k w h : heap_wf h →
  ∃ h', alloc k w h = (Ok (fresh h), h') ∧ grows h h' 1 ∧ live h' !! fresh h = Some (k, w) ∧ fresh h' = S (fresh h).
Proof.
  intros Hwf. eexists. split; [done|]. cbn. split_and!; [|by rewrite lookup_insert_eq|done].
  split; [cbn; lia|]. exists {[fresh h := (k, w)]}. cbn.
  split_and!; [by rewrite insert_union_singleton_l|by apply map_Forall_singleton; lia|apply map_size_singleton].
Qed.

Lemma raptor_new_grows k w h : heap_wf h → live h !! w = Some (KWorld, None) →
  ∃ h', raptor_new k w h = (Ok (fresh h), h') ∧ grows h h' 1 ∧
    live h' !! fresh h = Some (k, Some w) ∧ fresh h' = S (fresh h).
Proof.
  intros Hwf Hw. unfold raptor_new, is_world. rewrite bool_decide_eq_true_2 by done. by apply alloc_grows.
Qed.

(** Freeing an object allocated since [h0]. *)
Lemma raptor_free_grows k p w h0 h n :
  heap_wf h0 → grows h0 h (S n) → fresh h0 ≤ p →
  live h !! p = Some (k, Some w) → live h !! w = Some (KWorld, None) →
  ∃ h', raptor_free k p h = (Ok tt, h') ∧ grows h0 h' n ∧
    ∀ q x, q ≠ p → live h !! q = Some x → live h' !! q = Some x.
Proof.
  intros Hwf G Hp Ep Ew. unfold raptor_free, is_world. rewrite Ep.
  rewrite !bool_decide_eq_true_2 by done. eexists. split; [done|]. split; [by apply grows_free|].
  intros q x Hq Ex. cbn. by rewrite lookup_delete_ne by done.
Qed.

Lemma raptor_free_world_grows p h0 h n :
  heap_wf h0 → grows h0 h (S n) → fresh h0 ≤ p → live h !! p = Some (KWorld, None) →
  ∃ h', raptor_free_world p h = (Ok tt, h') ∧ grows h0 h' n.
Proof.
  intros Hwf G Hp Ep. unfold raptor_free_world, is_world. rewrite bool_decide_eq_true_2 by done.
  eexists. split; [done|]. by apply grows_free.
Qed.

Lemma use_live k p w h :
  live h !! p = Some (k, Some w) → live h !! w = Some (KWorld, None) → use k p h = (Ok tt, h).
Proof.
  intros Ep Ew. unfold use, is_world. rewrite Ep. by rewrite !bool_decide_eq_true_2 by done.
Qed.

Lemma HM_bind_Ok {A B} (x : HM A) (k : A → HM B) h a h' : x h = (Ok a, h') → (x ≫= k) h = k a h'.
Proof. intros E. unfold mbind, HM_bind. by rewrite E. Qed.

Lemma get_bind {B} (o : option ptr) p (k : ptr → HM B) h :
  o = Some p → (serializer_object.get o ≫= k) h = k p h.
Proof. by intros ->. Qed.

(** ** The objects *)

(** An object of kind [k] with its base URI in a world, all allocated since [n]. *)
Definition owns (k : kind) (n : ptr) (p world : ptr) (base : option ptr) (h : heap) : Prop :=
  n ≤ p ∧ n ≤ world ∧ live h !! p = Some (k, Some world) ∧ live h !! world = Some (KWorld, None) ∧
  match base with
  | Some b => n ≤ b ∧ b ≠ p ∧ live h !! b = Some (KUri, Some world)
  | None => True
  end.

(** What a URI adds to the ledger. *)
Definition uri_refs (u : option ptr) : nat := match u with Some _ => 1 | None => 0 end.

Lemma owns_grows k n p world base h h' m :
  heap_wf h → grows h h' m → owns k n p world base h → owns k n p world base h'.
Proof.
  intros Hwf G (? & ? & ? & ? & Hb). split_and!; try done; try (by eapply grows_keep).
  destruct base as [b|]; [|done]. destruct Hb as (? & ? & ?). split_and!; try done. by eapply grows_keep.
Qed.

Section Uris.
Context `{RaptorUris}.

(** The references the URIs of some strings add. *)
Definition accepted_uris (l : list string) : nat := length (filter (λ s, raptor_uri_accepted s = true) l).

Lemma accepted_uris_cons x l :
  accepted_uris (x :: l) = (if raptor_uri_accepted x then 1 else 0) + accepted_uris l.
Proof. unfold accepted_uris. rewrite filter_cons. by destruct (raptor_uri_accepted x). Qed.

Lemma raptor_new_uri_grows w x h : heap_wf h → live h !! w = Some (KWorld, None) →
  ∃ u h', raptor_new_uri w x h = (Ok u, h') ∧ use_uri u h' = (Ok tt, h') ∧
    grows h h' (if raptor_uri_accepted x then 1 else 0) ∧
    match u with
    | Some b => raptor_uri_accepted x = true ∧ b = fresh h ∧ live h' !! b = Some (KUri, Some w)
    | None => raptor_uri_accepted x = false
    end.
Proof.
  intros Hwf Lw. destruct (raptor_new_grows KUri w h Hwf Lw) as (h1 & E1 & G1 & L1 & F1).
  unfold raptor_new, alloc, is_world in E1. rewrite bool_decide_eq_true_2 in E1 by done.
  unfold raptor_new_uri, is_world. rewrite bool_decide_eq_true_2 by done.
  destruct (raptor_uri_accepted x) eqn:Ex.
  - eexists (Some _), h1. split; [by injection E1 as <-|]. split_and!; try done.
    apply (use_live _ _ w); [done|]. by eapply grows_keep.
  - exists None, h. split_and!; try done. apply grows_refl.
Qed.

(** World, base and the object itself: the common part of both constructors. *)
Lemma construct_grows k x h : heap_wf h →
  ∃ base p h1 h2 h3, raptor_new_world h = (Ok (fresh h), h1) ∧
    raptor_new_uri (fresh h) x h1 = (Ok base, h2) ∧ raptor_new k (fresh h) h2 = (Ok p, h3) ∧
    grows h h3 (2 + uri_refs base) ∧ owns k (fresh h) p (fresh h) base h3.
Proof.
  intros Hwf. destruct (alloc_grows KWorld None h Hwf) as (h1 & E1 & G1 & L1 & F1).
  pose proof (grows_wf _ _ _ Hwf G1) as W1.
  destruct (raptor_new_uri_grows (fresh h) x h1 W1 L1) as (base & h2 & E2 & _ & G2 & L2).
  pose proof (grows_wf _ _ _ W1 G2) as W2.
  pose proof (grows_keep _ _ _ _ _ W1 G2 L1) as L1'.
  destruct (raptor_new_grows k (fresh h) h2 W2 L1') as (h3 & E3 & G3 & L3 & F3).
  assert (Hu : (if raptor_uri_accepted x then 1 else 0) = uri_refs base).
  { destruct base; [by destruct L2 as [-> _]|by rewrite L2]. }
  rewrite Hu in G2. exists base, (fresh h2), h1, h2, h3. split_and!; try done.
  - replace (2 + uri_refs base) with ((1 + uri_refs base) + 1) by lia.
    apply (grows_trans h h2 h3); [done|by apply (grows_trans h h1 h2)|done].
  - pose proof (grows_keep _ _ _ _ _ W2 G3 L1'). destruct G2 as [Hf _].
    split_and!; try done; [lia|]. destruct base as [b|]; [|done]. destruct L2 as (_ & -> & L2).
    pose proof (W2 _ _ L2) as Hlt. simpl in Hlt. split_and!; [lia|lia|by eapply grows_keep].
Qed.
End Uris.

(** The common part of both destructors. *)
Lemma destruct_grows k p world base h0 h n :
  heap_wf h0 → grows h0 h (2 + uri_refs base + n) → owns k (fresh h0) p world base h →
  ∃ h1 h2 h3, raptor_free k p h = (Ok tt, h1) ∧ raptor_free_uri base h1 = (Ok tt, h2) ∧
    raptor_free_world world h2 = (Ok tt, h3) ∧ grows h0 h3 n.
Proof.
  intros Hwf G (Hp & Hw & Lp & Lw & Lb).
  assert (Hwp : world ≠ p) by (intros ->; congruence).
  destruct (raptor_free_grows k p world h0 h _ Hwf G Hp Lp Lw) as (h1 & E1 & G1 & K1).
  assert (∃ h2, raptor_free_uri base h1 = (Ok tt, h2) ∧ grows h0 h2 (S n) ∧ live h2 !! world = Some (KWorld, None))
    as (h2 & E2 & G2 & L2).
  { destruct base as [b|]; [|exists h1; split_and!; [done|done|by apply K1]].
    destruct Lb as (Hb & Hne & Lb). assert (Hwb : world ≠ b) by (intros ->; congruence).
    destruct (raptor_free_grows KUri b world h0 h1 _ Hwf G1 Hb (K1 _ _ Hne Lb) (K1 _ _ Hwp Lw))
      as (h2 & E2 & G2 & K2). exists h2. split_and!; [done|done|]. apply K2; [done|by apply K1]. }
  destruct (raptor_free_world_grows world h0 h2 n Hwf G2 Hw L2) as (h3 & E3 & G3). by exists h1, h2, h3.
Qed.

Lemma grows_0 h h' : grows h h' 0 → live h' = live h.
Proof. intros (_ & m & -> & _ & ->%map_size_empty_inv). apply map_empty_union. Qed.

Section SerializerObject.
Context `{RU : RaptorUris} `{RT : serializer.RaptorTerms}.

(** A serializer object with its handles. *)
Definition serializer_at (p world : ptr) (base stream : option ptr) : serializer_object.t :=
  serializer_object.mk (Some p) (Some world) base stream.

(** The strings of the namespaces. *)
Definition namespace_uris (l : list (string * rdf.URI.t)) : list string :=
  (λ e, serializer.c_str (rdf.URI.getUri e.2)) <$> l.

Lemma set_namespaces_grows l n p world base h :
  heap_wf h → owns KSerializer n p world base h →
  ∃ h', serializer_object.set_namespaces world p l h = (Ok tt, h') ∧ grows h h' (accepted_uris (namespace_uris l)).
Proof.
  revert h; induction l as [|e l IH]; intros h Hwf Ho; cbn [serializer_object.set_namespaces];
    [eauto using grows_refl|].
  pose proof Ho as (_ & _ & _ & Lw & _).
  destruct (raptor_new_uri_grows world (serializer.c_str (rdf.URI.getUri e.2)) h Hwf Lw)
    as (u & h1 & E1 & Eu & G1 & _).
  pose proof (grows_wf _ _ _ Hwf G1) as W1. pose proof (owns_grows _ _ _ _ _ _ _ _ Hwf G1 Ho) as Ho1.
  pose proof Ho1 as (_ & _ & Lp1 & Lw1 & _).
  rewrite (HM_bind_Ok _ _ _ _ _ E1), (HM_bind_Ok _ _ _ _ _ Eu), (HM_bind_Ok _ _ _ _ _ (use_live _ _ _ _ Lp1 Lw1)).
  destruct (IH h1 W1 Ho1) as (h2 & E2 & G2). exists h2. split; [done|].
  change (namespace_uris (e :: l)) with (serializer.c_str (rdf.URI.getUri e.2) :: namespace_uris l).
  rewrite accepted_uris_cons. by apply (grows_trans h h1 h2).
Qed.

(** The reference to a datatype URI a statement leaves behind. *)
Definition datatype_leak (stmt : rdf.Statement.t) : nat :=
  let m := rdf.Statement.getMessage stmt in
  match subject m, object m with
  | Resource_none, _ => 0
  | _, Value_literal (Literal_data l) => accepted_uris [serializer.c_str (uri (datatype l))]
  | _, _ => 0
  end.

(** Everything the statements leave behind, and the outcome: the first error
    ends the loop and leaves its raptor statement behind, too. *)
Fixpoint leaks (stmts : list rdf.Statement.t) : nat :=
  match stmts with
  | [] => 0
  | stmt :: stmts =>
      datatype_leak stmt + match serializer.raptor_triple stmt with Ok _ => leaks stmts | _ => 1 end
  end.

Definition outcome (stmts : list rdf.Statement.t) : res unit :=
  foldM (λ _ stmt, _ ← serializer.raptor_triple stmt; Ok tt) tt stmts.

Lemma datatype_uri_grows stmt world h :
  heap_wf h → live h !! world = Some (KWorld, None) →
  ∃ h', serializer_object.datatype_uri world stmt h = (Ok tt, h') ∧ grows h h' (datatype_leak stmt).
Proof.
  intros Hwf Lw. unfold serializer_object.datatype_uri, datatype_leak.
  assert (Hu : ∀ x, ∃ h', (u ← raptor_new_uri world x; use_uri u) h = (Ok tt, h') ∧ grows h h' (accepted_uris [x])).
  { intros x. destruct (raptor_new_uri_grows world x h Hwf Lw) as (u & h1 & E1 & Eu & G1 & _).
    exists h1. rewrite (HM_bind_Ok _ _ _ _ _ E1), accepted_uris_cons. by rewrite Nat.add_0_r. }
  destruct (subject (rdf.Statement.getMessage stmt)) as [|u|b],
    (object (rdf.Statement.getMessage stmt)) as [|r|[|l|l]]; cbn -[accepted_uris serializer.c_str];
    first [exact (Hu _) | eauto using grows_refl].
Qed.

Lemma serialize_grows stmt n p world base stream h :
  heap_wf h → owns KSerializer n p world base h →
  ∃ h', serializer_object.serialize (serializer_at p world base stream) stmt h =
      (_ ← serializer.raptor_triple stmt; Ok tt, h') ∧
    grows h h' (datatype_leak stmt + match serializer.raptor_triple stmt with Ok _ => 0 | _ => 1 end).
Proof.
  intros Hwf Ho. pose proof Ho as (_ & _ & _ & Lw & _).
  unfold serializer_object.serialize.
  destruct (raptor_new_grows KStatement world h Hwf Lw) as (h1 & E1 & G1 & Lt & _).
  pose proof (grows_wf _ _ _ Hwf G1) as W1. pose proof (grows_keep _ _ _ _ _ Hwf G1 Lw) as Lw1.
  destruct (datatype_uri_grows stmt world h1 W1 Lw1) as (h2 & E2 & G2).
  pose proof (grows_trans _ _ _ _ _ Hwf G1 G2) as G.
  pose proof (grows_keep _ _ _ _ _ W1 G2 Lt) as Lt2.
  pose proof (owns_grows _ _ _ _ _ _ _ _ Hwf G Ho) as (_ & _ & Lp & Lw2 & _).
  rewrite (get_bind _ world) by done. rewrite (HM_bind_Ok _ _ _ _ _ E1), (HM_bind_Ok _ _ _ _ _ E2).
  destruct (serializer.raptor_triple stmt) as [t|e|].
  - rewrite (HM_bind_Ok (lift (Ok t)) _ h2 t h2 eq_refl).
    rewrite (get_bind _ p) by done. rewrite (HM_bind_Ok _ _ _ _ _ (use_live _ _ _ _ Lp Lw2)).
    destruct (raptor_free_grows KStatement (fresh h) world h h2 _ Hwf G ltac:(lia) Lt2 Lw2) as (h3 & E3 & G3 & _).
    exists h3. by rewrite Nat.add_0_r.
  - exists h2. split; [done|]. by rewrite Nat.add_1_r.
  - exists h2. split; [done|]. by rewrite Nat.add_1_r.
Qed.

Lemma serialize_each_grows stmts n p world base stream h :
  heap_wf h → owns KSerializer n p world base h →
  ∃ h', serializer_object.serialize_each (serializer_at p world base stream) stmts h = (outcome stmts, h') ∧
    grows h h' (leaks stmts).
Proof.
  revert h; induction stmts as [|stmt stmts IH]; intros h Hwf Ho; simpl; [eauto using grows_refl|].
  destruct (serialize_grows stmt n p world base stream h Hwf Ho) as (h1 & E1 & G1).
  unfold outcome. cbn [foldM]. destruct (serializer.raptor_triple stmt) as [t|e|].
  - rewrite (HM_bind_Ok _ _ _ _ _ E1). rewrite Nat.add_0_r in G1.
    destruct (IH h1 (grows_wf _ _ _ Hwf G1) (owns_grows _ _ _ _ _ _ _ _ Hwf G1 Ho)) as (h2 & E2 & G2).
    exists h2. split; [done|]. by eapply grows_trans.
  - unfold mbind at 1, HM_bind. rewrite E1. by exists h1.
  - unfold mbind at 1, HM_bind. rewrite E1. by exists h1.
Qed.

Lemma serialize_all_grows stmts n p world base h :
  heap_wf h → owns KSerializer n p world base h →
  ∃ h', serializer_object.serialize_all stmts (serializer_at p world base None) h = (outcome stmts, h') ∧
    grows h h' (leaks stmts + match outcome stmts with Ok _ => 0 | _ => 1 end).
Proof.
  intros Hwf Ho. pose proof Ho as (_ & _ & _ & Lw & _).
  unfold serializer_object.serialize_all.
  destruct (raptor_new_grows KIostream world h Hwf Lw) as (h1 & E1 & G1 & Ls & _).
  pose proof (grows_wf _ _ _ Hwf G1) as W1. pose proof (owns_grows _ _ _ _ _ _ _ _ Hwf G1 Ho) as Ho1.
  pose proof Ho1 as (_ & _ & Lp1 & Lw1 & Lb1).
  assert (Ep : serializer_object.prepare (serializer_at p world base None) h =
    (Ok (serializer_at p world base (Some (fresh h))), h1)).
  { unfold serializer_object.prepare. rewrite (get_bind _ world) by done.
    rewrite (HM_bind_Ok _ _ _ _ _ E1), (get_bind _ p) by done.
    rewrite (HM_bind_Ok _ _ _ _ _ (use_live _ _ _ _ Lp1 Lw1)).
    assert (Eb : use_uri base h1 = (Ok tt, h1)).
    { destruct base as [b|]; [|done]. destruct Lb1 as (_ & _ & Lb). by apply (use_live _ _ world). }
    by rewrite (HM_bind_Ok _ _ _ _ _ Eb). }
  rewrite (HM_bind_Ok _ _ _ _ _ Ep).
  destruct (serialize_each_grows stmts n p world base (Some (fresh h)) h1 W1 Ho1) as (h2 & E2 & G2).
  pose proof (grows_trans _ _ _ _ _ Hwf G1 G2) as G.
  pose proof (owns_grows _ _ _ _ _ _ _ _ W1 G2 Ho1) as (_ & _ & Lp2 & Lw2 & _).
  destruct (outcome stmts) as [[]|e|].
  - rewrite (HM_bind_Ok _ _ _ _ _ E2). unfold serializer_object.close. rewrite (get_bind _ p) by done.
    rewrite (HM_bind_Ok _ _ _ _ _ (use_live _ _ _ _ Lp2 Lw2)), (get_bind _ (fresh h)) by done.
    destruct (raptor_free_grows KIostream (fresh h) world h h2 _ Hwf G ltac:(lia)
      (grows_keep _ _ _ _ _ W1 G2 Ls) Lw2) as (h3 & E3 & G3 & _).
    exists h3. by rewrite Nat.add_0_r.
  - unfold mbind at 1, HM_bind. rewrite E2. exists h2. by rewrite Nat.add_1_r.
  - unfold mbind at 1, HM_bind. rewrite E2. exists h2. by rewrite Nat.add_1_r.
Qed.

Lemma serializer_construct_grows baseUri namespaces h : heap_wf h →
  ∃ p world base h', serializer_object.construct baseUri namespaces h = (Ok (serializer_at p world base None), h') ∧
    grows h h' (2 + uri_refs base + accepted_uris (namespace_uris (map_to_list namespaces))) ∧
    owns KSerializer (fresh h) p world base h'.
Proof.
  intros Hwf. destruct (construct_grows KSerializer (serializer.c_str (rdf.URI.getUri baseUri)) h Hwf)
    as (base & p & h1 & h2 & h3 & E1 & E2 & E3 & G & Ho).
  destruct (set_namespaces_grows (map_to_list namespaces) _ _ _ _ h3 (grows_wf _ _ _ Hwf G) Ho)
    as (h4 & E4 & G4).
  eexists p, _, base, h4. unfold serializer_object.construct, serializer_object.initRaptor.
  rewrite (HM_bind_Ok _ _ _ _ _ E1), (HM_bind_Ok _ _ _ _ _ E2).
  rewrite (HM_bind_Ok _ _ h2 p h4) by (by rewrite (HM_bind_Ok _ _ _ _ _ E3), (HM_bind_Ok _ _ _ _ _ E4)).
  split; [done|]. split; [by apply (grows_trans h h3 h4)|].
  by eapply owns_grows, Ho; [apply (grows_wf _ _ _ Hwf G)|].
Qed.
End SerializerObject.

Lemma scoped_spec {O A} (c : HM O) (b : O → HM A) (d : O → HM unit) h o h1 r h2 h3 :
  c h = (Ok o, h1) → b o h1 = (r, h2) → d o h2 = (Ok tt, h3) → scoped c b d h = (r, h3).
Proof. intros E1 E2 E3. unfold scoped. rewrite (HM_bind_Ok _ _ _ _ _ E1). by rewrite E2, E3. Qed.

(** ** The streams *)

Definition fits (room : option nat) (s : bytes) : bool :=
  match room with None => true | Some n => length s <=? n end.

(** A stream after [s] was written to it. *)
Definition stream_after (room : option nat) (s : bytes) : ostream :=
  mkOstream (accepted room s) ((λ n, n - length s) <$> room) (fits room s).

Lemma os_write_after room s1 s2 : os_write s2 (stream_after room s1) = stream_after room (s1 ++ s2).
Proof.
  destruct room as [n|]; [|done]. unfold os_write, stream_after. simpl. rewrite length_app.
  destruct (Nat.leb_spec (length s1) n) as [Hn|Hn].
  - rewrite take_app, (take_ge s1) by lia. f_equal; [f_equal; lia|].
    by destruct (Nat.leb_spec (length s2) (n - length s1)), (Nat.leb_spec (length s1 + length s2) n); try lia.
  - rewrite take_app_le by lia. f_equal; [f_equal; lia|]. symmetry. apply Nat.leb_gt. lia.
Qed.

(** A call raptor may make: a byte, or a buffer with its size. *)
Definition call_ok (c : write_call) : Prop :=
  match c with
  | WriteByte b => (0 ≤ b < 256)%Z
  | WriteBytes ptr size nmemb => (size * nmemb = Z.of_nat (length ptr) ∧ Z.of_nat (length ptr) < 2 ^ 64)%Z
  end.

Definition call_bytes (c : write_call) : bytes :=
  match c with WriteByte b => [byte_of_Z b] | WriteBytes ptr _ _ => ptr end.

Lemma do_write_after rs room s c : call_ok c →
  do_write little_endian (rs, stream_after room s) c =
  Ok (rs ++ [if fits room (s ++ call_bytes c) then 0%Z else 1%Z], stream_after room (s ++ call_bytes c)).
Proof.
  destruct c as [b|ptr size nmemb]; intros Hc; unfold do_write; cbn [snd fst].
  - unfold std_iostream_write_byte. rewrite os_write_after. done.
  - destruct Hc as [Hn Hlt]. unfold std_iostream_write_bytes.
    rewrite wrap_small by (rewrite Hn; unfold in_width; lia). rewrite Hn, Nat2Z.id, Nat.ltb_irrefl.
    rewrite take_ge by lia. cbn [mbind res_bind]. by rewrite os_write_after.
Qed.

Lemma do_writes_after calls rs room s : Forall call_ok calls →
  ∃ rs', foldM (do_write little_endian) (rs, stream_after room s) calls =
      Ok (rs ++ rs', stream_after room (s ++ mjoin (call_bytes <$> calls))) ∧
    length rs' = length calls ∧
    ∀ i, i < length calls →
      rs' !! i = Some (if fits room (s ++ mjoin (call_bytes <$> take (S i) calls)) then 0%Z else 1%Z).
Proof.
  intros Hc; revert rs s; induction Hc as [|c calls Hc _ IH]; intros rs s.
  - exists []. cbn. rewrite !app_nil_r. split_and!; [done|done|lia].
  - cbn [foldM]. rewrite do_write_after by done. cbn [mbind res_bind].
    destruct (IH (rs ++ [if fits room (s ++ call_bytes c) then 0%Z else 1%Z]) (s ++ call_bytes c))
      as (rs' & E & Hl & Hi).
    eexists ((if fits room (s ++ call_bytes c) then 0%Z else 1%Z) :: rs'). split_and!.
    + rewrite E, <- !app_assoc. done.
    + simpl. lia.
    + intros [|i] Hlt; [simpl; by rewrite app_nil_r|]. simpl in Hlt |- *.
      rewrite Hi by lia. by rewrite <- app_assoc.
Qed.

(** A stream that is read only by [read]. *)
Definition istream_ok (i : istream) : Prop := is_fail i = is_eof i ∧ (is_eof i = true → is_rest i = []).

Lemma to_int_small z : (0 ≤ z < 2 ^ 31)%Z → to_int z = z.
Proof.
  intros Hz. unfold to_int. rewrite wrap_small by (unfold in_width; lia).
  by destruct (Z.ltb_spec z (2 ^ 31)); [|lia].
Qed.

Lemma do_reads_spec sizes i :
  istream_ok i → Forall (λ n, 0 < n ∧ (Z.of_nat n < 2 ^ 31)%Z) sizes →
  ∃ l i', do_reads sizes i = (l, i') ∧
    mjoin (snd <$> l) = take (sum_list sizes) (is_rest i) ∧
    Forall (λ x, x.1 = Z.of_nat (length x.2) ∨ x.1 = (-1)%Z ∧ x.2 = []) l ∧
    is_eof i' = is_eof i || (length (is_rest i) <? sum_list sizes).
Proof.
  intros Hi Hs; revert i Hi; induction Hs as [|n sizes Hn Hs IH]; intros i [Hf He].
  - exists [], i. cbn. rewrite take_0. split_and!; try done. by rewrite orb_false_r.
  - cbn [do_reads]. unfold std_iostream_read_bytes. rewrite Hf. destruct (is_eof i) eqn:Ee.
    + destruct (IH i) as (l & i' & -> & Hl & HF & E); [by split; rewrite Ee|].
      eexists _, i'. split; [done|]. rewrite (He eq_refl), take_nil in *. rewrite E, Ee.
      split_and!; [exact Hl|constructor; [by right|done]|done].
    + rewrite Z.mul_1_l, wrap_small by (unfold in_width; lia). rewrite Nat2Z.id.
      unfold is_read. rewrite Hf, Ee. cbn [orb]. cbv zeta iota beta.
      destruct (IH (mkIstream (drop n (is_rest i)) (length (take n (is_rest i)) <? n)
        (length (take n (is_rest i)) <? n) (length (take n (is_rest i))))) as (l & i' & -> & Hl & HF & E).
      { split; [done|]. cbn. rewrite length_take. intros ?%Nat.ltb_lt. apply drop_ge. lia. }
      eexists _, i'. split; [done|]. cbn [is_rest is_eof] in *. rewrite E. split_and!.
      * change (take n (is_rest i) ++ mjoin (snd <$> l) = take (n + sum_list sizes) (is_rest i)).
        by rewrite Hl, take_take_drop.
      * constructor; [|done]. left. apply to_int_small. cbn [gcount snd]. rewrite length_take. lia.
      * rewrite length_take, length_drop. change (sum_list (n :: sizes)) with (n + sum_list sizes).
        destruct (Nat.ltb_spec (n `min` length (is_rest i)) n), (Nat.ltb_spec (length (is_rest i) - n) (sum_list sizes)),
          (Nat.ltb_spec (length (is_rest i)) (n + sum_list sizes)); simpl; try done; lia.
Qed.

(** ** Properties *)

(** C37. The life of a raptor serializer, from construction to destruction around one
    call of serialize, by the references to raptor objects the program holds:
    none is released twice or used after it was released, the base URI may be
    refused by raptor, an error is passed on after the destructor ran, and the
    references that are never released are known exactly: one for the URI of
    each namespace and of each datatype literal that raptor accepts, and after
    an error the raptor statement and the stream.  Without these everything the
    call acquired is released. *)
Theorem serializer_lifetime `{RaptorUris} `{serializer.RaptorTerms} (baseUri : rdf.URI.t)
    (namespaces : gmap string rdf.URI.t) (stmts : list rdf.Statement.t) (h : heap) :
  heap_wf h →
  ∃ h' leaked,
    scoped (serializer_object.construct baseUri namespaces) (serializer_object.serialize_all stmts)
      serializer_object.destruct h = (outcome stmts, h') ∧
    live h' = leaked ∪ live h ∧ leaked ##ₘ live h ∧
    size leaked = accepted_uris (namespace_uris (map_to_list namespaces)) + leaks stmts +
                  match outcome stmts with Ok _ => 0 | _ => 1 end.
Proof.
  intros Hwf.
  destruct (serializer_construct_grows baseUri namespaces h Hwf) as (p & w & b & h1 & E1 & G1 & Ho).
  pose proof (grows_wf _ _ _ Hwf G1) as W1.
  destruct (serialize_all_grows stmts _ p w b h1 W1 Ho) as (h2 & E2 & G2).
  pose proof (grows_trans _ _ _ _ _ Hwf G1 G2) as G. rewrite <- Nat.add_assoc in G.
  destruct (destruct_grows KSerializer p w b h h2 _ Hwf G (owns_grows _ _ _ _ _ _ _ _ W1 G2 Ho))
    as (h3 & h4 & h5 & E3 & E4 & E5 & (_ & m & El & Hm & Hs)).
  exists h5, m. split_and!.
  - apply (scoped_spec _ _ _ _ _ _ _ _ _ E1 E2). unfold serializer_object.destruct. cbn.
    unfold raptor_free_uri in E4. by rewrite (HM_bind_Ok _ _ _ _ _ E3), (HM_bind_Ok _ _ _ _ _ E4).
  - done.
  - by eapply fresh_disjoint.
  - rewrite Hs. lia.
Qed.

(** The life of a parser around a parse with outcome [r], an error included:
    the destructor releases what the constructor acquired and nothing else.
    For the two formats the constructor does not handle, it uses an
    uninitialised pointer. *)
Theorem parser_lifetime `{RaptorUris} {A} (baseUri : rdf.URI.t) (format : parser.Format) (r : res A) (h : heap) :
  heap_wf h →
  match parser.raptor_parser_name format with
  | Ok _ => ∃ h', scoped (parser_object.construct baseUri format) (λ _, lift r) parser_object.destruct h = (r, h') ∧
      live h' = live h
  | _ => ∃ h' msg, scoped (parser_object.construct baseUri format) (λ _, lift r) parser_object.destruct h =
      (Throw (UndefinedBehaviour msg), h')
  end.
Proof.
  intros Hwf. destruct (construct_grows KParser (serializer.c_str (rdf.URI.getUri baseUri)) h Hwf)
    as (base & p & h1 & h2 & h3 & E1 & E2 & E3 & G & Ho).
  pose proof Ho as (_ & _ & Lp & Lw & _).
  destruct (destruct_grows KParser _ _ _ h h3 0 Hwf ltac:(by rewrite Nat.add_0_r) Ho)
    as (h4 & h5 & h6 & E4 & E5 & E6 & G6%grows_0).
  destruct (parser.raptor_parser_name format) as [name|e|] eqn:En.
  - exists h6. split; [|done].
    apply (scoped_spec _ _ _ _ (parser_object.mk p (fresh h) base) h3 _ h3).
    + unfold parser_object.construct. rewrite (HM_bind_Ok _ _ _ _ _ E1), (HM_bind_Ok _ _ _ _ _ E2), En.
      rewrite (HM_bind_Ok (lift (Ok name)) _ h2 name h2 eq_refl), (HM_bind_Ok _ _ _ _ _ E3).
      by rewrite (HM_bind_Ok _ _ _ _ _ (use_live _ _ _ _ Lp Lw)).
    + done.
    + unfold parser_object.destruct. cbn. by rewrite (HM_bind_Ok _ _ _ _ _ E4), (HM_bind_Ok _ _ _ _ _ E5).
  - destruct format; cbn in En; try discriminate; injection En as <-;
      eexists h2, _; unfold scoped, parser_object.construct, mbind, HM_bind; by rewrite E1, E2.
  - by destruct format.
Qed.

(** However raptor cuts its output into calls, the stream gets the bytes in
    order, cut off where its device is full, and every call reports whether all
    bytes up to it were written.  This holds on a little-endian machine: on a
    big-endian one a single byte is written as zero. *)
Theorem raptor_stream_writes (room : option nat) (calls : list write_call) :
  (Forall call_ok calls →
   ∃ rs out, foldM (do_write little_endian) ([], mkOstream [] room true) calls = Ok (rs, out) ∧
     os_data out = accepted room (mjoin (call_bytes <$> calls)) ∧
     length rs = length calls ∧
     ∀ i, i < length calls →
       rs !! i = Some (if fits room (mjoin (call_bytes <$> take (S i) calls)) then 0%Z else 1%Z)) ∧
  (∀ b out, (0 ≤ b < 256)%Z →
   std_iostream_write_byte big_endian b out = std_iostream_write_byte big_endian 0 out).
Proof.
  split.
  - intros Hc. destruct (do_writes_after calls [] room [] Hc) as (rs & E & Hl & Hi).
    assert (E0 : mkOstream [] room true = stream_after room []).
    { unfold stream_after. destruct room as [n|]; simpl; [|done]. by rewrite take_nil, Nat.sub_0_r. }
    rewrite E0. exists rs, (stream_after room (mjoin (call_bytes <$> calls))). by split_and!.
  - intros b out Hb. unfold std_iostream_write_byte. cbn [int_bytes le_bytes rev app take].
    rewrite !Z.div_div, (Z.div_small b) by lia. done.
Qed.

(** Reading a stream through the callbacks: whatever buffer sizes raptor uses,
    the pieces are the data in order with nothing lost or added, every result is
    the number of bytes stored or -1 with nothing stored, and the end of the
    stream is reported exactly when more was asked for than there was. *)
Theorem raptor_stream_reads (sizes : list nat) (data : bytes) :
  Forall (λ n, 0 < n ∧ (Z.of_nat n < 2 ^ 31)%Z) sizes →
  ∃ l i, do_reads sizes (mkIstream data false false 0) = (l, i) ∧
    mjoin (snd <$> l) = take (sum_list sizes) data ∧
    Forall (λ x, x.1 = Z.of_nat (length x.2) ∨ x.1 = (-1)%Z ∧ x.2 = []) l ∧
    (std_iostream_read_eof i = 1%Z ↔ length data < sum_list sizes).
Proof.
  intros Hs. destruct (do_reads_spec sizes (mkIstream data false false 0)) as (l & i & E & Hl & HF & Hi);
    [by split|done|].
  exists l, i. split_and!; try done. unfold std_iostream_read_eof. rewrite Hi. simpl.
  by destruct (Nat.ltb_spec (length data) (sum_list sizes)); split; intros; lia.
Qed.

(** ** Witnesses *)

Section RaptorWitnesses.
#[local] Existing Instances plain_terms.

Definition empty_heap : heap := mkHeap ∅ 0.

(** Strings that are not empty are accepted. *)
#[local] Instance nonempty_uris : RaptorUris := {| raptor_uri_accepted s := negb (string_eqb s "") |}.

(** Statements with a datatype literal, with an empty datatype, and without a
    subject. *)
Definition demo_statements : list rdf.Statement.t :=
  rdf.Statement.of_message <$>
  [mkStatement (Some (Resource_uri (mkURI "a"))) (Some (mkURI "p"))
     (Some (Value_literal (Literal_data (mkDatatypeLiteral "1" (Some (mkURI "int"))))))
     (Some (Resource_bnode (mkBNode "g")));
   mkStatement (Some (Resource_uri (mkURI "a"))) (Some (mkURI "p"))
     (Some (Value_literal (Literal_data (mkDatatypeLiteral "1" None))))
     (Some (Resource_bnode (mkBNode "g")));
   mkStatement None None None None].

Lemma serializer_lifetime_witness :
  ∃ h' leaked,
    scoped (serializer_object.construct rdf.URI.new {[ "ex"%string := rdf.URI.of_string "http://ex/" ]})
      (serializer_object.serialize_all demo_statements) serializer_object.destruct empty_heap =
      (Throw (SerializationError "invalid subject type"), h') ∧
    live h' = leaked ∪ ∅ ∧ leaked ##ₘ ∅ ∧ size leaked = 4.
Proof.
  exact (serializer_lifetime rdf.URI.new {[ "ex"%string := rdf.URI.of_string "http://ex/" ]} demo_statements empty_heap
    (map_Forall_empty _)).
Defined.

Lemma parser_lifetime_witness :
  ∃ h', scoped (parser_object.construct rdf.URI.new parser.TURTLE) (λ _, lift (Throw (A:=unit) (ParseError "bad")))
      parser_object.destruct empty_heap = (Throw (ParseError "bad"), h') ∧ live h' = ∅.
Proof.
  exact (parser_lifetime rdf.URI.new parser.TURTLE (Throw (ParseError "bad")) empty_heap (map_Forall_empty _)).
Defined.

Lemma raptor_stream_writes_witness :
  ∃ rs out, foldM (do_write little_endian) ([], mkOstream [] (Some 3) true)
      [WriteByte 65; WriteBytes [x42; x43] 1 2; WriteBytes [x44] 1 1] = Ok (rs, out) ∧
    os_data out = [x41; x42; x43] ∧ rs !! 2 = Some 1%Z.
Proof.
  destruct (proj1 (raptor_stream_writes (Some 3) [WriteByte 65; WriteBytes [x42; x43] 1 2; WriteBytes [x44] 1 1]))
    as (rs & out & E & Ed & _ & Hi).
  - repeat constructor; simpl; lia.
  - exists rs, out. split; [exact E|]. split; [rewrite Ed; reflexivity|]. apply (Hi 2). simpl. lia.
Defined.

Lemma raptor_stream_reads_witness :
  ∃ l i, do_reads [2; 2] (mkIstream [x41; x42; x43] false false 0) = (l, i) ∧
    mjoin (snd <$> l) = [x41; x42; x43] ∧
    Forall (λ x, x.1 = Z.of_nat (length x.2) ∨ x.1 = (-1)%Z ∧ x.2 = []) l ∧
    (std_iostream_read_eof i = 1%Z ↔ 3 < 4).
Proof. apply (raptor_stream_reads [2; 2] [x41; x42; x43]). repeat constructor; lia. Defined.
End RaptorWitnesses.
