(* ===== verification/Sparql.v ===== *)
(** * Sparql: sparql/rasqal_model.cc and sparql/rasqal_adapter.cc

    The SPARQL service lets the rasqal library evaluate queries over a triple
    source.  Rasqal's data (literals, triples, variables) are data types: a
    literal is a tagged union, a variable is its name, and the values of the
    variables, which the callbacks of the adapter read and write, are a store.
    Rasqal's own functions are two classes: [RasqalLib], the data types that
    only rasqal can read and their printers, and [RasqalTerms], its literal
    constructors.  The triple source is a class too, kept by
    LevelDBTripleSource. *)

From Stdlib Require Import ZArith Ascii Floats.SpecFloat Lia.
From S2P Require Import Prelude Words Murmur3 Messages Iterators LevelDB Keys Wire RdfOperators RdfModel Numbers.
From S2P Require Import RdfModelTheorems Persistence PersistenceSpec Refinement UpdateProofs Matching.
From S2P Require Import Service DemoStore TripleSource Parser Serializer.

(** ** Rasqal data *)

Class RasqalLib := {
  xsd_decimal : Type;
  xsd_datetime : Type;
  xsd_date : Type;
  rasqal_xsd_decimal_as_string : xsd_decimal → string;
  rasqal_xsd_datetime_to_string : xsd_datetime → string;
  rasqal_xsd_date_to_string : xsd_date → string;
}.

Section RasqalData.
Context `{RasqalLib}.

(** The type of a literal with the member of the union it selects. *)
Inductive rasqal_value :=
  | RASQAL_LITERAL_UNKNOWN
  | RASQAL_LITERAL_URI (uri : string)
  | RASQAL_LITERAL_BLANK
  | RASQAL_LITERAL_STRING
  | RASQAL_LITERAL_XSD_STRING
  | RASQAL_LITERAL_BOOLEAN (integer : Z)
  | RASQAL_LITERAL_INTEGER (integer : Z)
  | RASQAL_LITERAL_FLOAT (floating : spec_float)
  | RASQAL_LITERAL_DOUBLE (floating : spec_float)
  | RASQAL_LITERAL_DECIMAL (decimal : xsd_decimal)
  | RASQAL_LITERAL_DATETIME (datetime : xsd_datetime)
  | RASQAL_LITERAL_DATE (date : xsd_date)
  | RASQAL_LITERAL_PATTERN
  | RASQAL_LITERAL_QNAME
  | RASQAL_LITERAL_VARIABLE (name : string)
  | RASQAL_LITERAL_UDT
  | RASQAL_LITERAL_INTEGER_SUBTYPE (integer : Z).

Record rasqal_literal := mkLiteral {
  lit_value : rasqal_value;
  lit_string : string;  (* empty when the pointer is null *)
  lit_language : option string;
  lit_datatype : option string;
}.

Record rasqal_triple := mkTriple {
  t_subject : rasqal_literal;
  t_predicate : rasqal_literal;
  t_object : rasqal_literal;
  t_origin : option rasqal_literal;
  t_flags : Z;
}.

Definition RASQAL_TRIPLE_SUBJECT : Z := 1.
Definition RASQAL_TRIPLE_PREDICATE : Z := 2.
Definition RASQAL_TRIPLE_OBJECT : Z := 4.
Definition RASQAL_TRIPLE_ORIGIN : Z := 8.
Definition RASQAL_TRIPLE_SPOG : Z := 15.

(** [rasqal_literal_as_variable] *)
Definition rasqal_literal_as_variable (l : rasqal_literal) : option string :=
  match lit_value l with RASQAL_LITERAL_VARIABLE v => Some v | _ => None end.
End RasqalData.

Class RasqalTerms `{RasqalLib} := {
  rasqal_new_uri_literal : string → rasqal_literal;
  rasqal_new_blank_literal : string → rasqal_literal;  (* rasqal_new_simple_literal of a blank *)
  rasqal_new_string_literal : string → option string → option string → rasqal_literal;
}.

(** ** rasqal_model.cc *)

Module rasqal.
Section FromRasqal.
Context `{RasqalLib}.

Definition ConvertResource (node : rasqal_literal) : rdf.Resource.t :=
  match lit_value node with
  | RASQAL_LITERAL_URI u => (rdf.Resource.of_URI_move (rdf.URI.of_string u)).1
  | RASQAL_LITERAL_BLANK => (rdf.Resource.of_BNode_move (rdf.BNode.of_string (lit_string node))).1
  | _ => rdf.Resource.new
  end.

(** [rdf::URI((const char* )raptor_uri_as_string(node->datatype))] *)
Definition datatype_uri (node : rasqal_literal) : res rdf.URI.t :=
  match lit_datatype node with
  | Some d => Ok (rdf.URI.of_string d)
  | None => Throw (UndefinedBehaviour "string from a null pointer")
  end.

(** The temporary datatype literal of a case, converted to a Value. *)
Definition typed (content : string) (node : rasqal_literal) : res rdf.Value.t :=
  d ← datatype_uri node;
  Ok (rdf.Value.of_DatatypeLiteral_move (rdf.DatatypeLiteral.of_content content d)).1.

(** The cases that assign to the local [r] and move it out. *)
Definition typed_assign (content : string) (node : rasqal_literal) : res rdf.Value.t :=
  d ← datatype_uri node;
  Ok (rdf.Value.assign_DatatypeLiteral_move rdf.Value.new (rdf.DatatypeLiteral.of_content content d)).1.

Definition ConvertValue (node : rasqal_literal) : res rdf.Value.t :=
  let label := lit_string node in
  match lit_value node with
  | RASQAL_LITERAL_URI u => Ok (rdf.Value.of_URI_move (rdf.URI.of_string u)).1
  | RASQAL_LITERAL_BLANK => Ok (rdf.Value.of_BNode_move (rdf.BNode.of_string label)).1
  | RASQAL_LITERAL_STRING =>
      match lit_language node with
      | Some l => Ok (rdf.Value.of_StringLiteral_move (rdf.StringLiteral.of_strings label l)).1
      | None => Ok (rdf.Value.of_StringLiteral_move (rdf.StringLiteral.of_string label)).1
      end
  | RASQAL_LITERAL_XSD_STRING => typed label node
  | RASQAL_LITERAL_BOOLEAN i => typed (if (i =? 0)%Z then "false" else "true") node
  | RASQAL_LITERAL_INTEGER i => typed (to_string_int i) node
  | RASQAL_LITERAL_FLOAT f | RASQAL_LITERAL_DOUBLE f => typed (to_string_double f) node
  | RASQAL_LITERAL_DECIMAL d => typed_assign (rasqal_xsd_decimal_as_string d) node
  | RASQAL_LITERAL_DATETIME d => typed_assign (rasqal_xsd_datetime_to_string d) node
  | RASQAL_LITERAL_DATE d => typed_assign (rasqal_xsd_date_to_string d) node
  | _ => Ok rdf.Value.new
  end.

Definition ConvertURI (node : rasqal_literal) : rdf.URI.t :=
  match lit_value node with
  | RASQAL_LITERAL_URI u => rdf.URI.of_string u
  | _ => rdf.URI.new
  end.

(** The constructors called here take temporaries. *)
Definition ConvertStatement (triple : rasqal_triple) : res rdf.Statement.t :=
  let s := ConvertResource (t_subject triple) in
  let p := ConvertURI (t_predicate triple) in
  o ← ConvertValue (t_object triple);
  if (t_flags triple =? RASQAL_TRIPLE_SPOG)%Z then
    match t_origin triple with
    | Some c => Ok (rdf.Statement.of_quad_move s p o (ConvertResource c)).1
    | None => Throw (UndefinedBehaviour "null origin")
    end
  else Ok (rdf.Statement.of_triple_move s p o).1.
End FromRasqal.

Section ToRasqal.
Context `{RasqalTerms}.

Definition AsStringLiteral (v : rdf.Value.t) : rasqal_literal :=
  let l := rdf.StringLiteral.of_message (stringliteral (val_literal (rdf.Value.getMessage v))) in
  rasqal_new_string_literal (serializer.c_str (rdf.StringLiteral.getContent l))
    (Some (serializer.c_str (rdf.StringLiteral.getLanguage l))) None.

Definition AsDatatypeLiteral (v : rdf.Value.t) : rasqal_literal :=
  let l := rdf.DatatypeLiteral.of_message (dataliteral (val_literal (rdf.Value.getMessage v))) in
  rasqal_new_string_literal (serializer.c_str (rdf.DatatypeLiteral.getContent l)) None
    (Some (serializer.c_str (rdf.URI.stringValue (rdf.DatatypeLiteral.getDatatype l)))).

Definition AsLiteral_Resource (r : rdf.Resource.t) : option rasqal_literal :=
  match rdf.Resource.type r with
  | rdf.Resource.T_URI => Some (rasqal_new_uri_literal (serializer.c_str (rdf.Resource.stringValue r)))
  | rdf.Resource.T_BNODE => Some (rasqal_new_blank_literal (serializer.c_str (rdf.Resource.stringValue r)))
  | _ => None
  end.

Definition AsLiteral_Value (v : rdf.Value.t) : option rasqal_literal :=
  match rdf.Value.type v with
  | rdf.Value.T_URI => Some (rasqal_new_uri_literal (serializer.c_str (rdf.Value.stringValue v)))
  | rdf.Value.T_BNODE => Some (rasqal_new_blank_literal (serializer.c_str (rdf.Value.stringValue v)))
  | rdf.Value.T_STRING_LITERAL => Some (AsStringLiteral v)
  | rdf.Value.T_DATATYPE_LITERAL => Some (AsDatatypeLiteral v)
  | _ => None
  end.

Definition AsLiteral_URI (u : rdf.URI.t) : option rasqal_literal :=
  Some (rasqal_new_uri_literal (serializer.c_str (rdf.URI.stringValue u))).
End ToRasqal.
End rasqal.

(** ** rasqal_adapter.cc *)

(** The abstract class [TripleSource]; a null pointer is [None]. *)
Class TripleSource (TS It : Type) := {
  source_HasStatement : option rdf.Resource.t → option rdf.URI.t → option rdf.Value.t →
    option rdf.Resource.t → TS → res bool;
  source_GetStatements : option rdf.Resource.t → option rdf.URI.t → option rdf.Value.t →
    option rdf.Resource.t → TS → It;
}.

(** [rasqal_triple_meta::bindings] *)
Record bindings := mkBindings {
  b_subject : option string;
  b_predicate : option string;
  b_object : option string;
  b_origin : option string;
}.

Module adapter.
Section Callbacks.
Context `{RasqalTerms}.

(** The values of the variables. *)
Definition variables := gmap string rasqal_literal.

(** [rasqal_variable_set_value]; a null literal unsets the variable. *)
Definition rasqal_variable_set_value (var : option string) (l : option rasqal_literal)
    (vars : variables) : res variables :=
  match var, l with
  | None, _ => Throw (UndefinedBehaviour "null variable")
  | Some v, Some l => Ok (<[v:=l]> vars)
  | Some v, None => Ok (delete v vars)
  end.

Section Match.
Context {It : Type} `{CloseableIterator It rdf.Statement.t}.

(** One [if] of [bind_match]: the state is the iterator, the variables and [r]. *)
Definition bind_part (parts flag : Z) (var : option string)
    (as_literal : rdf.Statement.t → option rasqal_literal) (st : It * variables * Z)
    : res (It * variables * Z) :=
  let '(it, vars, r) := st in
  if negb (Z.land parts flag =? 0)%Z then
    '(x, it) ← deref it;
    vars ← rasqal_variable_set_value var (as_literal x) vars;
    Ok (it, vars, Z.lor r flag)
  else Ok st.

Definition bind_match (b : bindings) (parts : Z) (it : It) (vars : variables)
    : res (It * variables * Z) :=
  st ← bind_part parts RASQAL_TRIPLE_SUBJECT (b_subject b)
         (λ x, rasqal.AsLiteral_Resource (rdf.Statement.getSubject x)) (it, vars, 0%Z);
  st ← bind_part parts RASQAL_TRIPLE_PREDICATE (b_predicate b)
         (λ x, rasqal.AsLiteral_URI (rdf.Statement.getPredicate x)) st;
  st ← bind_part parts RASQAL_TRIPLE_OBJECT (b_object b)
         (λ x, rasqal.AsLiteral_Value (rdf.Statement.getObject x)) st;
  bind_part parts RASQAL_TRIPLE_ORIGIN (b_origin b)
         (λ x, rasqal.AsLiteral_Resource (rdf.Statement.getContext x)) st.

Definition next_match (it : It) : It := next it.

Definition is_end (it : It) : bool := negb (hasNext it).

(** The match owns its iterator: it is deleted and the pointer becomes null. *)
Definition finish (user_data : option It) : option It := None.
End Match.

(** One position of [init_triples_match]: the variable that is recorded in the
    bindings and the term the source is asked for. *)
Definition match_term {A} (convert : rasqal_literal → res A) (vars : variables)
    (t : rasqal_literal) (b : option string) : res (option string * option A) :=
  match rasqal_literal_as_variable t with
  | Some var =>
      match vars !! var with
      | Some v => x ← convert v; Ok (Some var, Some x)
      | None => Ok (Some var, None)
      end
  | None => x ← convert t; Ok (b, Some x)
  end.

Section Source.
Context {TS It : Type} `{TripleSource TS It}.

Definition init_triples_match (ts : TS) (vars : variables) (m : bindings) (t : rasqal_triple)
    : res (bindings * It) :=
  '(b0, s) ← match_term (λ l, Ok (rasqal.ConvertResource l)) vars (t_subject t) (b_subject m);
  '(b1, p) ← match_term (λ l, Ok (rasqal.ConvertURI l)) vars (t_predicate t) (b_predicate m);
  '(b2, o) ← match_term rasqal.ConvertValue vars (t_object t) (b_object m);
  '(b3, c) ← match t_origin t with
             | Some origin => match_term (λ l, Ok (rasqal.ConvertResource l)) vars origin (b_origin m)
             | None => Ok (b_origin m, None)
             end;
  Ok (mkBindings b0 b1 b2 b3, source_GetStatements s p o c ts).

Definition triple_present (ts : TS) (t : rasqal_triple) : res bool :=
  let s := rasqal.ConvertResource (t_subject t) in
  let p := rasqal.ConvertURI (t_predicate t) in
  o ← rasqal.ConvertValue (t_object t);
  if negb (Z.land (t_flags t) RASQAL_TRIPLE_ORIGIN =? 0)%Z then
    match t_origin t with
    | Some origin =>
        source_HasStatement (Some s) (Some p) (Some o) (Some (rasqal.ConvertResource origin)) ts
    | None => Throw (UndefinedBehaviour "null origin")
    end
  else source_HasStatement (Some s) (Some p) (Some o) None ts.

Context `{CloseableIterator It rdf.Statement.t}.

(** What the factory registers with rasqal: the callbacks over a triple source,
    and those a triples match is given by [init_triples_match]. *)
Record triples_source := mkTriplesSource {
  rts_version : Z;
  rts_init_triples_match : variables → bindings → rasqal_triple → res (bindings * It);
  rts_triple_present : rasqal_triple → res bool;
  rtm_bind_match : bindings → Z → It → variables → res (It * variables * Z);
  rtm_next_match : It → It;
  rtm_is_end : It → bool;
  rtm_finish : option It → option It;
}.

Definition new_triples_source (factory_user_data : TS) : triples_source :=
  mkTriplesSource 1 (init_triples_match factory_user_data) (triple_present factory_user_data)
    bind_match next_match is_end finish.

Definition init_triples_source (factory_user_data : TS) : triples_source :=
  new_triples_source factory_user_data.

Record triples_source_factory := mkFactory {
  f_version : Z;
  f_new_triples_source : TS → triples_source;
  f_init_triples_source : TS → triples_source;
}.

Definition init_factory : triples_source_factory := mkFactory 1 new_triples_source init_triples_source.
End Source.
Arguments triples_source : clear implicits.

(** The calls rasqal makes of a triples match: until [is_end], bind the
    variables and advance.  The result lists the variables after each binding,
    with the parts reported as bound. *)
Fixpoint match_rows {It} `{CloseableIterator It rdf.Statement.t} (fuel : nat) (b : bindings)
    (parts : Z) (it : It) (vars : variables) : res (list (Z * variables)) :=
  match fuel with
  | O => OutOfFuel
  | S fuel =>
      if is_end it then Ok []
      else
        '(it, vars, r) ← bind_match b parts it vars;
        rows ← match_rows fuel b parts (next_match it) vars;
        Ok ((r, vars) :: rows)
  end.

(** *** TupleQuery *)

(** A result row: names and values; the value of a variable that is not bound
    is a null pointer. *)
Definition result_row := list (string * option rasqal_literal).

Definition RowType := gmap string rdf.Value.t.

Definition convert_row (r : result_row) : res RowType :=
  foldM (λ row e,
    match e.2 with
    | Some l => v ← rasqal.ConvertValue l; Ok (<[e.1 := v]> row)
    | None => Throw (UndefinedBehaviour "null literal")
    end) ∅ r.

Section TupleQuery.
Context {TS It : Type} `{TripleSource TS It} `{CloseableIterator It rdf.Statement.t}.
Context {S : Type} (row_handler : S → RowType → res (bool * S)).

(** [while (next && rasqal_query_results_finished(r) == 0)], over the rows that
    are left. *)
Fixpoint rows_loop (next : bool) (rows : list result_row) (s : S) : res S :=
  match next, rows with
  | true, r :: rows =>
      row ← convert_row r;
      '(next, s) ← row_handler s row;
      rows_loop next rows s
  | _, _ => Ok s
  end.

(** [prepare] and [execute] are rasqal's parsing and evaluation of the query;
    the evaluation is given the callbacks over the source. *)
Definition TupleQuery (prepare : string → bool)
    (execute : triples_source It → string → option (list result_row))
    (source : TS) (query : string) (s : S) : res S :=
  if negb (prepare (serializer.c_str query)) then Throw (SparqlException "Query preparation failed" query)
  else
    match execute (new_triples_source source) (serializer.c_str query) with
    | None => Throw (SparqlException "Query execution failed" query)
    | Some rows => rows_loop true rows s
    end.
End TupleQuery.
End Callbacks.
Arguments triples_source {_} _.
End adapter.

(** ** Terms through rasqal *)

Definition xsd_string : string := "http://www.w3.org/2001/XMLSchema#string".

(** What rasqal documents of its constructors: the strings are kept, and a
    literal of datatype xsd:string has a type of its own.  A language that is
    the empty string may be kept or dropped. *)
Class RasqalTermsLaws `{RasqalTerms} : Prop := {
  uri_literal u : u ≠ ""%string → lit_value (rasqal_new_uri_literal u) = RASQAL_LITERAL_URI u;
  blank_literal b : b ≠ ""%string →
    lit_value (rasqal_new_blank_literal b) = RASQAL_LITERAL_BLANK ∧
    lit_string (rasqal_new_blank_literal b) = b;
  plain_literal s l :
    let lit := rasqal_new_string_literal s (Some l) None in
    lit_value lit = RASQAL_LITERAL_STRING ∧ lit_string lit = s ∧ default ""%string (lit_language lit) = l;
  xsd_string_literal s :
    let lit := rasqal_new_string_literal s None (Some xsd_string) in
    lit_value lit = RASQAL_LITERAL_XSD_STRING ∧ lit_string lit = s ∧ lit_datatype lit = Some xsd_string;
}.

(** Values that survive: terms raptor can express, plain literals and literals
    of datatype xsd:string, without zero characters. *)
Definition rasqal_value_ok (v : Value) : bool :=
  match v with
  | Value_resource r => raptor_resource_ok r
  | Value_literal (Literal_string l) => no_char "000" (sl_content l) && no_char "000" (language l)
  | Value_literal (Literal_data l) =>
      no_char "000" (dl_content l) &&
      match datatype_ l with Some d => string_eqb (uri d) xsd_string | None => false end
  | _ => false
  end.

Section TermProofs.
Context `{RL : RasqalTermsLaws}.

Lemma resource_roundtrip r :
  raptor_resource_ok r = true →
  ∃ lit, rasqal.AsLiteral_Resource (rdf.Resource.of_message r) = Some lit ∧
    rasqal.ConvertResource lit = rdf.Resource.of_message r.
Proof.
  destruct r as [|[u]|[b]]; simpl; [done|..]; intros [Hne Hc]%raptor_string_spec;
    unfold rasqal.AsLiteral_Resource, rdf.Resource.stringValue; simpl; rewrite Hc;
    (eexists; split; [reflexivity|]); unfold rasqal.ConvertResource.
  - by rewrite uri_literal.
  - destruct (blank_literal b Hne) as [-> ->]. done.
Qed.

Lemma value_roundtrip v :
  rasqal_value_ok v = true →
  ∃ lit, rasqal.AsLiteral_Value (rdf.Value.of_message v) = Some lit ∧
    rasqal.ConvertValue lit = Ok (rdf.Value.of_message v).
Proof.
  destruct v as [|[|[u]|[b]]|[|[c l]|[c [[d]|]]]]; simpl; try done.
  - intros [Hne Hc]%raptor_string_spec. eexists. split; [reflexivity|].
    unfold rdf.Value.stringValue. cbn -[serializer.c_str rasqal.ConvertValue]. rewrite Hc.
    unfold rasqal.ConvertValue. by rewrite uri_literal.
  - intros [Hne Hc]%raptor_string_spec. eexists. split; [reflexivity|].
    unfold rdf.Value.stringValue. cbn -[serializer.c_str rasqal.ConvertValue]. rewrite Hc.
    unfold rasqal.ConvertValue. destruct (blank_literal b Hne) as [-> ->]. done.
  - intros E. split_andb. eexists. split; [reflexivity|].
    unfold rasqal.AsStringLiteral. cbn -[serializer.c_str rasqal.ConvertValue]. rewrite !c_str_id by done.
    unfold rasqal.ConvertValue. destruct (plain_literal c l) as (-> & -> & El).
    destruct (lit_language _) as [l'|]; simpl in El; by subst.
  - intros E. split_andb. unfold string_eqb in *. case_bool_decide; [|done]. subst d.
    eexists. split; [reflexivity|]. unfold rasqal.AsDatatypeLiteral. cbn -[xsd_string serializer.c_str rasqal.ConvertValue].
    rewrite !c_str_id by done.
    unfold rasqal.ConvertValue. destruct (xsd_string_literal c) as (-> & -> & E).
    unfold rasqal.typed, rasqal.datatype_uri. rewrite E. cbn -[xsd_string]. done.
  - intros E. split_andb. done.
Qed.
End TermProofs.

(** ** Binding the variables of a triple pattern *)

(** The iteration protocol restricted to the states an iterator reaches. *)
Class IteratorOn {It T : Type} `{CloseableIterator It T} (P : It → Prop) : Prop := {
  hasNext_on (it : It) : P it → hasNext it = negb (bool_decide (elements it = []));
  deref_on (it : It) x l :
    P it → elements it = x :: l → ∃ it', deref it = Ok (x, it') ∧ elements it' = x :: l ∧ P it';
  next_on (it : It) x l : P it → elements it = x :: l → elements (next it) = l ∧ P (next it);
}.

#[global] Instance laws_on {It T} `{CloseableIterator It T} `{!IteratorLaws It T} :
  IteratorOn (λ _ : It, True).
Proof.
  split.
  - intros it _. apply hasNext_elements.
  - intros it x l _ E. destruct (deref_elements it x l E) as (it' & ? & ?). eauto.
  - intros it x l _ E. split; [by apply (next_elements it x)|done].
Qed.

Section Updates.
Context {A : Type}.

Definition apply_update (vars : gmap string A) (u : string * option A) : gmap string A :=
  match u.2 with Some l => <[u.1:=l]> vars | None => delete u.1 vars end.

Lemma apply_updates_other (ups : list (string * option A)) vars k :
  k ∉ ups.*1 → foldl apply_update vars ups !! k = vars !! k.
Proof.
  revert vars; induction ups as [|[v [l|]] ups IH]; intros vars Hk; [done|..];
    cbn [fmap list_fmap fst] in Hk; apply not_elem_of_cons in Hk as [Hne Hk]; simpl; rewrite IH by done;
    unfold apply_update; simpl; [by rewrite lookup_insert_ne|by rewrite lookup_delete_ne].
Qed.

Lemma apply_updates_same (ups : list (string * option A)) vars vars' k :
  k ∈ ups.*1 ∨ vars !! k = vars' !! k →
  foldl apply_update vars ups !! k = foldl apply_update vars' ups !! k.
Proof.
  revert vars vars'; induction ups as [|[v l] ups IH]; intros vars vars' Hk.
  - destruct Hk as [Hk|Hk]; [by apply elem_of_nil in Hk|done].
  - simpl. apply IH. destruct (decide (k = v)) as [->|Hne].
    + right. unfold apply_update. simpl. destruct l; by rewrite ?lookup_insert_eq, ?lookup_delete_eq.
    + destruct Hk as [Hk|Hk].
      * cbn [fmap list_fmap fst] in Hk. apply elem_of_cons in Hk as [?|?]; [done|by left].
      * right. unfold apply_update. simpl.
        destruct l; [by rewrite !lookup_insert_ne by done|by rewrite !lookup_delete_ne by done].
Qed.

(** Updates overwrite earlier ones of the same variables. *)
Lemma apply_updates_overwrite (ups ups' : list (string * option A)) vars :
  ups.*1 = ups'.*1 →
  foldl apply_update (foldl apply_update vars ups') ups = foldl apply_update vars ups.
Proof.
  intros E. apply map_eq. intros k. apply apply_updates_same.
  destruct (decide (k ∈ ups.*1)) as [|Hn]; [by left|right].
  apply apply_updates_other. by rewrite <- E.
Qed.
End Updates.

Section Rows.
Context `{RasqalTerms}.

Definition part_update (parts flag : Z) (var : option string) (l : option rasqal_literal)
    : list (string * option rasqal_literal) :=
  if (Z.land parts flag =? 0)%Z then []
  else match var with Some v => [(v, l)] | None => [] end.

Definition row_updates (b : bindings) (parts : Z) (m : Statement) : list (string * option rasqal_literal) :=
  part_update parts 1 (b_subject b) (rasqal.AsLiteral_Resource (rdf.Resource.of_message (subject m))) ++
  part_update parts 2 (b_predicate b) (rasqal.AsLiteral_URI (rdf.URI.of_message (predicate m))) ++
  part_update parts 4 (b_object b) (rasqal.AsLiteral_Value (rdf.Value.of_message (object m))) ++
  part_update parts 8 (b_origin b) (rasqal.AsLiteral_Resource (rdf.Resource.of_message (context m))).

(** The variables after binding the requested parts of a statement: a variable
    at several positions keeps the last of them. *)
Definition bind_row (b : bindings) (parts : Z) (vars : adapter.variables) (m : Statement) : adapter.variables :=
  foldl apply_update vars (row_updates b parts m).

(** Rasqal only asks for parts that have a variable. *)
Definition part_ok (parts flag : Z) (var : option string) : bool :=
  (Z.land parts flag =? 0)%Z || bool_decide (is_Some var).

Definition parts_ok (b : bindings) (parts : Z) : bool :=
  part_ok parts 1 (b_subject b) && part_ok parts 2 (b_predicate b) &&
  part_ok parts 4 (b_object b) && part_ok parts 8 (b_origin b).

Lemma part_update_keys parts flag var l l' :
  (part_update parts flag var l).*1 = (part_update parts flag var l').*1.
Proof. unfold part_update. by destruct (_ =? _)%Z, var. Qed.

Lemma bind_row_overwrites b parts vars m m' :
  bind_row b parts (bind_row b parts vars m') m = bind_row b parts vars m.
Proof.
  apply apply_updates_overwrite. unfold row_updates. rewrite !fmap_app.
  do 3 (f_equal; [apply part_update_keys|]). apply part_update_keys.
Qed.

Lemma land_bit parts k :
  (0 ≤ k)%Z → (if (Z.land parts (2 ^ k) =? 0)%Z then 0 else 2 ^ k)%Z = Z.land parts (2 ^ k).
Proof.
  intros Hk. assert (E : Z.land parts (2 ^ k) = if Z.testbit parts k then (2 ^ k)%Z else 0%Z).
  { apply Z.bits_inj'. intros n Hn. rewrite Z.land_spec, Z.pow2_bits_eqb by done.
    destruct (Z.eqb_spec k n) as [->|Hne].
    - rewrite andb_true_r. destruct (Z.testbit parts n) eqn:Et; [|by rewrite Z.bits_0].
      by rewrite Z.pow2_bits_eqb, Z.eqb_refl.
    - rewrite andb_false_r. destruct (Z.testbit parts k); [|by rewrite Z.bits_0].
      rewrite Z.pow2_bits_eqb by done. symmetry. by apply Z.eqb_neq. }
  rewrite E. destruct (Z.testbit parts k); [|done].
  destruct (Z.eqb_spec (2 ^ k) 0) as [E0|]; [|done]. pose proof (Z.pow_pos_nonneg 2 k). lia.
Qed.

Context {It : Type} `{CI : CloseableIterator It rdf.Statement.t} (P : It → Prop) `{!IteratorOn P}.

Lemma bind_part_spec parts k var f it x l vars r :
  (0 ≤ k)%Z → P it → elements it = x :: l → part_ok parts (2 ^ k) var = true →
  ∃ it', adapter.bind_part parts (2 ^ k) var f (it, vars, r) =
      Ok (it', foldl apply_update vars (part_update parts (2 ^ k) var (f x)),
          Z.lor r (Z.land parts (2 ^ k))) ∧
    elements it' = x :: l ∧ P it'.
Proof.
  intros Hk HP E Hok. unfold adapter.bind_part, part_update, part_ok in *.
  pose proof (land_bit parts k Hk) as Hb. destruct (Z.land parts (2 ^ k) =? 0)%Z; cbn [negb]; rewrite <- Hb.
  - rewrite Z.lor_0_r. simpl. eauto.
  - destruct (deref_on it x l HP E) as (it' & -> & E' & HP'). simpl in Hok.
    apply bool_decide_eq_true_1 in Hok as [v ->]. cbn [mbind res_bind adapter.rasqal_variable_set_value].
    destruct (f x); simpl; eauto.
Qed.

Lemma bind_match_spec b parts it x l vars :
  P it → elements it = x :: l → parts_ok b parts = true →
  ∃ it', adapter.bind_match b parts it vars =
      Ok (it', bind_row b parts vars (rdf.Statement.getMessage x), Z.land parts 15) ∧
    elements it' = x :: l ∧ P it'.
Proof.
  intros HP E Hok. unfold parts_ok in Hok. split_andb. unfold adapter.bind_match.
  destruct (bind_part_spec parts 0 (b_subject b)
    (λ x, rasqal.AsLiteral_Resource (rdf.Statement.getSubject x)) it x l vars 0) as (i1 & E1 & El1 & P1); try done.
  change (2 ^ 0)%Z with RASQAL_TRIPLE_SUBJECT in E1. rewrite E1. cbn [mbind res_bind].
  edestruct (bind_part_spec parts 1 (b_predicate b)
    (λ x, rasqal.AsLiteral_URI (rdf.Statement.getPredicate x)) i1 x l) as (i2 & E2 & El2 & P2); try done.
  change (2 ^ 1)%Z with RASQAL_TRIPLE_PREDICATE in E2. rewrite E2. cbn [mbind res_bind].
  edestruct (bind_part_spec parts 2 (b_object b)
    (λ x, rasqal.AsLiteral_Value (rdf.Statement.getObject x)) i2 x l) as (i3 & E3 & El3 & P3); try done.
  change (2 ^ 2)%Z with RASQAL_TRIPLE_OBJECT in E3. rewrite E3. cbn [mbind res_bind].
  edestruct (bind_part_spec parts 3 (b_origin b)
    (λ x, rasqal.AsLiteral_Resource (rdf.Statement.getContext x)) i3 x l) as (i4 & E4 & El4 & P4); try done.
  change (2 ^ 3)%Z with RASQAL_TRIPLE_ORIGIN in E4. rewrite E4.
  exists i4. split; [|done]. f_equal. f_equal; [f_equal|].
  - unfold bind_row, row_updates. by rewrite !foldl_app.
  - change (Z.land parts 15) with (Z.land parts (Z.lor (Z.lor (Z.lor (2 ^ 0) (2 ^ 1)) (2 ^ 2)) (2 ^ 3))).
    by rewrite !Z.land_lor_distr_r, Z.lor_0_l.
Qed.

(** The whole match: it ends, and its rows are the elements, each bound over
    the variables as they were at the start. *)
Lemma match_rows_spec fuel b parts it vars :
  P it → parts_ok b parts = true → length (elements it) < fuel →
  adapter.match_rows fuel b parts it vars =
  Ok ((λ x, (Z.land parts 15, bind_row b parts vars (rdf.Statement.getMessage x))) <$> elements it).
Proof.
  revert it vars; induction fuel as [|fuel IH]; intros it vars HP Hok Hf; [lia|].
  cbn [adapter.match_rows]. unfold adapter.is_end. rewrite (hasNext_on it HP).
  destruct (elements it) as [|x l] eqn:E; [done|]. cbn [bool_decide].
  rewrite bool_decide_eq_false_2 by done. cbn [negb].
  destruct (bind_match_spec b parts it x l vars HP E Hok) as (it' & -> & E' & HP').
  cbn [mbind res_bind]. destruct (next_on it' x l HP' E') as [En HPn].
  unfold adapter.next_match. rewrite IH; [|done|done|rewrite En; simpl in Hf; lia].
  rewrite En. cbn [mbind res_bind fmap list_fmap]. do 2 f_equal. apply list_fmap_ext. intros i y _.
  by rewrite bind_row_overwrites.
Qed.
End Rows.

(** ** LevelDBTripleSource as a triple source *)

#[global] Instance leveldb_triple_source (ar : arch) (garbage : bool) `{Protobuf}
    `{!LevelDB key64} `{!LevelDB bytes} : TripleSource LevelDBPersistence WrapProtoStatementIterator := {
  source_HasStatement := HasStatement ar;
  source_GetStatements := ts_GetStatements ar garbage;
}.

Section LevelDBSource.
Context (ar : arch) `{PBL : ProtobufLaws}.
Context `{LK : !LevelDB key64} `{LKL : !LevelDBLaws key64}.
Context `{CB : !Comparator bytes} `{LB : !LevelDB bytes} `{LBL : !LevelDBLaws bytes}.

(** The wrapping iterator keeps the protocol from every state it reaches. *)
Lemma wrap_on : IteratorOn unparsed.
Proof.
  split.
  - intros w Hu. change (hasNext w) with (hasNext (wp_it w)). rewrite hasNext_elements. f_equal.
    change (elements w) with (wp_yield w (elements (wp_it w))).
    by destruct (elements (wp_it w)).
  - intros w x l Hu E. change (elements w) with (wp_yield w (elements (wp_it w))) in E.
    destruct (elements (wp_it w)) as [|m l'] eqn:Ei; [done|]. simpl in E. injection E as <- <-.
    change (deref w) with (wp_deref w). unfold wp_deref. destruct (wp_parsed w) eqn:Hp; cbn [negb].
    + exists w. split_and!; [done| |done]. change (elements w) with (wp_yield w (elements (wp_it w))).
      rewrite Ei. simpl. by rewrite Hp.
    + destruct (deref_elements _ _ _ Ei) as (it' & Hd & E'). rewrite Hd.
      destruct (deref_unparsed _ _ _ Hu Hd) as [Hu' _].
      eexists. split; [reflexivity|]. split; [|done].
      match goal with |- elements ?w' = _ => change (elements w') with (wp_yield w' (elements (wp_it w'))) end.
      cbn [wp_it]. rewrite elements_set_proto, E' by done. done.
  - intros w x l Hu E. change (elements w) with (wp_yield w (elements (wp_it w))) in E.
    destruct (elements (wp_it w)) as [|m l'] eqn:Ei; [done|]. simpl in E. injection E as _ <-.
    split; [|done]. pose proof (next_elements _ _ _ Ei) as En.
    change (elements (next w)) with (wp_yield (next w) (elements (next (wp_it w)))).
    rewrite En. by destruct l'.
Qed.

(** What the iterator hands out for the results [l]: when the flag [parsed] that
    the constructor leaves uninitialised is set, an empty statement comes in
    place of the first one. *)
Definition seen (garbage : bool) (l : list Statement) : list Statement :=
  match l with
  | [] => []
  | m :: l => (if garbage then default_instance else m) :: l
  end.

Lemma source_elements garbage s p o c (st : LevelDBPersistence) :
  rdf.Statement.getMessage <$> elements (ts_GetStatements ar garbage s p o c st) =
  seen garbage (results ar (build_pattern s p o c) st).
Proof.
  change (elements (ts_GetStatements ar garbage s p o c st)) with
    (wp_yield (ts_GetStatements ar garbage s p o c st) (results ar (build_pattern s p o c) st)).
  destruct (results ar (build_pattern s p o c) st) as [|m l]; [done|]. simpl.
  rewrite <- list_fmap_compose. unfold compose. simpl. rewrite list_fmap_id. by destruct garbage.
Qed.
End LevelDBSource.

(** ** The pattern of a triple *)

Section Patterns.
Context `{RasqalTerms}.

(** Literals of a type that has a datatype carry one. *)
Definition lit_ok (l : rasqal_literal) : bool :=
  match lit_value l with
  | RASQAL_LITERAL_XSD_STRING | RASQAL_LITERAL_BOOLEAN _ | RASQAL_LITERAL_INTEGER _
  | RASQAL_LITERAL_FLOAT _ | RASQAL_LITERAL_DOUBLE _ | RASQAL_LITERAL_DECIMAL _
  | RASQAL_LITERAL_DATETIME _ | RASQAL_LITERAL_DATE _ => bool_decide (is_Some (lit_datatype l))
  | _ => true
  end.

Lemma ConvertValue_ok l :
  if lit_ok l then ∃ v, rasqal.ConvertValue l = Ok v
  else rasqal.ConvertValue l = Throw (UndefinedBehaviour "string from a null pointer").
Proof.
  destruct l as [v s lang d]. unfold lit_ok, rasqal.ConvertValue, rasqal.typed, rasqal.typed_assign,
    rasqal.datatype_uri; simpl.
  destruct v, d; simpl; eauto; destruct lang; eauto.
Qed.

(** What a position of the triple stands for: its term, or the value of its
    variable when it has one. *)
Definition value_of (vars : adapter.variables) (l : rasqal_literal) : option rasqal_literal :=
  match rasqal_literal_as_variable l with Some v => vars !! v | None => Some l end.

Definition variable_of (l : rasqal_literal) (b : option string) : option string :=
  match rasqal_literal_as_variable l with Some v => Some v | None => b end.

Definition converted (l : rasqal_literal) : rdf.Value.t :=
  match rasqal.ConvertValue l with Ok v => v | _ => rdf.Value.new end.

Definition triple_pattern (vars : adapter.variables) (t : rasqal_triple) : Statement :=
  build_pattern (rasqal.ConvertResource <$> value_of vars (t_subject t))
    (rasqal.ConvertURI <$> value_of vars (t_predicate t))
    (converted <$> value_of vars (t_object t))
    (rasqal.ConvertResource <$> (o ← t_origin t; value_of vars o)).

Definition triple_bindings (m : bindings) (t : rasqal_triple) : bindings :=
  mkBindings (variable_of (t_subject t) (b_subject m)) (variable_of (t_predicate t) (b_predicate m))
    (variable_of (t_object t) (b_object m))
    (match t_origin t with Some o => variable_of o (b_origin m) | None => b_origin m end).

Lemma match_term_spec {A} (f : rasqal_literal → A) vars t b :
  adapter.match_term (λ l, Ok (f l)) vars t b = Ok (variable_of t b, f <$> value_of vars t).
Proof.
  unfold adapter.match_term, variable_of, value_of.
  destruct (rasqal_literal_as_variable t) as [v|]; [|done]. by destruct (vars !! v).
Qed.

Lemma match_term_value vars t b :
  default true (lit_ok <$> value_of vars t) = true →
  adapter.match_term rasqal.ConvertValue vars t b = Ok (variable_of t b, converted <$> value_of vars t).
Proof.
  unfold adapter.match_term, variable_of, value_of, converted.
  destruct (rasqal_literal_as_variable t) as [v|]; [destruct (vars !! v) as [l|]|]; simpl; [|done|];
    intros Hl; [pose proof (ConvertValue_ok l) as Hc|pose proof (ConvertValue_ok t) as Hc];
    rewrite Hl in Hc; destruct Hc as [x ->]; done.
Qed.

Lemma init_triples_match_spec {TS It} `{TripleSource TS It} (ts : TS) vars m t :
  default true (lit_ok <$> value_of vars (t_object t)) = true →
  adapter.init_triples_match ts vars m t =
  Ok (triple_bindings m t,
      source_GetStatements (rasqal.ConvertResource <$> value_of vars (t_subject t))
        (rasqal.ConvertURI <$> value_of vars (t_predicate t))
        (converted <$> value_of vars (t_object t))
        (rasqal.ConvertResource <$> (o ← t_origin t; value_of vars o)) ts).
Proof.
  intros Hl. unfold adapter.init_triples_match. rewrite !match_term_spec.
  cbn [mbind res_bind]. rewrite match_term_value by done. cbn [mbind res_bind].
  unfold triple_bindings. destruct (t_origin t) as [o|]; [|done].
  by rewrite match_term_spec.
Qed.
End Patterns.

(** ** Joins *)

Definition var_literal `{RasqalLib} (v : string) : rasqal_literal :=
  mkLiteral (RASQAL_LITERAL_VARIABLE v) "" None None.

(** Quads whose terms rasqal keeps. *)
Definition rasqal_quad (m : Statement) : bool :=
  match m with
  | mkStatement (Some s) (Some p) (Some o) (Some c) =>
      raptor_resource_ok s && raptor_string (uri p) && rasqal_value_ok o && raptor_resource_ok c
  | _ => false
  end.

Section Joins.
Context `{RL : RasqalTermsLaws}.

Lemma resource_bound r :
  raptor_resource_ok r = true →
  rdf.Resource.getMessage <$> (rasqal.ConvertResource <$> rasqal.AsLiteral_Resource (rdf.Resource.of_message r)) =
  Some r.
Proof. intros Hr. destruct (resource_roundtrip r Hr) as (l & -> & E). simpl. by rewrite E. Qed.

Lemma uri_bound u :
  raptor_string (uri u) = true →
  rdf.URI.getMessage <$> (rasqal.ConvertURI <$> rasqal.AsLiteral_URI (rdf.URI.of_message u)) = Some u.
Proof.
  destruct u as [u]. simpl. intros [Hne Hc]%raptor_string_spec.
  unfold rasqal.ConvertURI, rdf.URI.stringValue. simpl. by rewrite Hc, uri_literal.
Qed.

Lemma value_bound v :
  rasqal_value_ok v = true →
  rdf.Value.getMessage <$> (converted <$> rasqal.AsLiteral_Value (rdf.Value.of_message v)) = Some v.
Proof.
  intros Hv. destruct (value_roundtrip v Hv) as (l & -> & E). simpl. unfold converted. by rewrite E.
Qed.

Lemma bind_row_spog s p o c vars m :
  bind_row (mkBindings (Some s) (Some p) (Some o) (Some c)) RASQAL_TRIPLE_SPOG vars m =
  apply_update (apply_update (apply_update (apply_update vars
    (s, rasqal.AsLiteral_Resource (rdf.Resource.of_message (subject m))))
    (p, rasqal.AsLiteral_URI (rdf.URI.of_message (predicate m))))
    (o, rasqal.AsLiteral_Value (rdf.Value.of_message (object m))))
    (c, rasqal.AsLiteral_Resource (rdf.Resource.of_message (context m))).
Proof. reflexivity. Qed.

Lemma build_pattern_fields s p o c :
  build_pattern s p o c =
  mkStatement (rdf.Resource.getMessage <$> s) (rdf.URI.getMessage <$> p)
    (rdf.Value.getMessage <$> o) (rdf.Resource.getMessage <$> c).
Proof. by destruct s, p, o, c. Qed.

Lemma lookup_apply_update {A} (vars : gmap string A) v l : apply_update vars (v, l) !! v = l.
Proof. unfold apply_update. destruct l; simpl; by rewrite ?lookup_insert_eq, ?lookup_delete_eq. Qed.

Lemma lookup_apply_update_ne {A} (vars : gmap string A) v w l :
  v ≠ w → apply_update vars (v, l) !! w = vars !! w.
Proof. intros Hne. unfold apply_update. destruct l; simpl; by rewrite ?lookup_insert_ne, ?lookup_delete_ne. Qed.
End Joins.

(** ** Properties *)

Section SparqlTheorems.
Context (ar : arch) `{PBL : ProtobufLaws}.
Context `{LK : !LevelDB key64} `{LKL : !LevelDBLaws key64}.
Context `{CB : !Comparator bytes} `{LB : !LevelDB bytes} `{LBL : !LevelDBLaws bytes}.
Context `{RT : RasqalTerms}.

(** C30. Evaluating a triple pattern over the store: the source is asked for the
    pattern of the constants and of the variables that have a value, the match
    ends, and its rows are the statements in the range of that pattern, each
    exactly once, every requested position bound to the term of the statement
    over the variables as they were at the start.  This is so when the flag
    [parsed], which the constructor of the iterator leaves uninitialised
    ([garbage] is the value it happens to have), is clear; when it is set, the
    first row is that of an empty statement instead, and the others are as they
    should be. *)
Theorem sparql_match_rows (garbage : bool) (st : LevelDBPersistence) (vars : adapter.variables) (m : bindings)
    (t : rasqal_triple) (parts : Z) :
  Inv ar st →
  default true (lit_ok <$> value_of vars (t_object t)) = true →
  parts_ok (triple_bindings m t) parts = true →
  ∃ it l,
    adapter.init_triples_match (H1:=leveldb_triple_source ar garbage) st vars m t =
      Ok (triple_bindings m t, it) ∧
    adapter.match_rows (1 + length (elements it)) (triple_bindings m t) parts it vars =
      Ok ((λ x, (Z.land parts 15, bind_row (triple_bindings m t) parts vars x)) <$>
          (if garbage then match l with [] => [] | _ :: l => default_instance :: l end else l)) ∧
    NoDup l ∧ ∀ x, x ∈ l ↔ x ∈ spec_get ar (triple_pattern vars t) (abs st).
Proof.
  intros HI Hl Hp. rewrite (init_triples_match_spec st vars m t Hl). eexists _, (results ar (triple_pattern vars t) st).
  split; [reflexivity|]. split_and!.
  - simpl source_GetStatements. pose proof wrap_on as Hon.
    rewrite (match_rows_spec unparsed) by first [done | lia]. f_equal.
    match goal with |- _ <$> elements (ts_GetStatements _ _ ?s ?p ?o ?c _) = _ =>
      pose proof (source_elements ar garbage s p o c st) as E end.
    trans ((λ x, (Z.land parts 15, bind_row (triple_bindings m t) parts vars x)) <$>
      (rdf.Statement.getMessage <$> elements (ts_GetStatements ar garbage
         (rasqal.ConvertResource <$> value_of vars (t_subject t)) (rasqal.ConvertURI <$> value_of vars (t_predicate t))
         (converted <$> value_of vars (t_object t)) (rasqal.ConvertResource <$> (o ← t_origin t; value_of vars o)) st)));
      [by rewrite <- list_fmap_compose|]. rewrite E. f_equal. unfold seen, triple_pattern.
    by destruct garbage, (results _ _ _).
  - by apply results_nodup.
  - intros x. by apply elem_of_results.
Qed.

(** The presence test of rasqal answers whether a stored statement is in the
    range of the triple, with its origin when the triple asks for it. *)
Theorem sparql_triple_present (st : LevelDBPersistence) (t : rasqal_triple) :
  Inv ar st → lit_ok (t_object t) = true →
  (Z.land (t_flags t) 8 = 0%Z ∨ is_Some (t_origin t)) →
  adapter.triple_present (H1:=leveldb_triple_source ar false) st t =
  Ok (bool_decide (spec_get ar
    (build_pattern (Some (rasqal.ConvertResource (t_subject t))) (Some (rasqal.ConvertURI (t_predicate t)))
       (Some (converted (t_object t)))
       (if (Z.land (t_flags t) 8 =? 0)%Z then None else rasqal.ConvertResource <$> t_origin t))
    (abs st) ≠ ∅)).
Proof.
  intros HI Hl Ho. unfold adapter.triple_present, converted.
  pose proof (ConvertValue_ok (t_object t)) as Hc. rewrite Hl in Hc. destruct Hc as [v ->].
  cbn [mbind res_bind]. unfold RASQAL_TRIPLE_ORIGIN.
  destruct (Z.eqb_spec (Z.land (t_flags t) 8) 0) as [E|E]; cbn [negb].
  - by apply has_statement_correct.
  - destruct Ho as [|[o ->]]; [done|]. by apply has_statement_correct.
Qed.
End SparqlTheorems.

(** C31. What a row binds is what the next pattern asks for, for the quads whose
    terms rasqal keeps ([rasqal_quad]: the context is set, IRIs and names of
    blank nodes are non-empty and without zero characters, literals are plain,
    with or without a language, or typed xsd:string): after binding the four
    terms of such a quad to four different variables, the pattern of those
    variables is the quad itself, so the terms survive the way through rasqal
    and back.  Numbers and user-defined datatypes are not of this kind. *)
Theorem sparql_join_roundtrip `{RL : RasqalTermsLaws} (s p o c : string) (flags : Z)
    (vars : adapter.variables) (m : Statement) :
  NoDup [s; p; o; c] → rasqal_quad m = true →
  triple_pattern
    (bind_row (mkBindings (Some s) (Some p) (Some o) (Some c)) RASQAL_TRIPLE_SPOG vars m)
    (mkTriple (var_literal s) (var_literal p) (var_literal o) (Some (var_literal c)) flags) = m.
Proof.
  intros Hnd Hm. destruct m as [[ms|] [mp|] [mo|] [mc|]]; simpl in Hm; try done. split_andb.
  apply NoDup_cons in Hnd as [Hs Hnd]. apply NoDup_cons in Hnd as [Hp Hnd].
  apply NoDup_cons in Hnd as [Ho _]. rewrite !not_elem_of_cons in *. destruct_and?.
  rewrite bind_row_spog. unfold triple_pattern. rewrite build_pattern_fields.
  unfold value_of, rasqal_literal_as_variable.
  cbn [lit_value var_literal t_subject t_predicate t_object t_origin mbind option_bind
    subject predicate object context subject_ predicate_ object_ context_ default from_option id].
  unfold adapter.variables in *. simpl Datatypes.id.
  repeat first [rewrite lookup_apply_update | rewrite lookup_apply_update_ne by done].
  rewrite !resource_bound, uri_bound, value_bound by done. done.
Qed.

(** ** Rows of a query *)

(** Every value of the row is bound, and convertible. *)
Definition row_ok `{RasqalLib} (r : adapter.result_row) : bool :=
  forallb (λ e, match e.2 with Some l => lit_ok l | None => false end) r.

(** The row as a map: of two columns with one name the last one counts. *)
Definition row_map `{RasqalLib} (r : adapter.result_row) : adapter.RowType :=
  list_to_map (reverse ((λ e, (e.1, default rdf.Value.new (converted <$> e.2))) <$> r)).

Section Queries.
Context `{RasqalTerms}.

Lemma convert_row_from row r :
  row_ok r = true →
  foldM (λ row e,
    match e.2 with
    | Some l => v ← rasqal.ConvertValue l; Ok (<[e.1 := v]> row)
    | None => Throw (UndefinedBehaviour "null literal")
    end) row r = Ok (row_map r ∪ row).
Proof.
  unfold row_map, adapter.RowType in *. revert row; induction r as [|[n [l|]] r IH]; intros row; simpl; [|intros E; split_andb|done].
  - intros _. by rewrite (left_id_L ∅ (∪)).
  - pose proof (ConvertValue_ok l) as Hc. destruct (lit_ok l); [|done]. destruct Hc as [v Ev].
    rewrite Ev. cbn [mbind res_bind]. rewrite IH by done.
    rewrite reverse_cons, list_to_map_app. simpl. unfold converted. rewrite Ev.
    rewrite <- (assoc_L (∪)). do 2 f_equal. by rewrite <- insert_union_l, (left_id_L ∅ (∪)).
Qed.

Lemma rows_loop_spec {S} (row_handler : S → adapter.RowType → res (bool * S)) rows b s :
  Forall (λ r, row_ok r = true) rows →
  adapter.rows_loop row_handler b rows s = fold_while row_handler b (row_map <$> rows) s.
Proof.
  intros Hr. revert s b; induction Hr as [|r rows Hok Hr IH]; intros s b; [by destruct b|].
  destruct b; [|done]. cbn [adapter.rows_loop]. unfold adapter.convert_row.
  rewrite convert_row_from by done. rewrite (right_id_L ∅ (∪)). cbn [mbind res_bind fmap list_fmap fold_while].
  destruct (row_handler s (row_map r)) as [[b s']|e|]; [|done..]. apply IH.
Qed.

(** A handler that always continues comes to a row with an unbound or
    unconvertible column. *)
Lemma convert_row_bad (row : adapter.RowType) (r : adapter.result_row) :
  row_ok r = false →
  ∃ msg, foldM (λ (row : adapter.RowType) (e : string * option rasqal_literal),
    match e.2 with
    | Some l => v ← rasqal.ConvertValue l; Ok (<[e.1 := v]> row)
    | None => Throw (UndefinedBehaviour "null literal")
    end) row r = Throw (UndefinedBehaviour msg).
Proof.
  unfold adapter.RowType in *. revert row; induction r as [|[n [l|]] r IH]; intros row; simpl; [done| |by eauto].
  pose proof (ConvertValue_ok l) as Hc. destruct (lit_ok l); simpl.
  - intros Hr. destruct Hc as [v ->]. cbn [mbind res_bind]. by apply IH.
  - intros _. rewrite Hc. eauto.
Qed.

Lemma rows_loop_bad {S} (row_handler : S → adapter.RowType → res (bool * S)) rows s :
  (∀ s row, ∃ s', row_handler s row = Ok (true, s')) → forallb row_ok rows = false →
  ∃ msg, adapter.rows_loop row_handler true rows s = Throw (UndefinedBehaviour msg).
Proof.
  intros Hh. revert s; induction rows as [|r rows IH]; intros s; [done|].
  cbn [forallb adapter.rows_loop]. unfold adapter.convert_row. destruct (row_ok r) eqn:Hr; simpl.
  - intros Hrows. rewrite convert_row_from by done. cbn [mbind res_bind].
    destruct (Hh s (row_map r ∪ ∅)) as [s' ->]. cbn [mbind res_bind]. by apply IH.
  - intros _. destruct (convert_row_bad ∅ r Hr) as [msg E]. unfold adapter.RowType in *. rewrite E. by exists msg.
Qed.

(** A query that rasqal accepts hands every row to the handler, in order and
    converted, until the handler asks to stop; no row after that is looked at.
    A query it does not accept throws. *)
Theorem tuple_query_rows {TS It} `{TripleSource TS It} `{CloseableIterator It rdf.Statement.t}
    {S} (row_handler : S → adapter.RowType → res (bool * S))
    (prepare : string → bool) (execute : adapter.triples_source It → string → option (list adapter.result_row))
    (source : TS) (query : string) (s : S) :
  let results := execute (adapter.new_triples_source source) (serializer.c_str query) in
  Forall (λ r, row_ok r = true) (default [] results) →
  adapter.TupleQuery row_handler prepare execute source query s =
  match prepare (serializer.c_str query), results with
  | true, Some rows => fold_while row_handler true (row_map <$> rows) s
  | true, None => Throw (SparqlException "Query execution failed" query)
  | false, _ => Throw (SparqlException "Query preparation failed" query)
  end.
Proof.
  intros results Hr. unfold adapter.TupleQuery. fold results. destruct (prepare _); [|done].
  destruct results as [rows|]; [|done]. by apply rows_loop_spec.
Qed.
End Queries.

(** ** Witnesses *)

Section SparqlWitnesses.
Import Demo.

(** Literals that keep their arguments; no decimals or dates. *)
Local Instance plain_lib : RasqalLib := {|
  xsd_decimal := Empty_set; xsd_datetime := Empty_set; xsd_date := Empty_set;
  rasqal_xsd_decimal_as_string := λ x, match x with end;
  rasqal_xsd_datetime_to_string := λ x, match x with end;
  rasqal_xsd_date_to_string := λ x, match x with end;
|}.

Local Instance plain_literals : RasqalTerms := {|
  rasqal_new_uri_literal u := mkLiteral (RASQAL_LITERAL_URI u) "" None None;
  rasqal_new_blank_literal b := mkLiteral RASQAL_LITERAL_BLANK b None None;
  rasqal_new_string_literal s l d :=
    match d with
    | None => mkLiteral RASQAL_LITERAL_STRING s l None
    | Some d =>
        mkLiteral (if string_eqb d xsd_string then RASQAL_LITERAL_XSD_STRING else RASQAL_LITERAL_UDT)
          s None (Some d)
    end;
|}.

Lemma plain_literals_laws : RasqalTermsLaws.
Proof. by split. Qed.

(** [alice knows ?o] with an unbound variable. *)
Definition demo_triple : rasqal_triple :=
  mkTriple (mkLiteral (RASQAL_LITERAL_URI "alice") "" None None)
    (mkLiteral (RASQAL_LITERAL_URI "knows") "" None None) (var_literal "o") None 7.

Definition no_bindings : bindings := mkBindings None None None None.

Lemma sparql_match_rows_witness :
  ∃ it l,
    adapter.init_triples_match (H1:=leveldb_triple_source ar true) loaded ∅ no_bindings demo_triple =
      Ok (triple_bindings no_bindings demo_triple, it) ∧
    adapter.match_rows (1 + length (elements it)) (triple_bindings no_bindings demo_triple) 4 it ∅ =
      Ok ((λ x, (Z.land 4 15, bind_row (triple_bindings no_bindings demo_triple) 4 ∅ x)) <$>
          match l with [] => [] | _ :: l => default_instance :: l end) ∧
    NoDup l ∧ ∀ x, x ∈ l ↔ x ∈ spec_get ar (triple_pattern ∅ demo_triple) (abs loaded).
Proof.
  apply (sparql_match_rows ar true loaded ∅ no_bindings demo_triple 4 loaded_inv); vm_compute; reflexivity.
Defined.

Lemma sparql_triple_present_witness :
  adapter.triple_present (H1:=leveldb_triple_source ar false) loaded
    (mkTriple (mkLiteral (RASQAL_LITERAL_URI "alice") "" None None)
      (mkLiteral (RASQAL_LITERAL_URI "knows") "" None None)
      (mkLiteral (RASQAL_LITERAL_URI "bob") "" None None) None 7) = Ok true.
Proof.
  rewrite (sparql_triple_present ar loaded _ loaded_inv);
    [vm_compute; reflexivity | reflexivity | left; reflexivity].
Defined.

Lemma sparql_join_roundtrip_witness :
  triple_pattern
    (bind_row (mkBindings (Some "s") (Some "p") (Some "o") (Some "c"))%string RASQAL_TRIPLE_SPOG ∅ demo_quad)
    (mkTriple (var_literal "s") (var_literal "p") (var_literal "o") (Some (var_literal "c")) 15) = demo_quad.
Proof.
  apply (sparql_join_roundtrip (RL:=plain_literals_laws) "s" "p" "o" "c" 15 ∅ demo_quad);
    [apply (bool_decide_unpack _); vm_compute; exact I | reflexivity].
Defined.

Lemma tuple_query_rows_witness :
  adapter.TupleQuery (H1:=leveldb_triple_source ar false) (λ n row, Ok (false, n + size row)) (λ _, true)
    (λ _ _, Some [[("x"%string, Some (mkLiteral (RASQAL_LITERAL_URI "a") "" None None))]; []])
    loaded "q" 0 = Ok 1.
Proof.
  rewrite (tuple_query_rows (H1:=leveldb_triple_source ar false)); [vm_compute; reflexivity | by repeat constructor].
Defined.
End SparqlWitnesses.
