(* ===== verification/SparqlService.v ===== *)
(** * SparqlService: LevelDBSparqlService of persistence/leveldb_service.cc

    The handler of the SPARQL service: it runs the query over the triple source
    of the persistence and writes one response per row, with a binding per
    variable in the order of the row, a [std::map] from names to values. *)

From Stdlib Require Import ZArith Lia.
From S2P Require Import Prelude Words Murmur3 Messages Iterators LevelDB Keys Wire RdfOperators RdfModel Numbers.
From S2P Require Import Persistence Service ServiceTheorems DemoStore TripleSource Serializer Sparql.

(** The messages of sparql.proto. *)
Record Binding := mkBinding { variable : string; value_ : option Value }.
Definition SparqlResponse := list Binding.

(** The order of [std::string]: by unsigned characters. *)
Definition string_le (a b : string) : Prop := String.leb a b = true.
#[global] Instance string_le_dec a b : Decision (string_le a b) := decide (String.leb a b = true).
#[global] Instance string_le_total : Total string_le.
Proof. intros a b. unfold string_le. destruct (String.leb_total a b); auto. Qed.

(** Iteration over a [std::map] with string keys: in the order of the keys. *)
Definition key_le {A} (a b : string * A) : Prop := string_le a.1 b.1.
#[global] Instance key_le_dec {A} (a b : string * A) : Decision (key_le a b) := string_le_dec a.1 b.1.
#[global] Instance key_le_total {A} : Total (@key_le A).
Proof. intros a b. apply string_le_total. Qed.

Definition map_entries {A} (m : gmap string A) : list (string * A) := merge_sort key_le (map_to_list m).

Section Service.
Context (ar : arch) (garbage : bool) `{PB : Protobuf} `{LK : !LevelDB key64} `{LB : !LevelDB bytes}.
Context `{RT : RasqalTerms}.

(** The response for a row. *)
Definition row_response (row : adapter.RowType) : SparqlResponse :=
  foldl (λ response e, response ++ [mkBinding e.1 (Some (rdf.Value.getMessage e.2))]) [] (map_entries row).

Definition row_handler (result : ServerWriter SparqlResponse) (row : adapter.RowType) :
    res (bool * ServerWriter SparqlResponse) :=
  Ok (true, (WriteMsg result (row_response row)).2).

(** [LevelDBSparqlService::TupleQuery]; what the query throws leaves the
    handler. *)
Definition svc_TupleQuery (prepare : string → bool)
    (execute : adapter.triples_source WrapProtoStatementIterator → string → option (list adapter.result_row))
    (query : string) (result : ServerWriter SparqlResponse) (p : LevelDBPersistence) :
    res (Status * ServerWriter SparqlResponse) :=
  result ← adapter.TupleQuery (H1:=leveldb_triple_source ar garbage) row_handler prepare execute p query result;
  Ok (StatusOK, result).

(** ** Proofs *)

Lemma row_response_entries row :
  row_response row = (λ e, mkBinding e.1 (Some (rdf.Value.getMessage e.2))) <$> map_entries row.
Proof.
  unfold row_response.
  assert (Hacc : ∀ l acc, foldl (λ response e, response ++ [mkBinding e.1 (Some (rdf.Value.getMessage e.2))]) acc l =
    acc ++ ((λ e : string * rdf.Value.t, mkBinding e.1 (Some (rdf.Value.getMessage e.2))) <$> l)); [|apply Hacc].
  induction l as [|e l IH]; intros acc; simpl; [by rewrite app_nil_r|]. by rewrite IH, <- app_assoc.
Qed.

(** A response lists the variables of the row in order, each once, with the
    message of its value. *)
Lemma row_response_spec row :
  Sorted string_le (variable <$> row_response row) ∧ NoDup (variable <$> row_response row) ∧
  ∀ v m, mkBinding v m ∈ row_response row ↔ ∃ x, row !! v = Some x ∧ m = Some (rdf.Value.getMessage x).
Proof.
  rewrite row_response_entries. rewrite <- list_fmap_compose.
  assert (Hp : map_entries row ≡ₚ map_to_list row) by apply merge_sort_Permutation.
  split_and!.
  - change (Sorted string_le (fst <$> map_entries row)).
    apply (Sorted_fmap fst key_le string_le); [by intros ? ?|]. apply Sorted_merge_sort, _.
  - change (NoDup (fst <$> map_entries row)). rewrite Hp. apply NoDup_fst_map_to_list.
  - intros v m. rewrite list_elem_of_fmap. setoid_rewrite Hp. split.
    + intros ([w x] & E & Hx%elem_of_map_to_list). simpl in E. simplify_eq. eauto.
    + intros (x & Hx & ->). exists (v, x). split; [done|]. by apply elem_of_map_to_list.
Qed.

Lemma handler_loop rows w :
  fold_while row_handler true rows w = Ok (foldl (λ w r, (WriteMsg w r).2) w (row_response <$> rows)).
Proof. revert w; induction rows as [|r rows IH]; intros w; [done|]. simpl. apply IH. Qed.
End Service.

(** ** Properties *)

(** C32. A SPARQL query that rasqal accepts, with every column of every result row
    bound to a value that can be converted, is answered OK with one response per
    row, in the order of the rows, until the client stops reading; each response
    has the variables of its row in ascending order, each once, bound to the
    converted value.  When a column of some row is unbound (an OPTIONAL without
    a match) or a typed value has no datatype, the handler dereferences a null
    pointer.  A query that is not accepted makes it throw a SparqlException
    instead of returning a status. *)
Theorem sparql_service_stream (ar : arch) (garbage : bool) `{PB : Protobuf}
    `{LK : !LevelDB key64} `{LB : !LevelDB bytes} `{RT : RasqalTerms}
    (prepare : string → bool)
    (execute : adapter.triples_source WrapProtoStatementIterator → string → option (list adapter.result_row))
    (query : string) (room : option nat) (p : LevelDBPersistence) :
  let results := execute (adapter.new_triples_source (H1:=leveldb_triple_source ar garbage) p)
                   (serializer.c_str query) in
  match prepare (serializer.c_str query), results with
  | true, Some rows =>
      if forallb row_ok rows then
        ∃ w, svc_TupleQuery ar garbage prepare execute query (newServerWriter room) p = Ok (StatusOK, w) ∧
          written w = accepted room (row_response ∘ row_map <$> rows) ∧
          ∀ r, r ∈ rows →
            Sorted string_le (variable <$> row_response (row_map r)) ∧
            NoDup (variable <$> row_response (row_map r)) ∧
            ∀ v m, mkBinding v m ∈ row_response (row_map r) ↔
              ∃ x, row_map r !! v = Some x ∧ m = Some (rdf.Value.getMessage x)
      else ∃ msg, svc_TupleQuery ar garbage prepare execute query (newServerWriter room) p =
                    Throw (UndefinedBehaviour msg)
  | _, _ => ∃ msg, svc_TupleQuery ar garbage prepare execute query (newServerWriter room) p =
                     Throw (SparqlException msg query)
  end.
Proof.
  intros results. unfold svc_TupleQuery, adapter.TupleQuery. fold results.
  destruct (prepare _); [|eexists; reflexivity].
  destruct results as [rows|]; [|eexists; reflexivity]. cbn [negb].
  destruct (forallb row_ok rows) eqn:Hr.
  - assert (Hok : Forall (λ r, row_ok r = true) rows).
    { apply Forall_forall. intros r Hin%list_elem_of_In. by apply (forallb_forall row_ok rows). }
    rewrite rows_loop_spec, handler_loop by done. eexists. split; [done|]. split.
    + unfold newServerWriter. rewrite write_all. by rewrite <- list_fmap_compose.
    + intros r _. apply row_response_spec.
  - destruct (rows_loop_bad row_handler rows (newServerWriter room)) as [msg E]; [|done|].
    + intros w row. eexists. reflexivity.
    + rewrite E. by exists msg.
Qed.

Section SparqlServiceWitnesses.
Import Demo.
#[local] Existing Instances plain_lib plain_literals.

Definition demo_rows : list adapter.result_row :=
  [[("y"%string, Some (mkLiteral (RASQAL_LITERAL_URI "b") "" None None));
    ("x"%string, Some (mkLiteral (RASQAL_LITERAL_URI "a") "" None None))]; []].

Lemma sparql_service_stream_witness :
  ∃ w, svc_TupleQuery ar false (λ _, true) (λ _ _, Some demo_rows) "q" (newServerWriter (Some 1)) loaded =
         Ok (StatusOK, w) ∧
    written w = [[mkBinding "x" (Some (Value_resource (res_ "a"))); mkBinding "y" (Some (Value_resource (res_ "b")))]].
Proof.
  destruct (sparql_service_stream ar false (λ _, true) (λ _ _, Some demo_rows) "q" (Some 1) loaded)
    as (w & E & Ew & _).
  exists w. split; [exact E|]. rewrite Ew. vm_compute. reflexivity.
Defined.
End SparqlServiceWitnesses.
