(* ===== verification/SparqlObjects.v ===== *)
(** * SparqlObjects: lifetimes of the rasqal objects of a query

    class SparqlService of sparql/rasqal_adapter.cc owns a rasqal world;
    TupleQuery makes a query, a base URI and a result set in it and frees them
    by hand on each of its ways out.  The objects are cells of the heap of
    RaptorObjects.v, a rasqal world being a cell like a raptor world.  rasqal's
    parsing and evaluation are the arguments of [adapter.TupleQuery], and the
    theorem relates the two: same outcome, and exactly which objects stay. *)

From Stdlib Require Import ZArith Lia.
From S2P Require Import Prelude Words Murmur3 Messages Iterators LevelDB Keys Persistence Service RdfOperators RdfModel.
From S2P Require Import Parser Serializer RaptorObjects TripleSource Sparql DemoStore SparqlService.

Module sparql_object.
Record t := mk { world : ptr }.

(** The world is opened, and the log handler and the factory are registered. *)
Definition construct : HM t :=
  world ← raptor_new_world;
  mret (mk world).

Definition destruct (o : t) : HM unit := raptor_free_world (world o).

Section TupleQuery.
Context `{RasqalTerms} {TS It : Type} `{TripleSource TS It} `{CloseableIterator It rdf.Statement.t}.
Context {S : Type} (row_handler : S → adapter.RowType → res (bool * S)).

(** The loop over the rows: the result set is asked whether it is finished, for
    the bindings of the row, and to move on. *)
Fixpoint rows_loop (r : ptr) (next : bool) (rows : list adapter.result_row) (s : S) : HM S :=
  match next, rows with
  | true, row :: rows =>
      _ ← use KResults r;
      row ← lift (adapter.convert_row row);
      '(next, s) ← lift (row_handler s row);
      _ ← use KResults r;
      rows_loop r next rows s
  | true, [] => _ ← use KResults r; mret s
  | false, _ => mret s
  end.

Definition TupleQuery (prepare : string → bool)
    (execute : adapter.triples_source It → string → option (list adapter.result_row))
    (source : TS) (query : string) (s : S) (o : t) : HM S :=
  q ← raptor_new KQuery (world o);
  base ← raptor_new KUri (world o);
  _ ← use KQuery q;
  if negb (prepare (serializer.c_str query)) then
    _ ← raptor_free KUri base;
    _ ← raptor_free KQuery q;
    fail (SparqlException "Query preparation failed" query)
  else
    _ ← use KQuery q;
    match execute (adapter.new_triples_source source) (serializer.c_str query) with
    | None =>
        _ ← raptor_free KUri base;
        _ ← raptor_free KQuery q;
        fail (SparqlException "Query execution failed" query)
    | Some rows =>
        r ← raptor_new KResults (world o);
        s ← rows_loop r true rows s;
        _ ← raptor_free KResults r;
        _ ← raptor_free KQuery q;
        _ ← raptor_free KUri base;
        mret s
    end.
End TupleQuery.
End sparql_object.

(** ** Proofs *)

Section QueryProofs.
Context `{RasqalTerms} {TS It : Type} `{TripleSource TS It} `{CloseableIterator It rdf.Statement.t}.
Context {S : Type} (row_handler : S → adapter.RowType → res (bool * S)).

(** The loop touches the heap only through the live result set. *)
Lemma rows_loop_heap r w b rows s h :
  live h !! r = Some (KResults, Some w) → live h !! w = Some (KWorld, None) →
  sparql_object.rows_loop row_handler r b rows s h = (adapter.rows_loop row_handler b rows s, h).
Proof.
  intros Lr Lw. pose proof (use_live _ _ _ _ Lr Lw) as Eu.
  revert b s; induction rows as [|row rows IH]; intros [] s; cbn [sparql_object.rows_loop adapter.rows_loop]; try done.
  - by rewrite (HM_bind_Ok _ _ _ _ _ Eu).
  - rewrite (HM_bind_Ok _ _ _ _ _ Eu).
    destruct (adapter.convert_row row) as [x|e|]; [|done|done].
    rewrite (HM_bind_Ok (lift (Ok x)) _ h x h eq_refl). cbn [mbind res_bind].
    destruct (row_handler s x) as [[b s']|e|]; [|done|done].
    rewrite (HM_bind_Ok (lift (Ok (b, s'))) _ h (b, s') h eq_refl). cbn [mbind res_bind].
    rewrite (HM_bind_Ok _ _ _ _ _ Eu). apply IH.
Qed.

(** The objects a query leaves behind: when the row loop throws, all three. *)
Definition query_leak (prepare : string → bool)
    (execute : adapter.triples_source It → string → option (list adapter.result_row))
    (source : TS) (query : string) (s : S) : nat :=
  if prepare (serializer.c_str query) then
    match execute (adapter.new_triples_source source) (serializer.c_str query) with
    | Some rows => match adapter.rows_loop row_handler true rows s with Ok _ => 0 | _ => 3 end
    | None => 0
    end
  else 0.

(** Freeing the base URI and the query, in this order, when nothing else is new. *)
Lemma free_base_query (w q base : ptr) h0 h (e : exn) :
  heap_wf h0 → grows h0 h 2 → fresh h0 ≤ q → fresh h0 ≤ base → q ≠ base →
  live h !! q = Some (KQuery, Some w) → live h !! base = Some (KUri, Some w) →
  live h !! w = Some (KWorld, None) →
  ∃ h', (x ← raptor_free KUri base; y ← raptor_free KQuery q; fail (A:=S) e) h = (Throw e, h') ∧ grows h0 h' 0.
Proof.
  intros Hwf G Hq Hb Hne Lq Lb Lw. assert (w ≠ base) by (intros ->; congruence).
  destruct (raptor_free_grows KUri base w h0 h _ Hwf G Hb Lb Lw) as (h1 & E1 & G1 & K1).
  destruct (raptor_free_grows KQuery q w h0 h1 _ Hwf G1 Hq (K1 _ _ Hne Lq) (K1 w _ ltac:(done) Lw))
    as (h2 & E2 & G2 & _).
  exists h2. rewrite (HM_bind_Ok _ _ _ _ _ E1), (HM_bind_Ok _ _ _ _ _ E2). done.
Qed.

(** TupleQuery in a live world: the outcome of the evaluation, and the leak. *)
Lemma TupleQuery_grows prepare execute (source : TS) query s w h :
  heap_wf h → live h !! w = Some (KWorld, None) →
  ∃ h', sparql_object.TupleQuery row_handler prepare execute source query s (sparql_object.mk w) h =
      (adapter.TupleQuery row_handler prepare execute source query s, h') ∧
    grows h h' (query_leak prepare execute source query s).
Proof.
  intros Hwf Lw. unfold sparql_object.TupleQuery, adapter.TupleQuery, query_leak. cbn [sparql_object.world].
  destruct (raptor_new_grows KQuery w h Hwf Lw) as (h1 & E1 & G1 & Lq & F1).
  pose proof (grows_wf _ _ _ Hwf G1) as W1. pose proof (grows_keep _ _ _ _ _ Hwf G1 Lw) as Lw1.
  destruct (raptor_new_grows KUri w h1 W1 Lw1) as (h2 & E2 & G2 & Lb & F2).
  pose proof (grows_wf _ _ _ W1 G2) as W2. pose proof (grows_keep _ _ _ _ _ W1 G2 Lw1) as Lw2.
  pose proof (grows_keep _ _ _ _ _ W1 G2 Lq) as Lq2. pose proof (grows_trans _ _ _ _ _ Hwf G1 G2) as G.
  assert (Hne : fresh h ≠ fresh h1) by lia.
  rewrite (HM_bind_Ok _ _ _ _ _ E1), (HM_bind_Ok _ _ _ _ _ E2), (HM_bind_Ok _ _ _ _ _ (use_live _ _ _ _ Lq2 Lw2)).
  destruct (prepare _); cbn [negb].
  2: apply (free_base_query w (fresh h) (fresh h1)); auto with lia.
  rewrite (HM_bind_Ok _ _ _ _ _ (use_live _ _ _ _ Lq2 Lw2)).
  destruct (execute _ _) as [rows|].
  2: apply (free_base_query w (fresh h) (fresh h1)); auto with lia.
  destruct (raptor_new_grows KResults w h2 W2 Lw2) as (h3 & E3 & G3 & Lr & F3).
  pose proof (grows_keep _ _ _ _ _ W2 G3 Lw2) as Lw3. pose proof (grows_trans _ _ _ _ _ Hwf G G3) as G'.
  rewrite (HM_bind_Ok _ _ _ _ _ E3).
  pose proof (rows_loop_heap (fresh h2) w true rows s h3 Lr Lw3) as El.
  destruct (adapter.rows_loop row_handler true rows s) as [s'|e|].
  - rewrite (HM_bind_Ok _ _ _ _ _ El). cbn in F1, F2.
    destruct (raptor_free_grows KResults (fresh h2) w h h3 2 Hwf G' ltac:(lia) Lr Lw3) as (h4 & E4 & G4 & K4).
    assert (Lw4 : live h4 !! w = Some (KWorld, None)) by (apply K4; [intros ->; congruence|done]).
    destruct (raptor_free_grows KQuery (fresh h) w h h4 1 Hwf G4 ltac:(lia)) as (h5 & E5 & G5 & K5); [|done|].
    { apply K4; [lia|]. by apply (grows_keep h2 h3 1). }
    assert (Lw5 : live h5 !! w = Some (KWorld, None)) by (apply K5; [intros ->; congruence|done]).
    destruct (raptor_free_grows KUri (fresh h1) w h h5 0 Hwf G5 ltac:(lia)) as (h6 & E6 & G6 & _); [|done|].
    { apply K5; [lia|]. apply K4; [lia|]. by apply (grows_keep h2 h3 1). }
    exists h6. by rewrite (HM_bind_Ok _ _ _ _ _ E4), (HM_bind_Ok _ _ _ _ _ E5), (HM_bind_Ok _ _ _ _ _ E6).
  - unfold mbind at 1, HM_bind. rewrite El. by exists h3.
  - unfold mbind at 1, HM_bind. rewrite El. by exists h3.
Qed.
End QueryProofs.

(** ** Properties *)

(** C40. A query on a service made for it, as LevelDBSparqlService does: with the
    destructor run, the outcome is the one of the evaluation, nothing is freed
    twice or used after it was freed, and the heap is as before, unless the
    handler or the conversion of a row throws: then the query, the base URI
    and the result set stay allocated. *)
Theorem tuple_query_lifetime `{RasqalTerms} {TS It S : Type} `{TripleSource TS It}
    `{CloseableIterator It rdf.Statement.t} (row_handler : S → adapter.RowType → res (bool * S))
    (prepare : string → bool)
    (execute : adapter.triples_source It → string → option (list adapter.result_row))
    (source : TS) (query : string) (s : S) (h : heap) :
  heap_wf h →
  ∃ h' leaked,
    scoped sparql_object.construct
      (sparql_object.TupleQuery row_handler prepare execute source query s)
      sparql_object.destruct h =
      (adapter.TupleQuery row_handler prepare execute source query s, h') ∧
    live h' = leaked ∪ live h ∧ leaked ##ₘ live h ∧
    size leaked = query_leak row_handler prepare execute source query s.
Proof.
  intros Hwf. destruct (alloc_grows KWorld None h Hwf) as (h1 & E1 & G1 & Lw & F1).
  pose proof (grows_wf _ _ _ Hwf G1) as W1.
  destruct (TupleQuery_grows row_handler prepare execute source query s (fresh h) h1 W1 Lw) as (h2 & E2 & G2).
  pose proof (grows_trans _ _ _ _ _ Hwf G1 G2) as G.
  destruct (raptor_free_world_grows (fresh h) h h2 _ Hwf G ltac:(lia) (grows_keep _ _ _ _ _ W1 G2 Lw))
    as (h3 & E3 & (_ & m & El & Hm & Hs)).
  exists h3, m. split_and!; [|done|by eapply fresh_disjoint|done].
  apply (scoped_spec _ _ _ h (sparql_object.mk (fresh h)) h1 _ h2); [|done|done].
  unfold sparql_object.construct, raptor_new_world. by rewrite (HM_bind_Ok _ _ _ _ _ E1).
Qed.

Section SparqlObjectsWitnesses.
Import Demo.
#[local] Existing Instances plain_lib plain_literals.

(** A handler that throws at the first row. *)
Definition throwing (s : unit) (row : adapter.RowType) : res (bool * unit) := Throw (OutOfRange "handler").

Lemma tuple_query_lifetime_witness :
  let h := mkHeap ∅ 0 in
  ∃ h' leaked,
    scoped sparql_object.construct
      (sparql_object.TupleQuery (H1:=leveldb_triple_source ar false) throwing (λ _, true)
        (λ _ _, Some demo_rows) loaded "q" tt)
      sparql_object.destruct h = (Throw (OutOfRange "handler"), h') ∧
    live h' = leaked ∪ live h ∧ leaked ##ₘ live h ∧ size leaked = 3.
Proof.
  apply (tuple_query_lifetime (H1:=leveldb_triple_source ar false) throwing (λ _, true)
    (λ _ _, Some demo_rows) loaded "q" tt (mkHeap ∅ 0)).
  apply map_Forall_empty.
Defined.
End SparqlObjectsWitnesses.
