(* ===== verification/Client.v ===== *)
(** * Client: the command line client of client/client.cc

    [ClientReaderIterator] turns a response stream into an iterator.
    [MarmottaClient] has one definition per method, over the stub interface
    [SailBackend] of Sharding.v (a service in state [B]) and the stub of the
    SPARQL service.  Streams are opened before the input is parsed and closed
    after it, so the service sees the whole streams; the two streams of an
    import go to two handlers that write different databases, and are served
    one after the other here.  Output is text or bytes; the parser and the
    serializer of raptor and the text format of protocol buffers are
    arguments. *)

From Stdlib Require Import ZArith Ascii Lia.
From S2P Require Import Prelude Words Murmur3 Messages Iterators LevelDB Keys Wire RdfOperators RdfModel.
From S2P Require Import RdfModelTheorems Persistence PersistenceSpec Refinement UpdateProofs Matching.
From S2P Require Import Service ServiceTheorems DemoStore Sharding ShardingProofs ShardingTheorems.
From S2P Require Import Numbers Parser Serializer TripleSource Sparql SparqlService.

(** ** ClientReaderIterator *)

Record ClientReaderIterator (T Proto : Type) := mkClientReader {
  cri_reader : list Proto;
  cri_buffer : Proto;
  cri_current : T;
  cri_finished : bool;
}.
Arguments mkClientReader {T Proto} _ _ _ _.
Arguments cri_reader {T Proto} _.
Arguments cri_buffer {T Proto} _.
Arguments cri_current {T Proto} _.
Arguments cri_finished {T Proto} _.

(** [T(buffer)] for the two instantiations of the template. *)
Class FromProto (T Proto : Type) := { default_obj : T; from_proto : Proto → T }.
#[global] Instance Statement_from : FromProto rdf.Statement.t Statement :=
  {| default_obj := rdf.Statement.new; from_proto := rdf.Statement.of_message |}.
#[global] Instance Namespace_from : FromProto rdf.Namespace.t Namespace :=
  {| default_obj := rdf.Namespace.new; from_proto := rdf.Namespace.of_message |}.

Section ClientReader.
Context {T Proto : Type} `{FromProto T Proto}.

Definition cri_next (it : ClientReaderIterator T Proto) : ClientReaderIterator T Proto :=
  if negb (cri_finished it) then
    let '(ok, (r, b)) := Read (cri_reader it) (cri_buffer it) in
    mkClientReader r b (from_proto b) (negb ok)
  else it.

Definition newClientReader `{Message Proto} (r : list Proto) : ClientReaderIterator T Proto :=
  cri_next (mkClientReader r default_instance default_obj false).

#[global] Instance client_reader : CloseableIterator (ClientReaderIterator T Proto) T := {
  next := cri_next;
  deref it := Ok (cri_current it, it);
  hasNext it := negb (cri_finished it);
  elements it := if cri_finished it then [] else cri_current it :: (from_proto <$> cri_reader it);
}.

#[global] Instance client_reader_laws : IteratorLaws (ClientReaderIterator T Proto) T.
Proof.
  split.
  - by intros [r b c []].
  - intros [r b c []] x l; simpl; [done|]. intros ?. simplify_eq. eauto.
  - intros [[|y r] b c []] x l; simpl; try done; intros ?; by simplify_eq.
Qed.

Lemma elements_newClientReader `{Message Proto} (r : list Proto) :
  elements (newClientReader r) = from_proto <$> r.
Proof. by destruct r. Qed.
End ClientReader.

(** ** MarmottaClient *)

Definition endl : string := String "010" EmptyString.

Definition error_message (s : Status) : string :=
  match s with StatusOK => "" | NotFound m | Unavailable m => m end.

Module client.
Section Client.
Context {B : Type} `{SB : SailBackend B} (sparql : string → B → res (Status * list SparqlResponse)).
Context `{serializer.RaptorTerms} `{Codec (list Statement)}.
Context (text_format : list Statement → bytes) (response_text : SparqlResponse → bytes).
Context (raptor : string → list (bytes * bool) → list raptor_event).
Context (raptor_output : serializer.RaptorSerializer → bytes).

(** The handlers an import gives to the parser write to the two streams. *)
Definition write_statement (s : list Namespace * list Statement) (x : rdf.Statement.t) :
    res (list Namespace * list Statement) :=
  Ok (s.1, s.2 ++ [rdf.Statement.getMessage x]).

Definition write_namespace (s : list Namespace * list Statement) (x : rdf.Namespace.t) :
    res (list Namespace * list Statement) :=
  Ok (s.1 ++ [rdf.Namespace.getMessage x], s.2).

(** What an import prints. *)
Definition import_report (nsst : Status) (nsstats : Z) (stmtst : Status) (stmtstats : Z) : string :=
  ((if status_ok nsst && status_ok stmtst then
      "Added " +:+ to_string_int nsstats +:+ " namespaces and " +:+ to_string_int stmtstats +:+ " statements"
    else "Failed writing data to server: " +:+ error_message stmtst) +:+ endl)%string.

(** [good] and [input] are the input stream. *)
Definition importDataset (good : bool) (input : bytes) (format : parser.Format) (b : B) : res (string * B) :=
  p ← parser.newParser format;
  let p := parser.setStatementHandler write_statement p in
  let p := parser.setNamespaceHandler write_namespace p in
  '(nss, stmts) ← parser.Parser_parse raptor p good input ([], []);
  '(nsst, nsstats, b) ← be_AddNamespaces nss b;
  '(stmtst, stmtstats, b) ← be_AddStatements stmts b;
  Ok (import_report nsst nsstats stmtst stmtstats, b).

Definition patternQuery (pattern : rdf.Statement.t) (out : bytes) (format : serializer.Format) (b : B) : res bytes :=
  '(_, reader) ← be_GetStatements (rdf.Statement.getMessage pattern) b;
  z ← serializer.Serializer_serialize text_format
        (newClientReader (T:=rdf.Statement.t) reader) (serializer.newSerializer_default format out);
  Ok (match z with
      | serializer.impl_proto z => serializer.pz_out z
      | serializer.impl_raptor z => out ++ raptor_output z
      end).

(** What is printed, on the standard output or on the error output. *)
Definition patternDelete (pattern : rdf.Statement.t) (b : B) : res (bool * string * B) :=
  '(status, result, b) ← be_RemoveStatements (rdf.Statement.getMessage pattern) b;
  Ok (if status_ok status then (true, "Deleted " +:+ to_string_int result +:+ " statements." +:+ endl, b)
      else (false, "Failed deleting statements: " +:+ error_message status +:+ endl, b))%string.

Definition tupleQuery (query : string) (out : bytes) (b : B) : res bytes :=
  '(_, reader) ← sparql query b;
  Ok (foldl (λ out result, out ++ response_text result) out reader).

Definition listNamespaces (out : bytes) (b : B) : res bytes :=
  '(_, reader) ← be_GetNamespaces b;
  for_each (λ out ns, Ok (out ++ str_bytes
      (rdf.Namespace.getPrefix ns +:+ " = " +:+ rdf.Namespace.getUri ns +:+ endl)%string))
    (newClientReader (T:=rdf.Namespace.t) reader) out.

Definition size (r : ContextRequest) (b : B) : res (Z * B) :=
  '(status, result, b) ← be_Size r b;
  Ok (if status_ok status then result else (-1)%Z, b).

(** ** main *)

Record Flags := mkFlags { FLAGS_format : string; FLAGS_output : string }.

Definition default_flags : Flags := mkFlags "rdfxml" "".

(** The outside world: what was printed, and the files. *)
Record world := mkWorld { w_cout : bytes; w_cerr : bytes; w_files : gmap string bytes }.

Definition print (s : bytes) (w : world) : world := mkWorld (w_cout w ++ s) (w_cerr w) (w_files w).

(** [argv[i]]: a missing argument is a null pointer, which the code converts to
    a string. *)
Definition arg (argv : list string) (i : nat) : res string :=
  match argv !! i with Some a => Ok a | None => Throw (UndefinedBehaviour "string from a null pointer") end.

(** Run a command that writes to a stream: a file when one is named, which is
    truncated first, else the standard output. *)
Definition with_output (flags : Flags) (w : world) (cmd : bytes → res bytes) : res world :=
  if string_eqb (FLAGS_output flags) "" then
    out ← cmd (w_cout w);
    Ok (mkWorld out (w_cerr w) (w_files w))
  else
    out ← cmd [];
    Ok (mkWorld (w_cout w) (w_cerr w) (<[FLAGS_output flags := out]> (w_files w))).

(** [parse_statement] and [parse_contexts] are the text format parser of
    protocol buffers, with the message after the call.  The program arguments
    are those left after the flags were taken out; the name of the command is
    compared with every known one, and an unknown one does nothing. *)
Definition main (parse_statement : string → Statement) (parse_contexts : string → ContextRequest)
    (flags : Flags) (argv : list string) (w : world) (b : B) : res (world * B) :=
  cmd ← arg argv 1;
  if string_eqb cmd "import" then
    file ← arg argv 2;
    let w := print (str_bytes ("Importing " +:+ file +:+ " ... " +:+ endl)%string) w in
    '(msg, b) ← importDataset (bool_decide (is_Some (w_files w !! file))) (default [] (w_files w !! file))
                  (parser.FormatFromString (FLAGS_format flags)) b;
    Ok (print (str_bytes (msg +:+ "Finished!" +:+ endl)%string) w, b)
  else if string_eqb cmd "select" then
    q ← arg argv 2;
    w ← with_output flags w (λ out,
      patternQuery (rdf.Statement.of_message (parse_statement q)) out
        (serializer.FormatFromString (FLAGS_format flags)) b);
    Ok (w, b)
  else if string_eqb cmd "sparql" then
    q ← arg argv 2;
    w ← with_output flags w (λ out, tupleQuery q out b);
    Ok (w, b)
  else if string_eqb cmd "delete" then
    q ← arg argv 2;
    '(ok, msg, b) ← patternDelete (rdf.Statement.of_message (parse_statement q)) b;
    Ok (if (ok : bool) then print (str_bytes msg) w
        else mkWorld (w_cout w) (w_cerr w ++ str_bytes msg) (w_files w), b)
  else if string_eqb cmd "size" then
    q ← arg argv 2;
    '(n, b) ← size (parse_contexts q) b;
    Ok (print (str_bytes ("Size: " +:+ to_string_int n +:+ endl)%string) w, b)
  else if string_eqb cmd "namespaces" then
    w ← with_output flags w (λ out, listNamespaces out b);
    Ok (w, b)
  else Ok (w, b).
End Client.
End client.

(** ** What a dataset holds *)

Definition event_statement (e : raptor_event) : option Statement :=
  match e with RE_statement st => statement_message st | _ => None end.

Definition event_namespace (e : raptor_event) : option Namespace :=
  match e with
  | RE_namespace p u => Some (rdf.Namespace.getMessage (rdf.Namespace.of_c_strings p u))
  | _ => None
  end.

(** The handlers of an import collect what the events hold. *)
Lemma import_events s events :
  let run := foldM (parser.handle_event client.write_statement client.write_namespace) s events in
  if forallb event_ok events
  then run = Ok (s.1 ++ omap event_namespace events, s.2 ++ omap event_statement events)
  else ∃ msg, run = Throw (ParseError msg).
Proof.
  pose proof (handle_events (λ s m, (s.1, s.2 ++ [m])) (λ s m, (s.1 ++ [m], s.2)) events s) as Hh.
  cbv zeta in *. destruct (forallb event_ok events); [|exact Hh]. etrans; [exact Hh|]. f_equal. clear.
  revert s. induction events as [|e events IH]; intros s; simpl; [rewrite !app_nil_r; by destruct s|].
  rewrite IH. destruct e as [st|]; simpl; [destruct (statement_message st); simpl|]; by rewrite <- ?app_assoc.
Qed.

(** The raptor calls of an input that can be read. *)
Lemma parse_events {S} sh nh (raptor : list (bytes * bool) → list raptor_event) input (s : S) :
  ∃ cs, parser.chunks_of true input = Ok cs ∧
    parser.parse sh nh raptor true input s = foldM (parser.handle_event sh nh) s (raptor cs).
Proof.
  destruct (read_chunks_spec (1 + length input) input ltac:(lia)) as (full & last & E & _).
  eexists. split; [exact E|]. unfold parser.parse, parser.chunks_of. by rewrite E.
Qed.

Lemma mbind_Ok {X Y} (f : X → res Y) (x : X) : Ok x ≫= f = f x.
Proof. done. Qed.

(** The methods in terms of the answers of the service. *)
Section ClientProofs.
Context {B : Type} `{SB : SailBackend B}.
Context `{serializer.RaptorTerms} `{CL : CodecLaws (list Statement)}.
Context (sparql : string → B → res (Status * list SparqlResponse)).
Context (text_format : list Statement → bytes) (response_text : SparqlResponse → bytes).
Context (raptor : string → list (bytes * bool) → list raptor_event).
Context (raptor_output : serializer.RaptorSerializer → bytes).
Context (parse_statement : string → Statement) (parse_contexts : string → ContextRequest).

Abbreviation run := (client.main sparql text_format response_text raptor raptor_output
                      parse_statement parse_contexts).

Lemma importDataset_run name input format (b : B) events :
  parser.raptor_parser_name format = Ok name →
  raptor name <$> parser.chunks_of true input = Ok events →
  (forallb event_ok events = true →
   ∀ n m b1 b2, be_AddNamespaces (omap event_namespace events) b = Ok (StatusOK, n, b1) →
     be_AddStatements (omap event_statement events) b1 = Ok (StatusOK, m, b2) →
     client.importDataset raptor true input format b = Ok (client.import_report StatusOK n StatusOK m, b2)) ∧
  (forallb event_ok events = false →
   ∃ msg, client.importDataset raptor true input format b = Throw (ParseError msg)).
Proof.
  intros En Ee. unfold client.importDataset, parser.newParser. rewrite En, !mbind_Ok.
  unfold parser.Parser_parse, parser.setStatementHandler, parser.setNamespaceHandler.
  cbn [parser.stmt_handler parser.ns_handler parser.raptor_parser].
  destruct (parse_events client.write_statement client.write_namespace (raptor name) input ([], []))
    as (cs & Ec & ->). rewrite Ec in Ee. injection Ee as <-. clear Ec.
  pose proof (import_events ([], []) (raptor name cs)) as Hi. cbv zeta in Hi. cbn [app fst snd] in Hi.
  split; intros Hev; rewrite Hev in Hi.
  - intros n m b1 b2 E1 E2. rewrite Hi, mbind_Ok. cbn beta iota. rewrite E1, mbind_Ok. cbn beta iota.
    rewrite E2, mbind_Ok. done.
  - destruct Hi as [msg ->]. by exists msg.
Qed.

Lemma messages_of_reader (l : list Statement) :
  rdf.Statement.getMessage <$> (from_proto (T:=rdf.Statement.t) <$> l) = l.
Proof. rewrite <- list_fmap_compose. apply list_fmap_id. Qed.

Lemma main_import flags file input name events w (b b1 b2 : B) n m :
  client.w_files w !! file = Some input →
  parser.raptor_parser_name (parser.FormatFromString (client.FLAGS_format flags)) = Ok name →
  raptor name <$> parser.chunks_of true input = Ok events →
  forallb event_ok events = true →
  be_AddNamespaces (omap event_namespace events) b = Ok (StatusOK, n, b1) →
  be_AddStatements (omap event_statement events) b1 = Ok (StatusOK, m, b2) →
  ∃ w', run flags ["client"; "import"; file] w b = Ok (w', b2).
Proof.
  intros Ef En Ee Hok E1 E2.
  pose proof (proj1 (importDataset_run name input _ b events En Ee) Hok n m b1 b2 E1 E2) as Eb.
  unfold client.main.
  change (client.arg ["client"; "import"; file] 1) with (Ok "import"%string). rewrite mbind_Ok.
  change (string_eqb "import" "import") with true. cbn iota.
  change (client.arg ["client"; "import"; file] 2) with (Ok file). rewrite mbind_Ok. cbn zeta.
  cbn [client.w_files client.print]. rewrite Ef, bool_decide_eq_true_2 by eauto.
  change (default [] (Some input)) with input. rewrite Eb, mbind_Ok. by eexists.
Qed.

Lemma main_select o q w (b : B) status l :
  o ≠ ""%string → be_GetStatements (parse_statement q) b = Ok (status, l) →
  ∃ w', run (client.mkFlags "proto" o) ["client"; "select"; q] w b = Ok (w', b) ∧
    client.w_files w' !! o = Some (SerializeToString l).
Proof.
  intros Ho El.
  assert (E : client.patternQuery text_format raptor_output (rdf.Statement.of_message (parse_statement q)) []
    serializer.PROTO b = Ok (SerializeToString l)).
  { unfold client.patternQuery.
    change (rdf.Statement.getMessage (rdf.Statement.of_message (parse_statement q))) with (parse_statement q).
    rewrite El, mbind_Ok. cbn beta iota.
    rewrite (proto_serialize_all text_format (newClientReader (T:=rdf.Statement.t) l) ∅ []).
    by rewrite mbind_Ok, elements_newClientReader, messages_of_reader. }
  unfold client.main.
  change (client.arg ["client"; "select"; q] 1) with (Ok "select"%string). rewrite mbind_Ok.
  change (string_eqb "select" "import") with false. change (string_eqb "select" "select") with true. cbn iota.
  change (client.arg ["client"; "select"; q] 2) with (Ok q). rewrite mbind_Ok.
  unfold client.with_output. cbn [client.FLAGS_output client.FLAGS_format].
  change (string_eqb o "") with (bool_decide (o = ""%string)). rewrite bool_decide_eq_false_2 by done.
  change (serializer.FormatFromString "proto") with serializer.PROTO. rewrite E, !mbind_Ok.
  eexists. split; [done|]. simpl. by rewrite lookup_insert_eq.
Qed.
End ClientProofs.

(** ** Properties *)

Section ClientTheorems.
Context (ar : arch) {B : Type} `{SL : SailLaws ar B}.
Context `{serializer.RaptorTerms} `{CL : CodecLaws (list Statement)}.
Context (sparql : string → B → res (Status * list SparqlResponse)).
Context (text_format : list Statement → bytes) (response_text : SparqlResponse → bytes).
Context (raptor : string → list (bytes * bool) → list raptor_event).
Context (raptor_output : serializer.RaptorSerializer → bytes).
Context (parse_statement : string → Statement) (parse_contexts : string → ContextRequest).

Abbreviation run := (client.main sparql text_format response_text raptor raptor_output
                      parse_statement parse_contexts).

(** C6. Import and export through the whole system: after a file was imported with
    the client, a select in the message format writes a file that decodes,
    without duplicates, to exactly the statements the pattern selects from the
    store with the statements of the file added; parser, client, service, store
    and serializer are all in the path. *)
Theorem client_import_export (flags : client.Flags) (file o q name : string) (input : bytes)
    (events : list raptor_event) (w : client.world) (b : B) :
  be_inv b → client.w_files w !! file = Some input → o ≠ ""%string →
  parser.raptor_parser_name (parser.FormatFromString (client.FLAGS_format flags)) = Ok name →
  raptor name <$> parser.chunks_of true input = Ok events →
  forallb event_ok events = true →
  ∃ w1 b1 w2 encoded,
    run flags ["client"; "import"; file] w b = Ok (w1, b1) ∧
    run (client.mkFlags "proto" o) ["client"; "select"; q] w1 b1 = Ok (w2, b1) ∧
    client.w_files w2 !! o = Some encoded ∧
    NoDup (ParseFromString (A:=list Statement) encoded) ∧
    ∀ st, st ∈ ParseFromString (A:=list Statement) encoded ↔
      st ∈ spec_get ar (parse_statement q)
             (foldl (λ A st, spec_add ar st A) (be_abs b) (omap event_statement events)).
Proof.
  intros HI Ef Ho En Ee Hok.
  destruct (law_add_ns (omap event_namespace events) b HI) as (b1 & E1 & HI1 & Ha1).
  destruct (law_add (omap event_statement events) b1 HI1) as (b2 & E2 & HI2 & Ha2). rewrite Ha1 in Ha2.
  destruct (main_import sparql text_format response_text raptor raptor_output parse_statement parse_contexts
    flags file input name events w b b1 b2 _ _ Ef En Ee Hok E1 E2) as [w1 Ew1].
  destruct (law_get (parse_statement q) b2 HI2) as (l & El & Hnd & Hl). rewrite Ha2 in Hl.
  destruct (main_select sparql text_format response_text raptor raptor_output parse_statement parse_contexts
    o q w1 b2 _ l Ho El) as (w2 & Ew2 & Eo).
  exists w1, b2, w2, (SerializeToString l). by rewrite (parse_serialize l).
Qed.

(** An input with a statement whose terms have the wrong type is refused as a
    whole: the import throws a ParseError before either stream is finished, so
    no status is reported. *)
Theorem client_import_rejects (input : bytes) (format : parser.Format) (name : string)
    (events : list raptor_event) (b : B) :
  parser.raptor_parser_name format = Ok name →
  raptor name <$> parser.chunks_of true input = Ok events →
  forallb event_ok events = false →
  ∃ msg, client.importDataset raptor true input format b = Throw (ParseError msg).
Proof.
  intros En Ee. by destruct (importDataset_run raptor name input format b events En Ee) as [_ ?].
Qed.
End ClientTheorems.

Section ClientWitnesses.
Import Demo.
#[local] Existing Instances demo_backend demo_model demo_laws plain_terms.

(** A library that finds one statement in an input that is not empty. *)
Definition demo_raptor (object : raptor_term) (_ : string) (cs : list (bytes * bool)) : list raptor_event :=
  if forallb (λ c, bool_decide (c.1 = [])) cs then [] else
    [RE_namespace None "http://x/";
     RE_statement (mkRaptorStatement (RT_URI "dave") (RT_URI "knows") object (Some (RT_BLANK "g")))].

Definition demo_world : client.world := client.mkWorld [] [] {[ "data.ttl"%string := str_bytes "dave knows erin" ]}.

Definition demo_events : list raptor_event :=
  demo_raptor (RT_LITERAL "erin" (Some "en"%string) None) "turtle" [([x00], true)].

Lemma client_import_export_witness :
  let run := client.main (λ _ _, Ok (StatusOK, [])) (λ _, []) (λ _, [])
      (demo_raptor (RT_LITERAL "erin" (Some "en"%string) None)) (λ _, [])
      (λ _, by_subject "dave") (λ _, mkContextRequest []) in
  ∃ w1 b1 w2 encoded,
    run (client.mkFlags "turtle" "") ["client"; "import"; "data.ttl"]%string demo_world loaded = Ok (w1, b1) ∧
    run (client.mkFlags "proto" "out.bin") ["client"; "select"; "q"]%string w1 b1 = Ok (w2, b1) ∧
    client.w_files w2 !! "out.bin"%string = Some encoded ∧
    NoDup (ParseFromString (A:=list Statement) encoded) ∧
    ∀ st, st ∈ ParseFromString (A:=list Statement) encoded ↔
      st ∈ spec_get ar (by_subject "dave")
             (foldl (λ A st, spec_add ar st A) (be_abs loaded) (omap event_statement demo_events)).
Proof.
  intros run.
  refine (client_import_export ar (λ _ _, Ok (StatusOK, [])) (λ _, []) (λ _, [])
      (demo_raptor (RT_LITERAL "erin" (Some "en"%string) None)) (λ _, [])
      (λ _, by_subject "dave") (λ _, mkContextRequest []) (client.mkFlags "turtle" "") "data.ttl" "out.bin" "q"
      "turtle" (str_bytes "dave knows erin") demo_events demo_world loaded _ _ _ _ _ _).
  - exact loaded_inv.
  - reflexivity.
  - done.
  - reflexivity.
  - vm_compute. reflexivity.
  - reflexivity.
Defined.

Lemma client_import_rejects_witness :
  ∃ msg, client.importDataset (demo_raptor RT_UNKNOWN) true (str_bytes "dave knows") parser.TURTLE loaded =
    Throw (ParseError msg).
Proof.
  apply (client_import_rejects (demo_raptor RT_UNKNOWN) (str_bytes "dave knows") parser.TURTLE "turtle"
    (demo_raptor RT_UNKNOWN "turtle" [([x00], true)]) loaded).
  - reflexivity.
  - vm_compute. reflexivity.
  - reflexivity.
Defined.
End ClientWitnesses.
