(* ===== verification/Cluster.v ===== *)
(** * Cluster: the client against the sharding server

    ShardingService implements the same service as its backends:
    [sharding_backend] is its interface, class ShardingService of
    sharding/sharding.h, as an instance of [SailBackend].  What the threads of
    GetStatements make of the answers of the backends is a function [schedule]
    that may be any interleaving, what they make of the sums of a fan-out is
    [tally]; the random number is an argument.

    The theorem composes all programs of the repository: the sharding server
    is started, the client imports a file through it, and selects from it. *)

From Stdlib Require Import ZArith Lia.
From S2P Require Import Prelude Words Murmur3 Messages Iterators LevelDB Keys Wire RdfOperators RdfModel.
From S2P Require Import RdfModelTheorems Persistence PersistenceSpec Refinement UpdateProofs Matching.
From S2P Require Import Service ServiceTheorems DemoStore Split Sharding ShardingProofs ShardingTheorems.
From S2P Require Import Multiplex Servers Numbers Parser Serializer TripleSource Sparql SparqlService Client.

Section ShardingBackend.
Context {B : Type} `{SB : SailBackend B} `{PB : Protobuf} (string_hash : bytes → Z).
Context (schedule : list (list Statement) → list Statement) (tally : list Z → Z) (rnd : Z).

Definition sharding_backend : SailBackend (list B) := {|
  be_AddNamespaces := sh_AddNamespaces;
  be_GetNamespace := sh_GetNamespace rnd;
  be_GetNamespaces := sh_GetNamespaces rnd;
  be_AddStatements := sh_AddStatements string_hash;
  be_GetStatements pattern bs := ls ← shard_results pattern bs; Ok (StatusOK, schedule ls);
  be_RemoveStatements := sh_RemoveStatements tally;
  be_Update := sh_Update string_hash;
  be_Clear := sh_Clear tally;
  be_Size := sh_Size tally;
  be_GetContexts := sh_GetContexts;
|}.
End ShardingBackend.

Section ClusterProofs.
Context (ar : arch) {B : Type} `{SL : SailLaws ar B} (string_hash : bytes → Z).

(** The invariant only looks at the statements. *)
Lemma sharded_same bs bs' :
  be_abs <$> bs' = be_abs <$> bs → Forall be_inv bs' → sharded string_hash bs →
  sharded string_hash bs' ∧ abs_all bs' = abs_all bs.
Proof.
  intros E Hinv (Hne & _ & Hpl).
  assert (El : length bs' = length bs) by (apply (f_equal length) in E; by rewrite !length_fmap in E).
  split; [split_and!|].
  - destruct bs'; [by destruct bs|done].
  - done.
  - intros i b' st Hb Hst. rewrite El.
    assert (Hi : (be_abs <$> bs) !! i = Some (be_abs b')) by (by rewrite <- E, list_lookup_fmap, Hb).
    apply list_lookup_fmap_Some in Hi as (b & Eb & Hi). apply (Hpl i b); [done|]. by rewrite <- Eb.
  - unfold abs_all. by rewrite E.
Qed.

Lemma sh_AddNamespaces_spec l bs :
  sharded string_hash bs →
  ∃ bs', sh_AddNamespaces l bs = Ok (StatusOK, Z.of_nat (length l), bs') ∧
    sharded string_hash bs' ∧ abs_all bs' = abs_all bs.
Proof.
  intros Hsh. pose proof Hsh as (Hne & Hinv & _).
  assert (Hr : ∃ rs bs', run_each be_AddNamespaces (replicate (length bs) l) bs = Ok (rs, bs') ∧
    rs = replicate (length bs) (StatusOK, Z.of_nat (length l)) ∧
    Forall be_inv bs' ∧ be_abs <$> bs' = be_abs <$> bs).
  { clear Hsh Hne. induction Hinv as [|b bs Hb _ (rs & bs' & E & -> & HI & Ea)].
    - exists [], []. by repeat constructor.
    - destruct (law_add_ns l b Hb) as (b' & Eb & HI' & Ha'). eexists _, (b' :: bs').
      cbn [length replicate run_each]. rewrite Eb. cbn [mbind res_bind]. rewrite E.
      split_and!; [done|done|by constructor|]. by rewrite !fmap_cons, Ea, Ha'. }
  destruct Hr as (rs & bs' & E & -> & HI & Ea). exists bs'. split; [|by apply sharded_same].
  unfold sh_AddNamespaces. rewrite E. by destruct bs.
Qed.
End ClusterProofs.

(** ** Properties *)

Section ClusterTheorems.
Context (ar : arch) {B : Type} `{SL : SailLaws ar B} (string_hash : bytes → Z).
Context `{serializer.RaptorTerms} `{CL : CodecLaws (list Statement)}.
Context (sparql : string → list B → res (Status * list SparqlResponse)).
Context (text_format : list Statement → bytes) (response_text : SparqlResponse → bytes).
Context (raptor : string → list (bytes * bool) → list raptor_event).
Context (raptor_output : serializer.RaptorSerializer → bytes).
Context (parse_statement : string → Statement) (parse_contexts : string → ContextRequest).
Context (schedule : list (list Statement) → list Statement) (tally : list Z → Z) (rnd : Z).

Abbreviation run := (client.main (SB:=sharding_backend string_hash schedule tally rnd) sparql text_format
                      response_text raptor raptor_output parse_statement parse_contexts).

(** C7. The whole system: a sharding server is started with the addresses of
    different servers, whose stores are empty, the client imports a file through
    it and then selects from it in the message format.  However the threads
    interleave, the file written decodes, without duplicates, to exactly the
    imported statements the pattern selects, when no two of them collide in
    their keys.  (An address that is listed twice makes one store answer twice:
    hence the condition on the addresses.) *)
Theorem cluster_import_export (connect : string → B) (host port : string) (addresses : list string)
    (flags : client.Flags) (file o q name : string) (input : bytes) (events : list raptor_event)
    (w : client.world) :
  addresses ≠ [] → NoDup addresses → Forall address_ok addresses →
  (∀ a, a ∈ addresses → be_inv (connect a) ∧ be_abs (connect a) = ∅) →
  (∀ ls, interleave ls (schedule ls)) →
  client.w_files w !! file = Some input → o ≠ ""%string →
  parser.raptor_parser_name (parser.FormatFromString (client.FLAGS_format flags)) = Ok name →
  raptor name <$> parser.chunks_of true input = Ok events →
  forallb event_ok events = true →
  key_injective ar (list_to_set (omap event_statement events)) →
  ∃ channels w1 bs1 w2 encoded,
    sharding_server.main (sharding_server.mkFlags host port (String.concat "," addresses)) =
      Ok ((host +:+ ":" +:+ port)%string, channels) ∧ NoDup channels ∧
    run flags ["client"; "import"; file] w (connect <$> channels) = Ok (w1, bs1) ∧
    run (client.mkFlags "proto" o) ["client"; "select"; q] w1 bs1 = Ok (w2, bs1) ∧
    client.w_files w2 !! o = Some encoded ∧
    NoDup (ParseFromString (A:=list Statement) encoded) ∧
    ∀ st, st ∈ ParseFromString (A:=list Statement) encoded ↔
      st ∈ spec_get ar (parse_statement q) (list_to_set (omap event_statement events)).
Proof.
  intros Hne Hnda Hok Hempty Hsched Ef Ho En Ee Hev Hk.
  destruct (empty_backends string_hash connect addresses Hne Hempty) as [Hsh Ha].
  set (bs0 := connect <$> addresses) in *.
  destruct (sh_AddNamespaces_spec ar string_hash (omap event_namespace events) bs0 Hsh)
    as (bs1 & E1 & Hsh1 & Ha1). rewrite Ha in Ha1.
  destruct (sh_AddStatements_spec ar string_hash (omap event_statement events) bs1 Hsh1) as (bs2 & E2 & Hsh2 & Ha2).
  { rewrite Ha1. by rewrite (left_id_L ∅ (∪)). }
  rewrite Ha1, (left_id_L ∅ (∪)) in Ha2.
  destruct (main_import (SB:=sharding_backend string_hash schedule tally rnd) sparql text_format response_text raptor
    raptor_output parse_statement parse_contexts flags file input name events w bs0 bs1 bs2 _ _ Ef En Ee Hev E1 E2)
    as [w1 Ew1].
  destruct (shard_answers ar string_hash (parse_statement q) bs2 Hsh2) as (ls & El & Hnd & Es). rewrite Ha2 in Es.
  pose proof (interleave_permutation ls (schedule ls) (Hsched ls)) as Hp.
  destruct (main_select (SB:=sharding_backend string_hash schedule tally rnd) sparql text_format response_text raptor
    raptor_output parse_statement parse_contexts o q w1 bs2 StatusOK (schedule ls) Ho) as (w2 & Ew2 & Eo).
  { simpl. by rewrite El. }
  exists addresses, w1, bs2, w2, (SerializeToString (schedule ls)). rewrite (parse_serialize (schedule ls)).
  split_and!; try done; [by apply main_backends|by rewrite Hp|].
  intros st. by rewrite Hp, <- Es, elem_of_list_to_set.
Qed.
End ClusterTheorems.

Lemma interleave_nil_cons {A} (ls : list (list A)) out : interleave ls out → interleave ([] :: ls) out.
Proof.
  induction 1 as [ls Hn|ls i x l out Hi _ IH].
  - constructor. by constructor.
  - by apply (interleave_write _ (S i) x l).
Qed.

(** One backend after the other is a schedule. *)
Lemma interleave_join {A} (ls : list (list A)) : interleave ls (mjoin ls).
Proof.
  induction ls as [|l ls IH]; [by constructor|].
  induction l as [|x l IHl]; [by apply interleave_nil_cons|].
  change (mjoin ((x :: l) :: ls)) with (x :: mjoin (l :: ls)).
  by apply (interleave_write _ 0 x l).
Qed.

Section ClusterWitnesses.
Import Demo.
#[local] Existing Instances demo_backend demo_model demo_laws plain_terms.

Lemma cluster_import_export_witness :
  let run := client.main (SB:=sharding_backend demo_hash mjoin lossy_tally 3) (λ _ _, Ok (StatusOK, [])) (λ _, []) (λ _, [])
      (demo_raptor (RT_LITERAL "erin" (Some "en"%string) None)) (λ _, [])
      (λ _, by_subject "dave") (λ _, mkContextRequest []) in
  ∃ channels w1 bs1 w2 encoded,
    sharding_server.main
      (sharding_server.mkFlags "0.0.0.0" "10000" (String.concat "," ["a:1"; "b:2"])) =
      Ok ("0.0.0.0:10000"%string, channels) ∧ NoDup channels ∧
    run (client.mkFlags "turtle" "") ["client"; "import"; "data.ttl"]%string demo_world
      ((λ _, empty_store) <$> channels) = Ok (w1, bs1) ∧
    run (client.mkFlags "proto" "out.bin") ["client"; "select"; "q"]%string w1 bs1 = Ok (w2, bs1) ∧
    client.w_files w2 !! "out.bin"%string = Some encoded ∧
    NoDup (ParseFromString (A:=list Statement) encoded) ∧
    ∀ st, st ∈ ParseFromString (A:=list Statement) encoded ↔
      st ∈ spec_get ar (by_subject "dave") (list_to_set (omap event_statement demo_events)).
Proof.
  intros run.
  refine (cluster_import_export ar demo_hash (λ _ _, Ok (StatusOK, [])) (λ _, []) (λ _, [])
      (demo_raptor (RT_LITERAL "erin" (Some "en"%string) None)) (λ _, [])
      (λ _, by_subject "dave") (λ _, mkContextRequest []) mjoin lossy_tally 3 (λ _, empty_store) "0.0.0.0" "10000"
      ["a:1"; "b:2"]%string (client.mkFlags "turtle" "") "data.ttl" "out.bin" "q"
      "turtle" (str_bytes "dave knows erin") demo_events demo_world _ _ _ _ interleave_join _ _ _ _ _ _).
  - discriminate.
  - apply (bool_decide_unpack _). vm_compute. exact I.
  - repeat constructor; try discriminate; apply (bool_decide_unpack _); vm_compute; exact I.
  - intros a _. split; [exact empty_inv|exact empty_abs].
  - reflexivity.
  - done.
  - reflexivity.
  - vm_compute. reflexivity.
  - reflexivity.
  - apply (bool_decide_unpack _). vm_compute. exact I.
Defined.
End ClusterWitnesses.
